(* ===== verification/_CoqProject ===== *)
-Q . S2P
Prelude.v
StringOrder.v
BinaryProtocol.v
Storage.v
RpcClient.v
RpcServer.v
DataNode.v
SharedStorage.v
Text.v
Json.v
Config.v
Tablet.v
RaftNode.v
TableSteps.v
BalancePlan.v
Balancer.v
TransferLog.v
Cluster.v
Faults.v
Unreliable.v
Concurrency.v
MasterHandlers.v
Cli.v
EndToEnd.v
Process.v
Restart.v
SystemTrace.v
LogTypes.v
Atomics.v
SpscQueue.v
TextProtocol.v
ServerLifecycle.v
