(* ===== verification/Prelude.v ===== *)
(** * LeKV: a verification development

    LeKV is a sharded key-value store in C++: one master keeps the table of
    tablets (key ranges and the data nodes that hold them), the data nodes keep
    the records in LevelDB, and clients ask the master for the table and then
    talk to the data nodes, all over a binary protocol on TCP.  This library
    models the program as executable Rocq definitions and proves what makes it
    correct, together with the exact limits of what it promises.

    ** Files and the code they model

    - Prelude.v: outcomes of a C++ call ([Ret], [Throw], [UB]) as a monad, integers
      at their width, big-endian fields, slices of byte vectors (undefined out of range).
    - StringOrder.v: [std::string::compare] as a strict total order with its
      [order] tactic, and [past_end], the test of an open range end.
    - BinaryProtocol.v: src/rpc/binary_protocol.h, .cpp — the four encoders and [TryDecode].
    - Storage.v: src/storage/storage_engine.h, .cpp — the [StorageEngine] over the
      class [LevelDB], the interface of the vendored database, with its laws
      [LevelDBSpec] and a reference instance [MemDB].
    - RpcClient.v: src/rpc/rpc_client.h, .cpp — sending and receiving of frames on a
      byte stream that arrives in chunks.
    - RpcServer.v: [BinaryRpcServer::HandleClient] of src/rpc/rpc_server.cpp.
    - ServerLifecycle.v: [RpcServer::ServerStart], [AcceptLoop], [Stop] and the end of
      [HandleClient] as a step relation on the members and the descriptor table.
    - DataNode.v: the request handlers of a data node in src/kv/raft_node.cpp.
    - SharedStorage.v: the threads of several connections on one [StorageEngine], interleaved at
      its mutex and its calls of the database.
    - Text.v: [to_string], [stoull], streams and words of the C++ library.
    - Json.v: JSON values with the accessors the code uses; printing and parsing
      of the text (vendored library) are the class [JsonText] with [JsonTextSpec].
    - Config.v: src/common/common.h and [main] of src/lekv.cpp up to the node.
    - Tablet.v: the tablet record, the binary search and [GetTabletRoute].
    - RaftNode.v: the state of the master, [SaveTablets], [LoadTablets], the first table.
    - TableSteps.v: the abstract specification of the routing table, a step
      relation (refresh, split, move) with its invariants; a run counts its moves.
    - BalancePlan.v: the decision of [DoLoadBalance].
    - Balancer.v: statistics, splits, migrations and [BalancerLoop], against the
      class [Transport], the master's connections to the data nodes and the moments at which its
      table changes.
    - TransferLog.v: the log that [Stop] writes.
    - Cluster.v: an instance of [Transport] made of the data nodes of DataNode.v, the
      abstraction relation [represents] between a cluster and one map.
    - Faults.v: what happens from states outside that relation.
    - Unreliable.v: a second instance of [Transport], the same data nodes behind connections that
      lose requests and answers, what readers see during a migration, and what an answer that comes
      too late does.
    - Concurrency.v: readers and clients between the steps of a split or a migration; [Watched], any
      connections with an observer of the table.
    - MasterHandlers.v: GET_ROUTE, SHARDS and the dispatch on the master.
    - Cli.v: src/lekv_cli.cpp, against the class [Net], the client's connections.
    - EndToEnd.v: client, master and data nodes put together; one command at the client.
    - Process.v: both [main]s, the constructor, [Run] and [Stop] of the node: the threads of the
      process as a finite transition system.
    - Restart.v: what is on the disk of the master after a turn, and the constructor on that disk.
    - SystemTrace.v: runs of the whole system, commands, turns of the balancer and restarts of the
      master in any order, and the map that specifies them; the first start.
    - Atomics.v: what the ring uses of [std::atomic]: histories of values, memory orders, what
      happens before what, and data races on plain bytes.
    - SpscQueue.v: src/logger/spsc_queue.h, .cpp and [bit_ceil] — the lock-free ring with the
      memory orders of its accesses, its two threads interleaved access by access.
    - LogTypes.v: src/logger/log_record.h, type_tag.h, type_tag.cpp.
    - TextProtocol.v: src/rpc/text_protocol.h, .cpp and [TextRpcServer::HandleClient].

    State is threaded explicitly: a handler maps the storage of its node to the
    new storage and the response; the master's operations map the environment and the
    [RaftNode] record to new ones.  Only the balancer thread changes the table
    while the master runs, and no lock protects it: an operation of the balancer is modelled
    as the thread runs it alone, with every assignment to the table shown to the environment
    ([t_publish]), and Concurrency.v and Unreliable.v show what the other threads
    and the clients can meet between its steps.  The connections of a data node, the server's life
    cycle and the logger's ring, where the interleaving matters, are transition systems of single accesses.

    ** What the theorems show

    - The system is one map (SystemTrace.v, Cluster.v): from the first start on empty data nodes, every
      run of put, get and delete at any number of clients, of turns of the balancer and of restarts of
      the master prints what a map prints on which they are insert, lookup, delete and nothing; a turn of the balancer preserves the map, and ends
      unless a boundary cannot be printed; a migration moves exactly
      the records of its tablet.
    - Losses (Unreliable.v): whatever requests and answers of the master are lost, in any sequence
      of PUTs and turns of the balancer every key stays at its owner with its last value, and a failed
      migration changes no route.
    - Reading while a tablet moves (Unreliable.v): the route switches after the records and before the cleanup;
      after every request a GET by the route of that moment finds the value of the map; an old route after the
      cleanup finds it or nothing.
    - Many clients (SharedStorage.v): the connections of a data node behave like one sequence of
      requests, except that readers can see a DELETE_RANGE half done; nothing blocks for ever.
    - The routing table (Tablet.v, TableSteps.v, Balancer.v): it stays a partition of the
      key space whatever the data nodes answer; every key has exactly one route; the epoch counts the
      splits and the moves;
      the client computes the same route from the text of the table.
    - What concurrency and faults cost (Concurrency.v, Faults.v, Unreliable.v, Cluster.v): an
      acknowledged write is lost when it meets a migration or uses an old route or when the
      destination refuses writes; a late answer loses a whole tablet; a lost cleanup brings deleted
      keys back; in the middle of a split some keys have no route.
    - Persistence (RaftNode.v, Restart.v): every turn of the balancer ends with its routes on the disk, a
      restarted master has them again, which crashes and short writes the file survives, and what a
      save that fails in a migration costs at the next restart.
    - Balancing (BalancePlan.v): the decision is exact; below the split threshold it
      converges; above it may move a tablet for ever; nodes that own nothing stay idle.
    - The handlers (DataNode.v, MasterHandlers.v): their effect on every kind of request, and
      exactly which payloads make them read out of bounds.
    - The wire (BinaryProtocol.v, RpcClient.v, RpcServer.v): encoders and decoder are
      inverse; frames are reassembled from any chunks; the connection thread
      refines the sequential run of the handler.
    - Storage.v: the range operations are exact on the sorted entries.
    - SpscQueue.v: the ring is a queue in every interleaving and whatever old positions
      the threads load, its memory orders exclude every data race, and a record too
      long for the end of the ring starves.
    - TextProtocol.v, ServerLifecycle.v: what the parser returns, when the threads
      end, which descriptors the binary server keeps and [Stop] closes.
    - Process.v: what a process is after [main]; stopping a node that waits closes everything in
      order and ends the process, and what a SIGINT during the start does.

    ** Bounds and fuel

    Loops that are not structural take fuel.  The binary search has as much as
    the table has entries, and running out is [UB], which is proved unreachable;
    the transfer loop takes the size of the payload, enough since each record takes six
    bytes; the split loop of a balancer turn takes any amount and a theorem gives
    one that is enough on a healthy cluster ([split_fuel]: two for each tablet and one for
    each key); the connection thread takes at most one turn for each ten bytes
    received.  Loops that the code runs for ever are functions of the list of events they meet.
    The exploration of the process takes 24 rounds, after which the set of states is checked to be closed.
    Integers are [Z] with [u8], [u16], [u32], [u64] where the code truncates.

    ** What is not modelled

    Sockets, files and time are the environment: events, answers of the kernel
    and of the file system are arguments, for every value of which the theorems hold unless they say
    otherwise.  The vendored LevelDB and JSON libraries are interfaces, and so is the opening of
    a database, which is all the constructor of [StorageEngine] does.  The numbers of a JSON text are integers: a
    file written by hand with fractions in it is not covered.  Messages to the console are left out;
    a restart of the master comes between turns of the balancer, as [Stop] has it: the end of the process in the
    middle of a turn is only covered as far as the states of a migration (Unreliable.v) and of a save
    (RaftNode.v) are; a restart of a data node is not covered.  The declarations of the vote and append encoders
    of src/rpc/text_protocol.h have no definition in the source; the tests are not part of the system.
    What is left of the source is declarations, includes and the vendored code; of that, the parts of
    LevelDB that carry the assumed laws (the internal key order, the write batch and the log format)
    would be the next to model. *)

From stdpp Require Export base option list gmap numbers sorting.
From Stdlib Require Export ZArith Lia.
From Stdlib Require Export Init.Byte.
From Stdlib Require Strings.Byte Strings.String.
Export Strings.String.StringSyntax.

#[global] Open Scope Z_scope.

(** ** Outcomes of a C++ call

    [Ret]: the call returns.  [Throw]: it leaves by a C++ exception.  [UB]: it
    executes an operation the C++ standard leaves undefined (an iterator or an
    index past the end of a vector). *)
Inductive outcome (A : Type) : Type :=
  | Ret (a : A)
  | Throw
  | UB.
Arguments Ret {A} a.
Arguments Throw {A}.
Arguments UB {A}.

#[export] Instance outcome_ret : MRet outcome := fun A a => Ret a.
#[export] Instance outcome_bind : MBind outcome := fun A B f m =>
  match m with Ret a => f a | Throw => Throw | UB => UB end.

#[export] Instance outcome_fmap : FMap outcome := fun A B f m =>
  match m with Ret a => Ret (f a) | Throw => Throw | UB => UB end.

Lemma bind_ret_inv {A B} (m : outcome A) (f : A → outcome B) b :
  m ≫= f = Ret b → ∃ a, m = Ret a ∧ f a = Ret b.
Proof. destruct m; naive_solver. Qed.

Lemma bind_assoc {A B C} (m : outcome A) (f : A → outcome B) (g : B → outcome C) :
  (m ≫= f) ≫= g = m ≫= (fun a => f a ≫= g).
Proof. by destruct m. Qed.

(** [post P m]: [m] executes nothing undefined, and what it returns satisfies [P]. *)
Definition post {A} (P : A → Prop) (m : outcome A) : Prop :=
  match m with Ret a => P a | Throw => True | UB => False end.

Lemma post_bind {A B} (P : B → Prop) (Q : A → Prop) (m : outcome A) (f : A → outcome B) :
  post Q m → (∀ a, Q a → post P (f a)) → post P (m ≫= f).
Proof. destruct m; simpl; auto. Qed.
Lemma post_mono {A} (P Q : A → Prop) (m : outcome A) : post Q m → (∀ a, Q a → P a) → post P m.
Proof. destruct m; simpl; auto. Qed.
Lemma post_ret_inv {A} (P : A → Prop) (m : outcome A) a : post P m → m = Ret a → P a.
Proof. by intros H ->. Qed.
(** [nothrow P m]: [m] throws nothing, and what it returns satisfies [P]. *)
Definition nothrow {A} (P : A → Prop) (m : outcome A) : Prop :=
  match m with Ret a => P a | Throw => False | UB => True end.

Lemma nothrow_bind {A B} (P : B → Prop) (Q : A → Prop) (m : outcome A) (f : A → outcome B) :
  nothrow Q m → (∀ a, Q a → nothrow P (f a)) → nothrow P (m ≫= f).
Proof. destruct m; simpl; auto. Qed.
Lemma nothrow_mono {A} (P Q : A → Prop) (m : outcome A) : nothrow Q m → (∀ a, Q a → P a) → nothrow P m.
Proof. destruct m; simpl; auto. Qed.
Lemma post_nothrow {A} (P Q : A → Prop) (m : outcome A) : post P m → nothrow Q m → ∃ a, m = Ret a ∧ P a ∧ Q a.
Proof. destruct m; simpl; naive_solver. Qed.
Lemma nothrow_post {A} (P Q : A → Prop) (m : outcome A) :
  post P m → nothrow Q m → nothrow (fun a => P a ∧ Q a) m.
Proof. destruct m; simpl; naive_solver. Qed.

Lemma post_no_ub {A} (P : A → Prop) (m : outcome A) : post P m → m ≠ UB.
Proof. by destruct m. Qed.

(** ** Bytes and [std::string] / [std::vector<uint8_t>] *)
Abbreviation bytes := (list Byte.byte).

#[export] Instance byte_eq_decision : EqDecision Byte.byte := Byte.byte_eq_dec.
#[export] Program Instance byte_countable : Countable Byte.byte :=
  {| encode b := encode (Byte.to_N b);
     decode p := n ← decode p; Byte.of_N n |}.
Next Obligation. intros b. simpl. rewrite decode_encode. simpl. apply Byte.of_to_N. Qed.

(** [v.size()] as an integer. *)
Definition zlen {A} (l : list A) : Z := Z.of_nat (length l).

Lemma zlen_nonneg {A} (l : list A) : 0 ≤ zlen l.
Proof. unfold zlen. lia. Qed.
Lemma zlen_nil {A} : zlen (@nil A) = 0.
Proof. reflexivity. Qed.
Lemma zlen_cons {A} (x : A) l : zlen (x :: l) = 1 + zlen l.
Proof. unfold zlen. simpl. lia. Qed.
Lemma zlen_app {A} (l k : list A) : zlen (l ++ k) = zlen l + zlen k.
Proof. unfold zlen. rewrite length_app. lia. Qed.
Lemma zlen_0_inv {A} (l : list A) : zlen l = 0 → l = [].
Proof. destruct l; [done|]. rewrite zlen_cons. pose proof (zlen_nonneg l). lia. Qed.

(** A string literal of the source, as its bytes. *)
Definition str (s : String.string) : bytes := String.list_byte_of_string s.
Arguments str s%_string_scope.

(** ** Machine integers: the conversion to a w-bit unsigned type *)
Definition u8 (z : Z) : Z := z mod 2 ^ 8.
Definition u16 (z : Z) : Z := z mod 2 ^ 16.
Definition u32 (z : Z) : Z := z mod 2 ^ 32.
Definition u64 (z : Z) : Z := z mod 2 ^ 64.

#[global] Arguments u8 : simpl never.
#[global] Arguments u16 : simpl never.
#[global] Arguments u32 : simpl never.
#[global] Arguments u64 : simpl never.

Lemma u8_small z : 0 ≤ z < 256 → u8 z = z.
Proof. intros. unfold u8. apply Z.mod_small. lia. Qed.
Lemma u16_small z : 0 ≤ z < 65536 → u16 z = z.
Proof. intros. unfold u16. apply Z.mod_small. lia. Qed.
Lemma u32_small z : 0 ≤ z < 4294967296 → u32 z = z.
Proof. intros. unfold u32. apply Z.mod_small. lia. Qed.
Lemma u64_small z : 0 ≤ z < 2 ^ 64 → u64 z = z.
Proof. intros. unfold u64. apply Z.mod_small. lia. Qed.
Lemma u8_range z : 0 ≤ u8 z < 256.
Proof. unfold u8. apply Z.mod_pos_bound. lia. Qed.
Lemma u16_range z : 0 ≤ u16 z < 65536.
Proof. unfold u16. apply Z.mod_pos_bound. lia. Qed.
Lemma u32_range z : 0 ≤ u32 z < 4294967296.
Proof. unfold u32. apply Z.mod_pos_bound. lia. Qed.
Lemma u64_range z : 0 ≤ u64 z < 2 ^ 64.
Proof. unfold u64. apply Z.mod_pos_bound. lia. Qed.

(** ** One byte as an 8-bit integer *)
Definition Z_of_byte (b : Byte.byte) : Z := Z.of_N (Byte.to_N b).
Definition byte_of_Z (z : Z) : Byte.byte := default x00 (Byte.of_N (Z.to_N (u8 z))).

Lemma Z_of_byte_range b : 0 ≤ Z_of_byte b < 256.
Proof. unfold Z_of_byte. pose proof (Byte.to_N_bounded b). lia. Qed.

Lemma Z_of_byte_of_Z z : Z_of_byte (byte_of_Z z) = u8 z.
Proof.
  unfold Z_of_byte, byte_of_Z. pose proof (u8_range z) as Hr.
  destruct (Byte.of_N (Z.to_N (u8 z))) as [b|] eqn:E; simpl.
  - apply Byte.to_of_N in E. rewrite E. lia.
  - apply Byte.of_N_None_iff in E. lia.
Qed.

Lemma byte_of_Z_of_byte b : byte_of_Z (Z_of_byte b) = b.
Proof.
  unfold byte_of_Z. rewrite u8_small by apply Z_of_byte_range.
  unfold Z_of_byte. rewrite N2Z.id, Byte.of_to_N. done.
Qed.

#[export] Instance Z_of_byte_inj : Inj (=) (=) Z_of_byte.
Proof. intros a b H. rewrite <- (byte_of_Z_of_byte a), <- (byte_of_Z_of_byte b). by f_equal. Qed.

(** ** Reading a range of a vector: [v.begin() + i .. v.begin() + i + n]

    Undefined when the range leaves the vector. *)
Definition slice (v : bytes) (i n : Z) : outcome bytes :=
  if (0 <=? i) && (0 <=? n) && (i + n <=? zlen v)
  then Ret (take (Z.to_nat n) (drop (Z.to_nat i) v)) else UB.

(** [v[i]] *)
Definition at_ (v : bytes) (i : Z) : outcome Z :=
  if (0 <=? i) && (i <? zlen v)
  then Ret (Z_of_byte (nth (Z.to_nat i) v x00)) else UB.

(** ** Network byte order

    [htons] / [htonl] followed by a copy of the object's bytes puts the most
    significant byte first, whatever the host's endianness. *)
Definition be16 (z : Z) : bytes := [byte_of_Z (z / 2 ^ 8); byte_of_Z z].
Definition be32 (z : Z) : bytes :=
  [byte_of_Z (z / 2 ^ 24); byte_of_Z (z / 2 ^ 16); byte_of_Z (z / 2 ^ 8); byte_of_Z z].

Definition of_be (l : bytes) : Z := fold_left (fun acc b => acc * 256 + Z_of_byte b) l 0.

(** [ntohs] of the two bytes at [v.data() + i], and [ntohl] of the four. *)
Definition rd16 (v : bytes) (i : Z) : outcome Z := of_be <$> slice v i 2.
Definition rd32 (v : bytes) (i : Z) : outcome Z := of_be <$> slice v i 4.

Lemma zlen_be16 z : zlen (be16 z) = 2.
Proof. reflexivity. Qed.
Lemma zlen_be32 z : zlen (be32 z) = 4.
Proof. reflexivity. Qed.

Lemma of_be_be16 z : 0 ≤ z < 65536 → of_be (be16 z) = z.
Proof.
  intros Hz. unfold of_be, be16. cbn [fold_left]. rewrite !Z_of_byte_of_Z.
  unfold u8. pose proof (Z.div_mod z (2 ^ 8)).
  rewrite (Z.mod_small (z / 2 ^ 8)) by (split; [apply Z.div_pos; lia|apply Z.div_lt_upper_bound; lia]).
  lia.
Qed.

Lemma of_be_be32 z : 0 ≤ z < 4294967296 → of_be (be32 z) = z.
Proof.
  intros Hz. unfold of_be, be32. cbn [fold_left]. rewrite !Z_of_byte_of_Z. unfold u8.
  change (2 ^ 24) with (2 ^ 8 * (2 ^ 8 * 2 ^ 8)). change (2 ^ 16) with (2 ^ 8 * 2 ^ 8).
  rewrite <- !Z.div_div by lia. change (2 ^ 8) with 256.
  pose proof (Z.div_mod z 256). pose proof (Z.div_mod (z / 256) 256).
  pose proof (Z.div_mod (z / 256 / 256) 256).
  pose proof (Z.mod_pos_bound z 256). pose proof (Z.mod_pos_bound (z / 256) 256).
  pose proof (Z.mod_pos_bound (z / 256 / 256) 256).
  rewrite (Z.mod_small (z / 256 / 256 / 256)) by lia.
  lia.
Qed.

Lemma of_be_range l : 0 ≤ of_be l < 256 ^ zlen l.
Proof.
  unfold of_be. induction l as [|b l IH] using rev_ind; [done|].
  rewrite fold_left_app, zlen_app. cbn [fold_left].
  pose proof (Z_of_byte_range b). change (zlen [b]) with 1.
  rewrite Z.pow_add_r by (try lia; apply zlen_nonneg). lia.
Qed.

(** ** Automation for sizes and ranges *)
Create Rewrite HintDb zlen.
#[export] Hint Rewrite @zlen_nil @zlen_cons @zlen_app zlen_be16 zlen_be32 : zlen.

Ltac zlen_nonneg_all :=
  repeat match goal with
  | |- context [zlen ?l] =>
      lazymatch goal with
      | _ : 0 ≤ zlen l |- _ => fail
      | _ => pose proof (zlen_nonneg l)
      end
  | _ : context [zlen ?l] |- _ =>
      lazymatch goal with
      | _ : 0 ≤ zlen l |- _ => fail
      | _ => pose proof (zlen_nonneg l)
      end
  end.
(** [lia] after the sizes of literals, appends and encoded integers are computed. *)
Ltac zlia := autorewrite with zlen in *; zlen_nonneg_all; lia.

Lemma slice_in v i n :
  0 ≤ i → 0 ≤ n → i + n ≤ zlen v → slice v i n = Ret (take (Z.to_nat n) (drop (Z.to_nat i) v)).
Proof.
  intros. unfold slice.
  destruct (Z.leb_spec 0 i), (Z.leb_spec 0 n), (Z.leb_spec (i + n) (zlen v)); simpl; done || lia.
Qed.

Lemma slice_out v i n : 0 ≤ i → 0 ≤ n → zlen v < i + n → slice v i n = UB.
Proof.
  intros. unfold slice.
  destruct (Z.leb_spec 0 i), (Z.leb_spec 0 n), (Z.leb_spec (i + n) (zlen v)); simpl; done || lia.
Qed.

Lemma slice_app_l a v n : n = zlen a → slice (a ++ v) 0 n = Ret a.
Proof.
  intros ->. rewrite slice_in by zlia. unfold zlen. by rewrite Nat2Z.id, drop_0, take_app_length.
Qed.

Lemma slice_all a n : n = zlen a → slice a 0 n = Ret a.
Proof. intros. rewrite <- (app_nil_r a) at 1. by apply slice_app_l. Qed.

Lemma slice_app_r a v i n : zlen a ≤ i → slice (a ++ v) i n = slice v (i - zlen a) n.
Proof.
  intros Hi. unfold slice. rewrite zlen_app.
  replace (i - zlen a + n <=? zlen v) with (i + n <=? zlen a + zlen v)
    by (apply eq_true_iff_eq; rewrite !Z.leb_le; lia).
  pose proof (zlen_nonneg a).
  replace (0 <=? i - zlen a) with (0 <=? i) by (apply eq_true_iff_eq; rewrite !Z.leb_le; lia).
  destruct (0 <=? n), (i + n <=? zlen a + zlen v); destruct (Z.leb_spec 0 i); simpl; try done.
  f_equal. f_equal. rewrite drop_app_ge by (unfold zlen in *; lia). f_equal. unfold zlen in *. lia.
Qed.

Lemma slice_cons x v i n : 1 ≤ i → slice (x :: v) i n = slice v (i - 1) n.
Proof. intros. by apply (slice_app_r [x]). Qed.

Lemma slice_ret_inv v i n w :
  slice v i n = Ret w → 0 ≤ i ∧ 0 ≤ n ∧ i + n ≤ zlen v ∧ zlen w = n.
Proof.
  unfold slice. destruct (Z.leb_spec 0 i), (Z.leb_spec 0 n), (Z.leb_spec (i + n) (zlen v));
    simpl; try done. intros [= <-]. unfold zlen in *. rewrite length_take, length_drop. lia.
Qed.

Lemma slice_cases v i n :
  (∃ w, slice v i n = Ret w) ∨ slice v i n = UB.
Proof. unfold slice. destruct (_ && _); eauto. Qed.

(** A range inside the first part of an append does not see the rest. *)
Lemma slice_app_in a v i n :
  0 ≤ i → 0 ≤ n → i + n ≤ zlen a → slice (a ++ v) i n = slice a i n.
Proof.
  intros. rewrite !slice_in by zlia. f_equal. unfold zlen in *.
  rewrite drop_app_le, take_app_le by (rewrite ?length_drop; lia). done.
Qed.

Lemma at_cons_0 x v : at_ (x :: v) 0 = Ret (Z_of_byte x).
Proof. unfold at_. destruct (Z.ltb_spec 0 (zlen (x :: v))); [done|zlia]. Qed.

Lemma at_cons x v i : 1 ≤ i → at_ (x :: v) i = at_ v (i - 1).
Proof.
  intros Hi. unfold at_. rewrite zlen_cons.
  replace (i <? 1 + zlen v) with (i - 1 <? zlen v) by (apply eq_true_iff_eq; rewrite !Z.ltb_lt; lia).
  destruct (Z.leb_spec 0 i), (Z.leb_spec 0 (i - 1)); try lia. simpl.
  destruct (_ <? _); [|done]. replace (Z.to_nat i) with (S (Z.to_nat (i - 1))) by lia. done.
Qed.

Lemma at_in v i : 0 ≤ i < zlen v → ∃ x, at_ v i = Ret x ∧ 0 ≤ x < 256.
Proof.
  intros. unfold at_. destruct (Z.leb_spec 0 i), (Z.ltb_spec i (zlen v)); try lia. simpl.
  eexists; split; [done|apply Z_of_byte_range].
Qed.

Lemma rd16_app_l z v : 0 ≤ z < 65536 → rd16 (be16 z ++ v) 0 = Ret z.
Proof. intros. unfold rd16. rewrite slice_app_l by done. simpl. by rewrite of_be_be16. Qed.
Lemma rd32_app_l z v : 0 ≤ z < 4294967296 → rd32 (be32 z ++ v) 0 = Ret z.
Proof. intros. unfold rd32. rewrite slice_app_l by done. simpl. by rewrite of_be_be32. Qed.
Lemma rd16_app_r a v i : zlen a ≤ i → rd16 (a ++ v) i = rd16 v (i - zlen a).
Proof. intros. unfold rd16. by rewrite slice_app_r. Qed.
Lemma rd32_app_r a v i : zlen a ≤ i → rd32 (a ++ v) i = rd32 v (i - zlen a).
Proof. intros. unfold rd32. by rewrite slice_app_r. Qed.
Lemma rd16_cons x v i : 1 ≤ i → rd16 (x :: v) i = rd16 v (i - 1).
Proof. intros. unfold rd16. by rewrite slice_cons. Qed.
Lemma rd32_cons x v i : 1 ≤ i → rd32 (x :: v) i = rd32 v (i - 1).
Proof. intros. unfold rd32. by rewrite slice_cons. Qed.

Lemma rd16_in v i : 0 ≤ i → i + 2 ≤ zlen v → ∃ z, rd16 v i = Ret z ∧ 0 ≤ z < 65536.
Proof.
  intros. unfold rd16. destruct (slice_cases v i 2) as [[w E]|E].
  - rewrite E. simpl. eexists; split; [done|]. apply slice_ret_inv in E as (_&_&_&E).
    pose proof (of_be_range w). rewrite E in *. lia.
  - rewrite slice_in in E by lia. done.
Qed.
Lemma rd32_in v i : 0 ≤ i → i + 4 ≤ zlen v → ∃ z, rd32 v i = Ret z ∧ 0 ≤ z < 4294967296.
Proof.
  intros. unfold rd32. destruct (slice_cases v i 4) as [[w E]|E].
  - rewrite E. simpl. eexists; split; [done|]. apply slice_ret_inv in E as (_&_&_&E).
    pose proof (of_be_range w). rewrite E in *. lia.
  - rewrite slice_in in E by lia. done.
Qed.

(** ** Encoding a decoded integer gives the bytes back *)
Lemma of_be_snoc l b : of_be (l ++ [b]) = of_be l * 256 + Z_of_byte b.
Proof. unfold of_be. by rewrite fold_left_app. Qed.

Lemma byte_of_Z_low q b : byte_of_Z (q * 256 + Z_of_byte b) = b.
Proof.
  rewrite <- (byte_of_Z_of_byte b) at 2. unfold byte_of_Z. do 3 f_equal.
  rewrite (u8_small (Z_of_byte b)) by apply Z_of_byte_range.
  unfold u8. rewrite Z.add_comm. change (2 ^ 8) with 256. rewrite Z.mod_add by lia.
  apply Z.mod_small, Z_of_byte_range.
Qed.

Lemma div_low q b : (q * 256 + Z_of_byte b) / 256 = q.
Proof.
  rewrite Z.add_comm, Z.div_add by lia. pose proof (Z_of_byte_range b).
  rewrite Z.div_small by lia. lia.
Qed.

Lemma be32_of_be l : zlen l = 4 → be32 (of_be l) = l.
Proof.
  destruct l as [|a [|b [|c [|d [|]]]]]; intros Hl; try zlia. unfold be32.
  change (2 ^ 24) with (256 * (256 * 256)). change (2 ^ 16) with (256 * 256).
  change (2 ^ 8) with 256. rewrite <- !Z.div_div by lia.
  change ([a; b; c; d]) with ((((([]:bytes) ++ [a]) ++ [b]) ++ [c]) ++ [d]).
  rewrite !of_be_snoc, !div_low, !byte_of_Z_low. done.
Qed.

Lemma be16_of_be l : zlen l = 2 → be16 (of_be l) = l.
Proof.
  destruct l as [|a [|b [|]]]; intros Hl; try zlia. unfold be16. change (2 ^ 8) with 256.
  change ([a; b]) with ((([]:bytes) ++ [a]) ++ [b]).
  rewrite !of_be_snoc, !div_low, !byte_of_Z_low. done.
Qed.

(** A range read splits the vector around it. *)
Lemma slice_split v i n w :
  slice v i n = Ret w → v = take (Z.to_nat i) v ++ w ++ drop (Z.to_nat (i + n)) v.
Proof.
  intros Hs. pose proof (slice_ret_inv _ _ _ _ Hs) as (?&?&?&?).
  rewrite slice_in in Hs by lia. injection Hs as <-.
  rewrite Z2Nat.inj_add by lia. rewrite <- drop_drop.
  by rewrite take_drop, take_drop.
Qed.
