(* ===== verification/StringOrder.v ===== *)
(** * The order of keys

    [std::string] compares its characters as unsigned bytes, shorter prefixes
    first ([char_traits<char>::compare]); this is also the byte-wise order of
    LevelDB's default comparator.  Every range [[start, end)] of the program
    is an interval of this order, with the empty string as end for infinity. *)

From S2P Require Import Prelude.
From Stdlib Require Import Structures.Equalities Structures.Orders Structures.OrdersTac.

(** [a.compare(b)] *)
Fixpoint str_cmp (a b : bytes) : comparison :=
  match a, b with
  | [], [] => Eq
  | [], _ :: _ => Lt
  | _ :: _, [] => Gt
  | x :: a', y :: b' =>
      match Z.compare (Z_of_byte x) (Z_of_byte y) with
      | Eq => str_cmp a' b'
      | c => c
      end
  end.

(** [a < b], [a <= b]; [a >= b] is [b <= a]. *)
Definition str_ltb (a b : bytes) : bool :=
  match str_cmp a b with Lt => true | _ => false end.
Definition str_leb (a b : bytes) : bool :=
  match str_cmp a b with Gt => false | _ => true end.

Definition slt (a b : bytes) : Prop := str_ltb a b = true.
Definition sle (a b : bytes) : Prop := str_leb a b = true.

#[export] Instance slt_dec a b : Decision (slt a b) := bool_eq_dec _ _.
#[export] Instance sle_dec a b : Decision (sle a b) := bool_eq_dec _ _.

Lemma str_cmp_eq a b : str_cmp a b = Eq ↔ a = b.
Proof.
  revert b. induction a as [|x a IH]; intros [|y b]; simpl; try done.
  destruct (Z.compare_spec (Z_of_byte x) (Z_of_byte y)) as [E|E|E]; try (split; [done|]).
  - apply (inj Z_of_byte) in E as ->. rewrite IH. naive_solver.
  - intros [= -> ->]. lia.
  - intros [= -> ->]. lia.
Qed.

Lemma str_cmp_antisym a b : str_cmp b a = CompOpp (str_cmp a b).
Proof.
  revert b. induction a as [|x a IH]; intros [|y b]; simpl; try done.
  rewrite (Z.compare_antisym (Z_of_byte x)).
  destruct (Z_of_byte x ?= Z_of_byte y); simpl; auto.
Qed.

Lemma str_cmp_lt_trans a b c : str_cmp a b = Lt → str_cmp b c = Lt → str_cmp a c = Lt.
Proof.
  revert b c. induction a as [|x a IH]; intros [|y b] [|z c]; simpl; try done.
  destruct (Z.compare_spec (Z_of_byte x) (Z_of_byte y));
  destruct (Z.compare_spec (Z_of_byte y) (Z_of_byte z));
  destruct (Z.compare_spec (Z_of_byte x) (Z_of_byte z)); try done; try lia; eauto.
Qed.

Module StrTotal <: EqLtLe.
Definition t := bytes.
Definition eq := @eq bytes.
Definition lt := slt.
Definition le := sle.
End StrTotal.

Module StrTotalFacts <: IsTotalOrder StrTotal.
#[export] Instance eq_equiv : Equivalence StrTotal.eq := _.
#[export] Instance lt_strorder : StrictOrder StrTotal.lt.
Proof.
    split; unfold StrTotal.lt, slt, str_ltb.
    - intros x. unfold complement. pose proof (proj2 (str_cmp_eq x x) eq_refl) as ->. done.
    - intros x y z. destruct (str_cmp x y) eqn:E1; try done. destruct (str_cmp y z) eqn:E2; try done.
      by rewrite (str_cmp_lt_trans _ _ _ E1 E2).
  Qed.
#[export] Instance lt_compat : Proper (StrTotal.eq ==> StrTotal.eq ==> iff) StrTotal.lt.
Proof. by intros ?? -> ?? ->. Qed.
Lemma le_lteq x y : StrTotal.le x y ↔ StrTotal.lt x y ∨ StrTotal.eq x y.
Proof.
    unfold StrTotal.le, StrTotal.lt, sle, slt, str_leb, str_ltb, StrTotal.eq.
    rewrite <- str_cmp_eq. destruct (str_cmp x y); naive_solver.
  Qed.
Lemma lt_total x y : StrTotal.lt x y ∨ StrTotal.eq x y ∨ StrTotal.lt y x.
Proof.
    unfold StrTotal.lt, slt, str_ltb, StrTotal.eq. rewrite (str_cmp_antisym x y), <- str_cmp_eq.
    destruct (str_cmp x y); simpl; auto.
  Qed.
End StrTotalFacts.

Module StrTac := MakeOrderTac StrTotal StrTotalFacts.

(** Decides a goal from the order facts ([slt], [sle], equalities) of the context. *)
Ltac str_order :=
  change slt with StrTotal.lt in *; change sle with StrTotal.le in *;
  change (@eq bytes) with StrTotal.eq in *; StrTac.order.

Lemma str_ltb_spec a b : BoolSpec (slt a b) (sle b a) (str_ltb a b).
Proof.
  destruct (str_ltb a b) eqn:E; constructor; [done|].
  unfold sle, str_leb, str_ltb in *. rewrite (str_cmp_antisym a b). by destruct (str_cmp a b).
Qed.
Lemma str_leb_spec a b : BoolSpec (sle a b) (slt b a) (str_leb a b).
Proof.
  destruct (str_leb a b) eqn:E; constructor; [done|].
  unfold slt, str_leb, str_ltb in *. rewrite (str_cmp_antisym a b). by destruct (str_cmp a b).
Qed.

Lemma sle_nil a : sle [] a.
Proof. by destruct a. Qed.
Lemma slt_nil a : ¬ slt a [].
Proof. by destruct a. Qed.
Lemma slt_not_nil a b : slt a b → b ≠ [].
Proof. intros H ->. by eapply slt_nil. Qed.
Lemma sle_refl a : sle a a.
Proof. str_order. Qed.
Lemma slt_irrefl a : ¬ slt a a.
Proof. intros ?. str_order. Qed.
Lemma sle_lt_trans a b c : sle a b → slt b c → slt a c.
Proof. intros. str_order. Qed.
Lemma slt_le_trans a b c : slt a b → sle b c → slt a c.
Proof. intros. str_order. Qed.
Lemma slt_sle a b : slt a b → sle a b.
Proof. intros. str_order. Qed.
Lemma sle_trans a b c : sle a b → sle b c → sle a c.
Proof. intros. str_order. Qed.
Lemma sle_not_slt a b : sle a b ↔ ¬ slt b a.
Proof.
  split; [intros H1 H2; str_order|]. intros H. destruct (str_leb_spec a b); done.
Qed.
#[export] Hint Resolve sle_nil sle_refl slt_sle : core.

(** ** The interval [[start, end)], with [end = ""] for infinity *)
Definition in_range (lo hi k : bytes) : Prop := sle lo k ∧ (hi = [] ∨ slt k hi).
#[export] Instance in_range_dec lo hi k : Decision (in_range lo hi k) := _.

(** The test of the loops of the storage engine: [!end.empty() && k >= end]. *)
Definition past_end (hi k : bytes) : bool := negb (bool_decide (hi = [])) && str_leb hi k.

Lemma past_end_spec hi k : BoolSpec (hi ≠ [] ∧ sle hi k) (hi = [] ∨ slt k hi) (past_end hi k).
Proof.
  unfold past_end. destruct (bool_decide_reflect (hi = [])); simpl; [constructor; auto|].
  destruct (str_leb_spec hi k); constructor; auto.
Qed.
