(* ===== verification/BinaryProtocol.v ===== *)
(** * The binary protocol (src/rpc/binary_protocol.h, binary_protocol.cpp)

    The constants of the class [BinaryProtocol], its four encoders and its
    decoder.  A frame is
    [[4B FrameLen][1B Magic][1B Version][4B RequestID][Payload]], integers in
    network order.  Lengths are computed at the widths of the source
    ([uint16_t], [uint32_t]), so they wrap where the source's do. *)

From S2P Require Import Prelude.

(** ** Constants *)
Definition MAGIC : Byte.byte := byte_of_Z 0x4C.
Definition VERSION : Byte.byte := byte_of_Z 0x01.

Definition OP_GET_ROUTE : Z := 0x01.
Definition OP_GET : Z := 0x02.
Definition OP_PUT : Z := 0x03.
Definition OP_DELETE : Z := 0x04.
Definition OP_PING : Z := 0x05.
Definition OP_SHARDS : Z := 0x06.
Definition OP_TABLET_STATS : Z := 0x07.
Definition OP_SCAN_RANGE : Z := 0x08.
Definition OP_DELETE_RANGE : Z := 0x09.

Definition ST_OK : Z := 0x00.
Definition ST_NOT_FOUND : Z := 0x01.
Definition ST_NOT_MY_SHARD : Z := 0x02.
Definition ST_BAD_REQUEST : Z := 0x03.
Definition ST_TIMEOUT : Z := 0x04.
Definition ST_NO_SHARD : Z := 0x05.
Definition ST_KEY_TOO_LONG : Z := 0x06.
Definition ST_VALUE_TOO_LONG : Z := 0x07.

(** ** Encoders *)
Definition EncodeGetRoute (req_id : Z) (key : bytes) : bytes :=
  let key_len := u16 (zlen key) in
  let payload_len := u32 (1 + 2 + key_len) in
  let frame_len := u32 (10 + payload_len) in
  be32 frame_len ++ [MAGIC] ++ [VERSION] ++ be32 req_id
  ++ [byte_of_Z OP_GET_ROUTE] ++ be16 key_len ++ key.

Definition EncodeRequest (req_id opcode : Z) (key value : bytes) : bytes :=
  let key_len := u16 (zlen key) in
  let val_len := u32 (zlen value) in
  let payload_len := u32 (1 + 2 + 4 + key_len + val_len) in
  let frame_len := u32 (10 + payload_len) in
  be32 frame_len ++ [MAGIC] ++ [VERSION] ++ be32 req_id
  ++ [byte_of_Z opcode] ++ be16 key_len ++ be32 val_len ++ key ++ value.

Definition EncodeResponse (req_id status : Z) (value : bytes) : bytes :=
  let val_len := u32 (zlen value) in
  let payload_len := u32 (1 + 4 + val_len) in
  let frame_len := u32 (10 + payload_len) in
  be32 frame_len ++ [MAGIC] ++ [VERSION] ++ be32 req_id
  ++ [byte_of_Z status] ++ be32 val_len ++ value.

Definition EncodeCustomRequest (req_id : Z) (payload : bytes) : bytes :=
  let payload_len := u32 (zlen payload) in
  let frame_len := u32 (10 + payload_len) in
  be32 frame_len ++ [MAGIC] ++ [VERSION] ++ be32 req_id ++ payload.

(** ** Decoder

    The result [true] with the out parameters [consumed], [out_req_id],
    [out_payload], or [false] with [consumed] (the other out parameters are
    left as they were). *)
Inductive decoded : Type :=
  | DecodeOk (consumed out_req_id : Z) (out_payload : bytes)
  | DecodeFail (consumed : Z).

Definition TryDecode (buf : bytes) : outcome decoded :=
  if zlen buf <? 10 then Ret (DecodeFail 0) else
  frame_len ← rd32 buf 0;
  if zlen buf <? frame_len then Ret (DecodeFail 0) else
  magic ← at_ buf 4;
  if negb (magic =? Z_of_byte MAGIC) then Ret (DecodeFail 1) else
  version ← at_ buf 5;
  if negb (version =? Z_of_byte VERSION) then Ret (DecodeFail 1) else
  out_req_id ← rd32 buf 6;
  (* frame_len is a uint32_t: the subtraction wraps below 10 *)
  let payload_len := u32 (frame_len - 10) in
  out_payload ← slice buf 10 payload_len;
  Ret (DecodeOk frame_len out_req_id out_payload).

(** ** The payloads the encoders write, and their sizes *)

(** A frame of [payload] whose length fits the 32-bit field. *)
Definition frame (req_id : Z) (payload : bytes) : bytes :=
  be32 (10 + zlen payload) ++ [MAGIC; VERSION] ++ be32 req_id ++ payload.

Definition fits_frame (payload : bytes) : Prop := 10 + zlen payload < 2 ^ 32.

Lemma zlen_frame rid p : zlen (frame rid p) = 10 + zlen p.
Proof. unfold frame. zlia. Qed.
#[export] Hint Rewrite zlen_frame : zlen.

Lemma EncodeCustomRequest_frame rid p :
  fits_frame p → EncodeCustomRequest rid p = frame rid p.
Proof.
  unfold fits_frame, EncodeCustomRequest, frame. intros.
  rewrite (u32_small (zlen p)), u32_small by zlia. done.
Qed.

Lemma EncodeGetRoute_frame rid key :
  zlen key < 2 ^ 16 →
  EncodeGetRoute rid key = frame rid ([byte_of_Z OP_GET_ROUTE] ++ be16 (zlen key) ++ key).
Proof.
  intros. unfold EncodeGetRoute, frame.
  rewrite (u16_small (zlen key)), (u32_small (1 + 2 + zlen key)), u32_small by zlia.
  autorewrite with zlen. cbn [app]. f_equal. f_equal. lia.
Qed.

Definition kv_payload (opcode : Z) (key value : bytes) : bytes :=
  [byte_of_Z opcode] ++ be16 (zlen key) ++ be32 (zlen value) ++ key ++ value.

Lemma EncodeRequest_frame rid op key value :
  zlen key < 2 ^ 16 → zlen key + zlen value < 2 ^ 32 - 17 →
  EncodeRequest rid op key value = frame rid (kv_payload op key value).
Proof.
  intros. unfold EncodeRequest, frame, kv_payload.
  rewrite (u16_small (zlen key)), (u32_small (zlen value)),
    (u32_small (1 + 2 + 4 + zlen key + zlen value)), u32_small by zlia.
  autorewrite with zlen. cbn [app]. f_equal. f_equal. lia.
Qed.

Definition resp_payload (status : Z) (value : bytes) : bytes :=
  [byte_of_Z status] ++ be32 (zlen value) ++ value.

Lemma EncodeResponse_frame rid status value :
  zlen value < 2 ^ 32 - 15 →
  EncodeResponse rid status value = frame rid (resp_payload status value).
Proof.
  intros. unfold EncodeResponse, frame, resp_payload.
  rewrite (u32_small (zlen value)), (u32_small (1 + 4 + zlen value)), u32_small by zlia.
  autorewrite with zlen. cbn [app]. f_equal. f_equal. lia.
Qed.

(** ** Decoding *)

Section frame_fields.
Context (rid : Z) (p rest : bytes) (Hrid : 0 ≤ rid < 2 ^ 32) (Hp : fits_frame p).

Lemma frame_len_field : rd32 (frame rid p ++ rest) 0 = Ret (10 + zlen p).
Proof. unfold fits_frame in *. unfold frame. rewrite <- app_assoc. apply rd32_app_l. zlia. Qed.

Lemma frame_magic : at_ (frame rid p ++ rest) 4 = Ret (Z_of_byte MAGIC).
Proof. unfold frame, be32. cbn [app]. by rewrite !at_cons, at_cons_0 by lia. Qed.

Lemma frame_version : at_ (frame rid p ++ rest) 5 = Ret (Z_of_byte VERSION).
Proof. unfold frame, be32. cbn [app]. by rewrite !at_cons, at_cons_0 by lia. Qed.

Lemma frame_req_id : rd32 (frame rid p ++ rest) 6 = Ret rid.
Proof.
  unfold frame. rewrite <- !app_assoc, rd32_app_r by zlia. cbn [app].
  rewrite !rd32_cons by zlia. rewrite zlen_be32. by apply rd32_app_l.
Qed.

Lemma frame_payload : slice (frame rid p ++ rest) 10 (zlen p) = Ret p.
Proof.
  unfold frame. rewrite <- !app_assoc, slice_app_r by zlia. cbn [app].
  rewrite !slice_cons, slice_app_r by zlia. rewrite !zlen_be32. by apply slice_app_l.
Qed.

Lemma TryDecode_frame :
  TryDecode (frame rid p ++ rest) = Ret (DecodeOk (10 + zlen p) rid p).
Proof using Hrid Hp.
  unfold TryDecode. unfold fits_frame in Hp.
  destruct (Z.ltb_spec (zlen (frame rid p ++ rest)) 10); [zlia|].
  rewrite frame_len_field by done. cbn [mbind outcome_bind].
  destruct (Z.ltb_spec (zlen (frame rid p ++ rest)) (10 + zlen p)); [zlia|].
  rewrite frame_magic, frame_version, frame_req_id by done. cbn [mbind outcome_bind].
  rewrite !Z.eqb_refl. cbn [negb].
  rewrite u32_small by zlia. replace (10 + zlen p - 10) with (zlen p) by lia.
  by rewrite frame_payload.
Qed.
End frame_fields.

(** A vector of at least ten bytes, cut at the fields of the header. *)
Lemma header_split buf :
  10 ≤ zlen buf → ∃ (l : bytes) (m v : Byte.byte) (r body : bytes),
    buf = l ++ [m; v] ++ r ++ body ∧ zlen l = 4 ∧ zlen r = 4.
Proof.
  intros H. destruct buf as [|b0 [|b1 [|b2 [|b3 [|b4 [|b5 [|b6 [|b7 [|b8 [|b9 body]]]]]]]]]]; try zlia.
  by exists [b0; b1; b2; b3], b4, b5, [b6; b7; b8; b9], body.
Qed.

Section header_fields.
Context (l : bytes) (m v : Byte.byte) (r body : bytes) (Hl : zlen l = 4) (Hr : zlen r = 4).
Let buf := l ++ [m; v] ++ r ++ body.

(** The decoder on a vector with a complete header. *)
Lemma TryDecode_header :
  TryDecode buf =
    if zlen buf <? of_be l then Ret (DecodeFail 0)
    else if negb (bool_decide (m = MAGIC)) then Ret (DecodeFail 1)
    else if negb (bool_decide (v = VERSION)) then Ret (DecodeFail 1)
    else p ← slice body 0 (u32 (of_be l - 10)); Ret (DecodeOk (of_be l) (of_be r) p).
Proof using Hl Hr.
  unfold TryDecode, buf, rd32. destruct (Z.ltb_spec (zlen (l ++ [m; v] ++ r ++ body)) 10); [zlia|].
  rewrite slice_app_l by lia. cbn [fmap outcome_fmap mbind outcome_bind].
  assert (He : ∀ a b : Byte.byte, (Z_of_byte a =? Z_of_byte b) = bool_decide (a = b)).
  { intros a b. apply eq_true_iff_eq. rewrite Z.eqb_eq, bool_decide_eq_true.
    split; [apply (inj _)|congruence]. }
  destruct l as [|b0 [|b1 [|b2 [|b3 []]]]]; try zlia.
  destruct (_ <? of_be _); [done|].
  assert (at_ ([b0; b1; b2; b3] ++ [m; v] ++ r ++ body) 4 = Ret (Z_of_byte m)) as ->
    by (cbn [app]; by rewrite !at_cons, at_cons_0 by lia).
  assert (at_ ([b0; b1; b2; b3] ++ [m; v] ++ r ++ body) 5 = Ret (Z_of_byte v)) as ->
    by (cbn [app]; by rewrite !at_cons, at_cons_0 by lia).
  cbn [mbind outcome_bind]. rewrite !He.
  destruct (negb _); [done|]. destruct (negb _); [done|]. cbn [app].
  rewrite !slice_cons by lia. rewrite slice_app_l by lia. cbn [fmap outcome_fmap mbind outcome_bind].
  rewrite slice_app_r by lia. by rewrite Hr.
Qed.
End header_fields.

Lemma TryDecode_ret buf c rid p :
  zlen buf < 2 ^ 32 → TryDecode buf = Ret (DecodeOk c rid p) →
  ∃ rest, buf = frame rid p ++ rest ∧ c = 10 + zlen p ∧ 0 ≤ rid < 2 ^ 32 ∧ fits_frame p.
Proof.
  intros Hsz H. destruct (Z.ltb_spec (zlen buf) 10) as [Hlt|Hge].
  { unfold TryDecode in H. by destruct (Z.ltb_spec (zlen buf) 10); [|lia]. }
  destruct (header_split buf Hge) as (l & m & v & r & body & -> & Hl & Hr).
  rewrite TryDecode_header in H by done.
  destruct (Z.ltb_spec (zlen (l ++ [m; v] ++ r ++ body)) (of_be l)) as [|Hfl]; [done|].
  destruct (bool_decide_reflect (m = MAGIC)) as [->|]; [|done].
  destruct (bool_decide_reflect (v = VERSION)) as [->|]; [|done]. cbn [negb] in H.
  apply bind_ret_inv in H as (p' & Hs & [= <- <- <-]).
  pose proof (slice_ret_inv _ _ _ _ Hs) as (_ & _ & Hin & Hlen).
  pose proof (of_be_range l) as Hrl. pose proof (of_be_range r) as Hrr.
  rewrite Hl in Hrl. rewrite Hr in Hrr.
  assert (10 ≤ of_be l).
  { destruct (Z.le_gt_cases 10 (of_be l)); [done|]. unfold u32 in Hin.
    replace (of_be l - 10) with (2 ^ 32 + of_be l - 10 + (-1) * 2 ^ 32) in Hin by lia.
    rewrite Z.mod_add, Z.mod_small in Hin by lia. zlia. }
  rewrite u32_small in Hlen by zlia. apply slice_split in Hs. simpl in Hs.
  eexists. split; [|unfold fits_frame; repeat split; try zlia].
  rewrite Hs at 1. unfold frame. rewrite Hlen. replace (10 + (of_be l - 10)) with (of_be l) by lia.
  rewrite be32_of_be, (be32_of_be r) by done. by rewrite <- !app_assoc.
Qed.

Lemma TryDecode_safe buf :
  (10 ≤ zlen buf → ∃ fl, rd32 buf 0 = Ret fl ∧ 10 ≤ fl) → ∃ d, TryDecode buf = Ret d.
Proof.
  intros Hfl. destruct (Z.ltb_spec (zlen buf) 10) as [Hlt|Hge].
  { unfold TryDecode. destruct (Z.ltb_spec (zlen buf) 10); [eauto|lia]. }
  specialize (Hfl Hge) as (fl & Hrd & Hfl).
  destruct (header_split buf Hge) as (l & m & v & r & body & -> & Hl & Hr).
  rewrite TryDecode_header by done.
  unfold rd32 in Hrd. rewrite slice_app_l in Hrd by lia. injection Hrd as Hrd.
  pose proof (of_be_range l) as Hrl. rewrite Hl in Hrl.
  destruct (Z.ltb_spec (zlen (l ++ [m; v] ++ r ++ body)) (of_be l)); [eauto|].
  destruct (negb _); [eauto|]. destruct (negb _); [eauto|].
  rewrite u32_small by lia. rewrite slice_in by zlia. eexists. reflexivity.
Qed.

(** ** Properties *)

(** C18: every encoder is decoded back: the frame written for a request, a
    GET_ROUTE request, a response or a custom payload, followed by any bytes of
    later frames, decodes to its request id and its payload, consuming exactly
    the frame, as long as the lengths fit their fields. *)
Theorem TryDecode_encoders rid op status key value payload rest :
  0 ≤ rid < 2 ^ 32 → zlen key < 2 ^ 16 → zlen key + zlen value < 2 ^ 32 - 17 →
  10 + zlen payload < 2 ^ 32 →
  TryDecode (EncodeRequest rid op key value ++ rest) =
    Ret (DecodeOk (zlen (EncodeRequest rid op key value)) rid (kv_payload op key value)) ∧
  TryDecode (EncodeGetRoute rid key ++ rest) =
    Ret (DecodeOk (zlen (EncodeGetRoute rid key)) rid
           ([byte_of_Z OP_GET_ROUTE] ++ be16 (zlen key) ++ key)) ∧
  TryDecode (EncodeResponse rid status value ++ rest) =
    Ret (DecodeOk (zlen (EncodeResponse rid status value)) rid (resp_payload status value)) ∧
  TryDecode (EncodeCustomRequest rid payload ++ rest) =
    Ret (DecodeOk (zlen (EncodeCustomRequest rid payload)) rid payload).
Proof.
  intros. rewrite EncodeRequest_frame, EncodeGetRoute_frame, EncodeResponse_frame,
    EncodeCustomRequest_frame by (unfold fits_frame; zlia).
  rewrite !zlen_frame. repeat split; apply TryDecode_frame; try done;
    unfold fits_frame, kv_payload, resp_payload; zlia.
Qed.

Lemma TryDecode_encoders_witness :
  TryDecode (EncodeRequest 7 OP_PUT (str "k") (str "v") ++ str "x") =
    Ret (DecodeOk 19 7 (kv_payload OP_PUT (str "k") (str "v"))).
Proof.
  apply (TryDecode_encoders 7 OP_PUT ST_OK (str "k") (str "v") (str "p") (str "x"));
    vm_compute; intuition congruence.
Defined.

(** C26: the decoder is exact: on a receive buffer it answers a frame only if the
    buffer starts with that very frame (length, magic, version, request id,
    payload), consumes exactly its bytes, and it is undefined behaviour exactly
    when a complete header with the right magic and version announces a frame
    shorter than the ten bytes of the header itself. *)
Theorem TryDecode_exact buf :
  zlen buf < 2 ^ 32 - 10 →
  (∀ c rid p, TryDecode buf = Ret (DecodeOk c rid p) ↔
     (∃ rest, buf = frame rid p ++ rest) ∧ c = zlen (frame rid p) ∧
     0 ≤ rid < 2 ^ 32 ∧ fits_frame p) ∧
  (TryDecode buf = UB ↔
     ∃ fl rid body, fl < 10 ∧ 0 ≤ fl ∧ 0 ≤ rid < 2 ^ 32 ∧
       buf = be32 fl ++ [MAGIC; VERSION] ++ be32 rid ++ body).
Proof.
  intros Hsz. split.
  - intros c rid p. rewrite zlen_frame. split.
    + intros H. apply TryDecode_ret in H as (rest & ? & ? & ? & ?); [|lia]. eauto 10.
    + intros ((rest & ->) & -> & ? & ?). by apply TryDecode_frame.
  - split.
    + intros H. destruct (Z.ltb_spec (zlen buf) 10) as [Hlt|Hge].
      { unfold TryDecode in H. by destruct (Z.ltb_spec (zlen buf) 10); [|lia]. }
      destruct (header_split buf Hge) as (l & m & v & r & body & -> & Hl & Hr).
      pose proof (of_be_range l) as Hrl. pose proof (of_be_range r) as Hrr.
      rewrite Hl in Hrl. rewrite Hr in Hrr.
      destruct (Z.le_gt_cases 10 (of_be l)).
      { destruct (TryDecode_safe (l ++ [m; v] ++ r ++ body)) as [d Hd]; [|by rewrite Hd in H].
        intros _. exists (of_be l). unfold rd32. by rewrite slice_app_l by lia. }
      rewrite TryDecode_header in H by done. destruct (_ <? _); [done|].
      destruct (bool_decide_reflect (m = MAGIC)) as [->|]; [|done].
      destruct (bool_decide_reflect (v = VERSION)) as [->|]; [|done].
      exists (of_be l), (of_be r), body. rewrite !be32_of_be by done. repeat split; lia || done.
    + intros (fl & rid & body & ? & ? & ? & ->).
      rewrite TryDecode_header, !of_be_be32 by (done || lia).
      destruct (Z.ltb_spec (zlen (be32 fl ++ [MAGIC; VERSION] ++ be32 rid ++ body)) fl); [zlia|].
      rewrite !bool_decide_eq_true_2 by done. cbn [negb]. unfold u32.
      replace (fl - 10) with (2 ^ 32 + fl - 10 + (-1) * 2 ^ 32) by lia.
      rewrite Z.mod_add, Z.mod_small, slice_out by zlia. done.
Qed.

Lemma TryDecode_exact_witness :
  TryDecode (be32 9 ++ [MAGIC; VERSION] ++ be32 1 ++ str "") = UB.
Proof.
  apply (TryDecode_exact (be32 9 ++ [MAGIC; VERSION] ++ be32 1 ++ str "")); [reflexivity|].
  exists 9, 1, []. repeat split; lia.
Defined.
