(* ===== verification/Storage.v ===== *)
(** * The storage engine (src/storage/storage_engine.h, storage_engine.cpp)

    [StorageEngine] wraps one LevelDB database.  LevelDB itself is vendored
    third-party code: it is the parameter [LevelDB D] of the model, with the
    contract of its public header (include/leveldb/db.h, iterator.h) as the laws
    of [LevelDBSpec].  [MemDB] is an executable database that satisfies them. *)

From S2P Require Import Prelude StringOrder.

Abbreviation entry := (bytes * bytes)%type.

(** ** The database interface *)

(** [ldb_put], [ldb_delete]: the database after the call and [Status::ok()].
    [ldb_get]: the value when the status is ok.  [ldb_seek d target]: what an
    iterator created on [d] and positioned by [Seek(target)] yields until it is
    no longer valid.  [ldb_view] and [ldb_healthy] are specification only: the
    logical contents, and the absence of device errors. *)
Class LevelDB (D : Type) := {
  ldb_put : D → bytes → bytes → D * bool;
  ldb_get : D → bytes → option bytes;
  ldb_delete : D → bytes → D * bool;
  ldb_seek : D → bytes → list entry;
  ldb_view : D → gmap bytes bytes;
  ldb_healthy : D → Prop;
}.

(** Entries in strictly increasing key order. *)
Definition key_lt (p q : entry) : Prop := slt p.1 q.1.
Definition key_le (p q : entry) : Prop := sle p.1 q.1.
#[export] Instance key_lt_dec : RelDecision key_lt := fun p q => slt_dec p.1 q.1.
#[export] Instance key_le_dec : RelDecision key_le := fun p q => sle_dec p.1 q.1.

Class LevelDBSpec (D : Type) `{LevelDB D} := {
  ldb_put_ok d k v d' : ldb_put d k v = (d', true) → ldb_view d' = <[k := v]> (ldb_view d);
  ldb_put_healthy d k v : ldb_healthy d → (ldb_put d k v).2 = true ∧ ldb_healthy (ldb_put d k v).1;
  ldb_delete_ok d k d' : ldb_delete d k = (d', true) → ldb_view d' = delete k (ldb_view d);
  ldb_delete_healthy d k :
    ldb_healthy d → (ldb_delete d k).2 = true ∧ ldb_healthy (ldb_delete d k).1;
  ldb_get_ok d k v : ldb_get d k = Some v → ldb_view d !! k = Some v;
  ldb_get_healthy d k : ldb_healthy d → ldb_get d k = ldb_view d !! k;
  ldb_seek_sorted d t : StronglySorted key_lt (ldb_seek d t);
  ldb_seek_elem d t k v : (k, v) ∈ ldb_seek d t → ldb_view d !! k = Some v ∧ sle t k;
  ldb_seek_healthy d t k v :
    ldb_healthy d → ldb_view d !! k = Some v → sle t k → (k, v) ∈ ldb_seek d t;
}.

(** ** The operations of [StorageEngine] *)
Section StorageEngine.
Context {D : Type} `{LevelDB D}.

(** The constructor: [opened] is what [DB::Open] makes of the path; a bad status is an exception. *)
Definition open_engine (opened : option D) : outcome D := match opened with Some d => Ret d | None => Throw end.

(** [Put], [Get], [Delete]: the mutex makes each write one step. *)
Definition Put (d : D) (key value : bytes) : D * bool := ldb_put d key value.
Definition Get (d : D) (key : bytes) : option bytes :=
  match ldb_get d key with Some value => Some value | None => None end.
Definition Delete (d : D) (key : bytes) : D * bool := ldb_delete d key.

(** The loop of [RangeQuery] over the remaining entries of the iterator; the
    callback threads the state [s] it captures and says whether to go on. *)
Fixpoint range_loop {S} (hi : bytes) (cb : S → bytes → bytes → S * bool) (s : S)
    (it : list entry) : S :=
  match it with
  | [] => s
  | (k, v) :: it' =>
      if past_end hi k then s
      else let '(s', go) := cb s k v in
           if go then range_loop hi cb s' it' else s'
  end.

Definition RangeQuery {S} (d : D) (lo hi : bytes) (cb : S → bytes → bytes → S * bool) (s : S) : S :=
  range_loop hi cb s (ldb_seek d lo).

(** [RangeStats]: [key_count] and [median_key]; it always returns [true]. *)
Definition RangeStats (d : D) (lo hi : bytes) : bool * Z * bytes :=
  let keys := RangeQuery d lo hi (fun ks k _ => (ks ++ [k], true)) [] in
  let key_count := zlen keys in
  if key_count =? 0 then (true, key_count, [])
  else (true, key_count, nth (Z.to_nat (key_count / 2)) keys []).

(** The two passes of [DeleteRange]: the keys to delete are collected with the
    same loop as [RangeQuery], then deleted one by one; the status of each
    deletion is not looked at. *)
Fixpoint collect_keys (hi : bytes) (it : list entry) : list bytes :=
  match it with
  | [] => []
  | (k, _) :: it' => if past_end hi k then [] else k :: collect_keys hi it'
  end.

Definition DeleteRange (d : D) (lo hi : bytes) : D * bool :=
  let keys_to_delete := collect_keys hi (ldb_seek d lo) in
  (fold_left (fun d k => (ldb_delete d k).1) keys_to_delete d, true).
End StorageEngine.

(** ** Sorted entry lists *)
#[export] Instance key_lt_trans : Transitive key_lt.
Proof. intros p q r. unfold key_lt. intros. str_order. Qed.
#[export] Instance key_le_trans : Transitive key_le.
Proof. intros p q r. unfold key_le. intros. str_order. Qed.
#[export] Instance key_le_total : Total key_le.
Proof. intros p q. unfold key_le. destruct (str_leb_spec p.1 q.1); auto. Qed.

(** A strictly sorted list is determined by its elements. *)
Lemma sorted_ext (l1 l2 : list entry) :
  StronglySorted key_lt l1 → StronglySorted key_lt l2 → (∀ p, p ∈ l1 ↔ p ∈ l2) → l1 = l2.
Proof.
  intros H1. revert l2. induction H1 as [|p l1 H1 IH Hp]; intros l2 H2 He.
  { destruct l2 as [|q l2]; [done|]. exfalso. eapply not_elem_of_nil, He. left. }
  destruct H2 as [|q l2 H2 Hq]; [exfalso; eapply not_elem_of_nil, He; left|].
  rewrite Forall_forall in Hp. rewrite Forall_forall in Hq.
  assert (Hirr : ∀ r, ¬ key_lt r r) by (intros r; apply slt_irrefl).
  setoid_rewrite elem_of_cons in He.
  assert (p = q) as ->.
  { destruct (proj1 (He p) (or_introl eq_refl)) as [|Hpq]; [done|].
    destruct (proj2 (He q) (or_introl eq_refl)) as [|Hqp]; [done|].
    exfalso. eapply Hirr, (transitivity (Hp _ Hqp) (Hq _ Hpq)). }
  f_equal. apply IH; [done|]. intros r. specialize (He r).
  split; intros Hr; [destruct (proj1 He (or_intror Hr)) as [->|]|
    destruct (proj2 He (or_intror Hr)) as [->|]]; naive_solver.
Qed.

(** The entries of a map that lie in a range, in key order. *)
Definition map_range (m : gmap bytes bytes) (lo hi : bytes) : list entry :=
  merge_sort key_le (map_to_list (filter (fun kv => in_range lo hi kv.1) m)).

Lemma elem_of_map_range m lo hi k v :
  (k, v) ∈ map_range m lo hi ↔ m !! k = Some v ∧ in_range lo hi k.
Proof.
  unfold map_range. rewrite merge_sort_Permutation, elem_of_map_to_list.
  by rewrite map_lookup_filter_Some.
Qed.

Lemma le_lt_sorted (l : list entry) :
  StronglySorted key_le l → NoDup l.*1 → StronglySorted key_lt l.
Proof.
  induction 1 as [|p l Hl IH Hp]; [constructor|]. rewrite fmap_cons, NoDup_cons.
  intros [Hn Hd]. constructor; [auto|]. rewrite Forall_forall in Hp |- *.
  intros q Hq. specialize (Hp q Hq). unfold key_le, key_lt in *.
  assert (p.1 ≠ q.1) by (intros E; apply Hn; rewrite E; apply list_elem_of_fmap; eauto).
  str_order.
Qed.

Lemma map_range_sorted m lo hi : StronglySorted key_lt (map_range m lo hi).
Proof.
  apply le_lt_sorted; unfold map_range.
  - apply StronglySorted_merge_sort; apply _.
  - rewrite merge_sort_Permutation. apply NoDup_fst_map_to_list.
Qed.

(** ** The loops over an iterator *)

(** The entries a range loop visits. *)
Fixpoint visited (hi : bytes) (it : list entry) : list entry :=
  match it with
  | [] => []
  | p :: it' => if past_end hi p.1 then [] else p :: visited hi it'
  end.

Lemma range_loop_visited {S} hi (f : S → bytes → bytes → S) (s : S) it :
  range_loop hi (fun s k v => (f s k v, true)) s it =
  fold_left (fun s p => f s p.1 p.2) (visited hi it) s.
Proof.
  revert s. induction it as [|[k v] it IH]; intros s; simpl; [done|].
  destruct (past_end hi k); simpl; [done|]. apply IH.
Qed.

Lemma collect_keys_visited hi it : collect_keys hi it = (visited hi it).*1.
Proof.
  induction it as [|[k v] it IH]; simpl; [done|]. destruct (past_end hi k); [done|].
  rewrite fmap_cons. by rewrite <- IH.
Qed.

Lemma elem_of_visited hi it p :
  StronglySorted key_lt it → p ∈ visited hi it ↔ p ∈ it ∧ (hi = [] ∨ slt p.1 hi).
Proof.
  induction 1 as [|q it Hs IH Hq]; simpl; [split; [intros ?%elem_of_nil|intros [?%elem_of_nil ?]]; done|].
  destruct (past_end_spec hi q.1) as [[Hne Hge]|Hin].
  - split; [by intros ?%elem_of_nil|]. intros [Hp [->|Hlt]]; [done|exfalso].
    apply elem_of_cons in Hp as [->|Hp]; [by eapply sle_not_slt|].
    rewrite Forall_forall in Hq. specialize (Hq _ Hp). unfold key_lt in *. str_order.
  - rewrite !elem_of_cons, IH. naive_solver.
Qed.

Lemma visited_sorted hi it : StronglySorted key_lt it → StronglySorted key_lt (visited hi it).
Proof.
  intros Hs. pose proof Hs as Hs'. induction Hs as [|q it Hs IH Hq]; simpl; [done|].
  destruct (past_end hi q.1); constructor; [auto|].
  rewrite Forall_forall in Hq |- *. intros p Hp. apply elem_of_visited in Hp as [Hp _]; auto.
Qed.

Section EngineLemmas.
Context {D : Type} `{LevelDBSpec D}.
Implicit Types (d : D) (lo hi k v : bytes).

(** On a healthy database a range loop visits exactly the entries of the range. *)
Lemma visited_seek d lo hi :
  ldb_healthy d → visited hi (ldb_seek d lo) = map_range (ldb_view d) lo hi.
Proof.
  intros Hh. apply sorted_ext.
  - apply visited_sorted, ldb_seek_sorted.
  - apply map_range_sorted.
  - intros [k v]. rewrite elem_of_visited by apply ldb_seek_sorted. simpl.
    rewrite elem_of_map_range. unfold in_range. split.
    + intros [Hs Hhi]. apply ldb_seek_elem in Hs as []. auto.
    + intros (Hv & Hlo & Hhi). auto using ldb_seek_healthy.
Qed.

Lemma RangeQuery_fold {S} d lo hi (f : S → bytes → bytes → S) (s : S) :
  ldb_healthy d →
  RangeQuery d lo hi (fun s k v => (f s k v, true)) s =
  fold_left (fun s p => f s p.1 p.2) (map_range (ldb_view d) lo hi) s.
Proof. intros. unfold RangeQuery. by rewrite range_loop_visited, visited_seek. Qed.

Lemma fold_left_snoc {A B} (g : A → B) (l : list A) (acc : list B) :
  fold_left (fun acc p => acc ++ [g p]) l acc = acc ++ (g <$> l).
Proof.
  revert acc. induction l as [|p l IH]; intros acc; simpl; [by rewrite app_nil_r|].
  by rewrite IH, <- app_assoc.
Qed.

Lemma RangeStats_healthy d lo hi :
  ldb_healthy d →
  RangeStats d lo hi =
    let keys := (map_range (ldb_view d) lo hi).*1 in
    (true, zlen keys, if zlen keys =? 0 then [] else nth (Z.to_nat (zlen keys / 2)) keys []).
Proof.
  intros. unfold RangeStats.
  rewrite (RangeQuery_fold d lo hi (fun ks k _ => ks ++ [k])), (fold_left_snoc fst) by done.
  cbn [app]. by destruct (_ =? 0).
Qed.

(** Deleting a list of keys one after the other. *)
Lemma fold_delete_healthy ks d :
  ldb_healthy d →
  let d' := fold_left (fun d k => (ldb_delete d k).1) ks d in
  ldb_healthy d' ∧ ∀ k, ldb_view d' !! k = if bool_decide (k ∈ ks) then None else ldb_view d !! k.
Proof.
  revert d. induction ks as [|k ks IH]; intros d Hd; simpl; [done|].
  pose proof (ldb_delete_healthy d k Hd) as [Hok Hh].
  destruct (ldb_delete d k) as [d1 b] eqn:E; simpl in *. subst b.
  apply ldb_delete_ok in E. destruct (IH d1 Hh) as [IH1 IH2]. split; [done|].
  intros k'. rewrite IH2, E, lookup_delete.
  repeat (case_bool_decide || case_decide); set_solver.
Qed.

Lemma DeleteRange_healthy d lo hi :
  ldb_healthy d →
  (DeleteRange d lo hi).2 = true ∧ ldb_healthy (DeleteRange d lo hi).1 ∧
  ldb_view (DeleteRange d lo hi).1 = filter (fun kv => ¬ in_range lo hi kv.1) (ldb_view d).
Proof.
  intros Hd. unfold DeleteRange. rewrite collect_keys_visited, visited_seek by done. simpl.
  pose proof (fold_delete_healthy (map_range (ldb_view d) lo hi).*1 d Hd) as [? Hv].
  split; [done|]. split; [done|]. apply map_eq. intros k. rewrite Hv, map_lookup_filter.
  destruct (ldb_view d !! k) as [v|] eqn:E; simpl; [|by case_bool_decide].
  case_bool_decide as Hin; rewrite list_elem_of_fmap in Hin.
  - destruct Hin as ([k' v'] & ? & Hin). simpl in *. subst k'. apply elem_of_map_range in Hin as [_ Hr].
    by rewrite option_guard_False by auto.
  - rewrite option_guard_True; [done|]. intros Hr. apply Hin. exists (k, v).
    by rewrite elem_of_map_range.
Qed.
End EngineLemmas.

(** ** A reference database *)

(** An in-memory ordered map; [mem_up = false] is a device on which every
    operation reports an error and changes nothing. *)
Record MemDB := { mem_map : gmap bytes bytes; mem_up : bool }.

#[export] Instance memdb : LevelDB MemDB := {|
  ldb_put d k v :=
    if mem_up d then ({| mem_map := <[k := v]> (mem_map d); mem_up := true |}, true) else (d, false);
  ldb_get d k := if mem_up d then mem_map d !! k else None;
  ldb_delete d k :=
    if mem_up d then ({| mem_map := delete k (mem_map d); mem_up := true |}, true) else (d, false);
  ldb_seek d t := if mem_up d then map_range (mem_map d) t [] else [];
  ldb_view := mem_map;
  ldb_healthy d := mem_up d = true;
|}.

#[export] Instance memdb_spec : LevelDBSpec MemDB.
Proof.
  split; intros [m []]; simpl; try naive_solver; intros t; try (by constructor);
    try apply map_range_sorted; intros k v; rewrite ?elem_of_map_range, ?elem_of_nil;
    unfold in_range; naive_solver.
Qed.

(** ** Properties *)

(** The specification of a range loop: the callback runs over a list until it
    asks to stop. *)
Fixpoint fold_until {S} (cb : S → bytes → bytes → S * bool) (s : S) (l : list entry) : S :=
  match l with
  | [] => s
  | (k, v) :: l' => let '(s', go) := cb s k v in if go then fold_until cb s' l' else s'
  end.

Lemma range_loop_fold_until {S} hi (cb : S → bytes → bytes → S * bool) s it :
  range_loop hi cb s it = fold_until cb s (visited hi it).
Proof.
  revert s. induction it as [|[k v] it IH]; intros s; simpl; [done|].
  destruct (past_end hi k); simpl; [done|]. destruct (cb s k v) as [s' []]; [apply IH|done].
Qed.

(** In a sorted list exactly the first [i] keys lie below the [i]-th. *)
Lemma sorted_below_nth (l : list entry) i p :
  StronglySorted key_lt l → l !! i = Some p → filter (fun q => slt q.1 p.1) l = take i l.
Proof.
  intros Hs. revert i. induction Hs as [|q l Hs IH Hq]; intros i Hi; [done|].
  rewrite Forall_forall in Hq. destruct i as [|i]; simpl in *.
  - injection Hi as ->. rewrite filter_cons_False by apply slt_irrefl.
    apply elem_of_nil_inv. intros r [Hrp Hr]%list_elem_of_filter. specialize (Hq r Hr).
    unfold key_lt in *. str_order.
  - rewrite filter_cons_True; [by rewrite (IH i)|].
    apply (Hq p). by eapply list_elem_of_lookup_2.
Qed.

(** [RangeQuery] over the entries in the range. *)
Lemma RangeQuery_visits {D} `{LevelDBSpec D} (d : D) (lo hi : bytes) (Hh : ldb_healthy d) :
  ∃ l : list entry,
    StronglySorted key_lt l ∧
    (∀ k v, (k, v) ∈ l ↔ ldb_view d !! k = Some v ∧ in_range lo hi k) ∧
    ∀ (S : Type) (cb : S → bytes → bytes → S * bool) (s : S),
      RangeQuery d lo hi cb s = fold_until cb s l.
Proof.
  exists (map_range (ldb_view d) lo hi).
  split; [apply map_range_sorted|]. split; [intros; apply elem_of_map_range|].
  intros. unfold RangeQuery. by rewrite range_loop_fold_until, visited_seek.
Qed.

Definition demo_db : MemDB :=
  {| mem_map := list_to_map [(str "b", str "2"); (str "a", str "1"); (str "m", str "3"); (str "z", str "4")];
     mem_up := true |}.

(** The count and the median of a range. *)
Lemma RangeStats_median {D} `{LevelDBSpec D} (d : D) (lo hi : bytes) (Hh : ldb_healthy d) :
  let inside := filter (fun kv => in_range lo hi kv.1) (ldb_view d) in
  let '(ok, key_count, median_key) := RangeStats d lo hi in
  ok = true ∧ key_count = Z.of_nat (size inside) ∧
  (key_count = 0 → median_key = []) ∧
  (0 < key_count →
     is_Some (inside !! median_key) ∧
     Z.of_nat (size (filter (fun kv => slt kv.1 median_key) inside)) = key_count / 2).
Proof.
  rewrite RangeStats_healthy by done. cbv zeta. set (m := ldb_view d). set (l := map_range m lo hi).
  assert (Hsz : zlen l.*1 = Z.of_nat (size (filter (fun kv => in_range lo hi kv.1) m))).
  { unfold zlen. rewrite length_fmap. unfold l, map_range.
    by rewrite merge_sort_Permutation, length_map_to_list. }
  split; [done|]. split; [done|]. split; [by intros ->|]. intros Hpos.
  destruct (Z.eqb_spec (zlen l.*1) 0); [lia|].
  set (i := Z.to_nat (zlen l.*1 / 2)).
  assert (Hi : (i < length l)%nat).
  { unfold i, zlen in *. rewrite length_fmap in *. apply Nat2Z.inj_lt.
    rewrite Z2Nat.id by (apply Z.div_pos; lia). apply Z.div_lt; lia. }
  apply lookup_lt_is_Some in Hi as [[k v] Hi].
  assert (Hnth : nth i l.*1 [] = k).
  { rewrite nth_lookup. rewrite list_lookup_fmap, Hi. done. }
  rewrite Hnth. apply list_elem_of_lookup_2 in Hi as Hin. apply elem_of_map_range in Hin as [Hv Hr].
  split; [exists v; by apply map_lookup_filter_Some|].
  pose proof (sorted_below_nth l i (k, v) (map_range_sorted _ _ _) Hi) as Hbelow. simpl in Hbelow.
  replace (zlen l.*1 / 2) with (Z.of_nat i) by (unfold i; rewrite Z2Nat.id; [done|apply Z.div_pos; lia]).
  f_equal. rewrite <- length_map_to_list.
  transitivity (length (filter (fun q : entry => slt q.1 k) l)); symmetry.
  2: { rewrite Hbelow, length_take. apply lookup_lt_Some in Hi. lia. }
  apply Permutation_length, NoDup_Permutation.
  - apply NoDup_filter. unfold l, map_range. rewrite merge_sort_Permutation. apply NoDup_map_to_list.
  - apply NoDup_map_to_list.
  - intros [k' v']. rewrite list_elem_of_filter, elem_of_map_to_list, !map_lookup_filter_Some.
    unfold l. rewrite elem_of_map_range. tauto.
Qed.

(** What [DeleteRange] removes. *)
Lemma DeleteRange_spec {D} `{LevelDBSpec D} (d : D) (lo hi : bytes) :
  (ldb_healthy d →
     (DeleteRange d lo hi).2 = true ∧ ldb_healthy (DeleteRange d lo hi).1 ∧
     ∀ k, ldb_view (DeleteRange d lo hi).1 !! k =
          if decide (in_range lo hi k) then None else ldb_view d !! k) ∧
  ((∀ k, ldb_delete d k = (d, false)) → DeleteRange d lo hi = (d, true)).
Proof.
  split.
  - intros Hh. destruct (DeleteRange_healthy d lo hi Hh) as (? & ? & ->).
    split; [done|]. split; [done|]. intros k. rewrite map_lookup_filter.
    destruct (ldb_view d !! k); simpl; case_decide; simpl; by try case_guard.
  - intros Hf. unfold DeleteRange. f_equal. generalize (collect_keys hi (ldb_seek d lo)).
    induction l as [|k l IH]; simpl; [done|]. by rewrite Hf.
Qed.

(** C25: the range operations are exact.  On a database without device errors
    [RangeQuery start end cb] runs [cb] over exactly the stored entries with
    [start <= key < end] ([end] empty: no upper bound), each once, in increasing byte order of
    the keys, until [cb] asks to stop; [RangeStats] counts the keys of the range, and its
    median is a key of the range with exactly [count / 2] keys of the range below it (the empty
    string for an empty range); [DeleteRange] removes exactly the keys of the range.  On a
    database whose deletions fail [DeleteRange] still answers [true] while it keeps every entry. *)
Theorem range_operations {D} `{LevelDBSpec D} (d : D) (lo hi : bytes) :
  (ldb_healthy d →
     (∃ l : list entry,
        StronglySorted key_lt l ∧ (∀ k v, (k, v) ∈ l ↔ ldb_view d !! k = Some v ∧ in_range lo hi k) ∧
        ∀ (S : Type) (cb : S → bytes → bytes → S * bool) (s : S), RangeQuery d lo hi cb s = fold_until cb s l) ∧
     (let inside := filter (fun kv => in_range lo hi kv.1) (ldb_view d) in
      let '(ok, key_count, median_key) := RangeStats d lo hi in
      ok = true ∧ key_count = Z.of_nat (size inside) ∧ (key_count = 0 → median_key = []) ∧
      (0 < key_count → is_Some (inside !! median_key) ∧
         Z.of_nat (size (filter (fun kv => slt kv.1 median_key) inside)) = key_count / 2)) ∧
     (DeleteRange d lo hi).2 = true ∧ ldb_healthy (DeleteRange d lo hi).1 ∧
     ∀ k, ldb_view (DeleteRange d lo hi).1 !! k = if decide (in_range lo hi k) then None else ldb_view d !! k) ∧
  ((∀ k, ldb_delete d k = (d, false)) → DeleteRange d lo hi = (d, true)).
Proof.
  destruct (DeleteRange_spec d lo hi) as [Hd Hf]. split; [|exact Hf]. intros Hh.
  split; [by apply RangeQuery_visits|]. split; [by apply RangeStats_median|by apply Hd].
Qed.

Lemma range_operations_witness :
  RangeQuery demo_db (str "a") (str "n") (fun s k _ => (s ++ [k], true)) [] = [str "a"; str "b"; str "m"] ∧
  RangeStats demo_db (str "a") (str "n") = (true, 3, str "b") ∧
  (∃ l : list entry, ∀ k v, (k, v) ∈ l ↔ ldb_view demo_db !! k = Some v ∧ in_range (str "a") (str "n") k) ∧
  ldb_view (DeleteRange demo_db (str "b") (str "n")).1 !! str "m" = None ∧
  (let down := {| mem_map := mem_map demo_db; mem_up := false |} in DeleteRange down (str "b") (str "n") = (down, true)).
Proof.
  split; [vm_compute; reflexivity|]. split; [vm_compute; reflexivity|].
  destruct (range_operations demo_db (str "a") (str "n")) as [H1 _]. destruct (H1 eq_refl) as ((l & _ & Hl & _) & _).
  split; [by exists l|].
  destruct (range_operations demo_db (str "b") (str "n")) as [H2 _]. destruct (H2 eq_refl) as (_ & _ & _ & _ & H3).
  split; [rewrite H3; vm_compute; reflexivity|]. apply range_operations. intros k. reflexivity.
Defined.
