(* ===== verification/RpcClient.v ===== *)
(** * The connection end points (src/rpc/rpc_client.h, rpc_client.cpp)

    [RpcClient]: a file descriptor and a receive buffer, with the loops that
    push a whole frame out ([Send]) and cut one whole frame out of the byte
    stream ([RecvAll], [RecvFrame]).  The kernel is the environment: the answers
    of successive [::recv] calls are a list of events, the answers of successive
    [::send] calls a function of the call number and of the bytes left.  The
    receiving loop is the same code in [BinaryRpcServer::HandleClient], which
    uses these definitions too (RpcServer.v). *)

From S2P Require Import Prelude BinaryProtocol.

(** ** The answers of the kernel *)

(** One return of [::recv]: [n = zlen data] bytes ([n = 0]: the peer closed), or
    [-1] with [errno] in [EAGAIN]/[EWOULDBLOCK] or not. *)
Inductive recv_event : Type :=
  | Recv (data : bytes)
  | RecvErr (again : bool).

(** One return of [::send]: [n >= 0] bytes taken, or [-1]. *)
Inductive send_event : Type :=
  | Sent (n : Z)
  | SendErr (again : bool).

(** ** The receiving loop: [while (buf.size() < need)] *)
Inductive recv_result : Type :=
  | Received (buf : bytes) (rest : list recv_event)  (* return true *)
  | RecvFailed (buf : bytes) (rest : list recv_event)  (* return false *)
  | RecvPending (buf : bytes).  (* still blocked in recv when the events end *)

Fixpoint recv_loop (need timeout_ms : Z) (buf : bytes) (evs : list recv_event) : recv_result :=
  if need <=? zlen buf then Received buf evs else
  match evs with
  | [] => RecvPending buf
  | Recv data :: evs' =>
      if 0 <? zlen data then recv_loop need timeout_ms (buf ++ data) evs' else RecvFailed buf evs'
  | RecvErr again :: evs' =>
      if again then
        let timeout_ms := timeout_ms - 10 in
        if timeout_ms <=? 0 then RecvFailed buf evs' else recv_loop need timeout_ms buf evs'
      else RecvFailed buf evs'
  end.

(** ** The client *)
Record RpcClient := { fd_ : Z; buf_ : bytes }.

Definition IsConnected (c : RpcClient) : bool := 0 <=? fd_ c.

Definition Close (c : RpcClient) : RpcClient :=
  if 0 <=? fd_ c then {| fd_ := -1; buf_ := buf_ c |} else c.

Definition AttachFd (c : RpcClient) (fd : Z) : RpcClient :=
  {| fd_ := fd; buf_ := buf_ (Close c) |}.

(** [sock]: the descriptor [socket()] returned; [connected]: [::connect() == 0]. *)
Definition Connect (c : RpcClient) (sock : Z) (connected : bool) : RpcClient * bool :=
  let c := Close c in
  let c := {| fd_ := sock; buf_ := buf_ c |} in
  if fd_ c <? 0 then (c, false) else (c, connected).

Definition RecvAll (c : RpcClient) (need timeout_ms : Z) (evs : list recv_event) : recv_result :=
  if fd_ c <? 0 then RecvFailed (buf_ c) evs else recv_loop need timeout_ms (buf_ c) evs.

Inductive frame_result : Type :=
  | Frame (f : bytes) (c : RpcClient) (rest : list recv_event)
  | NoFrame (c : RpcClient) (rest : list recv_event)
  | FramePending (c : RpcClient).

Definition RecvFrame (c : RpcClient) (timeout_ms : Z) (evs : list recv_event) : outcome frame_result :=
  let set_buf b := {| fd_ := fd_ c; buf_ := b |} in
  match RecvAll c 4 timeout_ms evs with
  | RecvFailed b evs => Ret (NoFrame (set_buf b) evs)
  | RecvPending b => Ret (FramePending (set_buf b))
  | Received b evs =>
      frame_len ← rd32 b 0;
      if frame_len <? 10 then Ret (NoFrame (set_buf b) evs) else
      match RecvAll (set_buf b) frame_len timeout_ms evs with
      | RecvFailed b evs => Ret (NoFrame (set_buf b) evs)
      | RecvPending b => Ret (FramePending (set_buf b))
      | Received b evs =>
          f ← slice b 0 frame_len;
          rest ← slice b frame_len (zlen b - frame_len);
          Ret (Frame f (set_buf rest) evs)
      end
  end.

(** The sending loop [while (left > 0)]: the bytes put on the wire and the
    result.  [k] counts the calls of [::send]; [None] when the fuel runs out. *)
Fixpoint send_loop (fuel : nat) (snd : nat → Z → send_event) (k : nat) (data : bytes)
    : option (bytes * bool) :=
  if zlen data <=? 0 then Some ([], true) else
  match fuel with
  | O => None
  | S fuel =>
      match snd k (zlen data) with
      | SendErr again => if again then send_loop fuel snd (S k) data else Some ([], false)
      | Sent n =>
          if n =? 0 then Some ([], false) else
          '(out, ok) ← send_loop fuel snd (S k) (drop (Z.to_nat n) data);
          Some (take (Z.to_nat n) data ++ out, ok)
      end
  end.

Definition Send (fuel : nat) (c : RpcClient) (snd : nat → Z → send_event) (data : bytes)
    : option (bytes * bool) :=
  if fd_ c <? 0 then Some ([], false) else send_loop fuel snd 0 data.

(** ** The byte stream behind a list of events *)
Definition event_data (e : recv_event) : bytes :=
  match e with Recv data => data | RecvErr _ => [] end.
Definition stream (evs : list recv_event) : bytes := evs ≫= event_data.

(** The number of times [recv] gives up after its own timeout. *)
Fixpoint agains (evs : list recv_event) : Z :=
  match evs with
  | [] => 0
  | RecvErr true :: evs => 1 + agains evs
  | _ :: evs => agains evs
  end.

(** A connection that is not closed and has no error other than [EAGAIN]. *)
Definition open_stream (evs : list recv_event) : Prop :=
  Forall (fun e => match e with Recv data => data ≠ [] | RecvErr again => again = true end) evs.

Lemma agains_nonneg evs : 0 ≤ agains evs.
Proof. induction evs as [|[?|[]] evs IH]; simpl; lia. Qed.

(** The loop only moves bytes from the stream to the buffer; it returns [true]
    when the stream holds enough of them, and blocks otherwise. *)
Lemma recv_loop_stream need t buf evs :
  open_stream evs → agains evs * 10 < t →
  (need ≤ zlen buf + zlen (stream evs) →
     ∃ buf' evs', recv_loop need t buf evs = Received buf' evs' ∧
       need ≤ zlen buf' ∧ buf' ++ stream evs' = buf ++ stream evs ∧
       open_stream evs' ∧ agains evs' ≤ agains evs) ∧
  (zlen buf + zlen (stream evs) < need →
     recv_loop need t buf evs = RecvPending (buf ++ stream evs)).
Proof.
  revert t buf. induction evs as [|e evs IH]; intros t buf Ho Ht.
  { simpl. change (stream []) with (@nil Byte.byte). rewrite app_nil_r.
    destruct (Z.leb_spec need (zlen buf)); split; intros; try zlia; [|done].
    exists buf, []. rewrite app_nil_r. done. }
  unfold open_stream in Ho. apply Forall_cons in Ho as [He Ho]. simpl recv_loop.
  destruct (Z.leb_spec need (zlen buf)) as [Hn|Hn].
  { split; [|zlia]. intros _. exists buf, (e :: evs). split_and!; done || lia || by constructor. }
  assert (Hst : stream (e :: evs) = event_data e ++ stream evs) by done. rewrite Hst, zlen_app, app_assoc.
  destruct e as [data|[]]; simpl in *; try done.
  - destruct (Z.ltb_spec 0 (zlen data)) as [|Hz].
    2: { exfalso. apply He, zlen_0_inv. zlia. }
    specialize (IH t (buf ++ data) Ho Ht). rewrite zlen_app, Z.add_assoc in *. exact IH.
  - destruct (Z.leb_spec (t - 10) 0); [pose proof (agains_nonneg evs); lia|].
    destruct (IH (t - 10) buf Ho ltac:(lia)) as [IH1 IH2]. rewrite app_nil_r.
    split; [|exact IH2]. intros Hd. destruct (IH1 Hd) as (b & evs' & ? & ? & ? & ? & ?).
    exists b, evs'. repeat split; done || lia.
Qed.

(** What the first four bytes of a stream announce. *)
Definition announces (s : bytes) (n : Z) : Prop := rd32 s 0 = Ret n.

Lemma rd32_app_in a b i : 0 ≤ i → i + 4 ≤ zlen a → rd32 (a ++ b) i = rd32 a i.
Proof. intros. unfold rd32. by rewrite slice_app_in. Qed.

Lemma slice_prefix (f rest b evs : bytes) n :
  b ++ evs = f ++ rest → n = zlen f → n ≤ zlen b →
  slice b 0 n = Ret f ∧ ∃ r, slice b n (zlen b - n) = Ret r ∧ r ++ evs = rest.
Proof.
  intros He -> Hn. rewrite !slice_in by zlia.
  assert (Hb : take (length f) b = f ∧ drop (length f) b ++ evs = rest).
  { unfold zlen in Hn. split.
    - rewrite <- (take_app_le b evs) by lia. by rewrite He, take_app_length.
    - rewrite <- drop_app_le by lia. by rewrite He, drop_app_length. }
  unfold zlen. rewrite Nat2Z.id. simpl. rewrite drop_0. destruct Hb as [-> Hd].
  split; [done|]. eexists. split; [done|].
  rewrite firstn_all2; [done|]. rewrite length_drop. lia.
Qed.

(** One [RecvFrame]: the frame at the head of the stream, however it is cut. *)
Lemma RecvFrame_stream c t evs f rest n :
  0 ≤ fd_ c → open_stream evs → agains evs * 10 < t →
  buf_ c ++ stream evs = f ++ rest → announces f n → 10 ≤ n → n = zlen f →
  ∃ c' evs', RecvFrame c t evs = Ret (Frame f c' evs') ∧ fd_ c' = fd_ c ∧
    buf_ c' ++ stream evs' = rest ∧ open_stream evs' ∧ agains evs' ≤ agains evs.
Proof.
  intros Hfd Ho Ht Hs Hann Hn Hlen. unfold RecvFrame, RecvAll. cbn [fd_ buf_].
  destruct (Z.ltb_spec (fd_ c) 0); [lia|].
  assert (Hsz : zlen (buf_ c) + zlen (stream evs) = zlen f + zlen rest) by (rewrite <- !zlen_app; congruence).
  pose proof (zlen_nonneg rest) as Hrest.
  destruct (recv_loop_stream 4 t (buf_ c) evs Ho Ht) as [Hr _].
  destruct Hr as (b1 & evs1 & -> & Hb1 & Hs1 & Ho1 & Ha1); [lia|].
  assert (Hrd : rd32 b1 0 = Ret n).
  { rewrite <- (rd32_app_in b1 (stream evs1)) by lia. rewrite Hs1, Hs, rd32_app_in by lia. done. }
  rewrite Hrd. cbn [mbind outcome_bind]. destruct (Z.ltb_spec n 10); [lia|].
  assert (Hsz1 : zlen b1 + zlen (stream evs1) = zlen f + zlen rest)
    by (rewrite <- !zlen_app; congruence).
  destruct (recv_loop_stream n t b1 evs1 Ho1 ltac:(lia)) as [Hr _].
  destruct Hr as (b2 & evs2 & -> & Hb2 & Hs2 & Ho2 & Ha2); [lia|].
  destruct (slice_prefix f rest b2 (stream evs2) n) as (-> & r & -> & Hr); [congruence|done|done|].
  cbn [mbind outcome_bind]. eexists _, evs2. repeat split; try done. lia.
Qed.

Lemma announces_frame rid p rest :
  fits_frame p → announces (frame rid p ++ rest) (zlen (frame rid p)).
Proof. intros. unfold announces. rewrite zlen_frame. by apply frame_len_field. Qed.

(** On any event list: the loop only appends, and answers [true] only with enough bytes. *)
Lemma recv_loop_received need t buf evs buf' evs' :
  recv_loop need t buf evs = Received buf' evs' → need ≤ zlen buf' ∧ ∃ x, buf' = buf ++ x.
Proof.
  revert t buf. induction evs as [|e evs IH]; intros t buf; simpl;
    (destruct (Z.leb_spec need (zlen buf));
      [intros [= <- <-]; split; [done|exists []; by rewrite app_nil_r]|]); [done|].
  destruct e as [data|[]]; [destruct (0 <? zlen data)|destruct (t - 10 <=? 0)|]; try done.
  - intros H1. apply IH in H1 as [? [x ->]]. split; [done|]. exists (data ++ x). by rewrite app_assoc.
  - apply IH.
Qed.

(** [RecvFrame] never reads outside its buffer, and a frame it returns starts
    with its own length, which is at least ten. *)
Lemma RecvFrame_total c t evs :
  ∃ r, RecvFrame c t evs = Ret r ∧
    ∀ f c' evs', r = Frame f c' evs' → 10 ≤ zlen f ∧ rd32 f 0 = Ret (zlen f).
Proof.
  unfold RecvFrame, RecvAll. cbn [fd_ buf_].
  destruct (fd_ c <? 0); [eexists; split; [done|]; done|].
  destruct (recv_loop 4 t (buf_ c) evs) as [b evs1|b evs1|b] eqn:E1;
    try (eexists; split; [done|]; done).
  apply recv_loop_received in E1 as [Hb _].
  destruct (rd32_in b 0) as (n & Hn & Hr); [lia|lia|]. rewrite Hn. cbn [mbind outcome_bind].
  destruct (Z.ltb_spec n 10); [eexists; split; [done|]; done|].
  destruct (recv_loop n t b evs1) as [b2 evs2|b2 evs2|b2] eqn:E2;
    try (eexists; split; [done|]; done).
  apply recv_loop_received in E2 as [Hb2 [x ->]].
  rewrite !slice_in by zlia. cbn [mbind outcome_bind]. eexists. split; [done|].
  intros f c' evs' [= <- _ _]. simpl.
  assert (Hlen : zlen (take (Z.to_nat n) (b ++ x)) = n).
  { unfold zlen in *. rewrite length_take. lia. }
  rewrite drop_0, Hlen. split; [done|]. rewrite <- Hn.
  rewrite <- (rd32_app_in b x) by lia.
  rewrite <- (take_drop (Z.to_nat n) (b ++ x)) at 2. rewrite rd32_app_in; [done|lia|lia].
Qed.

(** Receiving [n] frames one after the other. *)
Fixpoint recv_frames (n : nat) (c : RpcClient) (t : Z) (evs : list recv_event)
    : outcome (list bytes * RpcClient * list recv_event) :=
  match n with
  | O => Ret ([], c, evs)
  | S n =>
      r ← RecvFrame c t evs;
      match r with
      | Frame f c evs => '(fs, c, evs) ← recv_frames n c t evs; Ret (f :: fs, c, evs)
      | _ => Throw
      end
  end.

(** A kernel that takes at least one byte of every non-empty [::send]. *)
Definition good_sender (snd : nat → Z → send_event) : Prop :=
  ∀ k n, 0 < n → ∃ m, snd k n = Sent m ∧ 0 < m ≤ n.

Lemma send_loop_good fuel snd k data :
  good_sender snd → (length data ≤ fuel)%nat → send_loop fuel snd k data = Some (data, true).
Proof.
  intros Hg. revert k data. induction fuel as [|fuel IH]; intros k data Hf; simpl.
  - destruct data; [done|simpl in Hf; lia].
  - destruct (Z.leb_spec (zlen data) 0) as [Hz|Hz].
    { rewrite (zlen_0_inv data) by zlia. done. }
    destruct (Hg k (zlen data) Hz) as (m & -> & Hm).
    destruct (Z.eqb_spec m 0); [lia|].
    rewrite IH by (rewrite length_drop; unfold zlen in *; lia). simpl. by rewrite take_drop.
Qed.

(** ** Frames from a stream *)

(** The byte stream is cut back into the frames that were sent: on an open
    connection, whatever the boundaries at which the bytes of a sequence of
    frames arrive and with fewer receive timeouts than the budget allows,
    successive [RecvFrame] calls return exactly these frames in order, each one
    decodes to its request id and payload, and the bytes that follow stay in the
    connection. *)
Lemma frames_reassemble (c : RpcClient) (t : Z) (evs : list recv_event)
    (reqs : list (Z * bytes)) (rest : bytes)
    (Hfd : 0 ≤ fd_ c) (Hopen : open_stream evs) (Ht : agains evs * 10 < t)
    (Hreqs : Forall (fun r => 0 ≤ r.1 < 2 ^ 32 ∧ fits_frame r.2) reqs)
    (Hs : buf_ c ++ stream evs = concat ((fun r => frame r.1 r.2) <$> reqs) ++ rest) :
  ∃ c' evs',
    recv_frames (length reqs) c t evs = Ret ((fun r => frame r.1 r.2) <$> reqs, c', evs') ∧
    buf_ c' ++ stream evs' = rest ∧
    Forall (fun r => TryDecode (frame r.1 r.2) =
                     Ret (DecodeOk (zlen (frame r.1 r.2)) r.1 r.2)) reqs.
Proof.
  revert c evs Hfd Hopen Ht Hs. induction Hreqs as [|[rid p] reqs [Hr Hp] Hreqs IH]; intros c evs ???? .
  { by exists c, evs. }
  simpl in Hs. rewrite <- app_assoc in Hs.
  destruct (RecvFrame_stream c t evs (frame rid p) _ _ Hfd Hopen Ht Hs
    (eq_trans (eq_sym (f_equal (fun l => rd32 l 0) (app_nil_r _))) (announces_frame rid p [] Hp)))
    as (c1 & evs1 & HR & Hfd1 & Hs1 & Ho1 & Ha1); [rewrite zlen_frame; zlia|done|].
  destruct (IH c1 evs1) as (c2 & evs2 & HR2 & Hs2 & HD); [lia|done|lia|done|].
  exists c2, evs2. simpl. rewrite HR. cbn [mbind outcome_bind]. rewrite HR2. split; [done|].
  split; [done|]. constructor; [|done]. simpl.
  rewrite <- (app_nil_r (frame rid p)) at 1. rewrite zlen_frame. by apply TryDecode_frame.
Qed.


(** [Send] puts on the wire exactly the bytes of the frame: if every
    [::send] of the kernel takes at least one byte the call returns [true] after
    at most one call per byte with all the bytes sent in order, however they are
    split; and for any kernel, an answer [true] means the whole frame was sent
    and an answer [false] that only a prefix of it was. *)
Lemma Send_complete (c : RpcClient) (snd : nat → Z → send_event) (data : bytes)
    (Hfd : 0 ≤ fd_ c) :
  (good_sender snd → Send (length data) c snd data = Some (data, true)) ∧
  (∀ fuel out ok, (∀ k n m, snd k n = Sent m → 0 ≤ m ≤ n) →
     Send fuel c snd data = Some (out, ok) →
     (ok = true → out = data) ∧ ∃ rest, data = out ++ rest).
Proof.
  unfold Send. destruct (Z.ltb_spec (fd_ c) 0); [lia|]. split.
  { intros. by apply send_loop_good. }
  intros fuel out ok Hb. generalize 0%nat as k. revert data out.
  induction fuel as [|fuel IH]; intros data out k; simpl;
    (destruct (Z.leb_spec (zlen data) 0);
      [intros [= <- <-]; rewrite (zlen_0_inv data) by zlia; split; eauto|]); [done|].
  destruct (snd k (zlen data)) as [m|[]] eqn:E; [|by apply IH|].
  2: { intros [= <- <-]. split; [done|]. by exists data. }
  destruct (m =? 0). { intros [= <- <-]. split; [done|]. by exists data. }
  destruct (send_loop fuel snd (S k) (drop (Z.to_nat m) data)) as [[o b]|] eqn:E2; [|done].
  simpl. intros [= <- <-]. apply IH in E2 as [Hok [rest Hrest]]. split.
  - intros ->. rewrite Hok by done. apply take_drop.
  - exists rest. by rewrite <- app_assoc, <- Hrest, take_drop.
Qed.

Lemma Send_complete_witness :
  Send 3 {| fd_ := 3; buf_ := [] |} (fun _ _ => Sent 1) (str "abc") = Some (str "abc", true).
Proof.
  apply (Send_complete {| fd_ := 3; buf_ := [] |} (fun _ _ => Sent 1) (str "abc")); [simpl; lia|].
  intros k n ?. exists 1. split; [reflexivity|lia].
Defined.

(** [Close] and [Connect] keep the receive buffer, so the bytes of a
    response that was cut off on the old connection are prepended to the stream of the new
    one: after reconnecting, the first [RecvFrame] does not return the response
    of the new connection but the old one's bytes completed with its head. *)
Lemma reconnect_mixes_streams (c : RpcClient) (sock t : Z) (evs : list recv_event)
    (rid : Z) (old new tail : bytes) (n : nat)
    (Hsock : 0 ≤ sock) (Hopen : open_stream evs) (Ht : agains evs * 10 < t)
    (Hold : fits_frame old) (Hn : (4 ≤ n < length (frame rid old))%nat)
    (Hbuf : buf_ c = take n (frame rid old))
    (Hnew : stream evs = new ++ tail) (Hlen : length new = (length (frame rid old) - n)%nat) :
  ∃ c' evs', RecvFrame (Connect (Close c) sock true).1 t evs =
               Ret (Frame (take n (frame rid old) ++ new) c' evs') ∧
             buf_ c' ++ stream evs' = tail.
Proof.
  assert (Hc : (Connect (Close c) sock true).1 = {| fd_ := sock; buf_ := buf_ c |}).
  { unfold Connect, Close. simpl. by destruct (0 <=? fd_ c); simpl;
      repeat (destruct (_ <=? _) || destruct (_ <? _)). }
  rewrite Hc. set (f := take n (frame rid old) ++ new).
  assert (Hf : zlen f = zlen (frame rid old)).
  { unfold f, zlen. rewrite length_app, length_take. lia. }
  assert (Ha : announces f (zlen f)).
  { rewrite Hf. unfold announces, f. rewrite rd32_app_in by (unfold zlen; rewrite ?length_take; lia).
    pose proof (announces_frame rid old [] Hold) as Ha. rewrite app_nil_r in Ha.
    rewrite <- (take_drop n (frame rid old)) in Ha at 1. unfold announces in Ha.
    by rewrite rd32_app_in in Ha by (unfold zlen; rewrite ?length_take; lia). }
  destruct (RecvFrame_stream {| fd_ := sock; buf_ := buf_ c |} t evs f tail (zlen f))
    as (c' & evs' & ? & _ & ? & _); try done.
  - cbn [buf_]. by rewrite Hbuf, Hnew, app_assoc.
  - rewrite Hf, zlen_frame. zlia.
  - by exists c', evs'.
Qed.

(** ** Properties *)

(** C17: the byte stream is cut back into the frames that were sent, and only a reconnection confuses it.  On an open
    connection, whatever the boundaries at which the bytes of a sequence of
    frames arrive and with fewer receive timeouts than the budget allows,
    successive [RecvFrame] calls return exactly these frames in order, each one
    decodes to its request id and payload, and the bytes that follow stay in the
    connection.  But [Close] and [Connect] keep the receive buffer: when the first [n] bytes of a frame were received on the
    old connection (its length field among them), the first [RecvFrame] on the new connection returns these bytes
    completed with the head of the new stream. *)
Theorem recv_frames_reassemble (c : RpcClient) (t : Z) (evs : list recv_event)
    (Hopen : open_stream evs) (Ht : agains evs * 10 < t) :
  (∀ reqs rest, 0 ≤ fd_ c → Forall (fun r => 0 ≤ r.1 < 2 ^ 32 ∧ fits_frame r.2) reqs →
     buf_ c ++ stream evs = concat ((fun r => frame r.1 r.2) <$> reqs) ++ rest →
     ∃ c' evs', recv_frames (length reqs) c t evs = Ret ((fun r => frame r.1 r.2) <$> reqs, c', evs') ∧
       buf_ c' ++ stream evs' = rest ∧
       Forall (fun r => TryDecode (frame r.1 r.2) = Ret (DecodeOk (zlen (frame r.1 r.2)) r.1 r.2)) reqs) ∧
  (∀ sock rid old new tail n, 0 ≤ sock → fits_frame old → (4 ≤ n < length (frame rid old))%nat →
     buf_ c = take n (frame rid old) → stream evs = new ++ tail → length new = (length (frame rid old) - n)%nat →
     ∃ c' evs', RecvFrame (Connect (Close c) sock true).1 t evs = Ret (Frame (take n (frame rid old) ++ new) c' evs') ∧
       buf_ c' ++ stream evs' = tail).
Proof.
  split.
  - intros reqs rest ? ? ?. by apply frames_reassemble.
  - intros sock rid old new tail n ? ? ? ? ? ?. by apply (reconnect_mixes_streams c sock t evs rid old new tail n).
Qed.

Definition demo_chunks : list recv_event :=
  [RecvErr true; Recv (be32 11 ++ [MAGIC]); Recv [VERSION]; Recv (be32 5 ++ str "a" ++ be32 10);
   RecvErr true; Recv ([MAGIC; VERSION] ++ be32 6 ++ str "tail")].

Lemma recv_frames_reassemble_witness :
  (∃ c' evs',
    recv_frames 2 {| fd_ := 3; buf_ := [] |} 5000 demo_chunks =
      Ret ([frame 5 (str "a"); frame 6 []], c', evs') ∧
    buf_ c' ++ stream evs' = str "tail" ∧
    Forall (fun r => TryDecode (frame r.1 r.2) =
                     Ret (DecodeOk (zlen (frame r.1 r.2)) r.1 r.2)) [(5, str "a"); (6, [])]) ∧
  let old := frame 1 (str "12345678") in
  let new := frame 2 (str "OK") in
  ∃ c' evs',
    RecvFrame (Connect (Close {| fd_ := 3; buf_ := take 10 old |}) 4 true).1 5000 [Recv new] =
      Ret (Frame (take 10 old ++ take 8 new) c' evs') ∧ buf_ c' ++ stream evs' = drop 8 new.
Proof.
  split.
  - apply (proj1 (recv_frames_reassemble {| fd_ := 3; buf_ := [] |} 5000 demo_chunks
      ltac:(repeat constructor; discriminate) ltac:(vm_compute; reflexivity)) [(5, str "a"); (6, [])] (str "tail")).
    + simpl. lia.
    + repeat constructor; simpl; vm_compute; congruence.
    + vm_compute. reflexivity.
  - apply (proj2 (recv_frames_reassemble {| fd_ := 3; buf_ := take 10 (frame 1 (str "12345678")) |} 5000
      [Recv (frame 2 (str "OK"))] ltac:(repeat constructor; discriminate) ltac:(vm_compute; reflexivity))
      4 1 (str "12345678") (take 8 (frame 2 (str "OK"))) (drop 8 (frame 2 (str "OK"))) 10%nat);
      vm_compute; reflexivity || congruence || lia.
Defined.
