(* ===== verification/RpcServer.v ===== *)
(** * The server side of a connection (src/rpc/rpc_server.h, rpc_server.cpp)

    [BinaryRpcServer::HandleClient]: the loop of the thread that serves one
    connection.  It cuts frames out of the stream with the receiving loop of
    RpcClient.v, decodes them, runs the handler of the node on the payload and
    sends the response frame.  The loop is modelled while [running_] holds; it
    ends when the connection fails or blocks when the kernel has no more events.
    The handler threads the state of the node. *)

From S2P Require Import Prelude BinaryProtocol RpcClient.

(** [BinaryHandler]: from the request id and the payload to the response payload. *)
Abbreviation BinaryHandler St := (St → Z → bytes → outcome (St * bytes)).

Section HandleClient.
Context {St : Type} (binary_handler_ : BinaryHandler St).

(** The part of the loop that follows the handler: an empty answer becomes
    [ST_BAD_REQUEST], the first byte is the status, the rest the value. *)
Definition pack_response (req_id : Z) (resp_payload : bytes) : outcome bytes :=
  let resp_payload :=
    if bool_decide (resp_payload = []) then [byte_of_Z ST_BAD_REQUEST] else resp_payload in
  status ← at_ resp_payload 0;
  value ← slice resp_payload 1 (zlen resp_payload - 1);
  Ret (EncodeResponse req_id status value).

(** One frame: [None] when it does not decode and the loop goes on. *)
Definition serve_frame (st : St) (f : bytes) : outcome (St * option bytes) :=
  d ← TryDecode f;
  match d with
  | DecodeFail _ => Ret (st, None)
  | DecodeOk _ req_id payload =>
      '(st, resp_payload) ← binary_handler_ st req_id payload;
      resp_frame ← pack_response req_id resp_payload;
      Ret (st, Some resp_frame)
  end.

(** The loop that sends a response: it stops at the first [n <= 0], and the
    connection is closed when bytes are left. [k] counts the calls of [::send];
    [None] when the fuel runs out. *)
Fixpoint send_response (fuel : nat) (snd : nat → Z → send_event) (k : nat) (data : bytes)
    : option (bytes * bool * nat) :=
  if zlen data <=? 0 then Some ([], true, k) else
  match fuel with
  | O => None
  | S fuel =>
      match snd k (zlen data) with
      | SendErr _ => Some ([], false, S k)
      | Sent n =>
          if n <=? 0 then Some ([], false, S k) else
          '(out, ok, k) ← send_response fuel snd (S k) (drop (Z.to_nat n) data);
          Some (take (Z.to_nat n) data ++ out, ok, k)
      end
  end.

(** How the loop ends: the connection is closed, it is blocked in [recv], or the
    fuel of the model ran out. *)
Inductive served : Type :=
  | ConnClosed
  | ConnWaiting (buf : bytes)
  | OutOfFuel.

(** The main loop; the result is the state of the node, the bytes sent and the end. *)
Fixpoint HandleClient (fuel : nat) (snd : nat → Z → send_event) (k : nat) (st : St)
    (buf : bytes) (evs : list recv_event) : outcome (St * bytes * served) :=
  match fuel with
  | O => Ret (st, [], OutOfFuel)
  | S fuel =>
      match recv_loop 4 5000 buf evs with
      | RecvFailed _ _ => Ret (st, [], ConnClosed)
      | RecvPending b => Ret (st, [], ConnWaiting b)
      | Received buf evs =>
          frame_len ← rd32 buf 0;
          if frame_len <? 10 then Ret (st, [], ConnClosed) else
          match recv_loop frame_len 5000 buf evs with
          | RecvFailed _ _ => Ret (st, [], ConnClosed)
          | RecvPending b => Ret (st, [], ConnWaiting b)
          | Received buf evs =>
              f ← slice buf 0 frame_len;
              buf ← slice buf frame_len (zlen buf - frame_len);
              r ← serve_frame st f;
              match r with
              | (st, None) => HandleClient fuel snd k st buf evs
              | (st, Some resp) =>
                  match send_response (length resp) snd k resp with
                  | None => Ret (st, [], OutOfFuel)
                  | Some (out, false, _) => Ret (st, out, ConnClosed)
                  | Some (out, true, k) =>
                      '(st, outs, e) ← HandleClient fuel snd k st buf evs;
                      Ret (st, out ++ outs, e)
                  end
              end
          end
      end
  end.

(** ** Lemmas *)

Lemma pack_response_cons rid (s : Byte.byte) value :
  pack_response rid (s :: value) = Ret (EncodeResponse rid (Z_of_byte s) value).
Proof.
  unfold pack_response. rewrite bool_decide_eq_false_2 by done.
  rewrite at_cons_0. cbn [mbind outcome_bind]. rewrite slice_cons by lia.
  rewrite slice_all by zlia. done.
Qed.

(** The frame that is sent for an answer of the handler. *)
Definition response_frame (rid : Z) (rp : bytes) : bytes :=
  match rp with
  | [] => EncodeResponse rid ST_BAD_REQUEST []
  | s :: value => EncodeResponse rid (Z_of_byte s) value
  end.

Lemma pack_response_frame rid rp : pack_response rid rp = Ret (response_frame rid rp).
Proof. destruct rp; [done|apply pack_response_cons]. Qed.

Lemma serve_frame_request st rid p :
  0 ≤ rid < 2 ^ 32 → fits_frame p →
  serve_frame st (frame rid p) =
    '(st', rp) ← binary_handler_ st rid p; resp ← pack_response rid rp; Ret (st', Some resp).
Proof.
  intros. unfold serve_frame. rewrite <- (app_nil_r (frame rid p)), TryDecode_frame by done. done.
Qed.

Lemma send_response_good fuel snd k data :
  good_sender snd → (length data ≤ fuel)%nat →
  ∃ k', send_response fuel snd k data = Some (data, true, k').
Proof.
  intros Hg. revert k data. induction fuel as [|fuel IH]; intros k data Hf; simpl.
  - destruct data; [eauto|simpl in Hf; lia].
  - destruct (Z.leb_spec (zlen data) 0) as [Hz|Hz].
    { rewrite (zlen_0_inv data) by zlia. eauto. }
    destruct (Hg k (zlen data) Hz) as (m & -> & Hm).
    destruct (Z.leb_spec m 0); [lia|].
    destruct (IH (S k) (drop (Z.to_nat m) data)) as [k' ->].
    { rewrite length_drop; unfold zlen in *; lia. }
    simpl. exists k'. by rewrite take_drop.
Qed.

(** One turn of the loop receives a frame the way the client's [RecvFrame] does. *)
Lemma HandleClient_step fuel snd k st buf evs :
  HandleClient (S fuel) snd k st buf evs =
    r ← RecvFrame {| fd_ := 0; buf_ := buf |} 5000 evs;
    match r with
    | NoFrame _ _ => Ret (st, [], ConnClosed)
    | FramePending c => Ret (st, [], ConnWaiting (buf_ c))
    | Frame f c evs =>
        r ← serve_frame st f;
        match r with
        | (st, None) => HandleClient fuel snd k st (buf_ c) evs
        | (st, Some resp) =>
            match send_response (length resp) snd k resp with
            | None => Ret (st, [], OutOfFuel)
            | Some (out, false, _) => Ret (st, out, ConnClosed)
            | Some (out, true, k) =>
                '(st, outs, e) ← HandleClient fuel snd k st (buf_ c) evs;
                Ret (st, out ++ outs, e)
            end
        end
    end.
Proof.
  cbn [HandleClient]. unfold RecvFrame, RecvAll. cbn [fd_ buf_ Z.ltb Z.compare].
  destruct (recv_loop 4 5000 buf evs) as [b evs1|b evs1|b]; try done.
  destruct (rd32 b 0) as [n| |]; try done. cbn [mbind outcome_bind].
  destruct (n <? 10); [done|].
  destruct (recv_loop n 5000 b evs1) as [b2 evs2|b2 evs2|b2]; try done.
  destruct (slice b2 0 n); try done. cbn [mbind outcome_bind].
  by destruct (slice b2 n (zlen b2 - n)).
Qed.

(** The reference behaviour: the requests are handled one by one, in order. *)
Fixpoint serve_all (st : St) (reqs : list (Z * bytes)) : outcome (St * bytes) :=
  match reqs with
  | [] => Ret (st, [])
  | (rid, p) :: reqs =>
      '(st, rp) ← binary_handler_ st rid p;
      resp ← pack_response rid rp;
      '(st, outs) ← serve_all st reqs;
      Ret (st, resp ++ outs)
  end.
End HandleClient.

(** The requests of a stream of frames. *)
Lemma HandleClient_serves {St} (h : BinaryHandler St) snd k (st st' : St)
    (buf tail out : bytes) (evs : list recv_event) (reqs : list (Z * bytes)) (fuel : nat)
    (Hopen : open_stream evs) (Ht : agains evs * 10 < 5000) (Hsnd : good_sender snd)
    (Hreqs : Forall (fun r => 0 ≤ r.1 < 2 ^ 32 ∧ fits_frame r.2) reqs)
    (Hs : buf ++ stream evs = concat ((fun r => frame r.1 r.2) <$> reqs) ++ tail)
    (Htail : zlen tail < 4)
    (Hrun : serve_all h st reqs = Ret (st', out)) (Hfuel : (length reqs < fuel)%nat) :
  HandleClient h fuel snd k st buf evs = Ret (st', out, ConnWaiting tail).
Proof.
  revert fuel k st buf evs out Hopen Ht Hs Hrun Hfuel.
  induction Hreqs as [|[rid p] reqs [Hr Hp] Hreqs IH]; intros [|fuel] k st buf evs out ?? Hs Hrun Hfuel;
    try (simpl in Hfuel; lia).
  - simpl in *. injection Hrun as <- <-.
    destruct (recv_loop_stream 4 5000 buf evs) as [_ Hp]; [done|done|].
    rewrite Hp by (rewrite <- zlen_app, Hs; done). by rewrite Hs.
  - cbn [serve_all] in Hrun.
    apply bind_ret_inv in Hrun as ([st1 rp] & Hh & Hrun).
    apply bind_ret_inv in Hrun as (resp & Hresp & Hrun).
    apply bind_ret_inv in Hrun as ([st2 outs] & Hall & [= <- <-]).
    simpl in Hs. rewrite <- app_assoc in Hs. rewrite HandleClient_step.
    destruct (RecvFrame_stream {| fd_ := 0; buf_ := buf |} 5000 evs (frame rid p) _ _ ltac:(done)
      Hopen Ht Hs (eq_trans (eq_sym (f_equal (fun l => rd32 l 0) (app_nil_r _)))
                     (announces_frame rid p [] Hp)))
      as (c1 & evs1 & -> & _ & Hs1 & Ho1 & Ha1); [rewrite zlen_frame; zlia|done|].
    cbn [mbind outcome_bind]. rewrite serve_frame_request, Hh by done. cbn [mbind outcome_bind].
    rewrite Hresp. cbn [mbind outcome_bind].
    destruct (send_response_good (length resp) snd k resp Hsnd ltac:(done)) as [k' ->].
    erewrite IH; try done; simpl in Hfuel; lia.
Qed.

(** ** Properties *)

(** C9: the connection thread refines the handler run on the list of requests:
    when the bytes of the request frames arrive on an open connection, cut in
    any way and with fewer receive timeouts than the budget of one call, and the
    kernel accepts the responses, the thread answers each request exactly once, in order, with
    its own request id and the bytes [EncodeResponse] makes of the handler's
    answer, leaves the node in the state of the sequential run, and then waits
    for more input with nothing lost. *)
Theorem HandleClient_refines {St} (h : BinaryHandler St) snd k (st st' : St)
    (buf tail out : bytes) (evs : list recv_event) (reqs : list (Z * bytes)) (fuel : nat)
    (Hopen : open_stream evs) (Ht : agains evs * 10 < 5000) (Hsnd : good_sender snd)
    (Hreqs : Forall (fun r => 0 ≤ r.1 < 2 ^ 32 ∧ fits_frame r.2) reqs)
    (Hs : buf ++ stream evs = concat ((fun r => frame r.1 r.2) <$> reqs) ++ tail)
    (Htail : zlen tail < 4)
    (Hrun : serve_all h st reqs = Ret (st', out)) (Hfuel : (length reqs < fuel)%nat) :
  HandleClient h fuel snd k st buf evs = Ret (st', out, ConnWaiting tail).
Proof. by apply (HandleClient_serves h snd k st st' buf tail out evs reqs fuel). Qed.

(** A node that counts its requests and echoes their payload. *)
Definition demo_handler : BinaryHandler Z := fun n rid p => Ret (n + 1, byte_of_Z ST_OK :: p).

Definition demo_requests : list recv_event :=
  [RecvErr true; Recv (be32 11 ++ [MAGIC]); Recv [VERSION]; Recv (be32 5 ++ str "a" ++ be32 10);
   Recv ([MAGIC; VERSION] ++ be32 6 ++ str "ta")].

Lemma HandleClient_refines_witness :
  HandleClient demo_handler 3 (fun _ _ => Sent 1) 0 0 [] demo_requests =
    Ret (2, EncodeResponse 5 0 (str "a") ++ EncodeResponse 6 0 [], ConnWaiting (str "ta")).
Proof.
  apply (HandleClient_refines demo_handler (fun _ _ => Sent 1) 0 0 2 [] (str "ta") _ demo_requests
           [(5, str "a"); (6, [])] 3).
  - repeat constructor; discriminate.
  - vm_compute. reflexivity.
  - intros k n ?. exists 1. split; [reflexivity|lia].
  - repeat constructor; simpl; vm_compute; congruence.
  - vm_compute. reflexivity.
  - vm_compute. reflexivity.
  - vm_compute. reflexivity.
  - simpl. lia.
Defined.

(** With a handler that always answers the thread returns. *)
Lemma HandleClient_safe {St} (h : BinaryHandler St)
    (Hh : ∀ st rid p, ∃ st' rp, h st rid p = Ret (st', rp))
    snd fuel k (st : St) (buf : bytes) (evs : list recv_event) :
  ∃ st' out e, HandleClient h fuel snd k st buf evs = Ret (st', out, e).
Proof.
  revert k st buf evs. induction fuel as [|fuel IH]; intros k st buf evs; [simpl; eauto|].
  rewrite HandleClient_step.
  destruct (RecvFrame_total {| fd_ := 0; buf_ := buf |} 5000 evs) as (r & -> & Hr).
  cbn [mbind outcome_bind]. destruct r as [f c evs1|c evs1|c]; [|eauto|eauto].
  destruct (Hr f c evs1 eq_refl) as [Hlen Hrd].
  unfold serve_frame. destruct (TryDecode_safe f) as [d ->]; [eauto|]. cbn [mbind outcome_bind].
  destruct d as [n rid p|]; [|apply IH].
  destruct (Hh st rid p) as (st1 & rp & ->). cbn [mbind outcome_bind].
  rewrite pack_response_frame.
  cbn [mbind outcome_bind].
  destruct (send_response (length (response_frame rid rp)) snd k (response_frame rid rp)) as [[[out []] k1]|]; [|eauto..].
  destruct (IH k1 st1 (buf_ c) evs1) as (st2 & outs & e & ->). cbn [mbind outcome_bind]. eauto.
Qed.

(** A frame with a wrong magic or version byte is dropped. *)
Lemma HandleClient_skips_bad_magic {St} (h : BinaryHandler St) snd fuel k (st : St)
    (buf f rest : bytes) (evs : list recv_event)
    (Hopen : open_stream evs) (Ht : agains evs * 10 < 5000)
    (Hs : buf ++ stream evs = f ++ rest) (Hlen : rd32 f 0 = Ret (zlen f)) (Hmin : 10 ≤ zlen f)
    (Hbad : at_ f 4 ≠ Ret (Z_of_byte MAGIC) ∨ at_ f 5 ≠ Ret (Z_of_byte VERSION)) :
  ∃ buf' evs', buf' ++ stream evs' = rest ∧ open_stream evs' ∧
    HandleClient h (S fuel) snd k st buf evs = HandleClient h fuel snd k st buf' evs'.
Proof.
  destruct (RecvFrame_stream {| fd_ := 0; buf_ := buf |} 5000 evs f rest (zlen f) ltac:(done)
    Hopen Ht Hs Hlen Hmin eq_refl) as (c1 & evs1 & HR & _ & Hs1 & Ho1 & _).
  exists (buf_ c1), evs1. split; [done|]. split; [done|].
  rewrite HandleClient_step, HR. cbn [mbind outcome_bind]. unfold serve_frame.
  assert (TryDecode f = Ret (DecodeFail 1)) as ->; [|done].
  destruct (at_in f 4) as (m & Hm & _); [lia|]. destruct (at_in f 5) as (v & Hv & _); [lia|].
  unfold TryDecode. destruct (Z.ltb_spec (zlen f) 10); [lia|]. rewrite Hlen. cbn [mbind outcome_bind].
  destruct (Z.ltb_spec (zlen f) (zlen f)); [lia|]. rewrite Hm, Hv in *. cbn [mbind outcome_bind].
  destruct (Z.eqb_spec m (Z_of_byte MAGIC)) as [->|]; [|done]. cbn [negb].
  destruct (Z.eqb_spec v (Z_of_byte VERSION)) as [->|]; [|done]. naive_solver.
Qed.

(** C27: no input can make the connection thread itself misbehave: for every
    sequence of bytes, closes and errors on the socket and every behaviour of
    [::send], if the node's handler answers every payload in every state, then the thread
    returns without undefined behaviour or exception (malformed length, magic
    or version included).  A frame whose magic or version byte is wrong is dropped and
    the connection stays in use: the thread behaves on the stream as if the frame had not
    been sent, where the protocol document says that an illegal packet closes the connection. *)
Theorem HandleClient_robust {St} (h : BinaryHandler St) snd fuel k (st : St) (buf : bytes) (evs : list recv_event) :
  ((∀ st rid p, ∃ st' rp, h st rid p = Ret (st', rp)) →
     ∃ st' out e, HandleClient h fuel snd k st buf evs = Ret (st', out, e)) ∧
  (∀ f rest, open_stream evs → agains evs * 10 < 5000 → buf ++ stream evs = f ++ rest →
     rd32 f 0 = Ret (zlen f) → 10 ≤ zlen f →
     at_ f 4 ≠ Ret (Z_of_byte MAGIC) ∨ at_ f 5 ≠ Ret (Z_of_byte VERSION) →
     ∃ buf' evs', buf' ++ stream evs' = rest ∧ open_stream evs' ∧
       HandleClient h (S fuel) snd k st buf evs = HandleClient h fuel snd k st buf' evs').
Proof.
  split; [intros Hh; by apply HandleClient_safe|].
  intros f rest ? ? ? ? ? ?. by apply (HandleClient_skips_bad_magic h snd fuel k st buf f rest evs).
Qed.

Lemma HandleClient_robust_witness :
  let bad := be32 12 ++ str "XX" ++ be32 9 ++ str "zz" in
  (∃ st' out e, HandleClient demo_handler 2 (fun _ _ => Sent 1) 0 0 [] [Recv (be32 3 ++ str "junk"); RecvErr false] =
     Ret (st', out, e)) ∧
  ∃ buf' evs', buf' ++ stream evs' = frame 6 (str "q") ∧ open_stream evs' ∧
    HandleClient demo_handler 3 (fun _ _ => Sent 1) 0 0 [] [Recv bad; Recv (frame 6 (str "q"))] =
    HandleClient demo_handler 2 (fun _ _ => Sent 1) 0 0 buf' evs'.
Proof.
  split.
  - apply HandleClient_robust. intros st rid p. exists (st + 1), (byte_of_Z ST_OK :: p). reflexivity.
  - apply (proj2 (HandleClient_robust demo_handler (fun _ _ => Sent 1) 2 0 0 []
      [Recv (be32 12 ++ str "XX" ++ be32 9 ++ str "zz"); Recv (frame 6 (str "q"))])
      (be32 12 ++ str "XX" ++ be32 9 ++ str "zz") (frame 6 (str "q")));
      try (vm_compute; reflexivity || congruence || lia).
    + repeat constructor; discriminate.
    + left. vm_compute. congruence.
Defined.
