(* ===== verification/DataNode.v ===== *)
(** * The data node (src/kv/raft_node.cpp, the [HandleDataNode...] handlers)

    The state of a data node is its storage engine ([storage_], empty when
    LevelDB did not open).  Each handler parses the payload of a request frame
    with the source's own bounds tests, at the source's integer widths, and
    answers a status byte followed by a value.  An answer [UB] is a read past
    the end of the payload. *)

From S2P Require Import Prelude StringOrder BinaryProtocol Storage.

Section Handlers.
Context {D : Type} `{LevelDB D}.

Definition status (s : Z) : bytes := [byte_of_Z s].

Definition HandleDataNodePut (storage_ : option D) (payload : bytes) : outcome (option D * bytes) :=
  if zlen payload <? 7 then Ret (storage_, status ST_BAD_REQUEST) else
  key_len ← rd16 payload 1;
  val_len ← rd32 payload 3;
  (* int + int + uint32_t: the sum is a uint32_t *)
  if zlen payload <? u32 (7 + key_len + val_len) then Ret (storage_, status ST_BAD_REQUEST) else
  key ← slice payload 7 key_len;
  value ← slice payload (7 + key_len) val_len;
  match storage_ with
  | None => Ret (storage_, status ST_TIMEOUT)
  | Some d =>
      let '(d, ok) := Put d key value in
      if ok then Ret (Some d, status ST_OK) else Ret (Some d, status ST_TIMEOUT)
  end.

Definition HandleDataNodeGet (storage_ : option D) (payload : bytes) : outcome (option D * bytes) :=
  if zlen payload <? 7 then Ret (storage_, status ST_BAD_REQUEST) else
  key_len ← rd16 payload 1;
  val_len ← rd32 payload 3;
  if negb (val_len =? 0) then Ret (storage_, status ST_BAD_REQUEST) else
  (* no test of the payload size against key_len *)
  key ← slice payload 7 key_len;
  match storage_ with
  | None => Ret (storage_, status ST_TIMEOUT)
  | Some d =>
      match Get d key with
      | Some val => Ret (storage_, status ST_OK ++ val)
      | None => Ret (storage_, status ST_NOT_FOUND)
      end
  end.

Definition HandleDataNodeDelete (storage_ : option D) (payload : bytes) : outcome (option D * bytes) :=
  if zlen payload <? 7 then Ret (storage_, status ST_BAD_REQUEST) else
  key_len ← rd16 payload 1;
  val_len ← rd32 payload 3;
  if negb (val_len =? 0) then Ret (storage_, status ST_BAD_REQUEST) else
  if zlen payload <? 7 + key_len then Ret (storage_, status ST_BAD_REQUEST) else
  key ← slice payload 7 key_len;
  match storage_ with
  | None => Ret (storage_, status ST_TIMEOUT)
  | Some d =>
      let '(d, ok) := Delete d key in
      if ok then Ret (Some d, status ST_OK) else Ret (Some d, status ST_TIMEOUT)
  end.

(** The parse of [[op][2B sl][start][2B el][end]] shared by the range handlers;
    [None]: the handler answers [ST_BAD_REQUEST]. *)
Definition parse_range (payload : bytes) : outcome (option (bytes * bytes)) :=
  if zlen payload <? 5 then Ret None else
  sl ← rd16 payload 1;
  if zlen payload <? 1 + 2 + sl + 2 then Ret None else
  start ← slice payload 3 sl;
  el ← rd16 payload (3 + sl);
  if zlen payload <? 1 + 2 + sl + 2 + el then Ret None else
  end_ ← slice payload (3 + sl + 2) el;
  Ret (Some (start, end_)).

(** [DataNodeGetTabletStats]: the result and its two out parameters. *)
Definition DataNodeGetTabletStats (storage_ : option D) (start end_ : bytes) : bool * Z * bytes :=
  match storage_ with
  | None => (false, 0, [])
  | Some d => RangeStats d start end_
  end.

Definition HandleDataNodeTabletStats (storage_ : option D) (payload : bytes)
    : outcome (option D * bytes) :=
  range ← parse_range payload;
  match range with
  | None => Ret (storage_, status ST_BAD_REQUEST)
  | Some (start, end_) =>
      let '(_, key_count, median_key) := DataNodeGetTabletStats storage_ start end_ in
      Ret (storage_, status ST_OK ++ be32 (u32 key_count)
                       ++ be16 (u16 (zlen median_key)) ++ median_key)
  end.

(** The callback of the scan: the body and the 32-bit count. *)
Definition scan_entry (acc : bytes * Z) (k v : bytes) : (bytes * Z) * bool :=
  let '(body, count) := acc in
  ((body ++ be16 (u16 (zlen k)) ++ k ++ be32 (u32 (zlen v)) ++ v, u32 (count + 1)), true).

Definition HandleDataNodeScanRange (storage_ : option D) (payload : bytes)
    : outcome (option D * bytes) :=
  range ← parse_range payload;
  match range with
  | None => Ret (storage_, status ST_BAD_REQUEST)
  | Some (start, end_) =>
      match storage_ with
      | None => Ret (storage_, status ST_TIMEOUT)
      | Some d =>
          let '(body, count) := RangeQuery d start end_ scan_entry (repeat x00 4, 0) in
          (* memcpy of the count over the first four bytes *)
          let body := be32 count ++ drop 4 body in
          Ret (storage_, status ST_OK ++ body)
      end
  end.

Definition HandleDataNodeDeleteRange (storage_ : option D) (payload : bytes)
    : outcome (option D * bytes) :=
  range ← parse_range payload;
  match range with
  | None => Ret (storage_, status ST_BAD_REQUEST)
  | Some (start, end_) =>
      match storage_ with
      | None => Ret (storage_, status ST_TIMEOUT)
      | Some d =>
          let '(d, ok) := DeleteRange d start end_ in
          if ok then Ret (Some d, status ST_OK) else Ret (Some d, status ST_TIMEOUT)
      end
  end.

(** [HandleBinaryRequest] on a node that is not the master. *)
Definition HandleDataNodeRequest (storage_ : option D) (req_id : Z) (payload : bytes)
    : outcome (option D * bytes) :=
  if bool_decide (payload = []) then Ret (storage_, status ST_BAD_REQUEST) else
  opcode ← at_ payload 0;
  if opcode =? OP_PUT then HandleDataNodePut storage_ payload else
  if opcode =? OP_GET then HandleDataNodeGet storage_ payload else
  if opcode =? OP_DELETE then HandleDataNodeDelete storage_ payload else
  if opcode =? OP_TABLET_STATS then HandleDataNodeTabletStats storage_ payload else
  if opcode =? OP_SCAN_RANGE then HandleDataNodeScanRange storage_ payload else
  if opcode =? OP_DELETE_RANGE then HandleDataNodeDeleteRange storage_ payload else
  Ret (storage_, status ST_BAD_REQUEST).
End Handlers.

(** ** The payloads of the requests *)

(** [[op][2B sl][start][2B el][end]], as the master builds it. *)
Definition range_payload (op : Z) (start end_ : bytes) : bytes :=
  [byte_of_Z op] ++ be16 (zlen start) ++ start ++ be16 (zlen end_) ++ end_.

Lemma parse_range_payload op start end_ :
  zlen start < 2 ^ 16 → zlen end_ < 2 ^ 16 →
  parse_range (range_payload op start end_) = Ret (Some (start, end_)).
Proof.
  intros Hs He. unfold parse_range, range_payload.
  set (p := [byte_of_Z op] ++ _).
  assert (Hlen : zlen p = 5 + zlen start + zlen end_) by (unfold p; zlia).
  assert (rd16 p 1 = Ret (zlen start)) as E1.
  { unfold p. rewrite rd16_app_r by zlia. apply rd16_app_l. zlia. }
  assert (slice p 3 (zlen start) = Ret start) as E2.
  { unfold p. rewrite !slice_app_r by zlia. by apply slice_app_l. }
  assert (rd16 p (3 + zlen start) = Ret (zlen end_)) as E3.
  { unfold p. rewrite !rd16_app_r by zlia. autorewrite with zlen.
    replace (3 + zlen start - (1 + 0) - 2 - zlen start) with 0 by lia. apply rd16_app_l. zlia. }
  assert (slice p (3 + zlen start + 2) (zlen end_) = Ret end_) as E4.
  { unfold p. rewrite !slice_app_r by zlia. autorewrite with zlen.
    replace (3 + zlen start + 2 - (1 + 0) - 2 - zlen start - 2) with 0 by lia. by apply slice_all. }
  pose proof (zlen_nonneg start). pose proof (zlen_nonneg end_).
  destruct (Z.ltb_spec (zlen p) 5); [lia|]. rewrite E1. cbn [mbind outcome_bind].
  destruct (Z.ltb_spec (zlen p) (1 + 2 + zlen start + 2)); [lia|]. rewrite E2. cbn [mbind outcome_bind].
  rewrite E3. cbn [mbind outcome_bind].
  destruct (Z.ltb_spec (zlen p) (1 + 2 + zlen start + 2 + zlen end_)); [lia|]. by rewrite E4.
Qed.

(** The header fields of a key-value payload. *)
Section kv_fields.
Context (op : Z) (key value : bytes) (Hk : zlen key < 2 ^ 16) (Hv : zlen value < 2 ^ 32).
Let p := kv_payload op key value.
Lemma zlen_kv_payload : zlen (kv_payload op key value) = 7 + zlen key + zlen value.
Proof. unfold kv_payload. zlia. Qed.
Lemma kv_opcode : 0 ≤ op < 256 → at_ p 0 = Ret op.
Proof. intros. unfold p, kv_payload. cbn [app]. by rewrite at_cons_0, Z_of_byte_of_Z, u8_small. Qed.
Lemma kv_key_len : rd16 p 1 = Ret (zlen key).
Proof. unfold p, kv_payload. rewrite rd16_app_r by zlia. apply rd16_app_l. zlia. Qed.
Lemma kv_val_len : rd32 p 3 = Ret (zlen value).
Proof.
  unfold p, kv_payload. rewrite !rd32_app_r by zlia. autorewrite with zlen. apply rd32_app_l. zlia.
Qed.
Lemma kv_key : slice p 7 (zlen key) = Ret key.
Proof. unfold p, kv_payload. rewrite !slice_app_r by zlia. by apply slice_app_l. Qed.
Lemma kv_value : slice p (7 + zlen key) (zlen value) = Ret value.
Proof.
  unfold p, kv_payload. rewrite !slice_app_r by zlia. autorewrite with zlen.
  replace (7 + zlen key - (1 + 0) - 2 - 4 - zlen key) with 0 by lia. by apply slice_all.
Qed.
End kv_fields.


(** The scan response body. *)
Definition scan_record (p : entry) : bytes :=
  be16 (u16 (zlen p.1)) ++ p.1 ++ be32 (u32 (zlen p.2)) ++ p.2.
Definition scan_records (l : list entry) : bytes := l ≫= scan_record.

Lemma scan_records_cons p l : scan_records (p :: l) = scan_record p ++ scan_records l.
Proof. reflexivity. Qed.

Lemma fold_scan_entry l body count :
  0 ≤ count → count + zlen l < 2 ^ 32 →
  fold_left (fun s p => (scan_entry s p.1 p.2).1) l (body, count) =
  (body ++ scan_records l, count + zlen l).
Proof.
  revert body count. induction l as [|[k v] l IH]; intros body count Hc Hl.
  { simpl. rewrite app_nil_r. f_equal. zlia. }
  rewrite scan_records_cons. cbn [fold_left scan_entry fst snd]. rewrite zlen_cons in *. pose proof (zlen_nonneg l).
  rewrite (u32_small (count + 1)) by lia. rewrite IH by lia.
  unfold scan_record. cbn [fst snd]. rewrite <- !app_assoc. f_equal. lia.
Qed.

Section HandlerLemmas.
Context {D : Type} `{LevelDBSpec D}.
Implicit Types (d : D) (key value : bytes).

(** Dispatch on the opcode byte. *)
Lemma dispatch (storage_ : option D) rid payload op :
  at_ payload 0 = Ret op →
  HandleDataNodeRequest storage_ rid payload =
    if op =? OP_PUT then HandleDataNodePut storage_ payload else
    if op =? OP_GET then HandleDataNodeGet storage_ payload else
    if op =? OP_DELETE then HandleDataNodeDelete storage_ payload else
    if op =? OP_TABLET_STATS then HandleDataNodeTabletStats storage_ payload else
    if op =? OP_SCAN_RANGE then HandleDataNodeScanRange storage_ payload else
    if op =? OP_DELETE_RANGE then HandleDataNodeDeleteRange storage_ payload else
    Ret (storage_, status ST_BAD_REQUEST).
Proof.
  intros Hop. unfold HandleDataNodeRequest. destruct payload; [done|].
  rewrite bool_decide_eq_false_2 by done. by rewrite Hop.
Qed.

Lemma put_request (storage_ : option D) rid key value :
  zlen key < 2 ^ 16 → zlen key + zlen value < 2 ^ 32 - 17 →
  HandleDataNodeRequest storage_ rid (kv_payload OP_PUT key value) =
    match storage_ with
    | None => Ret (None, status ST_TIMEOUT)
    | Some d => let '(d, ok) := Put d key value in
                Ret (Some d, if ok : bool then status ST_OK else status ST_TIMEOUT)
    end.
Proof.
  intros Hk Hv. erewrite dispatch by (apply kv_opcode; unfold OP_PUT; zlia). rewrite Z.eqb_refl.
  unfold HandleDataNodePut. rewrite zlen_kv_payload.
  destruct (Z.ltb_spec (7 + zlen key + zlen value) 7); [zlia|].
  rewrite kv_key_len, kv_val_len by zlia. cbn [mbind outcome_bind].
  rewrite u32_small by zlia. rewrite Z.ltb_irrefl. rewrite kv_key, kv_value. cbn [mbind outcome_bind].
  destruct storage_ as [d|]; [|done]. destruct (Put d key value) as [d' []]; done.
Qed.

Lemma get_request (storage_ : option D) rid key :
  zlen key < 2 ^ 16 →
  HandleDataNodeRequest storage_ rid (kv_payload OP_GET key []) =
    Ret (storage_, match storage_ with
                   | None => status ST_TIMEOUT
                   | Some d => match Get d key with
                               | Some v => status ST_OK ++ v
                               | None => status ST_NOT_FOUND
                               end
                   end).
Proof.
  intros Hk. erewrite dispatch by (apply kv_opcode; unfold OP_GET; zlia).
  unfold OP_GET, OP_PUT. cbn [Z.eqb Pos.eqb].
  unfold HandleDataNodeGet. rewrite zlen_kv_payload, zlen_nil.
  destruct (Z.ltb_spec (7 + zlen key + 0) 7); [zlia|].
  rewrite kv_key_len, kv_val_len by zlia. cbn [mbind outcome_bind]. rewrite zlen_nil. cbn [Z.eqb negb].
  rewrite kv_key. cbn [mbind outcome_bind].
  destruct storage_ as [d|]; [|done]. destruct (Get d key); done.
Qed.

Lemma delete_request (storage_ : option D) rid key :
  zlen key < 2 ^ 16 →
  HandleDataNodeRequest storage_ rid (kv_payload OP_DELETE key []) =
    match storage_ with
    | None => Ret (None, status ST_TIMEOUT)
    | Some d => let '(d, ok) := Delete d key in
                Ret (Some d, if ok : bool then status ST_OK else status ST_TIMEOUT)
    end.
Proof.
  intros Hk. erewrite dispatch by (apply kv_opcode; unfold OP_DELETE; zlia).
  unfold OP_DELETE, OP_GET, OP_PUT. cbn [Z.eqb Pos.eqb].
  unfold HandleDataNodeDelete. rewrite zlen_kv_payload, zlen_nil.
  destruct (Z.ltb_spec (7 + zlen key + 0) 7); [zlia|].
  rewrite kv_key_len, kv_val_len by zlia. cbn [mbind outcome_bind]. rewrite zlen_nil. cbn [Z.eqb negb].
  destruct (Z.ltb_spec (7 + zlen key + 0) (7 + zlen key)); [lia|]. rewrite kv_key. cbn [mbind outcome_bind].
  destruct storage_ as [d|]; [|done]. destruct (Delete d key) as [d' []]; done.
Qed.

(** GET and DELETE carry no value. *)
Lemma value_refused (storage_ : option D) rid op key value :
  op = OP_GET ∨ op = OP_DELETE → zlen key < 2 ^ 16 → zlen value < 2 ^ 32 → value ≠ [] →
  HandleDataNodeRequest storage_ rid (kv_payload op key value) = Ret (storage_, [byte_of_Z ST_BAD_REQUEST]).
Proof.
  intros Hop Hk Hv Hne. assert (Hz : zlen value ≠ 0) by (by intros ?%zlen_0_inv).
  destruct Hop as [-> | ->]; (erewrite dispatch by (apply kv_opcode; unfold OP_GET, OP_DELETE; zlia));
    unfold OP_DELETE, OP_GET, OP_PUT; cbn [Z.eqb Pos.eqb]; unfold HandleDataNodeGet, HandleDataNodeDelete;
    rewrite zlen_kv_payload; (destruct (Z.ltb_spec (7 + zlen key + zlen value) 7); [zlia|]);
    rewrite kv_key_len, kv_val_len by zlia; cbn [mbind outcome_bind]; by rewrite (proj2 (Z.eqb_neq _ _) Hz).
Qed.

Lemma range_opcode op lo hi : 0 ≤ op < 256 → at_ (range_payload op lo hi) 0 = Ret op.
Proof. intros. unfold range_payload. cbn [app]. by rewrite at_cons_0, Z_of_byte_of_Z, u8_small. Qed.

Lemma stats_request d rid lo hi :
  ldb_healthy d → zlen lo < 2 ^ 16 → zlen hi < 2 ^ 16 →
  let '(_, n, med) := RangeStats d lo hi in
  HandleDataNodeRequest (Some d) rid (range_payload OP_TABLET_STATS lo hi) =
    Ret (Some d, status ST_OK ++ be32 (u32 n) ++ be16 (u16 (zlen med)) ++ med).
Proof.
  intros Hh Hlo Hhi. destruct (RangeStats d lo hi) as [[ok n] med] eqn:E.
  erewrite dispatch by (apply range_opcode; unfold OP_TABLET_STATS; zlia).
  unfold OP_TABLET_STATS, OP_PUT, OP_GET, OP_DELETE. cbn [Z.eqb Pos.eqb].
  unfold HandleDataNodeTabletStats. rewrite parse_range_payload by done. cbn [mbind outcome_bind].
  unfold DataNodeGetTabletStats. by rewrite E.
Qed.

Lemma scan_request d rid lo hi :
  ldb_healthy d → zlen lo < 2 ^ 16 → zlen hi < 2 ^ 16 →
  zlen (map_range (ldb_view d) lo hi) < 2 ^ 32 →
  HandleDataNodeRequest (Some d) rid (range_payload OP_SCAN_RANGE lo hi) =
    Ret (Some d, status ST_OK ++ be32 (zlen (map_range (ldb_view d) lo hi))
                   ++ scan_records (map_range (ldb_view d) lo hi)).
Proof.
  intros Hh Hlo Hhi Hn.
  erewrite dispatch by (apply range_opcode; unfold OP_SCAN_RANGE; zlia).
  unfold OP_SCAN_RANGE, OP_TABLET_STATS, OP_PUT, OP_GET, OP_DELETE. cbn [Z.eqb Pos.eqb].
  unfold HandleDataNodeScanRange. rewrite parse_range_payload by done. cbn [mbind outcome_bind].
  assert (RangeQuery d lo hi scan_entry (repeat x00 4, 0) =
          (repeat x00 4 ++ scan_records (map_range (ldb_view d) lo hi),
           0 + zlen (map_range (ldb_view d) lo hi))) as ->; [|done].
  rewrite <- fold_scan_entry by lia.
  rewrite <- (RangeQuery_fold d lo hi (fun s k v => (scan_entry s k v).1)) by done.
  unfold RangeQuery. generalize (ldb_seek d lo) (repeat x00 4, 0).
  intros it. induction it as [|[k v] it IH]; intros [b c]; simpl; [done|].
  destruct (past_end hi k); [done|]. apply IH.
Qed.

Lemma delete_range_request d rid lo hi :
  zlen lo < 2 ^ 16 → zlen hi < 2 ^ 16 →
  HandleDataNodeRequest (Some d) rid (range_payload OP_DELETE_RANGE lo hi) =
    Ret (Some (DeleteRange d lo hi).1, status ST_OK).
Proof.
  intros Hlo Hhi. erewrite dispatch by (apply range_opcode; unfold OP_DELETE_RANGE; zlia).
  unfold OP_DELETE_RANGE, OP_SCAN_RANGE, OP_TABLET_STATS, OP_PUT, OP_GET, OP_DELETE. cbn [Z.eqb Pos.eqb].
  unfold HandleDataNodeDeleteRange. by rewrite parse_range_payload.
Qed.
End HandlerLemmas.

(** ** Totality of the handlers *)
Lemma parse_range_total payload : ∃ r, parse_range payload = Ret r.
Proof.
  unfold parse_range. destruct (Z.ltb_spec (zlen payload) 5); [eauto|].
  destruct (rd16_in payload 1) as (sl & -> & ?); [lia|lia|]. cbn [mbind outcome_bind].
  destruct (Z.ltb_spec (zlen payload) (1 + 2 + sl + 2)); [eauto|].
  rewrite (slice_in payload 3) by lia. cbn [mbind outcome_bind].
  destruct (rd16_in payload (3 + sl)) as (el & -> & ?); [lia|lia|]. cbn [mbind outcome_bind].
  destruct (Z.ltb_spec (zlen payload) (1 + 2 + sl + 2 + el)); [eauto|].
  rewrite slice_in by lia. cbn [mbind outcome_bind]. eauto.
Qed.

Lemma kv_header payload :
  7 ≤ zlen payload → ∃ kl vl, rd16 payload 1 = Ret kl ∧ rd32 payload 3 = Ret vl ∧
    0 ≤ kl < 65536 ∧ 0 ≤ vl < 4294967296.
Proof.
  intros. destruct (rd16_in payload 1) as (kl & ? & ?); [lia|lia|].
  destruct (rd32_in payload 3) as (vl & ? & ?); [lia|lia|]. eauto 10.
Qed.

(** Every answer starts with one of these status bytes. *)
Definition answer (rp : bytes) : Prop :=
  ∃ s value, rp = byte_of_Z s :: value ∧ s ∈ [ST_OK; ST_NOT_FOUND; ST_BAD_REQUEST; ST_TIMEOUT].

Lemma answer_status s v : s ∈ [ST_OK; ST_NOT_FOUND; ST_BAD_REQUEST; ST_TIMEOUT] → answer (status s ++ v).
Proof. intros. exists s, v. done. Qed.

Section Totality.
Context {D : Type} `{LevelDB D}.
Implicit Types (payload : bytes).

(** A handler that answers a status, and leaves the storage open if it was. *)
Definition answers (storage_ : option D) (r : outcome (option D * bytes)) : Prop :=
  ∃ st' rp, r = Ret (st', rp) ∧ answer rp ∧ (is_Some storage_ ↔ is_Some st').

Ltac answer_ := eexists _, _; split; [reflexivity|split;
  [first [apply answer_status; set_solver | rewrite <- (app_nil_r (status _)); apply answer_status; set_solver]
  |first [done | split; eauto]]].

Lemma put_total (st : option D) payload kl vl :
  rd16 payload 1 = Ret kl → rd32 payload 3 = Ret vl → 0 ≤ kl → 0 ≤ vl → 7 ≤ zlen payload →
  (u32 (7 + kl + vl) ≤ zlen payload < 7 + kl + vl ∧ HandleDataNodePut st payload = UB) ∨
  (¬ (u32 (7 + kl + vl) ≤ zlen payload < 7 + kl + vl) ∧ answers st (HandleDataNodePut st payload)).
Proof.
  intros E1 E2 ? ? ?. unfold HandleDataNodePut. destruct (Z.ltb_spec (zlen payload) 7); [lia|].
  rewrite E1, E2. cbn [mbind outcome_bind].
  destruct (Z.ltb_spec (zlen payload) (u32 (7 + kl + vl))); [right; split; [lia|answer_]|].
  destruct (Z.le_gt_cases (7 + kl + vl) (zlen payload)).
  - right. split; [lia|]. rewrite !slice_in by lia. cbn [mbind outcome_bind].
    destruct st as [d|]; [|answer_]. destruct (Put d _ _) as [d' []]; answer_.
  - left. split; [lia|]. destruct (slice_cases payload 7 kl) as [[key ->]| ->]; [|done].
    cbn [mbind outcome_bind]. by rewrite slice_out by lia.
Qed.

Lemma get_total (st : option D) payload kl vl :
  rd16 payload 1 = Ret kl → rd32 payload 3 = Ret vl → 0 ≤ kl → 7 ≤ zlen payload →
  (vl = 0 ∧ zlen payload < 7 + kl ∧ HandleDataNodeGet st payload = UB) ∨
  (¬ (vl = 0 ∧ zlen payload < 7 + kl) ∧ answers st (HandleDataNodeGet st payload)).
Proof.
  intros E1 E2 ? ?. unfold HandleDataNodeGet. destruct (Z.ltb_spec (zlen payload) 7); [lia|].
  rewrite E1, E2. cbn [mbind outcome_bind].
  destruct (Z.eqb_spec vl 0); simpl; [|right; split; [lia|answer_]].
  destruct (Z.le_gt_cases (7 + kl) (zlen payload)).
  - right. split; [lia|]. rewrite !slice_in by lia. cbn [mbind outcome_bind].
    destruct st as [d|]; [|answer_]. destruct (Get d _); answer_.
  - left. by rewrite slice_out by lia.
Qed.

Lemma delete_total (st : option D) payload : answers st (HandleDataNodeDelete st payload).
Proof.
  unfold HandleDataNodeDelete. destruct (Z.ltb_spec (zlen payload) 7); [answer_|].
  destruct (kv_header payload) as (kl & vl & -> & -> & ? & ?); [lia|]. cbn [mbind outcome_bind].
  destruct (negb _); [answer_|].
  destruct (Z.ltb_spec (zlen payload) (7 + kl)); [answer_|].
  rewrite slice_in by lia. cbn [mbind outcome_bind].
  destruct st as [d|]; [|answer_]. destruct (Delete d _) as [d' []]; answer_.
Qed.

Lemma range_total (st : option D) payload :
  answers st (HandleDataNodeTabletStats st payload) ∧
  answers st (HandleDataNodeScanRange st payload) ∧
  answers st (HandleDataNodeDeleteRange st payload).
Proof.
  unfold HandleDataNodeTabletStats, HandleDataNodeScanRange, HandleDataNodeDeleteRange.
  destruct (parse_range_total payload) as [[[lo hi]|] ->]; cbn [mbind outcome_bind];
    [|split_and!; answer_].
  split_and!.
  - destruct (DataNodeGetTabletStats st lo hi) as [[? n] med]. answer_.
  - destruct st as [d|]; [|answer_]. destruct (RangeQuery d lo hi scan_entry _). answer_.
  - destruct st as [d|]; [|answer_]. destruct (DeleteRange d lo hi) as [d' []]; answer_.
Qed.
End Totality.

(** ** The requests that read past the payload *)

(** A GET whose key is announced longer than the payload. *)
Definition get_overread (payload : bytes) : Prop :=
  ∃ kl, at_ payload 0 = Ret OP_GET ∧ 7 ≤ zlen payload < 7 + kl ∧
    rd16 payload 1 = Ret kl ∧ rd32 payload 3 = Ret 0.

(** A PUT whose 32-bit sum of sizes wraps below the size of the payload. *)
Definition put_overread (payload : bytes) : Prop :=
  ∃ kl vl, at_ payload 0 = Ret OP_PUT ∧ 7 ≤ zlen payload ∧
    rd16 payload 1 = Ret kl ∧ rd32 payload 3 = Ret vl ∧
    u32 (7 + kl + vl) ≤ zlen payload < 7 + kl + vl.

Section Safety.
Context {D : Type} `{LevelDB D}.

Lemma bad_request_answers (st : option D) : answers st (Ret (st, status ST_BAD_REQUEST)).
Proof.
  exists st, (status ST_BAD_REQUEST). split; [done|]. split; [|done].
  exists ST_BAD_REQUEST, []. split; [done|set_solver].
Qed.

Lemma put_iff (st : option D) payload :
  at_ payload 0 = Ret OP_PUT →
  (put_overread payload ∧ HandleDataNodePut st payload = UB) ∨
  (¬ put_overread payload ∧ answers st (HandleDataNodePut st payload)).
Proof.
  intros Hop. destruct (Z.ltb_spec (zlen payload) 7) as [Hs|Hs].
  { right. unfold HandleDataNodePut. destruct (Z.ltb_spec (zlen payload) 7); [|lia].
    split; [intros (?&?&?&?&_); lia|apply bad_request_answers]. }
  destruct (kv_header payload Hs) as (kl & vl & E1 & E2 & ? & ?).
  destruct (put_total st payload kl vl E1 E2) as [[Hw ?]|[Hw ?]]; try lia; [left|right].
  - split; [|done]. by exists kl, vl.
  - split; [|done]. intros (kl' & vl' & _ & _ & E1' & E2' & ?). apply Hw.
    rewrite E1 in E1'. rewrite E2 in E2'. by injection E1' as ->; injection E2' as ->.
Qed.

Lemma get_iff (st : option D) payload :
  at_ payload 0 = Ret OP_GET →
  (get_overread payload ∧ HandleDataNodeGet st payload = UB) ∨
  (¬ get_overread payload ∧ answers st (HandleDataNodeGet st payload)).
Proof.
  intros Hop. destruct (Z.ltb_spec (zlen payload) 7) as [Hs|Hs].
  { right. unfold HandleDataNodeGet. destruct (Z.ltb_spec (zlen payload) 7); [|lia].
    split; [intros (?&?&?&_); lia|apply bad_request_answers]. }
  destruct (kv_header payload Hs) as (kl & vl & E1 & E2 & ? & ?).
  destruct (get_total st payload kl vl E1 E2) as [(-> & Hw & ?)|[Hw ?]]; try lia; [left|right].
  - split; [|done]. by exists kl.
  - split; [|done]. intros (kl' & _ & ? & E1' & E2'). apply Hw.
    rewrite E1 in E1'. rewrite E2 in E2'. injection E1' as ->; injection E2' as ->. lia.
Qed.

Lemma other_iff (st : option D) payload op :
  at_ payload 0 = Ret op → op ≠ OP_PUT → op ≠ OP_GET →
  ¬ (get_overread payload ∨ put_overread payload).
Proof.
  intros Hop ? ? [(?&Hop'&_)|(?&?&Hop'&_)]; rewrite Hop in Hop'; by injection Hop'.
Qed.
End Safety.

Lemma request_safe_iff {D} `{LevelDB D} (st : option D) rid (payload : bytes) :
  let r := HandleDataNodeRequest st rid payload in
  (r = UB ↔ get_overread payload ∨ put_overread payload) ∧
  (¬ (get_overread payload ∨ put_overread payload) ↔ answers st r).
Proof.
  assert (Hub : answers st UB → False) by (intros (?&?&[=]&_)).
  assert (Hend : ∀ r P, P ∧ r = UB ∨ ¬ P ∧ answers st r → (r = UB ↔ P) ∧ (¬ P ↔ answers st r)).
  { intros r P [[HP ->]|[HP Ha]]; [tauto|]. split; [|tauto]. split; [|tauto].
    intros ->. by apply Hub in Ha. }
  cbv zeta. apply Hend. destruct (decide (payload = [])) as [->|Hne].
  { right. split; [|apply bad_request_answers]. intros [(?&_&?&_)|(?&?&_&?&_)]; zlia. }
  destruct (at_in payload 0) as (op & Hop & _).
  { destruct payload; [done|]. zlia. }
  rewrite (dispatch st rid payload op Hop).
  destruct (Z.eqb_spec op OP_PUT) as [->|Hput].
  { destruct (put_iff st payload Hop) as [[??]|[??]]; [tauto|right]. split; [|done].
    intros [(?&Hop'&_)|?]; [|done]. by rewrite Hop in Hop'. }
  destruct (Z.eqb_spec op OP_GET) as [->|Hget].
  { destruct (get_iff st payload Hop) as [[??]|[??]]; [tauto|right]. split; [|done].
    intros [?|(?&?&Hop'&_)]; [done|]. by rewrite Hop in Hop'. }
  right. split; [by eapply other_iff|]. destruct (range_total st payload) as (? & ? & ?).
  destruct (op =? OP_DELETE); [apply delete_total|].
  repeat (destruct (op =? _); [done|]). apply bad_request_answers.
Qed.

(** ** The effect of the requests *)

(** On a healthy database the data node is a map behind the wire format: the
    request frames the clients build for PUT, GET and DELETE update and read the
    stored map and answer [ST_OK] (with the value for GET) or, for a GET of an
    absent key, [ST_NOT_FOUND]; deleting an absent key answers [ST_OK] too. *)
Lemma datanode_kv {D} `{LevelDBSpec D} (d : D) rid (key value : bytes)
    (Hh : ldb_healthy d) (Hk : zlen key < 2 ^ 16) (Hv : zlen key + zlen value < 2 ^ 32 - 17) :
  (∃ d', HandleDataNodeRequest (Some d) rid (kv_payload OP_PUT key value) =
           Ret (Some d', [byte_of_Z ST_OK]) ∧
         ldb_healthy d' ∧ ldb_view d' = <[key := value]> (ldb_view d)) ∧
  HandleDataNodeRequest (Some d) rid (kv_payload OP_GET key []) =
    Ret (Some d, match ldb_view d !! key with
                 | Some v => byte_of_Z ST_OK :: v
                 | None => [byte_of_Z ST_NOT_FOUND]
                 end) ∧
  (∃ d', HandleDataNodeRequest (Some d) rid (kv_payload OP_DELETE key []) =
           Ret (Some d', [byte_of_Z ST_OK]) ∧
         ldb_healthy d' ∧ ldb_view d' = delete key (ldb_view d)).
Proof.
  split_and!.
  - rewrite put_request by done. unfold Put. pose proof (ldb_put_healthy d key value Hh) as [Hok ?].
    destruct (ldb_put d key value) as [d' b] eqn:E. simpl in *. subst b.
    exists d'. by rewrite (ldb_put_ok _ _ _ _ E).
  - rewrite get_request by done. unfold Get. rewrite ldb_get_healthy by done.
    by destruct (ldb_view d !! key).
  - rewrite delete_request by done. unfold Delete. pose proof (ldb_delete_healthy d key Hh) as [Hok ?].
    destruct (ldb_delete d key) as [d' b] eqn:E. simpl in *. subst b.
    exists d'. by rewrite (ldb_delete_ok _ _ _ E).
Qed.

(** The three range requests the master sends act on exactly the keys of the
    range: TABLET_STATS answers the count and the median of [RangeStats],
    SCAN_RANGE the count and the records of the entries of the range in key
    order, DELETE_RANGE removes exactly these entries and answers [ST_OK]. *)
Lemma datanode_ranges {D} `{LevelDBSpec D} (d : D) rid (lo hi : bytes)
    (Hh : ldb_healthy d) (Hlo : zlen lo < 2 ^ 16) (Hhi : zlen hi < 2 ^ 16)
    (Hn : zlen (map_range (ldb_view d) lo hi) < 2 ^ 32) :
  let l := map_range (ldb_view d) lo hi in
  (∃ med, HandleDataNodeRequest (Some d) rid (range_payload OP_TABLET_STATS lo hi) =
     Ret (Some d, [byte_of_Z ST_OK] ++ be32 (zlen l) ++ be16 (u16 (zlen med)) ++ med) ∧
     (l = [] → med = []) ∧ (l ≠ [] → fst <$> l !! Z.to_nat (zlen l / 2) = Some med)) ∧
  HandleDataNodeRequest (Some d) rid (range_payload OP_SCAN_RANGE lo hi) =
    Ret (Some d, [byte_of_Z ST_OK] ++ be32 (zlen l) ++ scan_records l) ∧
  (∃ d', HandleDataNodeRequest (Some d) rid (range_payload OP_DELETE_RANGE lo hi) =
           Ret (Some d', [byte_of_Z ST_OK]) ∧
         ldb_healthy d' ∧
         ∀ k, ldb_view d' !! k = if decide (in_range lo hi k) then None else ldb_view d !! k).
Proof.
  cbv zeta. set (l := map_range (ldb_view d) lo hi) in *. split_and!.
  - pose proof (stats_request d rid lo hi Hh Hlo Hhi) as E.
    rewrite RangeStats_healthy in E by done. cbv zeta in E. fold l in E.
    assert (Hz : zlen l.*1 = zlen l) by (unfold zlen; by rewrite length_fmap).
    rewrite Hz in E. rewrite (u32_small (zlen l)) in E by (split; [apply zlen_nonneg|done]).
    eexists. split; [exact E|]. split.
    + by intros ->.
    + intros Hne. destruct (Z.eqb_spec (zlen l) 0) as [Hl|Hl]; [by apply zlen_0_inv in Hl|].
      assert (Hi : (Z.to_nat (zlen l / 2) < length l)%nat).
      { pose proof (zlen_nonneg l). apply Nat2Z.inj_lt.
        rewrite Z2Nat.id by (apply Z.div_pos; lia). apply Z.div_lt; unfold zlen in *; lia. }
      apply lookup_lt_is_Some in Hi as [p Hi]. rewrite Hi, nth_lookup, list_lookup_fmap, Hi. done.
  - by apply scan_request.
  - rewrite delete_range_request by done.
    destruct (DeleteRange_healthy d lo hi Hh) as (_ & ? & Hv).
    eexists. split; [done|]. split; [done|]. intros k. rewrite Hv, map_lookup_filter.
    destruct (ldb_view d !! k); simpl; case_decide; simpl; by try case_guard.
Qed.

(** ** Properties *)

(** C8: on a healthy database the data node is a map behind the wire format.  The
    request frames the clients build for PUT, GET and DELETE update and read the
    stored map and answer [ST_OK] (with the value for GET) or, for a GET of an
    absent key, [ST_NOT_FOUND]; deleting an absent key answers [ST_OK] too.  This is so for every key and value of the
    lengths the frame can carry, the empty ones included, which the protocol document does not allow in these requests
    (it wants a key in all of them and a value in PUT): they are stored like any other.  A GET or DELETE that carries a value is
    answered [ST_BAD_REQUEST], as the document says, and changes nothing.  The three range requests the master sends act on
    exactly the keys of the range: TABLET_STATS answers the count and the median of the range,
    SCAN_RANGE the count and the records of the entries of the range in key
    order, DELETE_RANGE removes exactly these entries and answers [ST_OK]. *)
Theorem datanode_map {D} `{LevelDBSpec D} (d : D) rid (Hh : ldb_healthy d) :
  (∀ key value, zlen key < 2 ^ 16 → zlen key + zlen value < 2 ^ 32 - 17 →
     (∃ d', HandleDataNodeRequest (Some d) rid (kv_payload OP_PUT key value) = Ret (Some d', [byte_of_Z ST_OK]) ∧
        ldb_healthy d' ∧ ldb_view d' = <[key := value]> (ldb_view d)) ∧
     HandleDataNodeRequest (Some d) rid (kv_payload OP_GET key []) =
       Ret (Some d, match ldb_view d !! key with
                    | Some v => byte_of_Z ST_OK :: v
                    | None => [byte_of_Z ST_NOT_FOUND]
                    end) ∧
     ∃ d', HandleDataNodeRequest (Some d) rid (kv_payload OP_DELETE key []) = Ret (Some d', [byte_of_Z ST_OK]) ∧
        ldb_healthy d' ∧ ldb_view d' = delete key (ldb_view d)) ∧
  (∀ lo hi, let l := map_range (ldb_view d) lo hi in
     zlen lo < 2 ^ 16 → zlen hi < 2 ^ 16 → zlen l < 2 ^ 32 →
     (∃ med, HandleDataNodeRequest (Some d) rid (range_payload OP_TABLET_STATS lo hi) =
        Ret (Some d, [byte_of_Z ST_OK] ++ be32 (zlen l) ++ be16 (u16 (zlen med)) ++ med) ∧
        (l = [] → med = []) ∧ (l ≠ [] → fst <$> l !! Z.to_nat (zlen l / 2) = Some med)) ∧
     HandleDataNodeRequest (Some d) rid (range_payload OP_SCAN_RANGE lo hi) =
       Ret (Some d, [byte_of_Z ST_OK] ++ be32 (zlen l) ++ scan_records l) ∧
     ∃ d', HandleDataNodeRequest (Some d) rid (range_payload OP_DELETE_RANGE lo hi) = Ret (Some d', [byte_of_Z ST_OK]) ∧
       ldb_healthy d' ∧ ∀ k, ldb_view d' !! k = if decide (in_range lo hi k) then None else ldb_view d !! k) ∧
  (∀ op key value, op = OP_GET ∨ op = OP_DELETE → zlen key < 2 ^ 16 → zlen value < 2 ^ 32 → value ≠ [] →
     HandleDataNodeRequest (Some d) rid (kv_payload op key value) = Ret (Some d, [byte_of_Z ST_BAD_REQUEST])).
Proof.
  split; [intros; by apply datanode_kv|]. split; [cbv zeta; intros; by apply datanode_ranges|].
  intros. by apply value_refused.
Qed.

Lemma datanode_map_witness :
  (∃ d', HandleDataNodeRequest (Some demo_db) 1 (kv_payload OP_PUT [] []) = Ret (Some d', [byte_of_Z ST_OK]) ∧
     ldb_view d' !! [] = Some []) ∧
  HandleDataNodeRequest (Some demo_db) 1 (kv_payload OP_GET (str "a") []) =
    Ret (Some demo_db, byte_of_Z ST_OK :: str "1") ∧
  HandleDataNodeRequest (Some demo_db) 1 (range_payload OP_SCAN_RANGE (str "a") (str "n")) =
    Ret (Some demo_db, [byte_of_Z ST_OK] ++ be32 3 ++
      scan_records [(str "a", str "1"); (str "b", str "2"); (str "m", str "3")]).
Proof.
  assert (Hh : ldb_healthy demo_db) by reflexivity. destruct (datanode_map demo_db 1 Hh) as (Hkv & Hrange & _).
  split; [|split].
  - destruct (Hkv [] []) as ((d' & E & _ & Hv) & _); [vm_compute; congruence|vm_compute; congruence|].
    exists d'. split; [exact E|]. rewrite Hv. reflexivity.
  - destruct (Hkv (str "a") (str "x")) as (_ & E & _); [vm_compute; congruence|vm_compute; congruence|].
    rewrite E. vm_compute. reflexivity.
  - destruct (Hrange (str "a") (str "n")) as (_ & E & _); [vm_compute; reflexivity..|].
    rewrite E. vm_compute. reflexivity.
Defined.

(** C12: the exact safety condition of the data node: for every storage state
    and every payload, the dispatcher returns an answer whose status is one of
    [ST_OK], [ST_NOT_FOUND], [ST_BAD_REQUEST], [ST_TIMEOUT] (never
    [ST_NOT_MY_SHARD], [ST_KEY_TOO_LONG] or [ST_VALUE_TOO_LONG]), except for the
    two requests whose bounds test is missing or wraps around: a GET whose key
    is announced longer than the payload, and a PUT whose announced sizes sum up
    past 2^32; these read outside the payload. *)
Theorem datanode_safe_iff {D} `{LevelDB D} (st : option D) rid (payload : bytes) :
  let r := HandleDataNodeRequest st rid payload in
  (r = UB ↔ get_overread payload ∨ put_overread payload) ∧
  (¬ (get_overread payload ∨ put_overread payload) ↔ answers st r).
Proof. apply request_safe_iff. Qed.

