(* ===== verification/SharedStorage.v ===== *)
(** * The connections of a data node (src/kv/raft_node.cpp, src/storage/storage_engine.cpp)

    The server runs one thread for each connection, and all of them call the
    handlers of DataNode.v on one [StorageEngine].  [Put], [Delete] and
    [DeleteRange] hold its mutex; [Get] and the scans do not, and each of
    them looks at one state of the database (an iterator of LevelDB is a
    snapshot).  [DeleteRange] deletes key by key, so a reader can meet it half done.  Here the threads
    are interleaved at every lock, unlock and call of the database. *)

From S2P Require Import Prelude StringOrder BinaryProtocol Storage RpcClient RpcServer DataNode.

Abbreviation request := (Z * bytes)%type.

(** Where the thread of a connection stands. *)
Inductive thread : Type :=
  | Reading
  | Handling (r : request)
  | Locked (r : request)
  | Deleting (keys : list bytes)
  | Unlocking (rp : bytes)
  | Answering (rp : bytes).

(** What it does to the database: a whole handler with its answer, without and with the mutex; or
    the two passes of [DeleteRange]. *)
Inductive effect : Type :=
  | Looked (r : request) (rp : bytes)
  | Wrote (r : request) (rp : bytes)
  | Collected (r : request) (keys : list bytes)
  | Removed (key : bytes).

(** What is seen of the thread [c]. *)
Inductive label : Type :=
  | Call (c : nat) (r : request)
  | Effect (c : nat) (e : effect)
  | Return (c : nat) (rp : bytes).

Section Threads.
Context {D : Type} `{LevelDB D}.

Record Shared := { storage_ : option D; mutex_ : option nat; threads : list thread }.

Definition set_thread (s : Shared) (c : nat) (t : thread) : Shared :=
  {| storage_ := storage_ s; mutex_ := mutex_ s; threads := <[c := t]> (threads s) |}.
Definition set_mutex (s : Shared) (m : option nat) : Shared :=
  {| storage_ := storage_ s; mutex_ := m; threads := threads s |}.
Definition set_storage (s : Shared) (st : option D) : Shared :=
  {| storage_ := st; mutex_ := mutex_ s; threads := threads s |}.

Definition opcode_in (ops : list Z) (payload : bytes) : bool :=
  match at_ payload 0 with Ret op => bool_decide (op ∈ ops) | _ => false end.

(** The handler gets as far as a call of [storage_] that takes the mutex. *)
Definition takes_mutex (st : option D) (r : request) : bool :=
  bool_decide (is_Some st) && opcode_in [OP_PUT; OP_DELETE; OP_DELETE_RANGE] r.2 &&
  match HandleDataNodeRequest st r.1 r.2 with
  | Ret (_, rp) => negb (bool_decide (rp = status ST_BAD_REQUEST))
  | _ => false
  end.

Inductive storage_step : Shared → list label → Shared → Prop :=
  (** The thread has received a frame and calls the handler. *)
  | step_call s c r :
      threads s !! c = Some Reading → storage_step s [Call c r] (set_thread s c (Handling r))
  (** A request that takes no mutex: its one access to the database. *)
  | step_look s c r st' rp :
      threads s !! c = Some (Handling r) → takes_mutex (storage_ s) r = false →
      HandleDataNodeRequest (storage_ s) r.1 r.2 = Ret (st', rp) →
      storage_step s [Effect c (Looked r rp)] (set_thread (set_storage s st') c (Answering rp))
  (** [lock_guard] *)
  | step_lock s c r :
      threads s !! c = Some (Handling r) → takes_mutex (storage_ s) r = true → mutex_ s = None →
      storage_step s [] (set_thread (set_mutex s (Some c)) c (Locked r))
  (** [Put] and [Delete] of the engine: one call of the database. *)
  | step_write s c r st' rp :
      threads s !! c = Some (Locked r) → opcode_in [OP_PUT; OP_DELETE] r.2 = true →
      HandleDataNodeRequest (storage_ s) r.1 r.2 = Ret (st', rp) →
      storage_step s [Effect c (Wrote r rp)] (set_thread (set_storage s st') c (Unlocking rp))
  (** The first pass of [DeleteRange]. *)
  | step_collect s c r lo hi d :
      threads s !! c = Some (Locked r) → opcode_in [OP_DELETE_RANGE] r.2 = true →
      parse_range r.2 = Ret (Some (lo, hi)) → storage_ s = Some d →
      storage_step s [Effect c (Collected r (collect_keys hi (ldb_seek d lo)))]
        (set_thread s c (Deleting (collect_keys hi (ldb_seek d lo))))
  (** One turn of its second pass. *)
  | step_delete s c k ks d :
      threads s !! c = Some (Deleting (k :: ks)) → storage_ s = Some d →
      storage_step s [Effect c (Removed k)] (set_thread (set_storage s (Some (ldb_delete d k).1)) c (Deleting ks))
  | step_deleted s c :
      threads s !! c = Some (Deleting []) → storage_step s [] (set_thread s c (Unlocking (status ST_OK)))
  | step_unlock s c rp :
      threads s !! c = Some (Unlocking rp) → storage_step s [] (set_thread (set_mutex s None) c (Answering rp))
  (** The response frame is sent. *)
  | step_return s c rp :
      threads s !! c = Some (Answering rp) → storage_step s [Return c rp] (set_thread s c Reading).

Inductive storage_run : Shared → list label → Shared → Prop :=
  | storage_run_nil s : storage_run s [] s
  | storage_run_snoc s tr s1 l s2 : storage_run s tr s1 → storage_step s1 l s2 → storage_run s (tr ++ l) s2.

(** A server with [n] connections. *)
Definition connections (st : option D) (n : nat) : Shared :=
  {| storage_ := st; mutex_ := None; threads := replicate n Reading |}.

(** ** The specification: one sequential run *)

(** The effects happen one after the other. *)
Definition effect_step (st : option D) (e : effect) (st' : option D) : Prop :=
  match e with
  | Looked r rp => HandleDataNodeRequest st r.1 r.2 = Ret (st, rp) ∧ st' = st
  | Wrote r rp => HandleDataNodeRequest st r.1 r.2 = Ret (st', rp)
  | Collected r keys =>
      st' = st ∧ ∃ d lo hi, st = Some d ∧ at_ r.2 0 = Ret OP_DELETE_RANGE ∧
        parse_range r.2 = Ret (Some (lo, hi)) ∧ keys = collect_keys hi (ldb_seek d lo)
  | Removed k => ∃ d, st = Some d ∧ st' = Some (ldb_delete d k).1
  end.

Fixpoint replay (st : option D) (es : list effect) (st' : option D) : Prop :=
  match es with
  | [] => st' = st
  | e :: es => ∃ st1, effect_step st e st1 ∧ replay st1 es st'
  end.

(** Whole requests, one after the other, with their answers. *)
Fixpoint handled (st : option D) (l : list (request * bytes)) (st' : option D) : Prop :=
  match l with
  | [] => st' = st
  | (r, rp) :: l => ∃ st1, HandleDataNodeRequest st r.1 r.2 = Ret (st1, rp) ∧ handled st1 l st'
  end.
End Threads.
Arguments Shared : clear implicits.

Definition effects (tr : list label) : list effect :=
  omap (fun l => match l with Effect _ e => Some e | _ => None end) tr.

(** The requests that write, each where it took effect; a DELETE_RANGE where it collected its keys. *)
Definition writes (es : list effect) : list (request * bytes) :=
  omap (fun e => match e with
                 | Wrote r rp => Some (r, rp)
                 | Collected r _ => Some (r, status ST_OK)
                 | _ => None
                 end) es.

Definition label_thread (l : label) : nat := match l with Call c _ | Effect c _ | Return c _ => c end.
Definition own (c : nat) (tr : list label) : list label := filter (fun l => label_thread l = c) tr.

(** One request of a connection from the call to the return. *)
Inductive exchanged (c : nat) : list label → Prop :=
  | exchanged_look r rp : exchanged c [Call c r; Effect c (Looked r rp); Return c rp]
  | exchanged_write r rp : exchanged c [Call c r; Effect c (Wrote r rp); Return c rp]
  | exchanged_range r keys :
      exchanged c (Call c r :: Effect c (Collected r keys) :: ((fun k => Effect c (Removed k)) <$> keys)
                     ++ [Return c (status ST_OK)]).

(** What a thread has done of the request it is at. *)
Definition started (c : nat) (t : thread) (l : list label) : Prop :=
  match t with
  | Reading => l = []
  | Handling r | Locked r => l = [Call c r]
  | Deleting ks => ∃ r gone, l = Call c r :: Effect c (Collected r (gone ++ ks)) ::
                               ((fun k => Effect c (Removed k)) <$> gone)
  | Unlocking rp | Answering rp => exchanged c (l ++ [Return c rp])
  end.

Definition calls (c : nat) (tr : list label) : list request :=
  omap (fun l => match l with Call c' r => if decide (c' = c) then Some r else None | _ => None end) tr.
Definition returns (c : nat) (tr : list label) : list bytes :=
  omap (fun l => match l with Return c' rp => if decide (c' = c) then Some rp else None | _ => None end) tr.

(** The handler as the thread of one connection meets it: the answers it gets, in order. *)
Definition answers_of : BinaryHandler (list bytes) :=
  fun rps _ _ => match rps with rp :: rps => Ret (rps, rp) | [] => UB end.

(** ** Lemmas *)
Section Lemmas.
Context {D : Type} `{LevelDB D}.
Implicit Types (d : D) (st : option D) (s : Shared D) (tr : list label).

(** The tests at the start of a handler, and the fields it reads. *)
Ltac handler_start :=
  repeat match goal with
  | |- (if ?b then Ret (_, status ST_BAD_REQUEST) else _) = _ → _ => destruct b; [intros [= <- _]; by left|]
  | |- mbind _ ?m = _ → _ => destruct m; cbn [mbind outcome_bind]; [|done|done]
  end.

(** A handler that takes no mutex leaves the storage alone. *)
Lemma handler_reads st st' rid p rp :
  HandleDataNodeRequest st rid p = Ret (st', rp) →
  st' = st ∨ (is_Some st ∧ is_Some st') ∧ opcode_in [OP_PUT; OP_DELETE; OP_DELETE_RANGE] p = true ∧ rp ≠ status ST_BAD_REQUEST.
Proof.
  unfold HandleDataNodeRequest, opcode_in. case_bool_decide; [intros [= <- _]; by left|].
  destruct (at_ p 0) as [op| |]; cbn [mbind outcome_bind]; try done.
  destruct (Z.eqb_spec op OP_PUT) as [->|_].
  { unfold HandleDataNodePut. handler_start. destruct st as [d|]; [|intros [= <- _]; by left].
    destruct (Put d _ _) as [d' []]; intros [= <- <-]; right; by split_and!. }
  destruct (Z.eqb_spec op OP_GET) as [E|_].
  { unfold HandleDataNodeGet. handler_start. destruct st as [d|]; [|intros [= <- _]; by left].
    destruct (Get d _); intros [= <- _]; by left. }
  destruct (Z.eqb_spec op OP_DELETE) as [->|_].
  { unfold HandleDataNodeDelete. handler_start. destruct st as [d|]; [|intros [= <- _]; by left].
    destruct (Delete d _) as [d' []]; intros [= <- <-]; right; by split_and!. }
  unfold HandleDataNodeTabletStats, HandleDataNodeScanRange, HandleDataNodeDeleteRange.
  destruct (Z.eqb_spec op OP_TABLET_STATS) as [->|_]; [|destruct (Z.eqb_spec op OP_SCAN_RANGE) as [->|_];
    [|destruct (Z.eqb_spec op OP_DELETE_RANGE) as [->|_]; [|intros [= <- _]; by left]]];
    (destruct (parse_range p) as [[[lo hi]|]| |]; cbn [mbind outcome_bind]; try done; [|intros [= <- _]; by left]).
  - destruct (DataNodeGetTabletStats st lo hi) as [[? ?] ?]. intros [= <- _]. by left.
  - destruct st as [d|]; [|intros [= <- _]; by left]. destruct (RangeQuery d lo hi _ _). intros [= <- _]. by left.
  - destruct st as [d|]; [|intros [= <- _]; by left]. unfold DeleteRange. intros [= <- <-]. right. by split_and!.
Qed.

Lemma looked_unchanged st st' r rp :
  takes_mutex st r = false → HandleDataNodeRequest st r.1 r.2 = Ret (st', rp) → st' = st.
Proof.
  unfold takes_mutex. intros Ht Hh. destruct (handler_reads _ _ _ _ _ Hh) as [->|([Hs _] & Ho & Hb)]; [done|].
  rewrite Hh, Ho, bool_decide_eq_true_2 in Ht by done. by rewrite bool_decide_eq_false_2 in Ht.
Qed.

(** ** Replaying the effects *)
Lemma replay_app st es1 es2 st' :
  replay st (es1 ++ es2) st' ↔ ∃ st1, replay st es1 st1 ∧ replay st1 es2 st'.
Proof.
  revert st. induction es1 as [|e es1 IH]; intros st; cbn [app replay]; [naive_solver|].
  setoid_rewrite IH. naive_solver.
Qed.

Lemma handled_app st l1 l2 st' :
  handled st (l1 ++ l2) st' ↔ ∃ st1, handled st l1 st1 ∧ handled st1 l2 st'.
Proof.
  revert st. induction l1 as [|[r rp] l1 IH]; intros st; cbn [app handled]; [naive_solver|].
  setoid_rewrite IH. naive_solver.
Qed.

Lemma opcode_in_one op p : opcode_in [op] p = true → at_ p 0 = Ret op.
Proof. unfold opcode_in. destruct (at_ p 0) as [o| |]; try done. intros Ho%bool_decide_eq_true_1. set_solver. Qed.

Lemma step_effects s l s' : storage_step s l s' → replay (storage_ s) (effects l) (storage_ s').
Proof.
  destruct 1; cbn; try done.
  - exists (storage_ s). pose proof (looked_unchanged (storage_ s) st' r rp) as Hsame. rewrite Hsame in * by done. done.
  - by exists st'.
  - exists (storage_ s). split; [|done]. split; [done|]. exists d, lo, hi. split_and!; try done. by apply opcode_in_one.
  - eexists. split; [|done]. by exists d.
Qed.

Lemma run_effects s tr s' : storage_run s tr s' → replay (storage_ s) (effects tr) (storage_ s').
Proof.
  induction 1 as [s|s tr s1 l s2 _ IH Hstep]; [done|]. unfold effects. rewrite omap_app.
  apply replay_app. exists (storage_ s1). split; [done|]. by apply step_effects.
Qed.

(** ** The mutex *)
Definition holding (t : thread) : bool :=
  match t with Locked _ | Deleting _ | Unlocking _ => true | _ => false end.

(** The holder is the one thread past its lock, and its request will get through. *)
Record guarded s : Prop := {
  gd_holder : ∀ c t, threads s !! c = Some t → holding t = true ↔ mutex_ s = Some c;
  gd_thread : ∀ c, mutex_ s = Some c → is_Some (threads s !! c);
  gd_locked : ∀ c r, threads s !! c = Some (Locked r) → takes_mutex (storage_ s) r = true;
  gd_deleting : ∀ c ks, threads s !! c = Some (Deleting ks) → is_Some (storage_ s);
}.

Lemma connections_guarded st n : guarded (connections st n).
Proof.
  assert (Hr : ∀ c t, threads (connections st n) !! c = Some t → t = Reading) by (by intros c t [-> _]%lookup_replicate).
  split; [intros c t Ht|done|intros c r Ht|intros c ks Ht]; apply Hr in Ht; by subst.
Qed.

(** One thread moves on; the mutex and the storage are its own or as before. *)
Lemma guarded_update s s' c t t' :
  guarded s → threads s !! c = Some t → threads s' = <[c := t']> (threads s) →
  (mutex_ s' = mutex_ s ∧ holding t' = holding t ∨ mutex_ s = None ∧ mutex_ s' = Some c ∧ holding t' = true ∨
   holding t = true ∧ mutex_ s' = None ∧ holding t' = false) →
  (storage_ s' = storage_ s ∨ holding t = true ∧ is_Some (storage_ s')) →
  (∀ r, t' = Locked r → takes_mutex (storage_ s') r = true) → (∀ ks, t' = Deleting ks → is_Some (storage_ s')) →
  guarded s'.
Proof.
  intros [Hh Hm Hl Hd] Ht Hts Hmut Hst Hl' Hd'. pose proof (Hh c t Ht) as Hc.
  assert (Hlook : ∀ c2 t2, threads s' !! c2 = Some t2 → c2 = c ∧ t2 = t' ∨ c2 ≠ c ∧ threads s !! c2 = Some t2).
  { intros c2 t2. rewrite Hts. intros [(-> & -> & _)|[? ?]]%list_lookup_insert_Some; auto. }
  assert (Hst2 : ∀ c2 t2, c2 ≠ c → threads s !! c2 = Some t2 → holding t2 = true → storage_ s' = storage_ s).
  { intros c2 t2 Hne Ht2 Hh2. destruct Hst as [?|[Hht _]]; [done|]. apply Hc in Hht. apply (Hh c2 t2 Ht2) in Hh2. congruence. }
  split.
  - intros c2 t2 [[-> ->]|[Hne Ht2]]%Hlook.
    + destruct Hmut as [[-> ->]|[(? & -> & ->)|(? & -> & ->)]]; [done|done|]. split; done.
    + pose proof (Hh c2 t2 Ht2) as Hc2. destruct Hmut as [[-> _]|[(E & -> & _)|(E & -> & _)]]; [done|..].
      * rewrite Hc2, E. split; [done|]. intros [= ->]. done.
      * rewrite Hc2, (proj1 Hc E). split; [intros [= ->]; done|done].
  - intros c2 E. rewrite Hts. destruct (decide (c2 = c)) as [->|Hne].
    + rewrite list_lookup_insert_eq by (by eapply lookup_lt_Some). done.
    + rewrite list_lookup_insert_ne by done. apply Hm. destruct Hmut as [[<- _]|[(_ & E' & _)|(_ & E' & _)]]; congruence.
  - intros c2 r [[-> Et]|[Hne Ht2]]%Hlook; [by apply Hl'|]. rewrite (Hst2 c2 (Locked r)) by done. by eapply Hl.
  - intros c2 ks [[-> Et]|[Hne Ht2]]%Hlook; [by eapply Hd'|]. rewrite (Hst2 c2 (Deleting ks)) by done. by eapply Hd.
Qed.

Lemma takes_mutex_open st r : takes_mutex st r = true → is_Some st.
Proof. unfold takes_mutex. by intros [[?%bool_decide_eq_true_1 _]%andb_prop _]%andb_prop. Qed.

Lemma step_guarded s l s' : storage_step s l s' → guarded s → guarded s'.
Proof.
  intros Hstep Hg. pose proof (gd_locked _ Hg) as Hl. pose proof (gd_deleting _ Hg) as Hd.
  destruct Hstep as [s c r Ht|s c r st' rp Ht Hm Hr|s c r Ht Hm Hn|s c r st' rp Ht Ho Hr|s c r lo hi d Ht Ho Hp Hs
    |s c k ks d Ht Hs|s c Ht|s c rp Ht|s c rp Ht]; eapply (guarded_update s _ c _ _ Hg Ht); try done; cbn; auto.
  - left. by eapply looked_unchanged.
  - by intros r' [= <-].
  - right. split; [done|]. pose proof (takes_mutex_open _ _ (Hl _ _ Ht)).
    destruct (handler_reads _ _ _ _ _ Hr) as [->|[[_ ?] _]]; done.
Qed.

Lemma run_guarded s tr s' : storage_run s tr s' → guarded s → guarded s'.
Proof. induction 1 as [|s tr s1 l s2 _ IH Hstep]; [done|]. intros Hg. by eapply step_guarded, IH. Qed.

(** ** The requests that write, in the order of the mutex *)

(** The storage when the running [DeleteRange], if any, is through. *)
Definition finishing s (st' : option D) : Prop :=
  match mutex_ s ≫= (fun c => threads s !! c) with
  | Some (Deleting ks) => ∃ d, storage_ s = Some d ∧ st' = Some (fold_left (fun d k => (ldb_delete d k).1) ks d)
  | _ => st' = storage_ s
  end.

(** Other threads do not matter. *)
Lemma finishing_other s c t t' st' :
  guarded s → threads s !! c = Some t → holding t = false → finishing s st' → finishing (set_thread s c t') st'.
Proof.
  intros Hg Ht Hh. unfold finishing. cbn. destruct (mutex_ s) as [c2|] eqn:E; [|done]. cbn.
  rewrite list_lookup_insert_ne; [done|]. intros ->. rewrite <- (gd_holder _ Hg _ _ Ht) in E. by rewrite Hh in E.
Qed.

Lemma finishing_holder s c t st' :
  guarded s → threads s !! c = Some t → holding t = true →
  finishing s st' ↔ match t with
                    | Deleting ks => ∃ d, storage_ s = Some d ∧ st' = Some (fold_left (fun d k => (ldb_delete d k).1) ks d)
                    | _ => st' = storage_ s
                    end.
Proof.
  intros Hg Ht Hh. unfold finishing. rewrite (proj1 (gd_holder _ Hg _ _ Ht) Hh). cbn. rewrite Ht. by destruct t.
Qed.

Lemma delete_range_handled d (r : request) lo hi :
  at_ r.2 0 = Ret OP_DELETE_RANGE → parse_range r.2 = Ret (Some (lo, hi)) →
  HandleDataNodeRequest (Some d) r.1 r.2 =
    Ret (Some (fold_left (fun d k => (ldb_delete d k).1) (collect_keys hi (ldb_seek d lo)) d), status ST_OK).
Proof.
  intros Hop Hp. unfold HandleDataNodeRequest. rewrite bool_decide_eq_false_2.
  2: { intros E. by rewrite E in Hp. }
  rewrite Hop. cbn [mbind outcome_bind]. unfold OP_DELETE_RANGE, OP_SCAN_RANGE, OP_TABLET_STATS, OP_PUT, OP_GET, OP_DELETE.
  cbn [Z.eqb Pos.eqb]. unfold HandleDataNodeDeleteRange. by rewrite Hp.
Qed.

Lemma step_writes s l s' st1 :
  guarded s → storage_step s l s' → finishing s st1 →
  ∃ st2, handled st1 (writes (effects l)) st2 ∧ finishing s' st2.
Proof.
  intros Hg Hstep Hf. pose proof (step_guarded _ _ _ Hstep Hg) as Hg'.
  assert (Hlt : ∀ c t t', threads s !! c = Some t → <[c := t']> (threads s) !! c = Some t')
    by (intros c t t' Ht; apply list_lookup_insert_eq; by eapply lookup_lt_Some).
  destruct Hstep as [s c r Ht|s c r st' rp Ht Hm Hr|s c r Ht Hm Hn|s c r st' rp Ht Ho Hr|s c r lo hi d Ht Ho Hp Hs
    |s c k ks d Ht Hs|s c Ht|s c rp Ht|s c rp Ht];
    try rewrite (finishing_holder _ c _ _ Hg Ht eq_refl) in Hf;
    try setoid_rewrite (finishing_holder _ c _ _ Hg' (Hlt _ _ _ Ht) eq_refl);
    cbn [writes effects omap list_omap handled storage_ set_thread set_storage set_mutex] in *.
  - exists st1. split; [done|]. by eapply finishing_other.
  - rewrite (looked_unchanged _ _ _ _ Hm Hr). exists st1. split; [done|]. destruct s. by eapply finishing_other.
  - exists st1. split; [done|]. unfold finishing in Hf. by rewrite Hn in Hf.
  - exists st'. split; [|done]. exists st'. by rewrite Hf.
  - eexists. split; [|by exists d]. eexists. split; [|done]. rewrite Hf, Hs.
    apply delete_range_handled; [by apply opcode_in_one|done].
  - destruct Hf as (d' & Hd' & ->). rewrite Hs in Hd'. injection Hd' as <-. eexists. split; [done|]. by eexists.
  - destruct Hf as (d' & Hd' & ->). exists (Some d'). split; [done|]. by rewrite Hd'.
  - exists st1. split; [done|]. exact Hf.
  - exists st1. split; [done|]. by eapply finishing_other.
Qed.

Lemma run_writes s tr s' st1 :
  storage_run s tr s' → guarded s → finishing s st1 → ∃ st2, handled st1 (writes (effects tr)) st2 ∧ finishing s' st2.
Proof.
  induction 1 as [s|s tr s1 l s2 Hrun IH Hstep]; [by exists st1|]. intros Hg Hf. destruct (IH Hg Hf) as (st2 & H2 & Hf2).
  destruct (step_writes s1 l s2 st2 (run_guarded _ _ _ Hrun Hg) Hstep Hf2) as (st3 & H3 & Hf3). exists st3. split; [|done].
  unfold writes, effects. rewrite !omap_app. apply handled_app. by exists st2.
Qed.

(** ** The threads, one by one *)
Lemma own_app c tr1 tr2 : own c (tr1 ++ tr2) = own c tr1 ++ own c tr2.
Proof. apply filter_app. Qed.

(** What a step is for the thread that makes it. *)
Lemma step_thread s l s' :
  storage_step s l s' → ∃ c t t', threads s !! c = Some t ∧ threads s' = <[c := t']> (threads s) ∧
    own c l = l ∧ (∀ c', c' ≠ c → own c' l = []) ∧
    ∀ l2, started c t l2 → started c t' (l2 ++ l) ∨ t' = Reading ∧ exchanged c (l2 ++ l).
Proof.
  assert (Hown : ∀ c x, label_thread x = c → own c [x] = [x] ∧ ∀ c', c' ≠ c → own c' [x] = []).
  { intros c x <-. unfold own. rewrite filter_cons_True by done. split; [done|]. intros c' Hne. by rewrite filter_cons_False. }
  destruct 1 as [s c r Ht|s c r st' rp Ht Hm Hr|s c r Ht Hm Hn|s c r st' rp Ht Ho Hr|s c r lo hi d Ht Ho Hp Hs
    |s c k ks d Ht Hs|s c Ht|s c rp Ht|s c rp Ht]; exists c; eexists _, _; (split; [exact Ht|]); (split; [done|]);
    (split; [try done; by apply (Hown c)|]); (split; [try done; by apply (Hown c)|]); intros l2 Hl2; cbn [started] in *.
  - left. by subst.
  - left. subst. constructor.
  - left. by subst.
  - left. subst. constructor.
  - left. subst. by exists r, [].
  - left. destruct Hl2 as (r & gone & ->). exists r, (gone ++ [k]). rewrite <- app_assoc, fmap_app. done.
  - left. destruct Hl2 as (r & gone & ->). rewrite !app_nil_r. apply exchanged_range.
  - left. by rewrite app_nil_r.
  - by right.
Qed.

Lemma run_threads st n tr s c t :
  storage_run (connections st n) tr s → threads s !! c = Some t →
  ∃ ls l2, own c tr = concat ls ++ l2 ∧ Forall (exchanged c) ls ∧ started c t l2.
Proof.
  remember (connections st n) as s0 eqn:E0. intros Hrun. revert t. induction Hrun as [s|s tr s1 l s2 _ IH Hstep]; intros t Ht.
  - subst. apply lookup_replicate in Ht as [-> _]. by exists [], [].
  - destruct (step_thread _ _ _ Hstep) as (c1 & t1 & t2 & Ht1 & Hts & Hl & Hl' & Hst). rewrite own_app.
    rewrite Hts in Ht. apply list_lookup_insert_Some in Ht as [(<- & <- & _)|[Hne Ht]].
    + destruct (IH E0 _ Ht1) as (ls & l2 & -> & Hls & Hl2). rewrite Hl, <- app_assoc.
      destruct (Hst _ Hl2) as [Hn|[-> Hn]]; [by exists ls, (l2 ++ l)|].
      exists (ls ++ [l2 ++ l]), []. rewrite concat_app, !app_nil_r. cbn [concat]. rewrite app_nil_r. split; [done|].
      split; [|done]. apply Forall_app. split; [done|]. by apply Forall_singleton.
    + rewrite Hl' by done. rewrite app_nil_r. by apply IH.
Qed.

(** The calls and the returns of a thread are its own. *)
Lemma calls_own c tr : calls c tr = calls c (own c tr) ∧ returns c tr = returns c (own c tr).
Proof.
  unfold calls, returns, own. induction tr as [|x tr [IH1 IH2]]; [done|].
  destruct (decide (label_thread x = c)) as [E|E].
  - rewrite filter_cons_True by done. cbn [omap list_omap]. by rewrite IH1, IH2.
  - rewrite filter_cons_False by done. cbn [omap list_omap].
    destruct x as [c' ?|c' ?|c' ?]; cbn [label_thread] in E; rewrite ?decide_False by done; done.
Qed.

Lemma exchanged_one c l : exchanged c l → ∃ r rp, calls c l = [r] ∧ returns c l = [rp].
Proof.
  unfold calls, returns. destruct 1 as [r rp|r rp|r keys]; cbn [omap list_omap]; rewrite ?decide_True by done;
    [by exists r, rp..|]. exists r, (status ST_OK). rewrite !omap_app. cbn [omap list_omap]. rewrite !decide_True by done.
  assert (Hn : ∀ X (f : label → option X), (∀ k, f (Effect c (Removed k)) = None) →
    omap f ((fun k => Effect c (Removed k)) <$> keys) = []).
  { intros X f Hf. induction keys as [|k keys IH]; [done|]. cbn. by rewrite Hf. }
  by rewrite !Hn.
Qed.

Lemma exchanged_lengths c ls : Forall (exchanged c) ls → length (calls c (concat ls)) = length (returns c (concat ls)).
Proof.
  unfold calls, returns. induction 1 as [|l ls Hl _ IH]; [done|]. cbn [concat]. rewrite !omap_app, !length_app, IH.
  destruct (exchanged_one c l Hl) as (r & rp & Hc & Hr). unfold calls, returns in Hc, Hr. by rewrite Hc, Hr.
Qed.

Lemma serve_answers rps reqs :
  length reqs = length rps →
  serve_all answers_of rps reqs = Ret ([], concat (zip_with (fun (r : request) rp => response_frame r.1 rp) reqs rps)).
Proof.
  revert rps. induction reqs as [|[rid p] reqs IH]; intros [|rp rps] E; try done. injection E as E.
  cbn [serve_all answers_of mbind outcome_bind]. rewrite pack_response_frame. cbn [mbind outcome_bind]. by rewrite (IH rps E).
Qed.

(** ** Every request comes to its end *)
Definition quiet (tr : list label) : Prop := ∀ c, calls c tr = [].

Lemma quiet_app tr1 tr2 : quiet tr1 → quiet tr2 → quiet (tr1 ++ tr2).
Proof. intros H1 H2 c. unfold quiet, calls in *. by rewrite omap_app, H1, H2. Qed.

(** The thread [c] goes on alone, without a new call, and comes to [t']. *)
Definition goes_to s (c : nat) (t' : thread) : Prop :=
  ∃ tr s', storage_run s tr s' ∧ quiet tr ∧ threads s' = <[c := t']> (threads s) ∧ mutex_ s' = None.

Lemma run_one s l s' : storage_step s l s' → storage_run s l s'.
Proof. intros Hs. apply (storage_run_snoc s [] s); [constructor|done]. Qed.

Lemma run_trans s tr1 s1 tr2 s2 : storage_run s tr1 s1 → storage_run s1 tr2 s2 → storage_run s (tr1 ++ tr2) s2.
Proof.
  intros Hrun. induction 1 as [|s1 tr2 s2 l s3 _ IH Hs]; [by rewrite app_nil_r|].
  rewrite app_assoc. by eapply storage_run_snoc; [apply IH|].
Qed.

Lemma run_cons s l s1 tr s2 : storage_step s l s1 → storage_run s1 tr s2 → storage_run s (l ++ tr) s2.
Proof. intros. by eapply run_trans; [apply run_one|]. Qed.

Lemma goes_step s l s1 c t t' :
  storage_step s l s1 → quiet l → threads s1 = <[c := t]> (threads s) → goes_to s1 c t' → goes_to s c t'.
Proof.
  intros Hstep Hq Hts (tr & s2 & Hrun & Hq2 & Hts2 & Hm). exists (l ++ tr), s2.
  split; [by eapply run_cons|]. split; [by apply quiet_app|]. split; [|done]. by rewrite Hts2, Hts, list_insert_insert_eq.
Qed.

Lemma goes_end s l s1 c t :
  storage_step s l s1 → quiet l → threads s1 = <[c := t]> (threads s) → mutex_ s1 = None → goes_to s c t.
Proof. intros Hstep Hq Hts Hm. exists l, s1. split; [by apply run_one|done]. Qed.

Section Alone.
Context (c : nat).
Let stands s t := threads s !! c = Some t.

Lemma stays s s1 t t' : stands s t → threads s1 = <[c := t']> (threads s) → stands s1 t'.
Proof. unfold stands. intros Ht ->. apply list_lookup_insert_eq. by eapply lookup_lt_Some. Qed.

Lemma ends_answering s rp : stands s (Answering rp) → mutex_ s = None → goes_to s c Reading.
Proof. intros Ht Hm. by eapply goes_end; [by apply step_return| |..]. Qed.

Lemma ends_unlocking s rp : stands s (Unlocking rp) → goes_to s c Reading.
Proof.
  intros Ht. eapply goes_step; [by apply step_unlock|done|done|]. eapply ends_answering; [by eapply stays|done].
Qed.

Lemma ends_deleting s ks : stands s (Deleting ks) → is_Some (storage_ s) → goes_to s c Reading.
Proof.
  revert s. induction ks as [|k ks IH]; intros s Ht [d Hd].
  - eapply goes_step; [by apply step_deleted|done|done|]. eapply ends_unlocking. by eapply stays.
  - eapply goes_step; [by eapply step_delete|done|done|]. apply IH; [by eapply stays|done].
Qed.

Lemma ends_locked s r : stands s (Locked r) → takes_mutex (storage_ s) r = true → goes_to s c Reading.
Proof.
  intros Ht Hm. pose proof Hm as [[Hs%bool_decide_eq_true_1 Ho]%andb_prop Hr]%andb_prop.
  destruct (HandleDataNodeRequest (storage_ s) r.1 r.2) as [[st' rp]| |] eqn:Hh; try done.
  destruct (opcode_in [OP_PUT; OP_DELETE] r.2) eqn:Ho2.
  { eapply goes_step; [by eapply step_write|done|done|]. eapply ends_unlocking. by eapply stays. }
  assert (Ho3 : opcode_in [OP_DELETE_RANGE] r.2 = true).
  { unfold opcode_in in *. destruct (at_ r.2 0); try done. apply bool_decide_eq_true_1 in Ho.
    apply bool_decide_eq_false_1 in Ho2. apply bool_decide_eq_true_2. set_solver. }
  destruct Hs as [d Hd]. rewrite Hd in Hh. destruct (parse_range_total r.2) as [[[lo hi]|] Hp].
  - eapply goes_step; [by eapply step_collect|done|done|]. eapply ends_deleting; [by eapply stays|by exists d].
  - exfalso. apply opcode_in_one in Ho3. unfold HandleDataNodeRequest in Hh.
    rewrite bool_decide_eq_false_2 in Hh by (intros E; by rewrite E in Ho3).
    rewrite Ho3 in Hh. cbn [mbind outcome_bind] in Hh.
    unfold OP_DELETE_RANGE, OP_SCAN_RANGE, OP_TABLET_STATS, OP_PUT, OP_GET, OP_DELETE in Hh. cbn [Z.eqb Pos.eqb] in Hh.
    unfold HandleDataNodeDeleteRange in Hh. rewrite Hp in Hh. injection Hh as <- <-. done.
Qed.

(** The request does not make its handler read past the payload. *)
Definition harmless (r : request) : Prop := ¬ (get_overread r.2 ∨ put_overread r.2).

Lemma harmless_answered st r : harmless r → ∃ st' rp, HandleDataNodeRequest st r.1 r.2 = Ret (st', rp).
Proof. intros Hr. destruct (request_safe_iff st r.1 r.2) as [_ Ha]. destruct (proj1 Ha Hr) as (st' & rp & ? & _). eauto. Qed.

Lemma ends s t :
  guarded s → stands s t → holding t = true ∨ mutex_ s = None → (∀ r, t = Handling r → harmless r) → goes_to s c Reading.
Proof.
  intros Hg Ht Hm Hr. destruct t as [|r|r|ks|rp|rp].
  - destruct Hm as [?|Hm]; [done|]. exists [], s. split; [constructor|]. split; [done|]. split; [|done].
    by rewrite list_insert_id.
  - destruct Hm as [?|Hm]; [done|]. destruct (takes_mutex (storage_ s) r) eqn:Et.
    + eapply goes_step; [by eapply step_lock|done|done|]. eapply ends_locked; [by eapply stays|done].
    + destruct (harmless_answered (storage_ s) r (Hr r eq_refl)) as (st' & rp & Hh).
      eapply goes_step; [by eapply step_look|done|done|]. eapply ends_answering; [by eapply stays|done].
  - apply (ends_locked s r); [done|]. by apply (gd_locked _ Hg c).
  - apply (ends_deleting s ks); [done|]. by apply (gd_deleting _ Hg c ks).
  - by apply (ends_unlocking s rp).
  - destruct Hm as [?|Hm]; [done|]. by apply (ends_answering s rp).
Qed.
End Alone.

Lemma goes_guarded s c t : guarded s → goes_to s c t →
  ∃ tr s', storage_run s tr s' ∧ quiet tr ∧ threads s' = <[c := t]> (threads s) ∧ mutex_ s' = None ∧ guarded s'.
Proof. intros Hg (tr & s' & Hrun & ? & ? & ?). exists tr, s'. do 4 (split; [done|]). by eapply run_guarded. Qed.

(** The holder of the mutex first, then the threads in their order. *)
Lemma mutex_freed s :
  guarded s → (∀ c r, threads s !! c = Some (Handling r) → harmless r) →
  ∃ tr s', storage_run s tr s' ∧ quiet tr ∧ mutex_ s' = None ∧ guarded s' ∧ length (threads s') = length (threads s) ∧
    ∀ c r, threads s' !! c = Some (Handling r) → harmless r.
Proof.
  intros Hg Hr. destruct (mutex_ s) as [c|] eqn:E.
  2: { exists [], s. split; [constructor|done]. }
  destruct (gd_thread _ Hg c E) as [t Ht]. assert (Hh : holding t = true) by by apply (gd_holder _ Hg _ _ Ht).
  destruct (goes_guarded s c Reading Hg) as (tr & s' & ? & ? & Hts & ? & ?).
  { apply (ends c s t); auto. intros r ->. done. }
  exists tr, s'. rewrite Hts. do 4 (split; [done|]). split; [apply length_insert|].
  intros c2 r [(? & [=] & _)|[_ Hc2]]%list_lookup_insert_Some. by eapply Hr.
Qed.

Lemma all_end m s :
  guarded s → mutex_ s = None → (∀ c r, threads s !! c = Some (Handling r) → harmless r) → (m ≤ length (threads s))%nat →
  ∃ tr s', storage_run s tr s' ∧ quiet tr ∧ mutex_ s' = None ∧ guarded s' ∧ length (threads s') = length (threads s) ∧
    (∀ c, (c < m)%nat → threads s' !! c = Some Reading) ∧ ∀ c, (m ≤ c)%nat → threads s' !! c = threads s !! c.
Proof.
  intros Hg Hm Hr. induction m as [|m IH]; intros Hlen.
  { exists [], s. split; [constructor|]. split; [done|]. do 3 (split; [done|]). split; [lia|done]. }
  destruct IH as (tr & s1 & Hrun & Hq & Hm1 & Hg1 & Hl1 & Hdone & Hrest); [lia|].
  destruct (lookup_lt_is_Some_2 (threads s1) m) as [t Ht]; [lia|].
  destruct (goes_guarded s1 m Reading Hg1) as (tr2 & s2 & Hrun2 & Hq2 & Hts & Hm2 & Hg2).
  { apply (ends m s1 t); auto. intros r ->. rewrite Hrest in Ht by done. by eapply Hr. }
  exists (tr ++ tr2), s2. split; [by eapply run_trans|].
  split; [by apply quiet_app|]. do 2 (split; [done|]). rewrite Hts, length_insert. split; [done|]. split.
  - intros c Hc. destruct (decide (c = m)) as [->|Hne].
    + apply list_lookup_insert_eq. by eapply lookup_lt_Some.
    + rewrite list_lookup_insert_ne by done. apply Hdone. lia.
  - intros c Hc. rewrite list_lookup_insert_ne by lia. apply Hrest. lia.
Qed.

(** A request in a handler has been called. *)
Lemma handling_called st n tr s c r :
  storage_run (connections st n) tr s → threads s !! c = Some (Handling r) → Call c r ∈ tr.
Proof.
  intros Hrun Ht. destruct (run_threads _ _ _ _ _ _ Hrun Ht) as (ls & l2 & Hown & _ & ->).
  assert (Hin : Call c r ∈ own c tr) by (rewrite Hown; apply elem_of_app; right; left).
  unfold own in Hin. by apply list_elem_of_filter in Hin as [_ Hin].
Qed.
End Lemmas.

(** ** Properties *)

(** C4: the connections of a data node serialize: in every interleaving of the threads of any number of connections,
    at every lock, unlock and call of the database, (1) the answers and the storage are those of one
    sequential run of the handlers, each request taking effect at one point, except that a DELETE_RANGE is a
    collection of its keys followed by one deletion for each; (2) every connection has its requests answered one by one, in
    order, and each takes effect between its call and its return; (3) among the requests that
    write, a DELETE_RANGE is atomic too: whenever no thread is in the engine's mutex the storage is that of the writes alone,
    run whole in the order of the mutex; (4) the bytes the thread of a connection sends are the
    response frames of these answers, however its requests are cut into pieces; (5) nothing blocks for ever: unless
    a request reads past its payload, the threads can always finish what they have begun. *)
Theorem connections_serialize {D} `{LevelDB D} (st : option D) (n : nat) (tr : list label) (s : Shared D)
    (Hrun : storage_run (connections st n) tr s) :
  replay st (effects tr) (storage_ s) ∧
  (∀ c t, threads s !! c = Some t →
     ∃ ls l2, own c tr = concat ls ++ l2 ∧ Forall (exchanged c) ls ∧ started c t l2) ∧
  (mutex_ s = None → handled st (writes (effects tr)) (storage_ s)) ∧
  (∀ c fuel snd k buf tail evs, threads s !! c = Some Reading →
     open_stream evs → agains evs * 10 < 5000 → good_sender snd →
     Forall (fun r => 0 ≤ r.1 < 2 ^ 32 ∧ fits_frame r.2) (calls c tr) →
     buf ++ stream evs = concat ((fun r => frame r.1 r.2) <$> calls c tr) ++ tail → zlen tail < 4 →
     (length (calls c tr) < fuel)%nat →
     HandleClient answers_of fuel snd k (returns c tr) buf evs =
       Ret ([], concat (zip_with (fun (r : request) rp => response_frame r.1 rp) (calls c tr) (returns c tr)),
            ConnWaiting tail)) ∧
  ((∀ c r, Call c r ∈ tr → harmless r) →
     ∃ tr' s', storage_run s tr' s' ∧ quiet tr' ∧ mutex_ s' = None ∧ Forall (eq Reading) (threads s')).
Proof.
  pose proof (run_guarded _ _ _ Hrun (connections_guarded st n)) as Hg.
  split; [exact (run_effects _ _ _ Hrun)|]. split; [intros c t; by eapply run_threads|]. split; [|split].
  - intros Hm. destruct (run_writes _ _ _ st Hrun (connections_guarded st n) eq_refl) as (st' & Hw & Hf).
    unfold finishing in Hf. rewrite Hm in Hf. cbn in Hf. by subst.
  - intros c fuel snd k buf tail evs Ht ? ? ? ? ? ? ?.
    destruct (run_threads _ _ _ _ _ _ Hrun Ht) as (ls & l2 & Hown & Hls & ->). rewrite app_nil_r in Hown.
    eapply HandleClient_serves; try done. apply serve_answers. destruct (calls_own c tr) as [-> ->]. rewrite Hown.
    by apply exchanged_lengths.
  - intros Hc. destruct (mutex_freed s Hg) as (tr1 & s1 & Hr1 & Hq1 & Hm1 & Hg1 & Hl1 & Hh1).
    { intros c r Ht. eapply Hc, handling_called; done. }
    destruct (all_end (length (threads s1)) s1 Hg1 Hm1 Hh1 ltac:(done)) as (tr2 & s2 & Hr2 & Hq2 & Hm2 & _ & Hl2 & Hd & _).
    exists (tr1 ++ tr2), s2. split; [by eapply run_trans|]. split; [by apply quiet_app|]. split; [done|].
    apply Forall_lookup. intros c t Ht. pose proof (lookup_lt_Some _ _ _ Ht). rewrite Hd in Ht by lia. congruence.
Qed.

(** Two connections: while the first deletes the range from "a" to "n", the second reads "a", which is gone, and then
    "m", which is not yet. *)
Definition demo_range : request := (1, range_payload OP_DELETE_RANGE (str "a") (str "n")).
Definition demo_get (rid : Z) (key : bytes) : request := (rid, kv_payload OP_GET key []).

Lemma demo_interleaving :
  ∃ tr s, storage_run (connections (Some demo_db) 2) tr s ∧ mutex_ s = None ∧ threads s = [Reading; Reading] ∧
    returns 1 tr = [status ST_NOT_FOUND; status ST_OK ++ str "3"] ∧ returns 0 tr = [status ST_OK] ∧
    writes (effects tr) = [(demo_range, status ST_OK)] ∧ calls 1 tr = [demo_get 7 (str "a"); demo_get 8 (str "m")].
Proof.
  eexists _, _. split.
  { eapply run_cons; [by apply (step_call _ 0 demo_range)|].
    eapply run_cons; [by apply (step_lock _ 0 demo_range)|].
    eapply run_cons; [by apply (step_collect _ 0 demo_range (str "a") (str "n") demo_db)|].
    eapply run_cons; [by eapply (step_delete _ 0)|].
    eapply run_cons; [by apply (step_call _ 1 (demo_get 7 (str "a")))|].
    eapply run_cons; [by eapply (step_look _ 1)|].
    eapply run_cons; [by eapply (step_return _ 1)|].
    eapply run_cons; [by apply (step_call _ 1 (demo_get 8 (str "m")))|].
    eapply run_cons; [by eapply (step_look _ 1)|].
    eapply run_cons; [by eapply (step_return _ 1)|].
    eapply run_cons; [by eapply (step_delete _ 0)|].
    eapply run_cons; [by eapply (step_delete _ 0)|].
    eapply run_cons; [by apply (step_deleted _ 0)|].
    eapply run_cons; [by eapply (step_unlock _ 0)|].
    eapply run_cons; [by eapply (step_return _ 0)|]. constructor. }
  vm_compute. repeat split.
Qed.

Lemma connections_serialize_witness :
  ∃ tr s, storage_run (connections (Some demo_db) 2) tr s ∧
    handled (Some demo_db) [(demo_range, status ST_OK)] (storage_ s) ∧
    HandleClient answers_of 3 (fun _ _ => Sent 1) 0 (returns 1 tr) []
      [Recv (frame 7 (kv_payload OP_GET (str "a") [])); Recv (frame 8 (kv_payload OP_GET (str "m") []))] =
      Ret ([], EncodeResponse 7 ST_NOT_FOUND [] ++ EncodeResponse 8 ST_OK (str "3"), ConnWaiting []).
Proof.
  destruct demo_interleaving as (tr & s & Hrun & Hm & Hts & Hret & _ & Hw & Hcalls). exists tr, s. split; [exact Hrun|].
  destruct (connections_serialize (Some demo_db) 2 tr s Hrun) as (_ & _ & Hh & Hb & _). split.
  - rewrite <- Hw. exact (Hh Hm).
  - rewrite (Hb 1%nat 3%nat (fun _ _ => Sent 1) 0%nat [] []).
    + rewrite Hcalls, Hret. vm_compute. reflexivity.
    + rewrite Hts. reflexivity.
    + repeat constructor; discriminate.
    + vm_compute. reflexivity.
    + intros k m ?. exists 1. split; [reflexivity|lia].
    + rewrite Hcalls. repeat constructor; vm_compute; congruence.
    + rewrite Hcalls. vm_compute. reflexivity.
    + vm_compute. reflexivity.
    + rewrite Hcalls. cbn. lia.
Defined.
