(* ===== verification/Text.v ===== *)
(** * The text functions of the C++ standard library the program uses

    [std::to_string], [std::stoull], extraction from an [std::istringstream]
    ([>>] of a string or of a [size_t], [std::getline]), [toupper], [tolower],
    [std::string::find]; in the "C" locale the program runs in.  A stream is the
    list of its remaining bytes. *)

From S2P Require Import Prelude.

(** ** Characters *)
Definition chr (z : Z) : Byte.byte := byte_of_Z z.

(** [isspace]: space, \t, \n, \v, \f, \r. *)
Definition is_space (b : Byte.byte) : bool :=
  let c := Z_of_byte b in (c =? 32) || ((9 <=? c) && (c <=? 13)).
Definition is_digit (b : Byte.byte) : bool :=
  let c := Z_of_byte b in (48 <=? c) && (c <=? 57).

Definition toupper (b : Byte.byte) : Byte.byte :=
  let c := Z_of_byte b in if (97 <=? c) && (c <=? 122) then chr (c - 32) else b.
Definition tolower (b : Byte.byte) : Byte.byte :=
  let c := Z_of_byte b in if (65 <=? c) && (c <=? 90) then chr (c + 32) else b.

(** ** Decimal numbers *)
Definition digit (d : Z) : Byte.byte := chr (48 + d).

Fixpoint dec_go (fuel : nat) (z : Z) (acc : bytes) : bytes :=
  match fuel with
  | O => acc
  | S fuel =>
      let acc := digit (z mod 10) :: acc in
      if z / 10 =? 0 then acc else dec_go fuel (z / 10) acc
  end.

(** [std::to_string] of an unsigned integer of at most 64 bits: 20 digits. *)
Definition to_string (z : Z) : bytes := dec_go 20 z [].

(** The longest prefix of digits: its value, and the rest. *)
Fixpoint read_digits (acc : Z) (s : bytes) : Z * bytes :=
  match s with
  | b :: s' => if is_digit b then read_digits (acc * 10 + (Z_of_byte b - 48)) s' else (acc, s)
  | [] => (acc, [])
  end.

Fixpoint skip_space (s : bytes) : bytes :=
  match s with
  | b :: s' => if is_space b then skip_space s' else s
  | [] => []
  end.

(** An optional sign, then digits: [None] when there is no digit. *)
Definition read_number (s : bytes) : option (Z * bytes) :=
  let '(neg, s) :=
    match s with
    | b :: s' => if Z_of_byte b =? 45 then (true, s') else if Z_of_byte b =? 43 then (false, s') else (false, s)
    | [] => (false, s)
    end in
  match s with
  | b :: _ => if is_digit b then let '(v, r) := read_digits 0 s in Some (if neg : bool then - v else v, r)
              else None
  | [] => None
  end.

(** [std::stoull]: leading spaces are skipped and what follows the number is
    ignored; no number or a magnitude past 64 bits throws. *)
Definition stoull (s : bytes) : outcome Z :=
  match read_number (skip_space s) with
  | Some (v, _) => if Z.abs v <? 2 ^ 64 then Ret (u64 v) else Throw
  | None => Throw
  end.

(** [std::stoi]: the same at the width of [int]. *)
Definition stoi (s : bytes) : outcome Z :=
  match read_number (skip_space s) with
  | Some (v, _) => if (- 2 ^ 31 <=? v) && (v <? 2 ^ 31) then Ret v else Throw
  | None => Throw
  end.

(** ** Streams *)

(** The longest prefix without white space, and the rest. *)
Fixpoint read_word (s : bytes) : bytes * bytes :=
  match s with
  | b :: s' => if is_space b then ([], s) else let '(w, r) := read_word s' in (b :: w, r)
  | [] => ([], [])
  end.

(** [stream >> word]: [None] when only white space is left (the stream fails). *)
Definition extract_word (s : bytes) : option (bytes * bytes) :=
  match read_word (skip_space s) with
  | ([], _) => None
  | (w, r) => Some (w, r)
  end.

(** [stream >> n] for a [size_t]: the rest of the stream, [None] when it fails. *)
Definition extract_size (s : bytes) : option (Z * bytes) :=
  match read_number (skip_space s) with
  | Some (v, r) => if Z.abs v <? 2 ^ 64 then Some (u64 v, r) else None
  | None => None
  end.

(** [while (stream >> word)]: every word left on the stream. *)
Fixpoint words_fuel (fuel : nat) (s : bytes) : list bytes :=
  match fuel with
  | O => []
  | S fuel => match extract_word s with Some (w, r) => w :: words_fuel fuel r | None => [] end
  end.
Definition words (s : bytes) : list bytes := words_fuel (length s) s.

(** [std::getline(stream, line)]: up to the next newline. *)
Fixpoint getline (s : bytes) : bytes * bytes :=
  match s with
  | b :: s' => if Z_of_byte b =? 10 then ([], s') else let '(l, r) := getline s' in (b :: l, r)
  | [] => ([], [])
  end.

(** [find_first_not_of(' ')] and what follows it. *)
Fixpoint strip_spaces (s : bytes) : bytes :=
  match s with
  | b :: s' => if Z_of_byte b =? 32 then strip_spaces s' else s
  | [] => []
  end.

(** [find(c, pos)] and the split of a string at every [c]. *)
Fixpoint split_at (c : Byte.byte) (s : bytes) : list bytes :=
  match s with
  | [] => [[]]
  | b :: s' =>
      match split_at c s' with
      | [] => [[]]
      | p :: ps => if bool_decide (b = c) then [] :: p :: ps else (b :: p) :: ps
      end
  end.

(** ** Lemmas *)

Lemma is_digit_digit d : 0 ≤ d < 10 → is_digit (digit d) = true ∧ Z_of_byte (digit d) = 48 + d.
Proof.
  intros Hd. unfold is_digit, digit, chr. rewrite Z_of_byte_of_Z, u8_small by lia.
  destruct (Z.leb_spec 48 (48 + d)), (Z.leb_spec (48 + d) 57); simpl; split; done || lia.
Qed.

Lemma read_digits_app (l : bytes) acc s :
  Forall (fun b => is_digit b = true) l →
  read_digits acc (l ++ s) = read_digits (fold_left (fun a b => a * 10 + (Z_of_byte b - 48)) l acc) s.
Proof.
  intros Hl. revert acc. induction Hl as [|b l Hb Hl IH]; intros acc; simpl; [done|].
  by rewrite Hb, IH.
Qed.

(** What [to_string] writes: digits, with the value. *)
Lemma dec_go_spec fuel z acc :
  0 ≤ z < 10 ^ Z.of_nat fuel → (0 < fuel)%nat →
  ∃ l, dec_go fuel z acc = l ++ acc ∧ l ≠ [] ∧ Forall (fun b => is_digit b = true) l ∧
    ∀ a, fold_left (fun a b => a * 10 + (Z_of_byte b - 48)) l a = a * 10 ^ zlen l + z.
Proof.
  revert z acc. induction fuel as [|fuel IH]; intros z acc Hz Hf; [lia|]. cbn [dec_go].
  pose proof (Z.mod_pos_bound z 10 ltac:(lia)) as Hm. pose proof (Z.div_mod z 10 ltac:(lia)) as Hdm.
  destruct (is_digit_digit (z mod 10) Hm) as [Hd Hv].
  destruct (Z.eqb_spec (z / 10) 0) as [H0|H0].
  - exists [digit (z mod 10)]. split; [done|]. split; [done|]. split; [by constructor|].
    intros a. simpl. rewrite Hv. change (zlen _) with 1. lia.
  - destruct fuel as [|fuel'].
    { change (10 ^ Z.of_nat 1) with 10 in Hz. rewrite Z.div_small in H0 by lia. done. }
    destruct (IH (z / 10) (digit (z mod 10) :: acc)) as (l & -> & Hne & Hl & Hfold); [|lia|].
    { split; [apply Z.div_pos; lia|]. apply Z.div_lt_upper_bound; [lia|].
      rewrite Nat2Z.inj_succ, Z.pow_succ_r in Hz by lia. lia. }
    exists (l ++ [digit (z mod 10)]). rewrite <- app_assoc. split; [done|].
    split; [by destruct l|]. split; [apply Forall_app; by split; [|constructor]|].
    intros a. rewrite fold_left_app, Hfold, zlen_app. simpl. rewrite Hv. change (zlen [_]) with 1.
    rewrite Z.pow_add_r by (try lia; apply zlen_nonneg). lia.
Qed.

Lemma to_string_spec z :
  0 ≤ z < 2 ^ 64 → ∃ b l, to_string z = b :: l ∧ Forall (fun b => is_digit b = true) (b :: l) ∧
    fold_left (fun a b => a * 10 + (Z_of_byte b - 48)) (b :: l) 0 = z.
Proof.
  intros Hz. destruct (dec_go_spec 20 z []) as (l & E & Hne & Hl & Hf); [|lia|].
  { split; [lia|]. eapply Z.lt_le_trans; [apply Hz|]. vm_compute. discriminate. }
  rewrite app_nil_r in E. destruct l as [|b l]; [done|]. exists b, l. split; [done|]. split; [done|].
  rewrite Hf. lia.
Qed.

Lemma digit_not_space b : is_digit b = true → is_space b = false.
Proof.
  unfold is_digit, is_space. destruct (Z.leb_spec 48 (Z_of_byte b)); [|done].
  destruct (Z.leb_spec (Z_of_byte b) 57); [|done]. intros _.
  destruct (Z.eqb_spec (Z_of_byte b) 32), (Z.leb_spec (Z_of_byte b) 13); try lia.
Qed.

(** A byte list that does not start with a digit. *)
Definition no_digit_first (s : bytes) : Prop := ∀ b r, s = b :: r → is_digit b = false.

Lemma read_digits_stop acc s : no_digit_first s → read_digits acc s = (acc, s).
Proof. intros H. destruct s as [|b s]; [done|]. simpl. by rewrite (H b s). Qed.

Lemma read_number_to_string z s :
  0 ≤ z < 2 ^ 64 → no_digit_first s →
  read_number (skip_space (to_string z ++ s)) = Some (z, s).
Proof.
  intros Hz Hs. destruct (to_string_spec z Hz) as (b & l & -> & Hd & Hf).
  pose proof Hd as Hd'. apply Forall_cons in Hd' as [Hb _].
  cbn [app skip_space]. rewrite digit_not_space by done. unfold read_number.
  assert (Hc : 48 ≤ Z_of_byte b ≤ 57) by (unfold is_digit in Hb; lia).
  destruct (Z.eqb_spec (Z_of_byte b) 45); [lia|]. destruct (Z.eqb_spec (Z_of_byte b) 43); [lia|].
  rewrite Hb. change (b :: l ++ s) with ((b :: l) ++ s).
  by rewrite read_digits_app, Hf, read_digits_stop.
Qed.

Lemma stoull_to_string z s : 0 ≤ z < 2 ^ 64 → no_digit_first s → stoull (to_string z ++ s) = Ret z.
Proof.
  intros Hz Hs. unfold stoull. rewrite read_number_to_string by done.
  destruct (Z.ltb_spec (Z.abs z) (2 ^ 64)); [|lia]. by rewrite u64_small.
Qed.

Lemma stoi_to_string z : 0 ≤ z < 2 ^ 31 → stoi (to_string z) = Ret z.
Proof.
  intros Hz. unfold stoi. rewrite <- (app_nil_r (to_string z)), read_number_to_string by (done || lia).
  destruct (Z.leb_spec (- 2 ^ 31) z), (Z.ltb_spec z (2 ^ 31)); done || lia.
Qed.

(** ** Words *)

(** A word that [>>] reads back. *)
Definition unspaced (s : bytes) : Prop := Forall (fun b => is_space b = false) s.

Lemma unspaced_app a b : unspaced a → unspaced b → unspaced (a ++ b).
Proof. intros. by apply Forall_app. Qed.

Lemma read_word_app w s :
  unspaced w → (∀ b r, s = b :: r → is_space b = true) → read_word (w ++ s) = (w, s).
Proof.
  intros Hw Hs. induction Hw as [|b w Hb Hw IH]; cbn [app read_word].
  - destruct s as [|b r]; [done|]. cbn [read_word]. by rewrite (Hs b r).
  - by rewrite Hb, IH.
Qed.

Lemma extract_word_app b w s :
  unspaced (b :: w) → (∀ b r, s = b :: r → is_space b = true) → 
  extract_word (str " " ++ (b :: w) ++ s) = Some (b :: w, s).
Proof.
  intros Hw Hs. pose proof Hw as Hw'. apply Forall_cons in Hw' as [Hb _].
  assert (Hsk : skip_space (b :: w ++ s) = (b :: w) ++ s) by (simpl; by rewrite Hb).
  unfold extract_word. change (skip_space (str " " ++ (b :: w) ++ s)) with (skip_space (b :: w ++ s)).
  by rewrite Hsk, read_word_app.
Qed.

(** Words written with one space before each. *)
Definition spaced (ws : list bytes) : bytes := concat ((fun w => str " " ++ w) <$> ws).

Lemma words_spaced ws :
  Forall (fun w => unspaced w ∧ w ≠ []) ws → words (spaced ws) = ws.
Proof.
  intros Hws. unfold words.
  assert (Hgen : ∀ fuel, (length ws < fuel)%nat → words_fuel fuel (spaced ws) = ws).
  { induction Hws as [|w ws [Hu Hne] Hws IH]; intros [|fuel] Hf; try (simpl in Hf; lia); [done|].
    destruct w as [|b w]; [done|]. cbn [words_fuel]. unfold spaced in *. cbn [fmap list_fmap concat].
    rewrite <- app_assoc, extract_word_app; [|done|].
    - f_equal. apply IH. simpl in Hf. lia.
    - destruct ws as [|w' ws]; [done|]. by intros ? ? [= <- _]. }
  assert (Hlen : (2 * length ws ≤ length (spaced ws))%nat).
  { clear Hgen. induction Hws as [|w ws [_ Hne] Hws IH]; [simpl; lia|].
    unfold spaced in *. rewrite fmap_cons. cbn [concat]. rewrite !length_app.
    destruct w; [done|]. change (length (str " ")) with 1%nat. cbn [length]. lia. }
  destruct ws as [|w ws]; [done|]. apply Hgen. cbn [length] in *. lia.
Qed.
