(* ===== verification/Json.v ===== *)
(** * JSON values (nlohmann::json, as far as the program uses it)

    The JSON library is vendored third-party code.  Its values are an inductive
    type (numbers are integers: the program never writes others, and a file with fractions is not covered; an object is a
    [std::map], its members in key order), with the conversions the program
    relies on; its printer and parser are the parameters [json_dump] and
    [json_parse] of the class [JsonText], whose law is the documented round trip. *)

From S2P Require Import Prelude StringOrder.

Inductive json : Type :=
  | JNull
  | JBool (b : bool)
  | JInt (z : Z)
  | JStr (s : bytes)
  | JArr (l : list json)
  | JObj (m : list (bytes * json)).

(** [dump]: the text, or an exception (a string that is not UTF-8).
    [parse] of a whole text: the value, or a [parse_error]. *)
Class JsonText := {
  json_dump : json → outcome bytes;
  json_parse : bytes → outcome json;
}.

(** Values the program builds: members in strictly increasing key order,
    numbers that fit 64 bits. *)
Fixpoint json_ok (j : json) : Prop :=
  match j with
  | JInt z => 0 ≤ z < 2 ^ 64
  | JArr l => (fix all l := match l with [] => True | j :: l => json_ok j ∧ all l end) l
  | JObj m =>
      (fix all (m : list (bytes * json)) :=
         match m with [] => True | (_, j) :: m => json_ok j ∧ all m end) m
      ∧ StronglySorted slt m.*1
  | _ => True
  end.

Class JsonTextSpec `{JsonText} := {
  json_dump_ret j : json_dump j ≠ UB;
  json_parse_ret s : json_parse s ≠ UB;
  json_parse_dump j s : json_ok j → json_dump j = Ret s → json_parse s = Ret j;
}.

(** ** Conversions *)
Fixpoint assoc (k : bytes) (m : list (bytes * json)) : option json :=
  match m with
  | [] => None
  | (k', j) :: m => if decide (k' = k) then Some j else assoc k m
  end.

(** [j.at(k)]: throws when [j] is not an object or has no member [k]. *)
Definition json_at (j : json) (k : bytes) : outcome json :=
  match j with
  | JObj m => match assoc k m with Some v => Ret v | None => Throw end
  | _ => Throw
  end.

(** [j[k]] on a value that may be modified: a missing member becomes null. *)
Definition json_index (j : json) (k : bytes) : outcome json :=
  match j with
  | JObj m => Ret (default JNull (assoc k m))
  | JNull => Ret JNull
  | _ => Throw
  end.

(** [j[k]] on a constant value: the member must be there. *)
Definition json_const_index (j : json) (k : bytes) : outcome json :=
  match j with
  | JObj m => match assoc k m with Some v => Ret v | None => UB end
  | _ => Throw
  end.

(** [get] of a [uint64_t], the library's own type of numbers: only a number will do. *)
Definition json_uint64 (j : json) : outcome Z :=
  match j with JInt z => Ret (u64 z) | _ => Throw end.

(** [get] of a narrower unsigned type: a [static_cast] of the number; a boolean will do, too. *)
Definition json_unsigned (cast : Z → Z) (j : json) : outcome Z :=
  match j with
  | JInt z => Ret (cast z)
  | JBool b => Ret (if b then 1 else 0)
  | _ => Throw
  end.

Definition json_string (j : json) : outcome bytes :=
  match j with JStr s => Ret s | _ => Throw end.

(** [for (const auto& x : j)]. *)
Definition json_elems (j : json) : list json :=
  match j with
  | JArr l => l
  | JObj m => m.*2
  | JNull => []
  | _ => [j]
  end.

Fixpoint outcome_map {A B} (f : A → outcome B) (l : list A) : outcome (list B) :=
  match l with
  | [] => Ret []
  | x :: l => y ← f x; ys ← outcome_map f l; Ret (y :: ys)
  end.

Lemma json_at_hit k j m : json_at (JObj ((k, j) :: m)) k = Ret j.
Proof. simpl. by rewrite decide_True. Qed.
Lemma json_at_miss k k' j m : k' ≠ k → json_at (JObj ((k', j) :: m)) k = json_at (JObj m) k.
Proof. intros. simpl. by rewrite decide_False. Qed.

(** Looks up a member of a literal object. *)
Ltac json_lookup :=
  repeat first [rewrite json_at_hit | rewrite json_at_miss by (vm_compute; discriminate)];
  cbn [mbind outcome_bind].

Lemma outcome_map_ret {A B} (f : A → outcome B) (g : A → B) l :
  (∀ x, x ∈ l → f x = Ret (g x)) → outcome_map f l = Ret (g <$> l).
Proof.
  induction l as [|x l IH]; intros Hf; simpl; [done|]. rewrite Hf by left. cbn [mbind outcome_bind].
  rewrite IH; [done|]. intros y Hy. apply Hf. by right.
Qed.

(** ** A reference printer and parser

    Not JSON syntax, but an executable pair with the documented behaviour: it
    round-trips, and printing throws on a string that is not ASCII (the real one
    on a string that is not UTF-8). *)

Section json_induction.
Context (P : json → Prop) (Hnull : P JNull) (Hbool : ∀ b, P (JBool b)) (Hint_ : ∀ z, P (JInt z))
  (Hstr : ∀ s, P (JStr s)) (Harr : ∀ l, Forall P l → P (JArr l))
  (Hobj : ∀ m, Forall (fun kv => P kv.2) m → P (JObj m)).

Fixpoint json_ind_nested (j : json) : P j :=
  match j with
  | JNull => Hnull
  | JBool b => Hbool b
  | JInt z => Hint_ z
  | JStr s => Hstr s
  | JArr l =>
      Harr l ((fix go l : Forall P l :=
        match l with [] => Forall_nil_2 _ | j :: l => Forall_cons_2 _ _ _ (json_ind_nested j) (go l) end) l)
  | JObj m =>
      Hobj m ((fix go (m : list (bytes * json)) : Forall (fun kv => P kv.2) m :=
        match m with
        | [] => Forall_nil_2 _
        | kv :: m => Forall_cons_2 _ kv _ (json_ind_nested kv.2) (go m)
        end) m)
  end.
End json_induction.

Abbreviation tree := (gen_tree (bool + Z + bytes)).

Fixpoint json_tree (j : json) : tree :=
  match j with
  | JNull => GenNode 0 []
  | JBool b => GenLeaf (inl (inl b))
  | JInt z => GenLeaf (inl (inr z))
  | JStr s => GenLeaf (inr s)
  | JArr l => GenNode 1 (map json_tree l)
  | JObj m => GenNode 2 (map (fun kv => GenNode 3 [GenLeaf (inr kv.1); json_tree kv.2]) m)
  end.

Fixpoint tree_json (t : tree) : json :=
  match t with
  | GenNode 1 l => JArr (map tree_json l)
  | GenNode 2 l =>
      JObj (map (fun t => match t with
                          | GenNode 3 [GenLeaf (inr k); t] => (k, tree_json t)
                          | _ => ([], JNull)
                          end) l)
  | GenNode _ _ => JNull
  | GenLeaf (inl (inl b)) => JBool b
  | GenLeaf (inl (inr z)) => JInt z
  | GenLeaf (inr s) => JStr s
  end.

Lemma tree_json_tree j : tree_json (json_tree j) = j.
Proof.
  induction j as [| | | |l IH|m IH] using json_ind_nested; simpl; try done; f_equal.
  - induction IH as [|j l Hj IH IH']; simpl; congruence.
  - induction IH as [|[k j] m Hj IH IH']; simpl in *; congruence.
Qed.

Fixpoint json_ascii (j : json) : bool :=
  match j with
  | JStr s => forallb (fun b => Z_of_byte b <? 128) s
  | JArr l => forallb json_ascii l
  | JObj m => forallb (fun kv => json_ascii kv.2) m
  | _ => true
  end.

Fixpoint pos_bytes (p : positive) : bytes :=
  match p with xH => [] | xO p => x00 :: pos_bytes p | xI p => x01 :: pos_bytes p end.
Fixpoint bytes_pos (s : bytes) : positive :=
  match s with
  | [] => xH
  | b :: s => if decide (b = x00) then xO (bytes_pos s) else xI (bytes_pos s)
  end.

Lemma bytes_pos_bytes p : bytes_pos (pos_bytes p) = p.
Proof. induction p; simpl; congruence. Qed.

Definition ref_json_text : JsonText :=
  {| json_dump j := if json_ascii j then Ret (pos_bytes (encode (json_tree j))) else Throw;
     json_parse s := match decode (bytes_pos s) with Some t => Ret (tree_json t) | None => Throw end |}.

Lemma ref_json_text_spec : @JsonTextSpec ref_json_text.
Proof.
  split; simpl.
  - intros j. by destruct (json_ascii j).
  - intros s. by destruct (decode _).
  - intros j s _. destruct (json_ascii j); [|done]. intros [= <-].
    by rewrite bytes_pos_bytes, decode_encode, tree_json_tree.
Qed.
