(* ===== verification/Config.v ===== *)
(** * Configuration and start-up (src/common/common.h, src/lekv.cpp)

    The peers of a node come from [config.json]: the master first, then the
    followers, numbered from 2 in the order of the file.  [json_parse] of the
    file's text is the JSON library's; reading the file itself is not modelled. *)

From S2P Require Import Prelude Text Json.

Definition MASTER_ID : Z := 1.
Definition MASTER_PORT : Z := 9001.

Record PeerInfo := { pid : Z; ip : bytes; port : Z }.

Definition read_master_config (j : json) : outcome PeerInfo :=
  mc ← json_index j (str "MASTER_CONFIG");
  jip ← json_index mc (str "IP");
  master_ip ← json_string jip;
  mc ← json_index j (str "MASTER_CONFIG");
  jport ← json_index mc (str "PORT");
  master_port ← json_unsigned u16 jport;
  if negb (master_port =? MASTER_PORT) then Throw
  else Ret {| pid := MASTER_ID; ip := master_ip; port := master_port |}.

(** The loop over the followers; [next] is the global [FOLLOWER_ID_START]. *)
Fixpoint followers_loop (next : Z) (l : list json) : outcome (list PeerInfo * Z) :=
  match l with
  | [] => Ret ([], next)
  | follower :: l =>
      jip ← json_const_index follower (str "IP");
      ip ← json_string jip;
      jport ← json_const_index follower (str "PORT");
      port ← json_unsigned u16 jport;
      if port =? MASTER_PORT then Throw else
      '(ps, next') ← followers_loop (u64 (next + 1)) l;
      Ret ({| pid := next; ip := ip; port := port |} :: ps, next')
  end.

Definition read_followers_config (FOLLOWER_ID_START : Z) (j : json) : outcome (list PeerInfo * Z) :=
  fc ← json_index j (str "FOLLOWER_CONFIG");
  followers_loop FOLLOWER_ID_START (json_elems fc).

Fixpoint find_self_node_id (peers : list PeerInfo) (self_port : Z) : outcome Z :=
  match peers with
  | [] => Throw
  | peer :: peers => if port peer =? self_port then Ret (pid peer) else find_self_node_id peers self_port
  end.

(** The start of [main]: the port of the command line ([std::stoul], converted to
    [uint16_t]), the peers and the node's own id. *)
Definition parse_port (arg : option bytes) : outcome Z :=
  match arg with
  | None => Ret 9001
  | Some a => v ← stoull a; Ret (u16 v)
  end.

Definition start_up `{JsonText} (arg : option bytes) (config : bytes) : outcome (Z * Z * list PeerInfo) :=
  port ← parse_port arg;
  j1 ← json_parse config;
  master ← read_master_config j1;
  j2 ← json_parse config;
  '(followers, _) ← read_followers_config 2 j2;
  let peers := master :: followers in
  node_id ← find_self_node_id peers port;
  Ret (node_id, port, peers).

(** [RaftNode::GetNodeAddr]: the address of the first peer with the id, else "". *)
Fixpoint GetNodeAddr (peers_ : list PeerInfo) (node_id : Z) : bytes :=
  match peers_ with
  | [] => []
  | p :: peers_ =>
      if pid p =? node_id then ip p ++ str ":" ++ to_string (port p) else GetNodeAddr peers_ node_id
  end.

(** ** Lemmas *)

Lemma followers_loop_ids next l ps next' :
  0 ≤ next → next + zlen ps < 2 ^ 64 → followers_loop next l = Ret (ps, next') →
  pid <$> ps = (fun i => next + Z.of_nat i) <$> seq 0 (length ps) ∧
  Forall (fun p => port p ≠ MASTER_PORT) ps.
Proof.
  revert next ps. induction l as [|f l IH]; intros next ps Hn Hl H; simpl in H.
  { by injection H as <- _. }
  apply bind_ret_inv in H as (jip & _ & H). apply bind_ret_inv in H as (a & _ & H).
  apply bind_ret_inv in H as (jp & _ & H). apply bind_ret_inv in H as (p & _ & H).
  destruct (Z.eqb_spec p MASTER_PORT); [done|].
  apply bind_ret_inv in H as ([ps' n'] & H & [= <- <-]).
  rewrite zlen_cons in Hl. pose proof (zlen_nonneg ps').
  rewrite u64_small in H by lia. destruct (IH (next + 1) ps') as [Hids Hports]; [lia|lia|done|].
  split; [|by constructor].
  rewrite fmap_cons, Hids. cbn [length seq]. rewrite <- fmap_S_seq, fmap_cons, <- list_fmap_compose.
  f_equal; [simpl; lia|]. apply list_fmap_ext. intros i x _. simpl. lia.
Qed.

(** With distinct ids the address found is that of the peer itself. *)
Lemma GetNodeAddr_NoDup peers p :
  NoDup (pid <$> peers) → p ∈ peers →
  GetNodeAddr peers (pid p) = ip p ++ str ":" ++ to_string (port p).
Proof.
  induction peers as [|q peers IH]; intros Hn Hp; [by apply elem_of_nil in Hp|].
  rewrite fmap_cons, NoDup_cons in Hn. destruct Hn as [Hq Hn]. cbn [GetNodeAddr].
  destruct (Z.eqb_spec (pid q) (pid p)) as [E|E]; apply elem_of_cons in Hp as [->|Hp]; try done.
  - exfalso. apply Hq. rewrite E. by apply list_elem_of_fmap_2.
  - by apply IH.
Qed.

Lemma find_self_node_id_ret peers sp n :
  find_self_node_id peers sp = Ret n → ∃ p, p ∈ peers ∧ pid p = n ∧ port p = sp.
Proof.
  induction peers as [|q peers IH]; simpl; [done|]. destruct (Z.eqb_spec (port q) sp).
  - intros [= <-]. exists q. split; [left|done].
  - intros H. destruct (IH H) as (p & ? & ?). exists p. split; [by right|done].
Qed.

(** A configuration that is accepted numbers its nodes without clash. *)
Lemma start_up_ids {J : JsonText} (arg : option bytes) (config : bytes) node port_ peers
    (Hlen : zlen peers < 2 ^ 63) (Hs : start_up arg config = Ret (node, port_, peers)) :
  pid <$> peers = (fun i => 1 + Z.of_nat i) <$> seq 0 (length peers) ∧
  (∀ i p, peers !! i = Some p → (port p = MASTER_PORT ↔ i = 0%nat)) ∧
  (∃ p, p ∈ peers ∧ pid p = node ∧ port p = port_) ∧
  (∀ p, p ∈ peers → GetNodeAddr peers (pid p) = ip p ++ str ":" ++ to_string (port p)).
Proof.
  unfold start_up in Hs.
  apply bind_ret_inv in Hs as (prt & _ & Hs). apply bind_ret_inv in Hs as (j1 & _ & Hs).
  apply bind_ret_inv in Hs as (master & Hm & Hs). apply bind_ret_inv in Hs as (j2 & _ & Hs).
  apply bind_ret_inv in Hs as ([fs nx] & Hf & Hs). apply bind_ret_inv in Hs as (n & Hself & [= -> -> <-]).
  unfold read_followers_config in Hf. apply bind_ret_inv in Hf as (fc & _ & Hf).
  rewrite zlen_cons in Hlen. apply followers_loop_ids in Hf as [Hids Hports]; [|lia|lia].
  assert (Hmaster : pid master = 1 ∧ port master = MASTER_PORT).
  { unfold read_master_config in Hm. do 5 (apply bind_ret_inv in Hm as (? & _ & Hm)).
    apply bind_ret_inv in Hm as (mp & _ & Hm).
    destruct (Z.eqb_spec mp MASTER_PORT) as [E|]; [|done]. injection Hm as <-. by split. }
  destruct Hmaster as [Hid Hport].
  assert (Hall : pid <$> master :: fs = (fun i => 1 + Z.of_nat i) <$> seq 0 (length (master :: fs))).
  { rewrite fmap_cons, Hid, Hids. cbn [length seq]. rewrite <- fmap_S_seq, fmap_cons, <- list_fmap_compose.
    f_equal. apply list_fmap_ext. intros i x _. simpl. lia. }
  split; [done|]. split; [|split; [by apply find_self_node_id_ret|]].
  - intros [|i] p Hp; simpl in Hp; [by injection Hp as <-|]. rewrite Forall_lookup in Hports.
    specialize (Hports _ _ Hp). done.
  - intros p Hp. apply GetNodeAddr_NoDup; [|done]. rewrite Hall.
    apply NoDup_fmap_2; [intros i j; lia|apply NoDup_seq].
Qed.

(** A parser that knows one text, the configuration of the repository. *)
Definition demo_config : json :=
  JObj [(str "FOLLOWER_CONFIG",
         JArr [JObj [(str "IP", JStr (str "127.0.0.1")); (str "PORT", JInt 9002)];
               JObj [(str "IP", JStr (str "127.0.0.1")); (str "PORT", JInt 9003)]]);
        (str "MASTER_CONFIG", JObj [(str "IP", JStr (str "127.0.0.1")); (str "PORT", JInt 9001)])].

Definition demo_peers : list PeerInfo :=
  [ {| pid := 1; ip := str "127.0.0.1"; port := 9001 |};
    {| pid := 2; ip := str "127.0.0.1"; port := 9002 |};
    {| pid := 3; ip := str "127.0.0.1"; port := 9003 |} ].

Definition demo_json_text : JsonText :=
  {| json_dump _ := Throw; json_parse _ := Ret demo_config |}.
