(* ===== verification/Tablet.v ===== *)
(** * Tablets and the routing table (src/common/common.h, src/kv/raft_node.cpp)

    A tablet is a key range with the node that stores it; the routing table of
    the master is a vector of tablets sorted by start key.  The lookup is a
    binary search, written once for the master's table
    ([RaftNode::FindTabletIndex]) and for the client's copy of it
    ([LekvCli::FindRoute]), which have the same loop. *)

From S2P Require Import Prelude StringOrder.

Record Tablet := {
  tid : Z;           (* uint64_t id *)
  start_key : bytes;  (* inclusive *)
  end_key : bytes;    (* exclusive, empty for infinity *)
  node_id : Z;       (* uint32_t *)
  key_count : Z;     (* uint64_t *)
}.

#[export] Instance tablet_eq_dec : EqDecision Tablet.
Proof. solve_decision. Defined.

(** The loop of the binary search: [left] becomes the first position whose start
    is greater than [key].  [l[mid]] out of range is undefined; the fuel is at
    least [right - left] and never runs out ([search_loop_spec]). *)
Fixpoint search_loop {A} (start_of : A → bytes) (fuel : nat) (l : list A) (key : bytes)
    (left right : nat) : outcome nat :=
  if (left <? right)%nat then
    match fuel with
    | O => UB
    | S fuel =>
        let mid := (left + (right - left) / 2)%nat in
        match l !! mid with
        | None => UB
        | Some t =>
            if str_leb (start_of t) key
            then search_loop start_of fuel l key (mid + 1) right
            else search_loop start_of fuel l key left mid
        end
    end
  else Ret left.

Definition search {A} (start_of : A → bytes) (l : list A) (key : bytes) : outcome nat :=
  search_loop start_of (length l) l key 0 (length l).

(** [tablets_.size()] when no tablet starts at or below the key. *)
Definition FindTabletIndex (tablets_ : list Tablet) (key : bytes) : outcome nat :=
  left ← search start_key tablets_ key;
  Ret (if (left =? 0)%nat then length tablets_ else left - 1)%nat.

(** [Some t]: the result [true] with [out = t]. *)
Definition GetTabletRoute (tablets_ : list Tablet) (key : bytes) : outcome (option Tablet) :=
  if bool_decide (tablets_ = []) then Ret None else
  idx ← FindTabletIndex tablets_ key;
  if (length tablets_ <=? idx)%nat then Ret None else
  match tablets_ !! idx with
  | None => UB
  | Some t => if past_end (end_key t) key then Ret None else Ret (Some t)
  end.

(** ** The well-formed routing table: a partition of the key space *)

Definition covers (t : Tablet) (k : bytes) : Prop := in_range (start_key t) (end_key t) k.
#[export] Instance covers_dec t k : Decision (covers t k) := _.

(** The tablets cover [[lo, infinity)] contiguously, in order, without overlap. *)
Fixpoint chain (lo : bytes) (ts : list Tablet) : Prop :=
  match ts with
  | [] => False
  | t :: ts' =>
      start_key t = lo ∧
      (if decide (end_key t = []) then ts' = [] else slt lo (end_key t) ∧ chain (end_key t) ts')
  end.

Definition partition (ts : list Tablet) : Prop := chain [] ts.

#[export] Instance chain_dec lo ts : Decision (chain lo ts).
Proof.
  revert lo. induction ts as [|t ts IH]; intros lo; simpl; [apply _|].
  apply and_dec; [apply _|]. destruct (decide (end_key t = [])); [destruct ts; [by left|by right]|].
  apply and_dec; [apply _|apply IH].
Defined.
#[export] Instance partition_dec ts : Decision (partition ts) := chain_dec [] ts.

(** ** The search *)
Section search.
Context {A : Type} (start_of : A → bytes) (l : list A) (key : bytes).

(** The loop returns a boundary: the tablet before it starts at or below the key,
    the tablet at it starts above the key. No order of the table is needed. *)
Lemma search_loop_spec fuel left right :
  (left ≤ right ≤ length l)%nat → (right - left ≤ fuel)%nat →
  (∀ t, l !! (left - 1)%nat = Some t → left ≠ 0%nat → sle (start_of t) key) →
  (∀ t, l !! right = Some t → slt key (start_of t)) →
  ∃ n, search_loop start_of fuel l key left right = Ret n ∧ (left ≤ n ≤ right)%nat ∧
    (∀ t, l !! (n - 1)%nat = Some t → n ≠ 0%nat → sle (start_of t) key) ∧
    (∀ t, l !! n = Some t → slt key (start_of t)).
Proof.
  revert left right. induction fuel as [|fuel IH]; intros left right Hlr Hf Hl Hr; cbn [search_loop];
    destruct (Nat.ltb_spec left right).
  - lia.
  - exists left. replace right with left in * by lia. done.
  - set (mid := (left + (right - left) / 2)%nat).
    assert (Hmid : (left ≤ mid < right)%nat).
    { pose proof (Nat.div_lt (right - left) 2 ltac:(lia) ltac:(lia)). lia. }
    destruct (lookup_lt_is_Some_2 l mid) as [t Ht]; [lia|]. rewrite Ht.
    destruct (str_leb_spec (start_of t) key).
    + destruct (IH (mid + 1)%nat right) as (n & ? & ? & ? & ?); try lia; try done.
      { intros t' Ht' _. rewrite Nat.add_sub in Ht'. by rewrite Ht in Ht'; injection Ht' as <-. }
      exists n. split_and!; done || lia.
    + destruct (IH left mid) as (n & ? & ? & ? & ?); try lia; try done.
      { intros t' Ht'. by rewrite Ht in Ht'; injection Ht' as <-. }
      exists n. split_and!; done || lia.
  - exists left. replace right with left in * by lia. done.
Qed.

Lemma search_spec :
  ∃ n, search start_of l key = Ret n ∧ (n ≤ length l)%nat ∧
    (∀ t, l !! (n - 1)%nat = Some t → n ≠ 0%nat → sle (start_of t) key) ∧
    (∀ t, l !! n = Some t → slt key (start_of t)).
Proof.
  destruct (search_loop_spec (length l) 0 (length l)) as (n & ? & ? & ? & ?); try lia.
  { intros t Ht. apply lookup_lt_Some in Ht. lia. }
  exists n. split_and!; done || lia.
Qed.
End search.

(** ** Consequences of the partition *)

Lemma chain_cons lo t ts :
  chain lo (t :: ts) ↔ start_key t = lo ∧
    ((end_key t = [] ∧ ts = []) ∨ (slt lo (end_key t) ∧ chain (end_key t) ts)).
Proof.
  simpl. split; intros [? H]; split; try done; case_decide as E; try tauto.
  - destruct H as [[_ ?]|[Hlt _]]; [done|]. rewrite E in Hlt. by apply slt_nil in Hlt.
Qed.

(** Every later tablet starts at or above the end of the first. *)
Lemma chain_starts lo ts i t : chain lo ts → ts !! i = Some t → sle lo (start_key t).
Proof.
  revert lo i. induction ts as [|u ts IH]; intros lo i Hc Hi; [done|].
  apply chain_cons in Hc as [Hs Hc]. destruct i as [|i]; simpl in Hi.
  - injection Hi as <-. rewrite Hs. apply sle_refl.
  - destruct Hc as [[_ ->]|[Hlt Hc]]; [done|]. specialize (IH _ _ Hc Hi). str_order.
Qed.

Lemma chain_lookup lo ts i t :
  chain lo ts → ts !! i = Some t →
  (end_key t = [] ∧ length ts = S i) ∨
  (slt (start_key t) (end_key t) ∧ chain (end_key t) (drop (S i) ts)).
Proof.
  revert lo i. induction ts as [|u ts IH]; intros lo i Hc Hi; [done|].
  apply chain_cons in Hc as [Hs Hc]. destruct i as [|i]; simpl in Hi.
  - injection Hi as <-. rewrite Hs. destruct Hc as [[? ->]|[? ?]]; [left; done|right; split; assumption].
  - destruct Hc as [[_ ->]|[_ Hc]]; [done|]. destruct (IH _ _ Hc Hi) as [[? ?]|?]; [left|right; done].
    simpl. auto.
Qed.

(** Two tablets of a partition that cover the same key are at the same place. *)
Lemma chain_disjoint lo ts i j t u k :
  chain lo ts → ts !! i = Some t → ts !! j = Some u → covers t k → covers u k → i = j.
Proof.
  intros Hc. assert (Hlt : ∀ i j t u, (i < j)%nat → ts !! i = Some t → ts !! j = Some u →
    covers t k → covers u k → False).
  { clear i j t u. intros i j t u Hij Hi Hj [_ Ht] [Hu _].
    destruct (chain_lookup _ _ _ _ Hc Hi) as [[_ Hlen]|[Hse Hd]].
    - apply lookup_lt_Some in Hj. lia.
    - assert (Hs : sle (end_key t) (start_key u)).
      { eapply (chain_starts _ _ (j - S i)); [exact Hd|]. rewrite lookup_drop.
        by replace (S i + (j - S i))%nat with j by lia. }
      destruct Ht as [Ht|Ht]; [rewrite Ht in Hse; by apply slt_nil in Hse|]. str_order. }
  intros Hi Hj Ht Hu. destruct (Nat.lt_trichotomy i j) as [|[|]]; [|done|]; exfalso; eauto.
Qed.

(** A key at or above [lo] below all later starts is covered where it falls. *)
Lemma chain_next lo ts i t u :
  chain lo ts → ts !! i = Some t → ts !! S i = Some u → end_key t = start_key u ∧ end_key t ≠ [].
Proof.
  intros Hc Hi Hj. destruct (chain_lookup _ _ _ _ Hc Hi) as [[_ Hlen]|[Hse Hd]].
  - apply lookup_lt_Some in Hj. lia.
  - assert (Hu : drop (S i) ts !! 0%nat = Some u) by (rewrite lookup_drop, Nat.add_0_r; done).
    split; [|by eapply slt_not_nil]. destruct (drop (S i) ts) as [|w ts']; [done|].
    injection Hu as ->. by destruct Hd as [-> _].
Qed.

Lemma chain_last lo ts i t : chain lo ts → ts !! i = Some t → ts !! S i = None → end_key t = [].
Proof.
  intros Hc Hi Hj. destruct (chain_lookup _ _ _ _ Hc Hi) as [[? _]|[_ Hd]]; [done|].
  apply lookup_ge_None in Hj. rewrite drop_ge in Hd by lia. done.
Qed.

(** The tablet before the boundary of the search covers the key. *)
Lemma partition_covers ts n t k :
  partition ts → ts !! n = Some t → sle (start_key t) k →
  (∀ u, ts !! S n = Some u → slt k (start_key u)) → covers t k.
Proof.
  intros Hc Ht Hs Hn. split; [done|]. destruct (ts !! S n) as [u|] eqn:E.
  - right. destruct (chain_next _ _ _ _ _ Hc Ht E) as [-> _]. by apply Hn.
  - left. by eapply chain_last.
Qed.

(** ** Updates that keep the partition *)

(** Only the ranges matter. *)
Definition same_range (t u : Tablet) : Prop := start_key t = start_key u ∧ end_key t = end_key u.

#[export] Instance same_range_equiv : Equivalence same_range.
Proof. split; [done|intros ?? []|intros ??? [] []]; split; congruence. Qed.

#[export] Instance chain_proper lo : Proper (Forall2 same_range ==> iff) (chain lo).
Proof.
  intros ts us Hf. revert lo. induction Hf as [|t u ts us [Hs He] Hf IH]; intros lo; [done|].
  rewrite !chain_cons, Hs, He, IH. destruct Hf; naive_solver.
Qed.

#[export] Instance partition_proper : Proper (Forall2 same_range ==> iff) partition := chain_proper [].

#[export] Instance covers_proper : Proper (same_range ==> (=) ==> iff) covers.
Proof. intros t u [Hs He] k ? <-. unfold covers. by rewrite Hs, He. Qed.

(** Replacing a tablet by one with the same range. *)
Lemma insert_same_range (ts : list Tablet) i t u :
  ts !! i = Some t → same_range t u → Forall2 same_range ts (<[i:=u]> ts).
Proof.
  intros Hi Hr. apply Forall2_same_length_lookup_2; [by rewrite length_insert|].
  intros j v w Hv Hw. destruct (decide (i = j)) as [->|Hne].
  - rewrite list_lookup_insert_eq in Hw by (by eapply lookup_lt_Some).
    rewrite Hi in Hv. by injection Hv as <-; injection Hw as <-.
  - rewrite list_lookup_insert_ne in Hw by done. rewrite Hv in Hw. by injection Hw as <-.
Qed.

Lemma partition_insert ts i t u :
  partition ts → ts !! i = Some t → same_range t u → partition (<[i:=u]> ts).
Proof. intros Hp Hi Hr. by rewrite <- (insert_same_range ts i t u). Qed.

(** Cutting a tablet in two at a key strictly inside its range. *)
Lemma chain_split lo l1 l2 t left right m :
  chain lo (l1 ++ t :: l2) → slt (start_key t) m → (end_key t = [] ∨ slt m (end_key t)) →
  start_key left = start_key t → end_key left = m → start_key right = m → end_key right = end_key t →
  chain lo (l1 ++ left :: right :: l2).
Proof.
  intros Hc Hm He Hls Hle Hrs Hre. revert lo Hc.
  induction l1 as [|u l1 IH]; intros lo Hc; cbn [app] in *.
  - apply chain_cons in Hc as [Hs Hc]. rewrite !chain_cons, Hls, Hle, Hrs, Hre.
    split; [done|]. right. split; [congruence|]. split; [done|].
    destruct Hc as [?|[? ?]]; [by left|right]. split; [|done].
    destruct He as [He|?]; [|done]. rewrite He in *. by apply slt_nil in H.
  - apply chain_cons in Hc as [Hs [[? Hn]|[? Hc]]]; [by destruct l1|].
    rewrite chain_cons. auto.
Qed.

(** On a partition the search finds the one tablet that covers the key. *)
Lemma route_exact (tablets_ : list Tablet) (key : bytes) (Hp : partition tablets_) :
  ∃ i t, FindTabletIndex tablets_ key = Ret i ∧ tablets_ !! i = Some t ∧
    GetTabletRoute tablets_ key = Ret (Some t) ∧ covers t key ∧
    ∀ j u, tablets_ !! j = Some u → covers u key → j = i.
Proof.
  destruct (search_spec start_key tablets_ key) as (n & Hn & Hle & Hbelow & Habove).
  destruct tablets_ as [|t0 ts] eqn:Ets; [done|]. rewrite <- Ets in *.
  assert (H0 : tablets_ !! 0%nat = Some t0) by (by rewrite Ets).
  destruct n as [|n].
  { exfalso. specialize (Habove _ H0). rewrite Ets in Hp. destruct Hp as [Hs _].
    rewrite Hs in Habove. by apply slt_nil in Habove. }
  destruct (lookup_lt_is_Some_2 tablets_ n) as [t Ht]; [lia|].
  assert (Hcov : covers t key).
  { eapply partition_covers; eauto. apply Hbelow; [|done]. by rewrite Nat.sub_1_r. }
  exists n, t. unfold GetTabletRoute, FindTabletIndex. rewrite Hn. cbn [mbind outcome_bind].
  change (S n =? 0)%nat with false. cbv iota. replace (S n - 1)%nat with n by lia.
  split; [done|]. split; [done|]. split.
  - rewrite bool_decide_eq_false_2 by (by rewrite Ets).
    destruct (Nat.leb_spec (length tablets_) n); [lia|]. rewrite Ht.
    destruct Hcov as [_ He]. destruct (past_end_spec (end_key t) key) as [[Hne Hge]|]; [|done].
    destruct He as [?|He]; [done|]. exfalso. by apply (sle_not_slt _ _) in Hge.
  - split; [done|]. intros j u Hj Hu. by eapply chain_disjoint.
Qed.

(** On any table a route is a tablet of the table that covers the key. *)
Lemma route_sound (tablets_ : list Tablet) (key : bytes) :
  ∃ r, GetTabletRoute tablets_ key = Ret r ∧
    ∀ t, r = Some t → t ∈ tablets_ ∧ covers t key.
Proof.
  unfold GetTabletRoute. case_bool_decide as He; [eexists; split; [done|]; done|].
  destruct (search_spec start_key tablets_ key) as (n & Hn & Hle & Hbelow & _).
  unfold FindTabletIndex. rewrite Hn. cbn [mbind outcome_bind].
  destruct (Nat.eqb_spec n 0) as [->|Hn0].
  { rewrite Nat.leb_refl. eexists; split; [done|]; done. }
  destruct (Nat.leb_spec (length tablets_) (n - 1)); [lia|].
  destruct (lookup_lt_is_Some_2 tablets_ (n - 1)) as [t Ht]; [lia|]. rewrite Ht.
  destruct (past_end_spec (end_key t) key); eexists; (split; [done|]); [done|].
  intros ? [= <-]. split; [by eapply list_elem_of_lookup_2|]. split; [|done]. by apply Hbelow.
Qed.

(** ** Properties *)

(** C11: routing is total, exact and unambiguous: when the table partitions the
    key space, the binary search terminates within its bounds for every key,
    [GetTabletRoute] finds a tablet, that tablet covers the key, and no other
    entry of the table does; and on any table at all, sorted or not, it terminates
    without reading outside the table, and a route is only answered with a tablet of
    the table that covers the key. *)
Theorem GetTabletRoute_exact (tablets_ : list Tablet) (key : bytes) :
  (partition tablets_ →
   ∃ i t, FindTabletIndex tablets_ key = Ret i ∧ tablets_ !! i = Some t ∧
     GetTabletRoute tablets_ key = Ret (Some t) ∧ covers t key ∧
     ∀ j u, tablets_ !! j = Some u → covers u key → j = i) ∧
  (∃ r, GetTabletRoute tablets_ key = Ret r ∧ ∀ t, r = Some t → t ∈ tablets_ ∧ covers t key).
Proof. split; [apply route_exact|apply route_sound]. Qed.

Definition demo_tablets : list Tablet :=
  [ {| tid := 1; start_key := []; end_key := str "g"; node_id := 2; key_count := 3 |};
    {| tid := 4; start_key := str "g"; end_key := str "m"; node_id := 3; key_count := 3 |};
    {| tid := 2; start_key := str "m"; end_key := []; node_id := 3; key_count := 5 |} ].

Lemma GetTabletRoute_exact_witness :
  partition demo_tablets ∧
  ∃ i t, FindTabletIndex demo_tablets (str "h") = Ret i ∧ demo_tablets !! i = Some t ∧
    GetTabletRoute demo_tablets (str "h") = Ret (Some t) ∧ covers t (str "h") ∧
    ∀ j u, demo_tablets !! j = Some u → covers u (str "h") → j = i.
Proof.
  assert (Hp : partition demo_tablets) by (apply (bool_decide_unpack _); vm_compute; exact I).
  split; [exact Hp|]. exact (proj1 (GetTabletRoute_exact demo_tablets (str "h")) Hp).
Defined.
