(* ===== verification/RaftNode.v ===== *)
(** * The master's state, its creation and its persistence

    (src/kv/raft_node.h, src/kv/raft_node.cpp: the class [RaftNode] as far as the
    master uses it, [BuildInitialTablets], [SaveTablets], [LoadTablets], the
    master part of the constructor; src/common/common.h: [to_json], [from_json].)

    The disk holds the two files the master touches; the answers of the file
    system to the successive saves are given by [fs]. *)

From S2P Require Import Prelude StringOrder Text Json Config Tablet.

Definition LEADER_PORT : Z := 9001.
Definition SPLIT_THRESHOLD : Z := 6.
Definition BALANCE_DIFF_THRESHOLD : Z := 7.

(** What the file system does with one save: whether the file opens, after how
    many bytes writing fails ([None]: never; the program does not look at the
    state of the stream), whether [rename] succeeds. *)
Record fs_answer := { fs_open : bool; fs_stored : option nat; fs_rename : bool }.

Definition stored (a : fs_answer) (text : bytes) : bytes :=
  match fs_stored a with None => text | Some k => take k text end.

Record Disk := { tablet_file : option bytes; tmp_file : option bytes }.

Record RaftNode := {
  node_id_ : Z;
  port_ : Z;
  peers_ : list PeerInfo;
  tablets_ : list Tablet;
  next_tablet_id_ : Z;
  epoch_ : Z;
  transfer_count_ : Z;
  transfer_time_ms_ : Z;
  disk_ : Disk;
  saves_ : nat;  (* number of saves so far: the index into [fs] *)
}.

Definition IsMaster (n : RaftNode) : bool := port_ n =? LEADER_PORT.
Definition IsDataNode (n : RaftNode) : bool := negb (IsMaster n).

(** Updates of the fields. *)
Definition set_table (n : RaftNode) (ts : list Tablet) (next epoch : Z) : RaftNode :=
  {| node_id_ := node_id_ n; port_ := port_ n; peers_ := peers_ n; tablets_ := ts;
     next_tablet_id_ := next; epoch_ := epoch; transfer_count_ := transfer_count_ n;
     transfer_time_ms_ := transfer_time_ms_ n; disk_ := disk_ n; saves_ := saves_ n |}.
Definition set_disk (n : RaftNode) (d : Disk) (saves : nat) : RaftNode :=
  {| node_id_ := node_id_ n; port_ := port_ n; peers_ := peers_ n; tablets_ := tablets_ n;
     next_tablet_id_ := next_tablet_id_ n; epoch_ := epoch_ n; transfer_count_ := transfer_count_ n;
     transfer_time_ms_ := transfer_time_ms_ n; disk_ := d; saves_ := saves |}.
Definition set_transfer (n : RaftNode) (count time : Z) : RaftNode :=
  {| node_id_ := node_id_ n; port_ := port_ n; peers_ := peers_ n; tablets_ := tablets_ n;
     next_tablet_id_ := next_tablet_id_ n; epoch_ := epoch_ n; transfer_count_ := count;
     transfer_time_ms_ := time; disk_ := disk_ n; saves_ := saves_ n |}.

(** ** JSON form of the table *)
Definition to_json (t : Tablet) : json :=
  JObj [(str "end_key", JStr (end_key t)); (str "id", JInt (tid t));
        (str "key_count", JInt (key_count t)); (str "node_id", JInt (node_id t));
        (str "start_key", JStr (start_key t))].

Definition from_json (j : json) : outcome Tablet :=
  j1 ← json_at j (str "id"); id ← json_uint64 j1;
  j2 ← json_at j (str "start_key"); start ← json_string j2;
  j3 ← json_at j (str "end_key"); end_ ← json_string j3;
  j4 ← json_at j (str "node_id"); node ← json_unsigned u32 j4;
  j5 ← json_at j (str "key_count"); count ← json_uint64 j5;
  Ret {| tid := id; start_key := start; end_key := end_; node_id := node; key_count := count |}.

Definition table_json (n : RaftNode) : json :=
  JObj [(str "epoch", JInt (epoch_ n)); (str "next_tablet_id", JInt (next_tablet_id_ n));
        (str "tablets", JArr (to_json <$> tablets_ n))].

Section Persistence.
Context `{JsonText} (fs : nat → fs_answer).

(** The disk after each system call of a save of [text]: the temporary file is
    created empty, filled byte by byte, and renamed over the table file. *)
Definition save_trace (a : fs_answer) (text : bytes) (d : Disk) : list Disk :=
  if negb (fs_open a) then [] else
  let written := stored a text in
  ((fun k => {| tablet_file := tablet_file d; tmp_file := Some (take k written) |})
     <$> seq 0 (S (length written)))
  ++ (if fs_rename a then [{| tablet_file := Some written; tmp_file := None |}] else []).

Definition SaveTablets (n : RaftNode) : outcome RaftNode :=
  if negb (IsMaster n) then Ret n else
  text ← (if fs_open (fs (saves_ n)) then json_dump (table_json n) else Ret []);
  Ret (set_disk n (default (disk_ n) (last (save_trace (fs (saves_ n)) text (disk_ n)))) (S (saves_ n))).

(** The part of [LoadTablets] inside the [try] block. *)
Definition load_text (text : bytes) : outcome (list Tablet * Z * Z) :=
  j ← json_parse text;
  j1 ← json_at j (str "next_tablet_id"); next ← json_uint64 j1;
  j2 ← json_at j (str "epoch"); epoch ← json_uint64 j2;
  j3 ← json_at j (str "tablets");
  ts ← (match j3 with JArr l => outcome_map from_json l | _ => Throw end);
  Ret (ts, next, epoch).

Definition LoadTablets (n : RaftNode) : outcome (RaftNode * bool) :=
  if negb (IsMaster n) then Ret (n, false) else
  match tablet_file (disk_ n) with
  | None => Ret (n, false)
  | Some text =>
      match load_text text with
      | Ret (ts, next, epoch) => Ret (set_table n ts next epoch, true)
      | Throw => Ret (set_table n [] 3 1, false)
      | UB => UB
      end
  end.

(** The ids of the peers that are not the master, as [uint32_t]. *)
Definition data_nodes (peers : list PeerInfo) : list Z :=
  (fun p => u32 (pid p)) <$> filter (fun p => port p ≠ LEADER_PORT) peers.

Definition BuildInitialTablets (n : RaftNode) : outcome RaftNode :=
  match data_nodes (peers_ n) with
  | [] => Ret n
  | n0 :: rest =>
      match rest with
      | [] => UB  (* data_nodes[1] *)
      | n1 :: _ =>
          let t1 := {| tid := 1; start_key := []; end_key := str "m"; node_id := n0; key_count := 0 |} in
          let t2 := {| tid := 2; start_key := str "m"; end_key := []; node_id := n1; key_count := 0 |} in
          Ret (set_table n (tablets_ n ++ [t1; t2]) 3 1)
      end
  end.

(** The constructor on the master, after the connections to the data nodes. *)
Definition init_master (id prt : Z) (peers : list PeerInfo) (d : Disk) : outcome RaftNode :=
  let n := {| node_id_ := id; port_ := prt; peers_ := peers; tablets_ := []; next_tablet_id_ := 3;
              epoch_ := 1; transfer_count_ := 0; transfer_time_ms_ := 0; disk_ := d; saves_ := 0 |} in
  '(n, loaded) ← LoadTablets n;
  if loaded : bool then Ret n else
  n ← BuildInitialTablets n;
  SaveTablets n.
End Persistence.

(** ** The values a table holds at their widths *)
Definition tablet_ok (t : Tablet) : Prop :=
  0 ≤ tid t < 2 ^ 64 ∧ 0 ≤ node_id t < 2 ^ 32 ∧ 0 ≤ key_count t < 2 ^ 64.
#[export] Instance tablet_ok_dec t : Decision (tablet_ok t) := _.

Definition table_ok (n : RaftNode) : Prop :=
  Forall tablet_ok (tablets_ n) ∧ 0 ≤ next_tablet_id_ n < 2 ^ 64 ∧ 0 ≤ epoch_ n < 2 ^ 64.
#[export] Instance table_ok_dec n : Decision (table_ok n) := _.

Lemma from_to_json t : tablet_ok t → from_json (to_json t) = Ret t.
Proof.
  intros (Hid & Hn & Hk). unfold from_json, to_json.
  json_lookup. cbn [json_uint64 json_unsigned json_string mbind outcome_bind].
  rewrite !u64_small, u32_small by lia. by destruct t.
Qed.

(** Member names in their order. *)
Ltac sorted_keys := repeat (constructor; [|repeat constructor; reflexivity]); constructor.

Lemma to_json_ok t : tablet_ok t → json_ok (to_json t).
Proof. intros (? & ? & ?). simpl. split; [|sorted_keys]. repeat split; lia. Qed.

Lemma table_json_ok n : table_ok n → json_ok (table_json n).
Proof.
  intros (Hts & ? & ?). simpl. split; [|sorted_keys]. split; [done|]. split; [done|]. split; [|done].
  induction Hts as [|t ts Ht Hts IH]; simpl; [done|]. split; [by apply to_json_ok|done].
Qed.

Section PersistenceLemmas.
Context `{JsonTextSpec}.

(** The text of a dumped table loads as that table. *)
Lemma load_text_dump n text :
  table_ok n → json_dump (table_json n) = Ret text →
  load_text text = Ret (tablets_ n, next_tablet_id_ n, epoch_ n).
Proof.
  intros Hok Hd. unfold load_text.
  rewrite (json_parse_dump (table_json n) text) by (done || by apply table_json_ok).
  destruct Hok as (Hts & ? & ?). cbn [mbind outcome_bind]. unfold table_json. json_lookup.
  cbn [json_uint64 mbind outcome_bind]. rewrite !u64_small by lia.
  rewrite (outcome_map_ret _ (fun j => match from_json j with Ret t => t
    | _ => {| tid := 0; start_key := []; end_key := []; node_id := 0; key_count := 0 |} end)).
  - cbn. rewrite <- list_fmap_compose. do 3 f_equal.
    induction Hts as [|t ts Ht Hts IH]; [done|]. rewrite fmap_cons, IH. cbn [compose].
    by rewrite from_to_json.
  - intros j Hj. apply list_elem_of_fmap in Hj as (t & -> & Ht).
    rewrite Forall_forall in Hts. by rewrite from_to_json by auto.
Qed.

Lemma save_trace_last a text d :
  fs_open a = true → fs_rename a = true →
  last (save_trace a text d) = Some {| tablet_file := Some (stored a text); tmp_file := None |}.
Proof. intros Ho Hr. unfold save_trace. rewrite Ho, Hr. cbn [negb]. by rewrite last_app. Qed.

(** The table file while a save that stores everything is under way. *)
Lemma save_trace_file a text d d' :
  d' ∈ save_trace a text d →
  tablet_file d' = tablet_file d ∨ tablet_file d' = Some (stored a text).
Proof.
  unfold save_trace. destruct (fs_open a); cbn [negb]; [|by intros ?%elem_of_nil].
  rewrite elem_of_app. intros [Hd|Hd].
  - apply list_elem_of_fmap in Hd as (k & -> & _). by left.
  - destruct (fs_rename a); [|by apply elem_of_nil in Hd].
    apply list_elem_of_singleton in Hd as ->. by right.
Qed.
End PersistenceLemmas.

(** ** Properties *)

(** The routing table survives a restart: after a save in which the file
    system does its work, a master started on that disk loads exactly the table,
    the next tablet id and the epoch that were saved. *)
Lemma SaveTablets_LoadTablets `{JsonTextSpec} fs (n n' m : RaftNode)
    (Hm : IsMaster n = true) (Hok : table_ok n) (Hsave : SaveTablets fs n = Ret n')
    (Hfs : fs (saves_ n) = {| fs_open := true; fs_stored := None; fs_rename := true |})
    (Hmm : IsMaster m = true) (Hdisk : disk_ m = disk_ n') :
  LoadTablets m = Ret (set_table m (tablets_ n) (next_tablet_id_ n) (epoch_ n), true).
Proof.
  unfold SaveTablets in Hsave. rewrite Hm, Hfs in Hsave. cbn [negb fs_open] in Hsave.
  apply bind_ret_inv in Hsave as (text & Hd & [= <-]). cbn [set_disk disk_] in Hdisk.
  rewrite save_trace_last in Hdisk by done. cbn in Hdisk.
  unfold LoadTablets. rewrite Hmm, Hdisk. cbn. by rewrite (load_text_dump n text).
Qed.

(** C21: a save is atomic for the table file: in every intermediate state of the
    disk (a crash between two system calls) the table file is still the old one
    or it is the complete new one, as long as the file system stores every byte;
    but a short write is not noticed: when fewer bytes reach the disk and the
    rename succeeds, the truncated text replaces the good file. *)
Theorem SaveTablets_crash_safe `{JsonText} fs (n : RaftNode) (text : bytes) (d : Disk)
    (Hd : d ∈ save_trace (fs (saves_ n)) text (disk_ n)) :
  (fs_stored (fs (saves_ n)) = None →
     tablet_file d = tablet_file (disk_ n) ∨ tablet_file d = Some text) ∧
  (IsMaster n = true → json_dump (table_json n) = Ret text →
   ∀ k, fs_rename (fs (saves_ n)) = true → fs_stored (fs (saves_ n)) = Some k →
   ∃ n', SaveTablets fs n = Ret n' ∧ tablet_file (disk_ n') = Some (take k text)).
Proof.
  split.
  - intros Hs. apply save_trace_file in Hd. unfold stored in Hd. by rewrite Hs in Hd.
  - intros Hm Htext k Hr Hs. unfold SaveTablets. rewrite Hm. cbn [negb].
    unfold save_trace in *. destruct (fs_open (fs (saves_ n))) eqn:Ho; cbn [negb] in *;
      [|by apply elem_of_nil in Hd].
    rewrite Htext, Hr. cbn [mbind outcome_bind]. eexists. split; [done|].
    rewrite last_app. unfold stored. by rewrite Hs.
Qed.

Definition demo_master (ts : list Tablet) : RaftNode :=
  {| node_id_ := 1; port_ := 9001; peers_ := demo_peers; tablets_ := ts; next_tablet_id_ := 5;
     epoch_ := 2; transfer_count_ := 0; transfer_time_ms_ := 0;
     disk_ := {| tablet_file := None; tmp_file := None |}; saves_ := 0 |}.

Definition good_fs : nat → fs_answer := fun _ => {| fs_open := true; fs_stored := None; fs_rename := true |}.

Definition short_fs : nat → fs_answer := fun _ => {| fs_open := true; fs_stored := Some 3%nat; fs_rename := true |}.

Lemma SaveTablets_crash_safe_witness :
  let n := demo_master demo_tablets in
  let text := pos_bytes (encode (json_tree (table_json n))) in
  ∃ n', @SaveTablets ref_json_text short_fs n = Ret n' ∧
        tablet_file (disk_ n') = Some (take 3 text).
Proof.
  cbv zeta.
  destruct (@SaveTablets_crash_safe ref_json_text short_fs (demo_master demo_tablets)
    (pos_bytes (encode (json_tree (table_json (demo_master demo_tablets)))))
    {| tablet_file := None; tmp_file := Some [] |}) as [_ H].
  - vm_compute. left.
  - apply H; vm_compute; reflexivity.
Defined.

(** Distinct ids, all below the next one. *)
Definition ids_ok (n : RaftNode) : Prop :=
  NoDup (tid <$> tablets_ n) ∧ Forall (fun t => 0 ≤ tid t < next_tablet_id_ n) (tablets_ n).
#[export] Instance ids_ok_dec n : Decision (ids_ok n) := _.

(** The first start of the master: without a table file and with at least
    two data nodes the constructor builds (and saves) a table that partitions
    the key space at "m" between the first two data nodes, with well-formed ids;
    with exactly one data node it reads [data_nodes[1]] out of bounds; with none
    the table is empty and no key has a route. *)
Lemma init_master_fresh {J : JsonText} fs id (peers : list PeerInfo) (d : Disk) (n : RaftNode)
    (Hd : tablet_file d = None) :
  (∀ n0 n1 rest, data_nodes peers = n0 :: n1 :: rest → init_master fs id LEADER_PORT peers d = Ret n →
     partition (tablets_ n) ∧ ids_ok n ∧ table_ok n ∧ node_id <$> tablets_ n = [n0; n1] ∧
     ∀ k, ∃ t, GetTabletRoute (tablets_ n) k = Ret (Some t) ∧
               node_id t = if str_ltb k (str "m") then n0 else n1) ∧
  (∀ n0, data_nodes peers = [n0] → init_master fs id LEADER_PORT peers d = UB) ∧
  (data_nodes peers = [] → init_master fs id LEADER_PORT peers d = Ret n →
     ∀ k, GetTabletRoute (tablets_ n) k = Ret None).
Proof.
  assert (HM : ∀ n, port_ n = LEADER_PORT → IsMaster n = true).
  { intros m Hm. unfold IsMaster. by rewrite Hm. }
  unfold init_master, LoadTablets, BuildInitialTablets. rewrite HM by done. cbn [negb disk_ peers_].
  rewrite Hd. cbn [mbind outcome_bind peers_ tablets_ app].
  split_and!.
  - intros n0 n1 rest Hp. rewrite Hp. cbn [mbind outcome_bind set_table]. unfold SaveTablets.
    rewrite HM by done. cbn [negb]. intros H. apply bind_ret_inv in H as (text & _ & [= <-]). cbn [tablets_ set_disk app].
    assert (Hn : 0 ≤ n0 < 2 ^ 32 ∧ 0 ≤ n1 < 2 ^ 32).
    { assert (Hall : ∀ x, x ∈ data_nodes peers → 0 ≤ x < 2 ^ 32).
      { intros x Hx. apply list_elem_of_fmap in Hx as (p & -> & _). apply u32_range. }
      split; apply Hall; rewrite Hp; set_solver. }
    assert (Hpart : partition [ {| tid := 1; start_key := []; end_key := str "m"; node_id := n0; key_count := 0 |};
        {| tid := 2; start_key := str "m"; end_key := []; node_id := n1; key_count := 0 |} ]).
    { unfold partition. rewrite !chain_cons. split; [done|]. right. split; [done|]. split; [done|]. by left. }
    split; [done|]. split; [|split; [|split; [done|]]].
    + split; cbn; [repeat constructor; set_solver|]. repeat constructor; simpl; lia.
    + split; cbn; [|lia]. repeat constructor; simpl; lia.
    + intros k. destruct (route_exact _ k Hpart) as (i & t & _ & Hi & HR & Hc & _).
      exists t. split; [done|]. destruct i as [|[|]]; simpl in Hi; injection Hi as <- || done;
        destruct Hc as [Hlo Hhi]; destruct (str_ltb_spec k (str "m")); try done.
      * destruct Hhi as [?|?]; [done|]. cbn [end_key] in *. exfalso. by eapply sle_not_slt.
      * cbn [start_key] in *. exfalso. by eapply sle_not_slt.
  - intros n0 Hp. by rewrite Hp.
  - intros Hp. rewrite Hp. cbn [mbind outcome_bind]. unfold SaveTablets.
    rewrite HM by done. cbn [negb]. intros H. apply bind_ret_inv in H as (text & _ & [= <-]). done.
Qed.
