(* ===== verification/TableSteps.v ===== *)
(** * What the balancer may do to the routing table

    The abstract specification of the balancer thread: a step relation on the
    routing table with its id and epoch counters.  A step refreshes a key count,
    cuts one tablet in two at a key strictly inside its range, or hands one
    tablet to another node that already owns one.  The invariants of the table
    are proved here by induction on the steps; Balancer.v shows that the code
    only makes such steps, whatever the network does. *)

From S2P Require Import Prelude StringOrder Tablet RaftNode.

(** The two assignments to a tablet in place. *)
Definition set_node (t : Tablet) (node : Z) : Tablet :=
  {| tid := tid t; start_key := start_key t; end_key := end_key t; node_id := node; key_count := key_count t |}.
Definition set_count (t : Tablet) (count : Z) : Tablet :=
  {| tid := tid t; start_key := start_key t; end_key := end_key t; node_id := node_id t; key_count := count |}.

Record routing := Routing { r_tablets : list Tablet; r_next : Z; r_epoch : Z }.
Definition view (n : RaftNode) : routing := Routing (tablets_ n) (next_tablet_id_ n) (epoch_ n).

(** The halves of a tablet cut at [m] when it holds [c] keys. *)
Definition left_half (t : Tablet) (id : Z) (m : bytes) (c : Z) : Tablet :=
  {| tid := id; start_key := start_key t; end_key := m; node_id := node_id t; key_count := c / 2 |}.
Definition right_half (t : Tablet) (id : Z) (m : bytes) (c : Z) : Tablet :=
  {| tid := id; start_key := m; end_key := end_key t; node_id := node_id t; key_count := c - c / 2 |}.

(** The two halves share the keys of the tablet. *)
Lemma covers_halves t id1 id2 m c k :
  slt (start_key t) m → (end_key t = [] ∨ slt m (end_key t)) →
  covers t k ↔ covers (left_half t id1 m c) k ∨ covers (right_half t id2 m c) k.
Proof.
  intros Hlt He. unfold covers, in_range. cbn [left_half right_half start_key end_key].
  pose proof (slt_not_nil _ _ Hlt). destruct (str_ltb_spec k m); split.
  - intros [? _]. left. auto.
  - intros [[? _]|[? ?]]; [|exfalso; str_order]. split; [done|]. destruct He; [by left|right; str_order].
  - intros [? ?]. right. auto.
  - intros [[? [?|?]]|[? ?]]; [done|exfalso; str_order|]. split; [str_order|done].
Qed.

(** The index is the number of tablets that have changed their node. *)
Inductive table_step : nat → routing → routing → Prop :=
  | step_refresh ts i t c next ep :
      ts !! i = Some t → 0 ≤ c < 2 ^ 32 →
      table_step 0 (Routing ts next ep) (Routing (<[i := set_count t c]> ts) next ep)
  | step_split l1 t l2 m c next ep :
      slt (start_key t) m → (end_key t = [] ∨ slt m (end_key t)) → 0 ≤ c < 2 ^ 32 →
      table_step 0 (Routing (l1 ++ t :: l2) next ep)
        (Routing (l1 ++ left_half t next m c :: right_half t (u64 (next + 1)) m c :: l2)
           (u64 (u64 (next + 1) + 1)) (u64 (ep + 1)))
  | step_move ts i t u next ep :
      ts !! i = Some t → u ∈ ts → node_id u ≠ node_id t →
      table_step 1 (Routing ts next ep) (Routing (<[i := set_node t (node_id u)]> ts) next (u64 (ep + 1))).

(** A run of the balancer that moves [k] tablets. *)
Inductive table_run : nat → routing → routing → Prop :=
  | run_nil r : table_run 0 r r
  | run_cons m k r r1 r' : table_step m r r1 → table_run k r1 r' → table_run (m + k) r r'.

Lemma run_once m r r' : table_step m r r' → table_run m r r'.
Proof. intros Hs. rewrite <- (Nat.add_0_r m). eapply run_cons; [exact Hs|apply run_nil]. Qed.

Lemma run_app j k r r1 r' : table_run j r r1 → table_run k r1 r' → table_run (j + k) r r'.
Proof.
  induction 1 as [|m j r r2 r1 Hs _ IH]; [done|]. intros Hr. rewrite <- Nat.add_assoc. by eapply run_cons, IH.
Qed.

(** ** Facts about one step *)

(** Every element of an updated list is the new one or an old one. *)
Lemma elem_of_insert_inv {A} (l : list A) i x y : y ∈ <[i := x]> l → y = x ∨ y ∈ l.
Proof.
  intros (j & Hj)%list_elem_of_lookup_1. apply list_lookup_insert_Some in Hj
    as [(_ & -> & _)|[_ ?%list_elem_of_lookup_2]]; auto.
Qed.

Lemma insert_fmap_same {A B} (f : A → B) (l : list A) i x y :
  l !! i = Some x → f y = f x → f <$> <[i := y]> l = f <$> l.
Proof.
  intros Hi Hf. rewrite list_fmap_insert, Hf. apply list_insert_id.
  by rewrite list_lookup_fmap, Hi.
Qed.

Lemma step_partition m r r' :
  table_step m r r' → partition (r_tablets r) → partition (r_tablets r').
Proof.
  destruct 1; cbn [r_tablets]; intros Hp.
  - by eapply partition_insert.
  - by eapply chain_split.
  - by eapply partition_insert.
Qed.

(** No step gives a tablet to a node that owns none. *)
Lemma step_owners m r r' node :
  table_step m r r' → node ∈ node_id <$> r_tablets r' → node ∈ node_id <$> r_tablets r.
Proof.
  destruct 1 as [??? | | ts i t u next ep Hi Hu]; cbn [r_tablets].
  - by erewrite insert_fmap_same.
  - rewrite !fmap_app, !fmap_cons. cbn [left_half right_half node_id]. set_solver.
  - rewrite !list_elem_of_fmap. intros (w & -> & [->|Hw]%elem_of_insert_inv); cbn [set_node node_id]; eauto.
Qed.

(** A split makes the table longer by one and uses two ids. *)
Lemma step_next m r r' :
  table_step m r r' → ∃ k : nat, length (r_tablets r') = (length (r_tablets r) + k)%nat ∧
    (0 ≤ r_next r → r_next r + 2 * Z.of_nat k < 2 ^ 64 → r_next r' = r_next r + 2 * Z.of_nat k).
Proof.
  destruct 1; cbn [r_tablets r_next].
  - exists 0%nat. rewrite length_insert. lia.
  - exists 1%nat. rewrite !length_app. simpl length. split; [lia|]. intros.
    rewrite !u64_small; rewrite ?u64_small; lia.
  - exists 0%nat. rewrite length_insert. lia.
Qed.

Definition ids_fresh (r : routing) : Prop :=
  NoDup (tid <$> r_tablets r) ∧ Forall (fun t => 0 ≤ tid t < r_next r) (r_tablets r).

Lemma step_ids m r r' :
  table_step m r r' → 0 ≤ r_next r → r_next r + 2 < 2 ^ 64 → ids_fresh r → ids_fresh r'.
Proof.
  unfold ids_fresh. destruct 1 as [ts i t c next ep Hi Hc | l1 t l2 md c next ep Hm He Hc | ts i t u next ep Hi Hu];
    cbn [r_tablets r_next]; intros Hn Hmax [Hd Hf].
  1,3: (erewrite insert_fmap_same by done; split; [done|]; apply Forall_insert; [done|];
    rewrite Forall_forall in Hf; exact (Hf t (list_elem_of_lookup_2 _ _ _ Hi))).
  rewrite !u64_small by (rewrite ?u64_small; lia). rewrite fmap_app, fmap_cons in Hd |- *.
  rewrite Forall_app, Forall_cons in Hf. destruct Hf as (Hf1 & _ & Hf2).
  assert (Hmono : ∀ l, Forall (fun t => 0 ≤ tid t < next) l →
    Forall (fun t => 0 ≤ tid t < next + 1 + 1) l ∧ ∀ i, next ≤ i → i ∉ tid <$> l).
  { intros l Hl. split; [eapply Forall_impl; [exact Hl|]; simpl; lia|].
    intros i Hi (w & -> & Hw)%list_elem_of_fmap. rewrite Forall_forall in Hl. specialize (Hl w Hw). lia. }
  destruct (Hmono _ Hf1) as [Hg1 Hi1], (Hmono _ Hf2) as [Hg2 Hi2].
  apply NoDup_app in Hd as (Hd1 & Hd12 & Hd2). apply NoDup_cons in Hd2 as [_ Hd2].
  split.
  - cbn [fmap list_fmap left_half right_half tid]. apply NoDup_app. split; [done|]. split.
    + intros x Hx. rewrite !not_elem_of_cons. split_and!;
        [intros ->; by eapply Hi1, Hx; lia|intros ->; eapply Hi1; [|exact Hx]; lia|].
      intros Hx2. apply (Hd12 x Hx). by right.
    + rewrite !NoDup_cons, !not_elem_of_cons. split_and!; [lia|apply Hi2; lia|apply Hi2; lia|done].
  - rewrite Forall_app, !Forall_cons. cbn [left_half right_half tid]. split_and!; done || lia.
Qed.

Lemma step_widths m r r' :
  table_step m r r' → 0 ≤ r_next r < 2 ^ 64 → Forall tablet_ok (r_tablets r) → Forall tablet_ok (r_tablets r').
Proof.
  destruct 1 as [ts i t c next ep Hi Hc | l1 t l2 md c next ep Hm He Hc | ts i t u next ep Hi Hu];
    cbn [r_tablets r_next]; intros Hn Hf.
  - apply Forall_insert; [done|]. rewrite Forall_forall in Hf.
    destruct (Hf t (list_elem_of_lookup_2 _ _ _ Hi)) as (? & ? & ?). unfold tablet_ok; simpl; lia.
  - rewrite Forall_app, Forall_cons in Hf. destruct Hf as (? & (? & ? & ?) & ?).
    rewrite Forall_app, !Forall_cons. unfold tablet_ok. cbn [left_half right_half tid node_id key_count].
    pose proof (u64_range (next + 1)). pose proof (Z.div_le_upper_bound c 2 c).
    pose proof (Z.div_pos c 2). split_and!; done || lia.
  - apply Forall_insert; [done|]. rewrite Forall_forall in Hf.
    destruct (Hf t (list_elem_of_lookup_2 _ _ _ Hi)) as (? & ? & ?).
    destruct (Hf u Hu) as (? & ? & ?). unfold tablet_ok; simpl; lia.
Qed.

(** ** Runs *)
Lemma steps_partition k r r' :
  table_run k r r' → partition (r_tablets r) → partition (r_tablets r').
Proof. induction 1; eauto using step_partition. Qed.

Lemma steps_owners k r r' node :
  table_run k r r' → node ∈ node_id <$> r_tablets r' → node ∈ node_id <$> r_tablets r.
Proof. induction 1; eauto using step_owners. Qed.

Lemma steps_length k r r' : table_run k r r' → (length (r_tablets r) ≤ length (r_tablets r'))%nat.
Proof. induction 1 as [|m k r r1 r' Hs _ IH]; [lia|]. destruct (step_next _ _ _ Hs) as (x & ? & _). lia. Qed.

(** The widths hold along any run: the id counter wraps but stays a [uint64_t]. *)
Lemma steps_widths k r r' :
  table_run k r r' → 0 ≤ r_next r < 2 ^ 64 → Forall tablet_ok (r_tablets r) →
  0 ≤ r_next r' < 2 ^ 64 ∧ Forall tablet_ok (r_tablets r').
Proof.
  induction 1 as [|m k r r1 r' Hs _ IH]; [done|]. intros Hn Hf. apply IH; [|by eapply step_widths].
  destruct Hs; cbn [r_next] in *; [done|apply u64_range|done].
Qed.

(** The numeric invariants hold along a run as long as the id counter does not wrap. *)
Lemma steps_ids k r r' :
  table_run k r r' → 0 ≤ r_next r →
  r_next r + 2 * Z.of_nat (length (r_tablets r') - length (r_tablets r)) + 2 < 2 ^ 64 →
  ids_fresh r → Forall tablet_ok (r_tablets r) →
  r_next r' = r_next r + 2 * Z.of_nat (length (r_tablets r') - length (r_tablets r)) ∧
  ids_fresh r' ∧ Forall tablet_ok (r_tablets r').
Proof.
  induction 1 as [r|m k r r1 r' Hs Hss IH]; intros Hn Hmax Hi Hw; [split_and!; done || lia|].
  destruct (step_next _ _ _ Hs) as (x & Hlen & Hnext). pose proof (steps_length _ _ _ Hss).
  rewrite Hnext in IH by lia.
  destruct IH as (? & ? & ?); [lia|lia|by eapply step_ids; eauto; lia|eapply step_widths; eauto; lia|].
  split_and!; done || lia.
Qed.

(** The same tablet, but for its count. *)
Definition same_route (t u : Tablet) : Prop :=
  start_key t = start_key u ∧ end_key t = end_key u ∧ node_id t = node_id u ∧ tid t = tid u.

#[export] Instance same_route_equiv : Equivalence same_route.
Proof. split; repeat intro; unfold same_route in *; naive_solver congruence. Qed.

Lemma same_route_refl ts : Forall2 same_route ts ts.
Proof. apply Forall2_same_length_lookup_2; [done|]. intros i x y Hx Hy. rewrite Hx in Hy. by injection Hy as ->. Qed.

(** The epoch counts the splits and the moves; when there were none, only counts have changed. *)
Lemma steps_epoch k r r' :
  table_run k r r' → 0 ≤ r_epoch r < 2 ^ 64 →
  let splits := (length (r_tablets r') - length (r_tablets r))%nat in
  r_epoch r' = u64 (r_epoch r + Z.of_nat splits + Z.of_nat k) ∧
  (splits = 0%nat → k = 0%nat → Forall2 same_route (r_tablets r) (r_tablets r')).
Proof.
  cbv zeta. induction 1 as [r|m k r r1 r' Hs Hss IH]; intros Hep.
  { rewrite Nat.sub_diag, !Z.add_0_r, u64_small by done. split; [done|]. intros _ _. apply same_route_refl. }
  pose proof (steps_length _ _ _ Hss) as Hlen.
  assert (Hu : ∀ ep x y, x = 1 + y → u64 (u64 (ep + 1) + y) = u64 (ep + x)).
  { intros ep x y ->. unfold u64. rewrite Zplus_mod_idemp_l. f_equal. lia. }
  destruct Hs as [ts i t c next ep Hi Hc | l1 t l2 md c next ep Hm He Hc | ts i t u next ep Hi Hu'];
    cbn [r_epoch r_tablets] in *.
  - rewrite length_insert in *. destruct (IH Hep) as [-> Hr]. split; [done|]. intros Hx Hk.
    etransitivity; [|by apply Hr]. apply Forall2_same_length_lookup_2; [by rewrite length_insert|].
    intros j x y Hx' [(<- & <- & _)|[_ Hy]]%list_lookup_insert_Some.
    + rewrite Hi in Hx'. by injection Hx' as ->.
    + rewrite Hx' in Hy. by injection Hy as ->.
  - rewrite !length_app in *. cbn [length] in *. destruct (IH (u64_range _)) as [-> _]. split; [|lia].
    rewrite <- !Z.add_assoc. apply Hu. lia.
  - rewrite length_insert in *. destruct (IH (u64_range _)) as [-> _]. split; [|lia].
    rewrite <- !Z.add_assoc. apply Hu. lia.
Qed.

(** Without a move every key stays on its node. *)
Lemma steps_stay k r r' t' key :
  table_run k r r' → k = 0%nat → t' ∈ r_tablets r' → covers t' key →
  ∃ t, t ∈ r_tablets r ∧ covers t key ∧ node_id t = node_id t'.
Proof.
  intros Hrun. revert t'. induction Hrun as [r|m k r r1 r' Hs _ IH]; intros t' Hk Ht Hc; [by exists t'|].
  destruct (IH t' ltac:(lia) Ht Hc) as (u & Hu & Hcu & <-). clear IH Ht Hc.
  destruct Hs as [ts i t c next ep Hi Hc | l1 t l2 md c next ep Hm He Hc |]; cbn [r_tablets] in *; [| |lia].
  - apply elem_of_insert_inv in Hu as [->|Hu]; [|by exists u]. exists t. split; [by eapply list_elem_of_lookup_2|]. by destruct Hcu.
  - setoid_rewrite elem_of_app. setoid_rewrite elem_of_cons.
    pose proof (covers_halves t next (u64 (next + 1)) md c key Hm He) as Hh.
    apply elem_of_app in Hu as [Hu|[->|[->|Hu]%elem_of_cons]%elem_of_cons]; [by exists u; auto|exists t|exists t|by exists u; auto];
      (split; [auto|]; split; [apply Hh; auto|done]).
Qed.
