(* ===== verification/BalancePlan.v ===== *)
(** * The balancing decision (src/kv/raft_node.cpp, [RaftNode::DoLoadBalance])

    Which tablet the master moves, and where: the loads of the nodes as the
    [std::map] of the code, the most and the least loaded node, the largest
    tablet of the former.  The decision is compared with the sums of the key
    counts, and iterating it is shown to converge. *)

From S2P Require Import Prelude StringOrder Tablet RaftNode TableSteps.

(** ** Node loads: [std::map<uint32_t, uint64_t>], in key order *)
Fixpoint load_add (node count : Z) (m : list (Z * Z)) : list (Z * Z) :=
  match m with
  | [] => [(node, count)]
  | (k, v) :: m' =>
      if node <? k then (node, count) :: m
      else if node =? k then (k, u64 (v + count)) :: m'
      else (k, v) :: load_add node count m'
  end.

Definition node_load (ts : list Tablet) : list (Z * Z) :=
  fold_left (fun m t => load_add (node_id t) (key_count t) m) ts [].

(** [std::max_element] and [std::min_element]: the first extreme element. *)
Definition max_element (m : list (Z * Z)) (x : Z * Z) : Z * Z :=
  fold_left (fun best p => if best.2 <? p.2 then p else best) m x.
Definition min_element (m : list (Z * Z)) (x : Z * Z) : Z * Z :=
  fold_left (fun best p => if p.2 <? best.2 then p else best) m x.

(** The first tablet of [src] with the largest positive key count, from index [i] on. *)
Fixpoint find_target (src : Z) (ts : list Tablet) (i target_idx : nat) (max_count : Z) : nat :=
  match ts with
  | [] => target_idx
  | t :: ts =>
      if (node_id t =? src) && (max_count <? key_count t)
      then find_target src ts (S i) i (key_count t)
      else find_target src ts (S i) target_idx max_count
  end.

(** The decision of [DoLoadBalance]: the index of the tablet and the nodes. *)
Definition plan_balance (ts : list Tablet) : option (nat * Z * Z) :=
  if (length ts <? 2)%nat then None else
  match node_load ts with
  | [] | [_] => None
  | x :: m =>
      let max_it := max_element m x in
      let min_it := min_element m x in
      let diff := if min_it.2 <? max_it.2 then max_it.2 - min_it.2 else 0 in
      if diff <? BALANCE_DIFF_THRESHOLD then None else
      let target_idx := find_target max_it.1 ts 0 (length ts) 0 in
      if (length ts <=? target_idx)%nat then None else Some (target_idx, max_it.1, min_it.1)
  end.

(** ** The balancing decision *)

(** The reference load of a node: the sum of the counts of its tablets. *)
Fixpoint load (ts : list Tablet) (node : Z) : Z :=
  match ts with
  | [] => 0
  | t :: ts => (if node_id t =? node then key_count t else 0) + load ts node
  end.

Lemma load_app ts1 ts2 node : load (ts1 ++ ts2) node = load ts1 node + load ts2 node.
Proof. induction ts1 as [|t ts1 IH]; cbn [app load]; [done|]. rewrite IH. lia. Qed.

Lemma load_nonneg ts node : Forall tablet_ok ts → 0 ≤ load ts node.
Proof. induction 1 as [|t ts (? & ? & ?) _ IH]; simpl; [lia|]. destruct (_ =? _); lia. Qed.

Lemma load_absent ts node : node ∉ node_id <$> ts → load ts node = 0.
Proof.
  induction ts as [|u ts IH]; [done|]. rewrite fmap_cons, not_elem_of_cons. cbn [load].
  intros [? ?]. destruct (Z.eqb_spec (node_id u) node); [congruence|]. by rewrite IH.
Qed.

Definition load_lt (p q : Z * Z) : Prop := p.1 < q.1.

Lemma elem_of_load_add node c m k v :
  StronglySorted load_lt m →
  (k, v) ∈ load_add node c m ↔
    (k ≠ node ∧ (k, v) ∈ m) ∨
    (k = node ∧ ((∃ v0, (node, v0) ∈ m ∧ v = u64 (v0 + c)) ∨ ((∀ v0, (node, v0) ∉ m) ∧ v = c))).
Proof.
  induction 1 as [|[k1 v1] m Hs IH Hf]; cbn [load_add].
  { rewrite list_elem_of_singleton. set_solver. }
  rewrite Forall_forall in Hf. unfold load_lt in Hf. cbn [fst] in Hf.
  assert (Habs : node ≤ k1 → ∀ v0, (node, v0) ∉ m).
  { intros Hle v0 Hin. specialize (Hf _ Hin). simpl in Hf. lia. }
  destruct (Z.ltb_spec node k1); [|destruct (Z.eqb_spec node k1) as [->|]].
  - assert (∀ v0, (node, v0) ∉ (k1, v1) :: m).
    { intros v0 [[= ? ?]|?]%elem_of_cons; [lia|]. by eapply Habs; [lia|]. }
    rewrite elem_of_cons. split.
    + intros [[= -> ->]|Hin]; [naive_solver|]. left. split; [|done]. intros ->. naive_solver.
    + intros [[_ ?]|[-> [(v0 & ? & _)|[_ ->]]]]; naive_solver.
  - specialize (Habs ltac:(lia)). rewrite !elem_of_cons. split.
    + intros [[= -> ->]|Hin]; [right; split; [done|]; left; exists v1; set_solver|].
      left. split; [|by right]. intros ->. naive_solver.
    + intros [[? [[= ? ?]|?]]|[-> [(v0 & [[= ->]|?]%elem_of_cons & ->)|[Hn _]]]];
        [done|by right|by left|by edestruct Habs|].
      exfalso. apply (Hn v1). by left.
  - rewrite !elem_of_cons, IH. split.
    + intros [[= -> ->]|[[? ?]|[-> [(v0 & ? & ->)|[Hn ->]]]]]; [left; naive_solver|naive_solver|
        right; split; [done|]; left; exists v0; split; [by right|done]|].
      right. split; [done|]. right. split; [|done]. intros v0 [[= ? ?]|?]%elem_of_cons; [done|naive_solver].
    + intros [[? [[= -> ->]|?]]|[-> [(v0 & [[= ? ?]|?]%elem_of_cons & ->)|[Hn ->]]]];
        [by left|by right; left|done|right; right; eauto|].
      right; right. split; [done|]. right. split; [|done]. intros v0 ?. apply (Hn v0). by right.
Qed.

Lemma load_add_sorted node c m : StronglySorted load_lt m → StronglySorted load_lt (load_add node c m).
Proof.
  induction 1 as [|[k1 v1] m Hs IH Hf]; cbn [load_add]; [by repeat constructor|].
  rewrite Forall_forall in Hf. unfold load_lt in Hf; cbn [fst] in Hf.
  destruct (Z.ltb_spec node k1); [|destruct (Z.eqb_spec node k1)].
  - constructor; [constructor; [done|by apply Forall_forall]|]. apply Forall_forall.
    intros q [->|Hq]%elem_of_cons; unfold load_lt; simpl; [done|]. specialize (Hf q Hq). simpl in Hf. lia.
  - constructor; [done|]. by apply Forall_forall.
  - constructor; [done|]. apply Forall_forall. intros [k v] Hq. apply elem_of_load_add in Hq; [|done].
    unfold load_lt; simpl. destruct Hq as [[_ Hq]|[-> _]]; [by apply (Hf _ Hq)|lia].
Qed.

(** The map of the loads holds each owning node once, with its load. *)
Lemma node_load_spec ts :
  Forall tablet_ok ts → StronglySorted load_lt (node_load ts) ∧
  ∀ k v, (k, v) ∈ node_load ts ↔ k ∈ node_id <$> ts ∧ v = u64 (load ts k).
Proof.
  unfold node_load. induction ts as [|t ts IH] using rev_ind; intros Hok.
  { split; [constructor|]. intros. simpl. set_solver. }
  apply Forall_app in Hok as [Hok Ht]. apply Forall_singleton in Ht as (_ & _ & Ht).
  destruct (IH Hok) as [Hs Hm]. rewrite fold_left_app. cbn [fold_left].
  split; [by apply load_add_sorted|]. intros k v.
  rewrite elem_of_load_add by done. rewrite load_app, fmap_app, elem_of_app. cbn [load fmap list_fmap].
  rewrite list_elem_of_singleton, Hm.
  destruct (Z.eqb_spec (node_id t) k) as [<-|Hne].
  - rewrite Z.add_0_r. split.
    + intros [[? _]|[_ [(v0 & [? ->]%Hm & ->)|[Hn ->]]]]; [done| |].
      * split; [by left|]. unfold u64. by rewrite Zplus_mod_idemp_l.
      * split; [by right|]. rewrite load_absent, u64_small by (done || lia || intros Hin; eapply Hn, Hm; eauto).
        done.
    + intros [_ ->]. right. split; [done|]. destruct (decide (node_id t ∈ node_id <$> ts)) as [Hin|Hin].
      * left. exists (u64 (load ts (node_id t))). split; [by apply Hm|].
        unfold u64. by rewrite Zplus_mod_idemp_l.
      * right. split; [by intros v0 [? _]%Hm|]. by rewrite load_absent, u64_small by (done || lia).
  - replace (load ts k + (0 + 0)) with (load ts k) by lia. naive_solver.
Qed.

(** The extreme elements. *)
Lemma max_element_spec m x :
  max_element m x ∈ x :: m ∧ ∀ p, p ∈ x :: m → p.2 ≤ (max_element m x).2.
Proof.
  unfold max_element. revert x. induction m as [|q m IH]; intros x; cbn [fold_left].
  { split; [by left|]. by intros p ->%list_elem_of_singleton. }
  destruct (IH (if x.2 <? q.2 then q else x)) as [Hin Hmax]. split.
  - apply elem_of_cons in Hin as [->|?]; [destruct (_ <? _); [right; left|left]|right; by right].
  - intros p Hp. assert (Hx : (if x.2 <? q.2 then q else x).2 ≤
      (fold_left (λ best p0, if best.2 <? p0.2 then p0 else best) m (if x.2 <? q.2 then q else x)).2)
      by (apply Hmax; left).
    assert (Hxq : x.2 ≤ (if x.2 <? q.2 then q else x).2 ∧ q.2 ≤ (if x.2 <? q.2 then q else x).2)
      by (destruct (Z.ltb_spec x.2 q.2); lia).
    apply elem_of_cons in Hp as [->|[->|Hp]%elem_of_cons]; [lia|lia|]. apply Hmax. by right.
Qed.

Lemma min_element_spec m x :
  min_element m x ∈ x :: m ∧ ∀ p, p ∈ x :: m → (min_element m x).2 ≤ p.2.
Proof.
  unfold min_element. revert x. induction m as [|q m IH]; intros x; cbn [fold_left].
  { split; [by left|]. by intros p ->%list_elem_of_singleton. }
  destruct (IH (if q.2 <? x.2 then q else x)) as [Hin Hmin]. split.
  - apply elem_of_cons in Hin as [->|?]; [destruct (_ <? _); [right; left|left]|right; by right].
  - intros p Hp. assert (Hx : (fold_left (λ best p0, if p0.2 <? best.2 then p0 else best) m
      (if q.2 <? x.2 then q else x)).2 ≤ (if q.2 <? x.2 then q else x).2)
      by (apply Hmin; left).
    assert (Hxq : (if q.2 <? x.2 then q else x).2 ≤ x.2 ∧ (if q.2 <? x.2 then q else x).2 ≤ q.2)
      by (destruct (Z.ltb_spec q.2 x.2); lia).
    apply elem_of_cons in Hp as [->|[->|Hp]%elem_of_cons]; [lia|lia|]. apply Hmin. by right.
Qed.

Lemma find_target_spec src ts i ti mc :
  (find_target src ts i ti mc = ti ∧ ∀ u, u ∈ ts → node_id u = src → key_count u ≤ mc) ∨
  ∃ j t, find_target src ts i ti mc = (i + j)%nat ∧ ts !! j = Some t ∧ node_id t = src ∧
    mc < key_count t ∧ ∀ u, u ∈ ts → node_id u = src → key_count u ≤ key_count t.
Proof.
  revert i ti mc. induction ts as [|t ts IH]; intros i ti mc; cbn [find_target].
  { left. split; [done|]. by intros u ?%elem_of_nil. }
  destruct (Z.eqb_spec (node_id t) src) as [Hn|Hn]; [destruct (Z.ltb_spec mc (key_count t))|]; cbn [andb].
  - right. destruct (IH (S i) i (key_count t)) as [[-> Hu]|(j & t' & -> & Hj & Ht' & Hlt & Hu)].
    + exists 0%nat, t. split_and!; [lia|done|done|done|]. intros u [->|?]%elem_of_cons ?; [lia|auto].
    + exists (S j), t'. split_and!; [lia|done|done|lia|]. intros u [->|?]%elem_of_cons ?; [lia|auto].
  - destruct (IH (S i) ti mc) as [[-> Hu]|(j & t' & -> & Hj & Ht' & Hlt & Hu)]; [left|right].
    + split; [done|]. intros u [->|?]%elem_of_cons ?; auto.
    + exists (S j), t'. split_and!; [lia|done|done|lia|]. intros u [->|?]%elem_of_cons ?; [lia|auto].
  - destruct (IH (S i) ti mc) as [[-> Hu]|(j & t' & -> & Hj & Ht' & Hlt & Hu)]; [left|right].
    + split; [done|]. intros u [->|?]%elem_of_cons ?; [done|auto].
    + exists (S j), t'. split_and!; [lia|done|done|lia|]. intros u [->|?]%elem_of_cons ?; [done|auto].
Qed.

Lemma load_insert ts i t node n :
  ts !! i = Some t →
  load (<[i := set_node t node]> ts) n =
    load ts n - (if node_id t =? n then key_count t else 0) + (if node =? n then key_count t else 0).
Proof.
  revert i. induction ts as [|u ts IH]; intros [|i] Hi; try done; cbn [load].
  - injection Hi as ->. cbn [load set_node node_id key_count list_insert insert]. lia.
  - change (<[S i := set_node t node]> (u :: ts)) with (u :: <[i := set_node t node]> ts).
    cbn [load]. rewrite (IH i) by done. lia.
Qed.

Section Plan.
Context (ts : list Tablet) (Hok : Forall tablet_ok ts) (Hsum : ∀ node, load ts node < 2 ^ 64).

Lemma elem_of_node_load k v : (k, v) ∈ node_load ts ↔ k ∈ node_id <$> ts ∧ v = load ts k.
Proof.
  destruct (node_load_spec ts Hok) as [_ ->].
  by rewrite u64_small by (split; [by apply load_nonneg|done]).
Qed.

Lemma node_load_complete t : t ∈ ts → (node_id t, load ts (node_id t)) ∈ node_load ts.
Proof. intros. apply elem_of_node_load. split; [|done]. apply list_elem_of_fmap. eauto. Qed.

Lemma plan_balance_some i src dst :
  plan_balance ts = Some (i, src, dst) →
  ∃ t, ts !! i = Some t ∧ node_id t = src ∧ dst ∈ node_id <$> ts ∧
    (∀ w, w ∈ ts → load ts dst ≤ load ts (node_id w) ≤ load ts src) ∧
    BALANCE_DIFF_THRESHOLD ≤ load ts src - load ts dst ∧
    0 < key_count t ∧ ∀ w, w ∈ ts → node_id w = src → key_count w ≤ key_count t.
Proof.
  unfold plan_balance. destruct (_ <? _)%nat; [done|].
  pose proof node_load_complete as Hcomp. pose proof elem_of_node_load as Hel.
  destruct (node_load ts) as [|x [|y m]]; try done.
  destruct (max_element_spec (y :: m) x) as [Hmax Hmax'].
  destruct (min_element_spec (y :: m) x) as [Hmin Hmin'].
  destruct (max_element (y :: m) x) as [a la], (min_element (y :: m) x) as [b lb]. cbn [fst snd] in *.
  apply Hel in Hmax as [_ ->]. apply Hel in Hmin as [Hb ->].
  destruct (Z.ltb_spec (if load ts b <? load ts a then load ts a - load ts b else 0) BALANCE_DIFF_THRESHOLD)
    as [|Hd]; [done|].
  destruct (find_target_spec a ts 0 (length ts) 0) as [[-> _]|(j & t & -> & Hj & Ha & Hpos & Hlarge)].
  { by rewrite Nat.leb_refl. }
  destruct (_ <=? _)%nat; [done|]. intros [= <- <- <-]. exists t. split_and!; try done.
  - intros w Hw. specialize (Hmax' _ (Hcomp _ Hw)). specialize (Hmin' _ (Hcomp _ Hw)). simpl in *. lia.
  - unfold BALANCE_DIFF_THRESHOLD in *. destruct (Z.ltb_spec (load ts b) (load ts a)); lia.
Qed.

(** A positive load comes from a tablet with a positive count. *)
Lemma load_positive node : 0 < load ts node → ∃ u, u ∈ ts ∧ node_id u = node ∧ 0 < key_count u.
Proof.
  clear Hsum. induction Hok as [|t l (? & ? & ?) Hl IH]; simpl; [lia|].
  destruct (Z.eqb_spec (node_id t) node).
  - destruct (Z.eq_dec (key_count t) 0); [|intros; exists t; split; [left|split; [done|lia]]].
    intros. destruct IH as (u & ? & ? & ?); [done|lia|]. exists u. split; [by right|done].
  - intros. destruct IH as (u & ? & ? & ?); [done|lia|]. exists u. split; [by right|done].
Qed.

Lemma plan_balance_none w1 w2 :
  plan_balance ts = None → w1 ∈ ts → w2 ∈ ts →
  load ts (node_id w1) - load ts (node_id w2) < BALANCE_DIFF_THRESHOLD.
Proof.
  unfold plan_balance, BALANCE_DIFF_THRESHOLD. intros Hp H1 H2.
  assert (Hsame : node_id w1 = node_id w2 → load ts (node_id w1) - load ts (node_id w2) < 7)
    by (intros ->; lia).
  destruct (Nat.ltb_spec (length ts) 2) as [Hlen|Hlen].
  { apply Hsame. destruct ts as [|x [|]]; simpl in Hlen; try lia; set_solver. }
  pose proof (node_load_complete _ H1) as Hc1. pose proof (node_load_complete _ H2) as Hc2.
  pose proof elem_of_node_load as Hel. destruct (node_load ts) as [|x [|y m]].
  { by apply elem_of_nil in Hc1. }
  { apply Hsame. apply list_elem_of_singleton in Hc1, Hc2. congruence. }
  destruct (max_element_spec (y :: m) x) as [Hmax Hmax'].
  destruct (min_element_spec (y :: m) x) as [Hmin Hmin'].
  destruct (max_element (y :: m) x) as [a la], (min_element (y :: m) x) as [b lb]. cbn [fst snd] in *.
  specialize (Hmax' _ Hc1). specialize (Hmin' _ Hc2). cbn [snd] in *.
  unfold BALANCE_DIFF_THRESHOLD in Hp.
  destruct (Z.ltb_spec (if lb <? la then la - lb else 0) 7) as [Hd|Hd].
  { destruct (Z.ltb_spec lb la); lia. }
  exfalso. apply Hel in Hmax as [_ ->]. apply Hel in Hmin as [Hb ->].
  destruct (find_target_spec a ts 0 (length ts) 0) as [[_ Hno]|(j & t & Hf & Hj & _)].
  - destruct (load_positive a) as (u & Hu & Hn & ?); [|specialize (Hno u Hu Hn); lia].
    pose proof (load_nonneg ts b Hok). destruct (Z.ltb_spec (load ts b) (load ts a)); lia.
  - rewrite Hf in Hp. apply lookup_lt_Some in Hj. simpl in Hp.
    destruct (Nat.leb_spec (length ts) j); [lia|done].
Qed.
End Plan.

(** ** Repeating the decision

    The moves the master makes while no key count changes. *)
Fixpoint rebalance (fuel : nat) (ts : list Tablet) : list Tablet :=
  match fuel with
  | O => ts
  | S fuel =>
      match plan_balance ts with
      | Some (i, _, dst) =>
          match ts !! i with
          | Some t => rebalance fuel (<[i := set_node t dst]> ts)
          | None => ts
          end
      | None => ts
      end
  end.

(** The sum of the squares of the loads of [nodes]. *)
Definition spread (nodes : list Z) (ts : list Tablet) : Z :=
  foldr (fun n acc => load ts n * load ts n + acc) 0 nodes.

Lemma spread_nonneg nodes ts : 0 ≤ spread nodes ts.
Proof. induction nodes as [|n nodes IH]; cbn [spread foldr]; [lia|]. unfold spread in IH. nia. Qed.

Lemma decide_elem_cons (x n : Z) l (a : Z) : n ∉ l →
  (if decide (x ∈ n :: l) then a else 0) = (if x =? n then a else 0) + (if decide (x ∈ l) then a else 0).
Proof.
  intros Hn. destruct (Z.eqb_spec x n) as [->|E].
  - rewrite decide_True, decide_False by (done || by left). lia.
  - destruct (decide (x ∈ l)); [rewrite decide_True by (by right); lia|].
    rewrite decide_False; [lia|]. by intros [?|?]%elem_of_cons.
Qed.

(** A move changes the spread by the two nodes concerned. *)
Lemma spread_move nodes ts i t dst :
  NoDup nodes → ts !! i = Some t → node_id t ≠ dst → node_id t ∈ nodes → dst ∈ nodes →
  spread nodes (<[i := set_node t dst]> ts) =
    spread nodes ts - 2 * key_count t * (load ts (node_id t) - load ts dst - key_count t).
Proof.
  intros Hnd Hi Hne Hsrc Hdst. set (ts' := <[i := set_node t dst]> ts). set (c := key_count t).
  assert (Hl : ∀ n, load ts' n = load ts n - (if node_id t =? n then c else 0) + (if dst =? n then c else 0))
    by (intros; by apply load_insert).
  assert (Hgen : ∀ l, NoDup l → spread l ts' = spread l ts
      + (if decide (node_id t ∈ l) then c * c - 2 * c * load ts (node_id t) else 0)
      + (if decide (dst ∈ l) then c * c + 2 * c * load ts dst else 0)).
  { clear Hnd Hsrc Hdst. induction l as [|n l IH]; intros Hnd; [by cbn|].
    apply NoDup_cons in Hnd as [Hn Hnd]. cbn [spread foldr]. unfold spread in IH. rewrite IH by done.
    rewrite Hl, !(decide_elem_cons _ n) by done.
    destruct (Z.eqb_spec (node_id t) n) as [E|E], (Z.eqb_spec dst n) as [E'|E'];
      rewrite ?E, ?E'; (congruence || lia). }
  rewrite Hgen, !decide_True by done. lia.
Qed.

Definition calm (ts : list Tablet) : Prop :=
  Forall tablet_ok ts ∧ Forall (fun t => key_count t < SPLIT_THRESHOLD) ts.

Lemma set_node_calm ts i t u :
  calm ts → ts !! i = Some t → u ∈ ts → calm (<[i := set_node t (node_id u)]> ts).
Proof.
  intros [Hok Hc] Hi Hu. split; apply Forall_insert; try done; rewrite Forall_forall in Hok, Hc;
    apply list_elem_of_lookup_2 in Hi; destruct (Hok t Hi) as (?&?&?), (Hok u Hu) as (?&?&?);
    specialize (Hc t Hi); unfold tablet_ok; simpl; lia.
Qed.

Lemma total_load ts node : Forall tablet_ok ts →
  load ts node ≤ foldr (fun t acc => key_count t + acc) 0 ts.
Proof. induction 1 as [|t ts (?&?&?) _ IH]; simpl; [lia|]. destruct (_ =? _); lia. Qed.

Lemma total_set_node ts i t node : ts !! i = Some t →
  foldr (fun t acc => key_count t + acc) 0 (<[i := set_node t node]> ts) =
  foldr (fun t acc => key_count t + acc) 0 ts.
Proof.
  revert i. induction ts as [|u ts IH]; intros [|i] Hi; try done; simpl.
  - by injection Hi as ->.
  - f_equal. by apply IH.
Qed.

(** ** Properties *)

(** C16: the decision of the balancer is exact: with loads that fit 64 bits it moves
    a tablet exactly when two owning nodes differ by at least the threshold; the
    source is a most loaded and the destination a least loaded owning node, and
    the tablet is a largest one of the source and holds keys; when it moves nothing, no two owning nodes
    differ by the threshold. *)
Theorem plan_balance_exact (ts : list Tablet) (Hok : Forall tablet_ok ts)
    (Hsum : ∀ node, load ts node < 2 ^ 64) :
  match plan_balance ts with
  | Some (i, src, dst) =>
      ∃ t, ts !! i = Some t ∧ node_id t = src ∧ dst ∈ node_id <$> ts ∧
        (∀ w, w ∈ ts → load ts dst ≤ load ts (node_id w) ≤ load ts src) ∧
        BALANCE_DIFF_THRESHOLD ≤ load ts src - load ts dst ∧
        0 < key_count t ∧ ∀ w, w ∈ ts → node_id w = src → key_count w ≤ key_count t
  | None => ∀ w1 w2, w1 ∈ ts → w2 ∈ ts →
      load ts (node_id w1) - load ts (node_id w2) < BALANCE_DIFF_THRESHOLD
  end.
Proof.
  destruct (plan_balance ts) as [[[i src] dst]|] eqn:E.
  - by apply plan_balance_some.
  - intros. by apply plan_balance_none.
Qed.

Definition demo_loads : list Tablet :=
  [ {| tid := 1; start_key := []; end_key := str "g"; node_id := 2; key_count := 5 |};
    {| tid := 4; start_key := str "g"; end_key := str "m"; node_id := 2; key_count := 4 |};
    {| tid := 2; start_key := str "m"; end_key := []; node_id := 3; key_count := 1 |} ].

Lemma demo_loads_bound node : load demo_loads node < 2 ^ 64.
Proof.
  eapply Z.le_lt_trans; [apply total_load; apply (bool_decide_unpack _); vm_compute; exact I|reflexivity].
Qed.

Lemma plan_balance_exact_witness :
  plan_balance demo_loads = Some (0%nat, 2, 3) ∧
  ∃ t, demo_loads !! 0%nat = Some t ∧ node_id t = 2 ∧ 3 ∈ node_id <$> demo_loads ∧
    (∀ w, w ∈ demo_loads → load demo_loads 3 ≤ load demo_loads (node_id w) ≤ load demo_loads 2) ∧
    BALANCE_DIFF_THRESHOLD ≤ load demo_loads 2 - load demo_loads 3 ∧
    0 < key_count t ∧ ∀ w, w ∈ demo_loads → node_id w = 2 → key_count w ≤ key_count t.
Proof.
  split; [reflexivity|].
  assert (Hok : Forall tablet_ok demo_loads) by (apply (bool_decide_unpack _); vm_compute; exact I).
  exact (plan_balance_exact demo_loads Hok demo_loads_bound).
Defined.

(** Below the split threshold every move brings the loads closer. *)
Lemma rebalance_calm (ts : list Tablet) (nodes : list Z) (fuel : nat)
    (Hc : calm ts) (Hsum : foldr (fun t acc => key_count t + acc) 0 ts < 2 ^ 64)
    (Hnd : NoDup nodes) (Hin : ∀ n, n ∈ node_id <$> ts → n ∈ nodes)
    (Hfuel : spread nodes ts < Z.of_nat fuel) :
  let ts' := rebalance fuel ts in
  plan_balance ts' = None ∧ Forall2 same_range ts ts' ∧
  ∀ w1 w2, w1 ∈ ts' → w2 ∈ ts' → load ts' (node_id w1) - load ts' (node_id w2) < BALANCE_DIFF_THRESHOLD.
Proof.
  cbv zeta. revert ts Hc Hsum Hin Hfuel. induction fuel as [|fuel IH]; intros ts Hc Hsum Hin Hfuel.
  { pose proof (spread_nonneg nodes ts). lia. }
  destruct Hc as [Hok Hlow].
  assert (Hs : ∀ node, load ts node < 2 ^ 64).
  { intros node. pose proof (total_load ts node Hok). lia. }
  cbn [rebalance]. destruct (plan_balance ts) as [[[i src] dst]|] eqn:E.
  2: { split; [done|]. split; [reflexivity|]. intros. by apply plan_balance_none. }
  destruct (plan_balance_some ts Hok Hs i src dst E)
    as (t & Hi & <- & (u & -> & Hu)%list_elem_of_fmap & Hle & Hd & Hpos & Hmax).
  rewrite Hi. rewrite Forall_forall in Hlow.
  pose proof (Hlow t (list_elem_of_lookup_2 _ _ _ Hi)) as Hlt.
  unfold BALANCE_DIFF_THRESHOLD, SPLIT_THRESHOLD in Hd, Hlt.
  destruct (IH (<[i := set_node t (node_id u)]> ts)) as (H1 & H2 & H3).
  - apply set_node_calm; [split; [done|by apply Forall_forall]|done|done].
  - by rewrite total_set_node.
  - intros n (w & -> & [->|Hw]%elem_of_insert_inv)%list_elem_of_fmap; apply Hin, list_elem_of_fmap;
      [by exists u|eauto].
  - rewrite spread_move; try done; [nia|intros He; rewrite He in Hd; lia| |]; apply Hin, list_elem_of_fmap;
      eauto using list_elem_of_lookup_2.
  - split; [done|]. split; [|done]. etransitivity; [|exact H2]. by eapply insert_same_range.
Qed.

(** A tablet as large as the difference of the loads goes back and forth. *)
Lemma plan_balance_pingpong (ts : list Tablet) (i : nat) (src dst : Z) (t w : Tablet)
    (Hok : Forall tablet_ok ts) (Hsum : foldr (fun t acc => key_count t + acc) 0 ts < 2 ^ 64)
    (Hp : plan_balance ts = Some (i, src, dst)) (Hi : ts !! i = Some t)
    (Htwo : ∀ u, u ∈ ts → node_id u = src ∨ node_id u = dst)
    (Hbig : load ts src - load ts dst ≤ key_count t)
    (Hdst : ∀ u, u ∈ ts → node_id u = dst → key_count u < key_count t)
    (Hw : ∃ j, j ≠ i ∧ ts !! j = Some w) (Hws : node_id w = src) :
  let ts' := <[i := set_node t dst]> ts in
  plan_balance ts' = Some (i, dst, src) ∧ <[i := set_node (set_node t dst) src]> ts' = ts.
Proof.
  cbv zeta. assert (Hs : ∀ node, load ts node < 2 ^ 64).
  { intros node. pose proof (total_load ts node Hok). lia. }
  destruct (plan_balance_some ts Hok Hs i src dst Hp)
    as (t' & Hi' & Hsrc & (u & Hu & Huin)%list_elem_of_fmap & Hle & Hd & Hpos & Hmax).
  rewrite Hi in Hi'. injection Hi' as <-. unfold BALANCE_DIFF_THRESHOLD in Hd.
  assert (Hne : src ≠ dst) by (intros ->; lia).
  destruct Hw as (j & Hji & Hj). set (ts' := <[i := set_node t dst]> ts).
  assert (Hl : ∀ n, load ts' n = load ts n - (if src =? n then key_count t else 0) + (if dst =? n then key_count t else 0))
    by (intros n; unfold ts'; rewrite (load_insert ts i t dst n Hi), Hsrc; done).
  assert (Hi2 : ts' !! i = Some (set_node t dst)) by (apply list_lookup_insert_eq; by eapply lookup_lt_Some).
  assert (Hj2 : ts' !! j = Some w) by (unfold ts'; by rewrite list_lookup_insert_ne).
  pose proof (Hl src) as Hls. pose proof (Hl dst) as Hld.
  rewrite Z.eqb_refl in Hls, Hld. destruct (Z.eqb_spec dst src), (Z.eqb_spec src dst); try congruence.
  assert (Hok' : Forall tablet_ok ts').
  { apply Forall_insert; [done|]. rewrite Forall_forall in Hok.
    destruct (Hok t (list_elem_of_lookup_2 _ _ _ Hi)) as (?&?&?), (Hok u Huin) as (?&?&?).
    unfold tablet_ok; simpl. subst dst. lia. }
  assert (Hs' : ∀ node, load ts' node < 2 ^ 64).
  { intros node. pose proof (total_load ts' node Hok'). unfold ts' in *. rewrite total_set_node in * by done. lia. }
  split.
  2: { unfold ts'. rewrite list_insert_insert_eq. apply list_insert_id. rewrite Hi. f_equal.
       destruct t. cbn in *. by subst. }
  destruct (plan_balance ts') as [[[i2 s2] d2]|] eqn:E.
  2: { pose proof (plan_balance_none ts' Hok' Hs' _ _ E (list_elem_of_lookup_2 _ _ _ Hi2) (list_elem_of_lookup_2 _ _ _ Hj2)) as Hn.
       cbn [set_node node_id] in Hn. rewrite Hws in Hn. unfold BALANCE_DIFF_THRESHOLD in Hn. lia. }
  destruct (plan_balance_some ts' Hok' Hs' i2 s2 d2 E) as (t2 & Ht2 & Hs2 & Hd2 & Hle2 & Hdiff2 & _ & Hmax2).
  assert (Hnodes : ∀ nd, nd ∈ node_id <$> ts' → nd = src ∨ nd = dst).
  { intros nd (v & -> & [->|Hv]%elem_of_insert_inv)%list_elem_of_fmap; [by right|auto]. }
  assert (s2 = dst ∧ d2 = src) as [-> ->].
  { assert (Hs2' : s2 ∈ node_id <$> ts') by (apply list_elem_of_fmap; exists t2; eauto using list_elem_of_lookup_2).
    pose proof (Hle2 _ (list_elem_of_lookup_2 _ _ _ Hi2)) as Hle3. cbn [set_node node_id] in Hle3.
    destruct (Hnodes _ Hs2') as [->| ->], (Hnodes _ Hd2) as [->| ->];
      unfold BALANCE_DIFF_THRESHOLD in Hdiff2; auto; exfalso; lia. }
  do 3 f_equal. destruct (decide (i2 = i)) as [|Hn]; [done|exfalso].
  unfold ts' in Ht2. rewrite list_lookup_insert_ne in Ht2 by done.
  specialize (Hmax2 _ (list_elem_of_lookup_2 _ _ _ Hi2) eq_refl). cbn [set_node key_count] in Hmax2.
  specialize (Hdst t2 (list_elem_of_lookup_2 _ _ _ Ht2) Hs2). lia.
Qed.

(** C15: balancing converges when splitting has done its work, and only then.  When every tablet
    is below the split threshold (which is smaller than the balance threshold),
    each move brings the loads strictly closer (the sum of their squares goes
    down), so after at most as many moves as that sum the balancer stops, every key range
    unchanged, with the loads of any two owning nodes less than the threshold
    apart.  Without the split the balancer can move a tablet for ever: when a most loaded node's
    largest tablet holds at least as many keys as the two nodes differ by and more than
    any tablet of the least loaded node, and the source keeps another tablet, the next decision
    is to move the same tablet back, and the table is then the same as before. *)
Theorem rebalance_converges (ts : list Tablet) (Hsum : foldr (fun t acc => key_count t + acc) 0 ts < 2 ^ 64) :
  (∀ nodes fuel, calm ts → NoDup nodes → (∀ n, n ∈ node_id <$> ts → n ∈ nodes) → spread nodes ts < Z.of_nat fuel →
     let ts' := rebalance fuel ts in
     plan_balance ts' = None ∧ Forall2 same_range ts ts' ∧
     ∀ w1 w2, w1 ∈ ts' → w2 ∈ ts' → load ts' (node_id w1) - load ts' (node_id w2) < BALANCE_DIFF_THRESHOLD) ∧
  (∀ i src dst t w, Forall tablet_ok ts → plan_balance ts = Some (i, src, dst) → ts !! i = Some t →
     (∀ u, u ∈ ts → node_id u = src ∨ node_id u = dst) → load ts src - load ts dst ≤ key_count t →
     (∀ u, u ∈ ts → node_id u = dst → key_count u < key_count t) →
     (∃ j, j ≠ i ∧ ts !! j = Some w) → node_id w = src →
     let ts' := <[i := set_node t dst]> ts in
     plan_balance ts' = Some (i, dst, src) ∧ <[i := set_node (set_node t dst) src]> ts' = ts).
Proof.
  split.
  - intros nodes fuel Hc Hnd Hin Hfuel. by apply (rebalance_calm ts nodes fuel).
  - intros i src dst t w Hok Hp Hi Htwo Hbig Hdst Hw Hws. by apply (plan_balance_pingpong ts i src dst t w).
Qed.

(** Node 2 holds a tablet of 9 keys and one of 1 key, node 3 one of 1 key. *)
Definition demo_pingpong : list Tablet :=
  [ {| tid := 1; start_key := []; end_key := str "g"; node_id := 2; key_count := 9 |};
    {| tid := 4; start_key := str "g"; end_key := str "m"; node_id := 2; key_count := 1 |};
    {| tid := 2; start_key := str "m"; end_key := []; node_id := 3; key_count := 1 |} ].

Lemma rebalance_converges_witness :
  (plan_balance (rebalance 100 demo_loads) = None ∧ load (rebalance 100 demo_loads) 2 = 4) ∧
  let t := {| tid := 1; start_key := []; end_key := str "g"; node_id := 2; key_count := 9 |} in
  let ts' := <[0%nat := set_node t 3]> demo_pingpong in
  plan_balance demo_pingpong = Some (0%nat, 2, 3) ∧ plan_balance ts' = Some (0%nat, 3, 2) ∧
  <[0%nat := set_node (set_node t 3) 2]> ts' = demo_pingpong.
Proof.
  cbv zeta. split; [split; [|reflexivity]|split; [reflexivity|]].
  - refine (proj1 (proj1 (rebalance_converges demo_loads _) [2; 3] 100%nat _ _ _ _)); [reflexivity| | | |reflexivity].
    + split; apply (bool_decide_unpack _); vm_compute; exact I.
    + apply (bool_decide_unpack _). vm_compute. exact I.
    + intros n. cbn. set_solver.
  - refine (proj2 (rebalance_converges demo_pingpong eq_refl) 0%nat 2 3 _
      {| tid := 4; start_key := str "g"; end_key := str "m"; node_id := 2; key_count := 1 |}
      _ eq_refl eq_refl _ _ _ _ eq_refl).
    + apply (bool_decide_unpack _). vm_compute. exact I.
    + intros u Hu. apply (proj1 (Forall_forall (fun u => node_id u = 2 \/ node_id u = 3) demo_pingpong)); [|done].
      apply (bool_decide_unpack _). vm_compute. exact I.
    + vm_compute. discriminate.
    + intros u Hu. apply (proj1 (Forall_forall (fun u => node_id u = 3 -> key_count u < 9) demo_pingpong)); [|done].
      repeat (apply List.Forall_cons; [simpl; lia|]). apply List.Forall_nil.
    + exists 1%nat. by split.
Defined.
