(* ===== verification/Balancer.v ===== *)
(** * The balancer of the master (src/kv/raft_node.cpp)

    The thread [BalancerLoop]: refreshing the key counts of the tablets,
    splitting the large ones at their median key, and moving one tablet from the
    most to the least loaded data node.  The connections to the data nodes are an
    interface, [Transport]: what a node answers, late answers, time-outs and
    failures are the environment's.  Every operation threads the environment [W]
    and the state of the master. *)

From S2P Require Import Prelude StringOrder BinaryProtocol Json Config Tablet RaftNode TableSteps BalancePlan DataNode.

(** [t_connected]: [node_clients_] has a connected client for the node;
    [t_send], [t_recv]: [Send] and [RecvFrame] (with its timeout) of that client.
    [t_publish]: an assignment to [tablets_] has made the table this one.  The threads of the server
    read the member without a lock, so the moment is one that an environment can
    tell; the operations take nothing back from it but the environment. *)
Class Transport (W : Type) := {
  t_connected : W → Z → bool;
  t_send : W → Z → bytes → W * bool;
  t_recv : W → Z → Z → W * option bytes;
  t_publish : W → list Tablet → W;
}.

(** What [RecvFrame] guarantees of a frame it returns ([RecvFrame_total]). *)
Class TransportSpec (W : Type) `{Transport W} := {
  t_recv_frame w node timeout w' f :
    t_recv w node timeout = (w', Some f) → 10 ≤ zlen f ∧ rd32 f 0 = Ret (zlen f);
}.

(** ** Requests to a data node *)
Section Requests.
Context {W : Type} `{Transport W}.

(** The request [[op][2B sl][start][2B el][end]] of the three range operations. *)
Definition range_request (op : Z) (start end_ : bytes) : bytes :=
  EncodeCustomRequest 1
    ([byte_of_Z op] ++ be16 (u16 (zlen start)) ++ start ++ be16 (u16 (zlen end_)) ++ end_).

(** Send a request, receive a frame, decode it: the payload, or [None] where the
    caller returns [false].  The request id of the response is not compared. *)
Definition call (w : W) (node : Z) (req : bytes) (timeout : Z) : outcome (W * option bytes) :=
  let '(w, sent) := t_send w node req in
  if negb sent then Ret (w, None) else
  let '(w, r) := t_recv w node timeout in
  match r with
  | None => Ret (w, None)
  | Some resp_frame =>
      d ← TryDecode resp_frame;
      match d with
      | DecodeFail _ => Ret (w, None)
      | DecodeOk _ _ resp_payload => Ret (w, Some resp_payload)
      end
  end.

(** [QueryTabletStats]: the result and the in/out parameters. *)
Definition QueryTabletStats (w : W) (node : Z) (start end_ : bytes) (key_count : Z) (median_key : bytes)
    : outcome (W * bool * Z * bytes) :=
  if negb (t_connected w node) then Ret (w, false, key_count, median_key) else
  '(w, r) ← call w node (range_request OP_TABLET_STATS start end_) 3000;
  match r with
  | None => Ret (w, false, key_count, median_key)
  | Some p =>
      if zlen p <? 11 then Ret (w, false, key_count, median_key) else
      st ← at_ p 0;
      if negb (st =? ST_OK) then Ret (w, false, key_count, median_key) else
      key_count ← rd32 p 5;
      med_len ← rd16 p 9;
      if zlen p <? 11 + med_len then Ret (w, false, key_count, median_key) else
      median_key ← slice p 11 med_len;
      Ret (w, true, key_count, median_key)
  end.

Definition SendDeleteRange (w : W) (node : Z) (start end_ : bytes) : outcome (W * bool) :=
  if negb (t_connected w node) then Ret (w, false) else
  '(w, r) ← call w node (range_request OP_DELETE_RANGE start end_) 10000;
  match r with
  | None => Ret (w, false)
  | Some p =>
      if bool_decide (p = []) then Ret (w, false) else
      st ← at_ p 0;
      Ret (w, st =? ST_OK)
  end.

(** The loop of [ScanAndTransferData] over the records of the response: a record
    that leaves the payload ends it; a PUT that cannot be sent or gets no
    response is skipped; any response counts as transferred.  The fuel exceeds
    the number of records a payload can hold. *)
Fixpoint transfer_loop (fuel : nat) (w : W) (dst : Z) (p : bytes) (count i pos transferred : Z)
    : outcome (W * Z) :=
  if i <? count then
    match fuel with
    | O => UB
    | S fuel =>
        if zlen p <? pos + 2 then Ret (w, transferred) else
        key_len ← rd16 p pos;
        let pos := pos + 2 in
        if zlen p <? pos + key_len then Ret (w, transferred) else
        key ← slice p pos key_len;
        let pos := pos + key_len in
        if zlen p <? pos + 4 then Ret (w, transferred) else
        vlen ← rd32 p pos;
        let pos := pos + 4 in
        if zlen p <? pos + vlen then Ret (w, transferred) else
        value ← slice p pos vlen;
        let pos := pos + vlen in
        let put_req := EncodeRequest (u32 (1 + i + 1)) OP_PUT key value in
        let '(w, sent) := t_send w dst put_req in
        if negb sent then transfer_loop fuel w dst p count (i + 1) pos transferred else
        let '(w, r) := t_recv w dst 5000 in
        match r with
        | None => transfer_loop fuel w dst p count (i + 1) pos transferred
        | Some _ => transfer_loop fuel w dst p count (i + 1) pos (transferred + 1)
        end
    end
  else Ret (w, transferred).

Definition ScanAndTransferData (w : W) (src dst : Z) (start end_ : bytes) : outcome (W * bool) :=
  if negb (t_connected w src) then Ret (w, false) else
  if negb (t_connected w dst) then Ret (w, false) else
  '(w, r) ← call w src (range_request OP_SCAN_RANGE start end_) 30000;
  match r with
  | None => Ret (w, false)
  | Some p =>
      if bool_decide (p = []) then Ret (w, false) else
      st ← at_ p 0;
      if negb (st =? ST_OK) then Ret (w, false) else
      if zlen p <? 5 then Ret (w, false) else
      val_len ← rd32 p 1;
      (* int + uint32_t *)
      if zlen p <? u32 (5 + val_len) then Ret (w, false) else
      if zlen p <? 5 + 4 then Ret (w, false) else
      count ← rd32 p 5;
      '(w, transferred) ← transfer_loop (S (length p)) w dst p count 0 9 0;
      Ret (w, transferred =? count)
  end.
End Requests.

(** ** Operations on the routing table *)
Section Balancer.
Context {W : Type} `{Transport W} `{JsonText} (fs : nat → fs_answer).

Fixpoint sync_loop (fuel : nat) (w : W) (ts : list Tablet) (i : nat) : outcome (W * list Tablet) :=
  match fuel with
  | O => Ret (w, ts)
  | S fuel =>
      match ts !! i with
      | None => Ret (w, ts)
      | Some t =>
          '(w, ok, key_count', _) ← QueryTabletStats w (node_id t) (start_key t) (end_key t) 0 [];
          if negb ok then sync_loop fuel w ts (S i) else
          if negb (key_count t =? key_count')
          then let ts := <[i := set_count t key_count']> ts in sync_loop fuel (t_publish w ts) ts (S i)
          else sync_loop fuel w ts (S i)
      end
  end.

Definition SyncAllTabletStats (w : W) (n : RaftNode) : outcome (W * RaftNode) :=
  if bool_decide (tablets_ n = []) then Ret (w, n) else
  '(w, ts) ← sync_loop (length (tablets_ n)) w (tablets_ n) 0;
  Ret (w, set_table n ts (next_tablet_id_ n) (epoch_ n)).

Definition TrySplitTablet (w : W) (n : RaftNode) (idx : nat) : outcome (W * RaftNode * bool) :=
  match tablets_ n !! idx with
  | None => Ret (w, n, false)
  | Some old_t =>
      if key_count old_t <? SPLIT_THRESHOLD then Ret (w, n, false) else
      '(w, ok, key_count', median_key) ←
        QueryTabletStats w (node_id old_t) (start_key old_t) (end_key old_t) (key_count old_t) [];
      let old_t := set_count old_t key_count' in
      if negb ok || bool_decide (median_key = []) || str_leb median_key (start_key old_t)
         || past_end (end_key old_t) median_key
      then Ret (w, n, false) else
      match tablets_ n !! idx with
      | None => Ret (w, n, false)
      | Some cur =>
          if negb (tid cur =? tid old_t) then Ret (w, n, false) else
          if key_count cur <? SPLIT_THRESHOLD then Ret (w, n, false) else
          let left_id := next_tablet_id_ n in
          let right_id := u64 (left_id + 1) in
          let left_count := key_count old_t / 2 in
          let left := {| tid := left_id; start_key := start_key old_t; end_key := median_key;
                         node_id := node_id old_t; key_count := left_count |} in
          let right := {| tid := right_id; start_key := median_key; end_key := end_key old_t;
                          node_id := node_id old_t; key_count := u64 (key_count old_t - left_count) |} in
          let ts := <[idx := left]> (tablets_ n) in
          let w := t_publish w ts in
          let ts := take (S idx) ts ++ right :: drop (S idx) ts in
          let w := t_publish w ts in
          n ← SaveTablets fs (set_table n ts (u64 (right_id + 1)) (u64 (epoch_ n + 1)));
          Ret (w, n, true)
      end
  end.

Definition MigrateTablet (w : W) (n : RaftNode) (idx : nat) (dst_node : Z)
    : outcome (W * RaftNode * bool) :=
  match tablets_ n !! idx with
  | None => Ret (w, n, false)
  | Some t =>
      if node_id t =? dst_node then Ret (w, n, false) else
      '(w, ok) ← ScanAndTransferData w (node_id t) dst_node (start_key t) (end_key t);
      if negb ok then Ret (w, n, false) else
      '(w, n) ← (match tablets_ n !! idx with
                 | Some cur =>
                     if tid cur =? tid t then
                       let ts := <[idx := set_node cur dst_node]> (tablets_ n) in
                       let w := t_publish w ts in
                       n ← SaveTablets fs (set_table n ts (next_tablet_id_ n) (u64 (epoch_ n + 1)));
                       Ret (w, n)
                     else Ret (w, n)
                 | None => Ret (w, n)
                 end);
      '(w, _) ← SendDeleteRange w (node_id t) (start_key t) (end_key t);
      Ret (w, n, true)
  end.

(** [duration_ms] is the measured time of the migration. *)
Definition DoLoadBalance (duration_ms : Z) (w : W) (n : RaftNode) : outcome (W * RaftNode * bool) :=
  match plan_balance (tablets_ n) with
  | None => Ret (w, n, false)
  | Some (target_idx, _, dst_node) =>
      '(w, n, ok) ← MigrateTablet w n target_idx dst_node;
      match tablets_ n !! target_idx with
      | None => UB
      | Some t =>
          Ret (w, set_transfer n (u64 (transfer_count_ n + key_count t))
                    (u64 (transfer_time_ms_ n + duration_ms)), ok)
      end
  end.

(** The loop over the growing table in [BalancerLoop]; [None]: out of fuel. *)
Fixpoint split_loop (fuel : nat) (w : W) (n : RaftNode) (split_idx : nat)
    : outcome (option (W * RaftNode)) :=
  match tablets_ n !! split_idx with
  | None => Ret (Some (w, n))
  | Some t =>
      match fuel with
      | O => Ret None
      | S fuel =>
          if SPLIT_THRESHOLD <=? key_count t then
            '(w, n, _) ← TrySplitTablet w n split_idx;
            split_loop fuel w n (S split_idx)
          else split_loop fuel w n (S split_idx)
      end
  end.

(** One turn of [BalancerLoop] after its sleep. *)
Definition BalancerRound (fuel : nat) (duration_ms : Z) (w : W) (n : RaftNode)
    : outcome (option (W * RaftNode)) :=
  '(w, n) ← SyncAllTabletStats w n;
  r ← split_loop fuel w n 0;
  match r with
  | None => Ret None
  | Some (w, n) => '(w, n, _) ← DoLoadBalance duration_ms w n; Ret (Some (w, n))
  end.

(** The turns of the loop until [balancer_running_] is cleared; one measured
    migration time per turn. *)
Fixpoint BalancerLoop (fuel : nat) (durations : list Z) (w : W) (n : RaftNode)
    : outcome (option (W * RaftNode)) :=
  match durations with
  | [] => Ret (Some (w, n))
  | duration_ms :: durations =>
      r ← BalancerRound fuel duration_ms w n;
      match r with
      | None => Ret None
      | Some (w, n) => BalancerLoop fuel durations w n
      end
  end.
End Balancer.

(** ** Every operation returns, whatever the nodes answer *)
Section Total.
Context {W : Type} `{TransportSpec W}.

Lemma call_total w node req timeout : ∃ w' r, call w node req timeout = Ret (w', r).
Proof.
  unfold call. destruct (t_send w node req) as [w1 []]; cbn [negb]; [|eauto].
  destruct (t_recv w1 node timeout) as [w2 [f|]] eqn:E; [|eauto].
  destruct (TryDecode_safe f) as [d ->].
  { intros _. apply t_recv_frame in E as [? ?]. eauto. }
  cbn [mbind outcome_bind]. destruct d; eauto.
Qed.

Lemma QueryTabletStats_total w node s e kc mk :
  ∃ w' ok kc' mk', QueryTabletStats w node s e kc mk = Ret (w', ok, kc', mk') ∧
    (ok = true → 0 ≤ kc' < 2 ^ 32).
Proof.
  assert (Hf : ∀ (w : W) (kc : Z), ∃ w' ok kc' mk', @Ret (W * bool * Z * bytes) (w, false, kc, mk) =
    Ret (w', ok, kc', mk') ∧ (ok = true → 0 ≤ kc' < 2 ^ 32)).
  { intros. eexists _, _, _, _. by split. }
  unfold QueryTabletStats. destruct (negb _); [auto|].
  destruct (call_total w node (range_request OP_TABLET_STATS s e) 3000) as (w1 & r & ->).
  cbn [mbind outcome_bind]. destruct r as [p|]; [|auto].
  destruct (Z.ltb_spec (zlen p) 11); [auto|].
  destruct (at_in p 0) as (st & -> & _); [lia|]. cbn [mbind outcome_bind].
  destruct (negb _); [auto|].
  destruct (rd32_in p 5) as (c & -> & ?); [lia|lia|].
  destruct (rd16_in p 9) as (ml & -> & ?); [lia|lia|]. cbn [mbind outcome_bind].
  destruct (Z.ltb_spec (zlen p) (11 + ml)); [auto|].
  rewrite slice_in by lia. cbn [mbind outcome_bind]. eauto 10.
Qed.

Lemma SendDeleteRange_total w node s e : ∃ w' ok, SendDeleteRange w node s e = Ret (w', ok).
Proof.
  unfold SendDeleteRange. destruct (negb _); [eauto|].
  destruct (call_total w node (range_request OP_DELETE_RANGE s e) 10000) as (w1 & r & ->).
  cbn [mbind outcome_bind]. destruct r as [[|b p]|]; [eauto| |eauto].
  rewrite bool_decide_eq_false_2 by done. rewrite at_cons_0. cbn [mbind outcome_bind]. eauto.
Qed.

(** Every record takes at least six bytes of the payload. *)
Lemma transfer_loop_total fuel w dst p count i pos transferred :
  0 ≤ pos ≤ zlen p → zlen p < pos + Z.of_nat fuel →
  ∃ w' t, transfer_loop fuel w dst p count i pos transferred = Ret (w', t).
Proof.
  revert w i pos transferred. induction fuel as [|fuel IH]; intros w i pos transferred Hpos Hf;
    cbn [transfer_loop]; (destruct (i <? count); [|by eauto]); [lia|].
  destruct (Z.ltb_spec (zlen p) (pos + 2)); [eauto|].
  destruct (rd16_in p pos) as (kl & -> & ?); [lia|lia|]. cbn [mbind outcome_bind].
  destruct (Z.ltb_spec (zlen p) (pos + 2 + kl)); [eauto|].
  rewrite slice_in by lia. cbn [mbind outcome_bind].
  destruct (Z.ltb_spec (zlen p) (pos + 2 + kl + 4)); [eauto|].
  destruct (rd32_in p (pos + 2 + kl)) as (vl & -> & ?); [lia|lia|]. cbn [mbind outcome_bind].
  destruct (Z.ltb_spec (zlen p) (pos + 2 + kl + 4 + vl)); [eauto|].
  rewrite slice_in by lia. cbn [mbind outcome_bind].
  destruct (t_send w dst _) as [w1 []]; cbn [negb]; [|apply IH; lia].
  destruct (t_recv w1 dst 5000) as [w2 [f|]]; apply IH; lia.
Qed.

Lemma ScanAndTransferData_total w src dst s e :
  ∃ w' ok, ScanAndTransferData w src dst s e = Ret (w', ok).
Proof.
  unfold ScanAndTransferData. destruct (negb _); [eauto|]. destruct (negb _); [eauto|].
  destruct (call_total w src (range_request OP_SCAN_RANGE s e) 30000) as (w1 & r & ->).
  cbn [mbind outcome_bind]. destruct r as [[|b p]|]; [eauto| |eauto].
  rewrite bool_decide_eq_false_2 by done. rewrite at_cons_0. cbn [mbind outcome_bind].
  destruct (negb _); [eauto|]. destruct (Z.ltb_spec (zlen (b :: p)) 5); [eauto|].
  destruct (rd32_in (b :: p) 1) as (vl & -> & ?); [lia|lia|]. cbn [mbind outcome_bind].
  destruct (_ <? u32 _); [eauto|]. destruct (Z.ltb_spec (zlen (b :: p)) (5 + 4)); [eauto|].
  destruct (rd32_in (b :: p) 5) as (c & -> & ?); [lia|lia|]. cbn [mbind outcome_bind].
  destruct (transfer_loop_total (S (length (b :: p))) w1 dst (b :: p) c 0 9 0) as (w2 & t & ->);
    [lia|unfold zlen; lia|]. cbn [mbind outcome_bind]. eauto.
Qed.
End Total.

(** ** The balancer only makes steps of the specification *)

(** From [n] to [n']: a run of the specification with [k] moves, and the same server. *)
Definition evolves (k : nat) (n n' : RaftNode) : Prop :=
  table_run k (view n) (view n') ∧
  node_id_ n' = node_id_ n ∧ port_ n' = port_ n ∧ peers_ n' = peers_ n.

Lemma evolves_refl n : evolves 0 n n.
Proof. split; [apply run_nil|by repeat split]. Qed.

Lemma evolves_trans j k n1 n2 n3 : evolves j n1 n2 → evolves k n2 n3 → evolves (j + k) n1 n3.
Proof. intros (? & ? & ? & ?) (? & ? & ? & ?). split; [by eapply run_app|split_and!; congruence]. Qed.
#[local] Hint Resolve evolves_refl : core.

(** A change of the table fields, followed by a save. *)
Lemma SaveTablets_view `{JsonTextSpec} fs n :
  post (fun n' => view n' = view n ∧ node_id_ n' = node_id_ n ∧ port_ n' = port_ n ∧
                  peers_ n' = peers_ n ∧ transfer_count_ n' = transfer_count_ n ∧
                  transfer_time_ms_ n' = transfer_time_ms_ n) (SaveTablets fs n).
Proof.
  unfold SaveTablets. destruct (negb _); [done|].
  apply (post_bind _ (fun _ => True)); [|done].
  destruct (fs_open _); [|done]. pose proof (json_dump_ret (table_json n)).
  by destruct (json_dump (table_json n)).
Qed.

Lemma evolves_set k n ts next ep n' :
  table_step k (view n) (Routing ts next ep) → view n' = Routing ts next ep →
  node_id_ n' = node_id_ n → port_ n' = port_ n → peers_ n' = peers_ n → evolves k n n'.
Proof. intros Hs Hv. split; [rewrite Hv; by apply run_once|done]. Qed.

Section Refines.
Context {W : Type} `{TransportSpec W} `{JsonTextSpec} (fs : nat → fs_answer).

Lemma sync_loop_steps fuel w ts i next ep :
  post (fun r => table_run 0 (Routing ts next ep) (Routing r.2 next ep)) (sync_loop fuel w ts i).
Proof.
  revert w ts i. induction fuel as [|fuel IH]; intros w ts i; cbn [sync_loop]; [by apply run_nil|].
  destruct (ts !! i) as [t|] eqn:Hi; [|by apply run_nil].
  destruct (QueryTabletStats_total w (node_id t) (start_key t) (end_key t) 0 [])
    as (w1 & ok & c & mk & -> & Hc). cbn [mbind outcome_bind].
  destruct ok; cbn [negb]; [|apply IH].
  destruct (negb (key_count t =? c)); [|apply IH].
  eapply post_mono; [apply IH|]. intros [w2 ts2] Hs. eapply (run_cons 0 0); [|exact Hs].
  apply step_refresh; auto.
Qed.

Lemma SyncAllTabletStats_evolves w n :
  post (fun r => evolves 0 n r.2) (SyncAllTabletStats w n).
Proof.
  unfold SyncAllTabletStats. case_bool_decide; [cbn; auto|].
  eapply post_bind; [apply (sync_loop_steps _ w (tablets_ n) 0 (next_tablet_id_ n) (epoch_ n))|].
  intros [w1 ts1] Hs. split; [exact Hs|done].
Qed.

(** [tablets_[idx] = l; tablets_.insert(begin + idx + 1, r)] *)
Lemma insert_after (ts : list Tablet) idx t l r :
  ts !! idx = Some t →
  take (S idx) (<[idx := l]> ts) ++ r :: drop (S idx) (<[idx := l]> ts) =
  take idx ts ++ l :: r :: drop (S idx) ts.
Proof.
  intros Hi. pose proof (lookup_lt_Some _ _ _ Hi).
  rewrite (take_S_r _ _ l) by (by apply list_lookup_insert_eq).
  rewrite take_insert_ge, drop_insert_lt by lia. by rewrite <- app_assoc.
Qed.

(** What a call of [TrySplitTablet] with a result has done: a split publishes the table twice. *)
Definition split_done (w : W) (n : RaftNode) (idx : nat) (w' : W) (n' : RaftNode) : Prop :=
  ∃ w1 t c m, tablets_ n !! idx = Some t ∧ SPLIT_THRESHOLD ≤ key_count t ∧
    QueryTabletStats w (node_id t) (start_key t) (end_key t) (key_count t) [] = Ret (w1, true, c, m) ∧
    0 ≤ c < 2 ^ 32 ∧ slt (start_key t) m ∧ (end_key t = [] ∨ slt m (end_key t)) ∧
    let left := left_half t (next_tablet_id_ n) m c in
    let right := right_half t (u64 (next_tablet_id_ n + 1)) m c in
    let ts := take idx (tablets_ n) ++ left :: right :: drop (S idx) (tablets_ n) in
    view n' = Routing ts (u64 (u64 (next_tablet_id_ n + 1) + 1)) (u64 (epoch_ n + 1)) ∧
    node_id_ n' = node_id_ n ∧ port_ n' = port_ n ∧ peers_ n' = peers_ n ∧
    w' = t_publish (t_publish w1 (<[idx := left]> (tablets_ n))) ts.

Definition split_refused (w : W) (n : RaftNode) (idx : nat) (w' : W) : Prop :=
  (tablets_ n !! idx = None ∧ w' = w) ∨
  ∃ t, tablets_ n !! idx = Some t ∧
    (key_count t < SPLIT_THRESHOLD ∧ w' = w ∨
     ∃ qok c m, QueryTabletStats w (node_id t) (start_key t) (end_key t) (key_count t) [] = Ret (w', qok, c, m) ∧
       (qok = false ∨ sle m (start_key t) ∨ end_key t ≠ [] ∧ sle (end_key t) m)).

Lemma TrySplitTablet_spec w n idx :
  post (fun r : W * RaftNode * bool => if r.2 then split_done w n idx r.1.1 r.1.2 else r.1.2 = n ∧ split_refused w n idx r.1.1)
    (TrySplitTablet fs w n idx).
Proof.
  unfold TrySplitTablet. destruct (tablets_ n !! idx) as [t|] eqn:Hi; [|by split; [|left]].
  destruct (Z.ltb_spec (key_count t) SPLIT_THRESHOLD); [by split; [|right; exists t; split; [|left]]|].
  destruct (QueryTabletStats_total w (node_id t) (start_key t) (end_key t) (key_count t) [])
    as (w1 & ok & c & mk & Hq & Hc). rewrite Hq. cbn [mbind outcome_bind].
  cbn [set_count start_key end_key tid node_id key_count].
  assert (Hno : ok = false ∨ sle mk (start_key t) ∨ end_key t ≠ [] ∧ sle (end_key t) mk →
    n = n ∧ split_refused w n idx w1).
  { intros Hno. split; [done|]. right. exists t. split; [done|]. right. by exists ok, c, mk. }
  destruct ok; [|apply Hno; by left]. specialize (Hc eq_refl).
  destruct (str_leb_spec mk (start_key t)) as [Hle|Hlt].
  { rewrite orb_true_r, orb_true_l. apply Hno. auto. }
  rewrite (bool_decide_eq_false_2 (mk = [])) by by eapply slt_not_nil.
  destruct (past_end_spec (end_key t) mk) as [He|He]; [apply Hno; auto|]. cbn [negb orb].
  rewrite Z.eqb_refl. cbn [negb]. eapply post_bind; [apply SaveTablets_view|].
  intros n' (Hv & ? & ? & ? & _). exists w1, t, c, mk. cbv zeta. cbn [fst snd].
  unfold view in Hv at 2. cbn [set_table tablets_ next_tablet_id_ epoch_] in Hv.
  rewrite (insert_after _ _ t), (u64_small (c - c / 2)) in Hv
    by (done || (pose proof (Z.div_le_upper_bound c 2 c); pose proof (Z.div_pos c 2); lia)).
  rewrite (insert_after _ _ t), (u64_small (c - c / 2))
    by (done || (pose proof (Z.div_le_upper_bound c 2 c); pose proof (Z.div_pos c 2); lia)).
  split_and!; done || lia.
Qed.

Lemma TrySplitTablet_evolves w n idx : post (fun r => evolves 0 n r.1.2) (TrySplitTablet fs w n idx).
Proof.
  eapply post_mono; [apply TrySplitTablet_spec|]. intros [[w' n'] [|]]; cbn [fst snd]; [|by intros [-> _]].
  intros (w1 & t & c & m & Hi & _ & _ & Hc & Hlt & He & Hv & ? & ? & ? & _).
  eapply evolves_set; [|exact Hv|done..]. unfold view.
  rewrite <- (take_drop_middle (tablets_ n) idx t Hi) at 1. by apply step_split.
Qed.

(** When the data were transferred: the new route is published, then comes the cleanup. *)
Lemma migrate_inv w w1 w' n n' idx t dst ok :
  tablets_ n !! idx = Some t → node_id t ≠ dst →
  ScanAndTransferData w (node_id t) dst (start_key t) (end_key t) = Ret (w1, true) →
  MigrateTablet fs w n idx dst = Ret (w', n', ok) →
  ok = true ∧ tablets_ n' = <[idx := set_node t dst]> (tablets_ n) ∧
  ∃ cleaned, SendDeleteRange (t_publish w1 (tablets_ n')) (node_id t) (start_key t) (end_key t) = Ret (w', cleaned).
Proof.
  intros Hi Hne Hscan. unfold MigrateTablet. rewrite Hi, (proj2 (Z.eqb_neq _ _) Hne), Hscan.
  cbn [mbind outcome_bind negb]. rewrite Z.eqb_refl, bind_assoc. intros (n1 & Hsave & Hrun)%bind_ret_inv.
  pose proof (post_ret_inv _ _ _ (SaveTablets_view fs _) Hsave) as (Hv & _).
  unfold view in Hv. injection Hv as Hts _ _. cbn [set_table tablets_ mbind outcome_bind] in Hts, Hrun. rewrite <- Hts in Hrun.
  apply bind_ret_inv in Hrun as ([w2 c] & Hdel & [= <- <- <-]). split; [done|]. split; [done|]. by exists c.
Qed.

(** [MigrateTablet] towards a node that owns a tablet. *)
Lemma MigrateTablet_evolves w n idx dst :
  dst ∈ node_id <$> tablets_ n →
  post (fun r : W * RaftNode * bool => evolves (if r.2 then 1 else 0) n r.1.2 ∧ length (tablets_ r.1.2) = length (tablets_ n))
    (MigrateTablet fs w n idx dst).
Proof.
  intros (u & -> & Hu)%list_elem_of_fmap. unfold MigrateTablet.
  destruct (tablets_ n !! idx) as [t|] eqn:Hi; [|by split].
  destruct (Z.eqb_spec (node_id t) (node_id u)); [by split|].
  destruct (ScanAndTransferData_total w (node_id t) (node_id u) (start_key t) (end_key t))
    as (w1 & ok & ->). cbn [mbind outcome_bind]. destruct ok; cbn [negb]; [|by split].
  rewrite Z.eqb_refl, bind_assoc. eapply post_bind; [apply SaveTablets_view|].
  intros n' (Hv & ? & ? & ? & _). cbn [mbind outcome_bind]. set (w2 := t_publish _ _).
  destruct (SendDeleteRange_total w2 (node_id t) (start_key t) (end_key t)) as (w3 & ok & ->).
  cbn [mbind outcome_bind post fst snd]. split.
  - eapply evolves_set; [|exact Hv|done..]. apply (step_move _ _ t u); congruence.
  - unfold view in Hv. injection Hv as -> _ _. cbn [set_table tablets_]. by rewrite length_insert.
Qed.

(** The destination of the decision owns a tablet, its index is in the table. *)
Lemma plan_balance_owner ts i src dst :
  plan_balance ts = Some (i, src, dst) → dst ∈ node_id <$> ts ∧ (i < length ts)%nat.
Proof.
  assert (Hkeys : ∀ l m, (∀ p, p ∈ m → p.1 ∈ node_id <$> ts) → (∀ t, t ∈ l → t ∈ ts) →
    ∀ p, p ∈ fold_left (fun m t => load_add (node_id t) (key_count t) m) l m → p.1 ∈ node_id <$> ts).
  { induction l as [|t l IH]; intros m Hm Hl p; cbn [fold_left]; [apply Hm|].
    apply IH; [|intros; apply Hl; by right]. clear p. intros p Hp.
    assert (Ht : node_id t ∈ node_id <$> ts) by (apply list_elem_of_fmap; exists t; split; [done|apply Hl; by left]).
    clear IH Hl. revert Hp. induction m as [|[k v] m IHm]; cbn [load_add].
    { by intros ->%list_elem_of_singleton. }
    assert (Hk : k ∈ node_id <$> ts) by (apply (Hm (k, v)); by left).
    assert (Hm' : ∀ p, p ∈ m → p.1 ∈ node_id <$> ts) by (intros; apply Hm; by right).
    destruct (_ <? k); [intros [->|?]%elem_of_cons; auto|].
    destruct (_ =? k); intros [->|?]%elem_of_cons; auto. }
  unfold plan_balance. destruct (_ <? _)%nat; [done|].
  specialize (Hkeys ts [] ltac:(by intros ? ?%elem_of_nil) ltac:(done)). fold (node_load ts) in Hkeys.
  destruct (node_load ts) as [|x [|y m]]; [done|done|].
  destruct (_ <? BALANCE_DIFF_THRESHOLD); [done|].
  destruct (Nat.leb_spec (length ts) (find_target (max_element (y :: m) x).1 ts 0 (length ts) 0)); [done|].
  intros [= <- _ <-]. split; [|done]. apply Hkeys. exact (proj1 (min_element_spec (y :: m) x)).
Qed.

Lemma DoLoadBalance_evolves dur w n :
  post (fun r : W * RaftNode * bool => evolves (if r.2 then 1 else 0) n r.1.2) (DoLoadBalance fs dur w n).
Proof.
  unfold DoLoadBalance. destruct (plan_balance (tablets_ n)) as [[[i src] dst]|] eqn:E; [|cbn; auto].
  apply plan_balance_owner in E as [Hdst Hi].
  eapply post_bind; [by apply (MigrateTablet_evolves w n i)|].
  intros [[w1 n1] ok] [He Hlen]. cbn [fst snd] in *.
  destruct (lookup_lt_is_Some_2 (tablets_ n1) i) as [t ->]; [lia|].
  exact He.
Qed.

Lemma split_loop_evolves fuel w n i :
  post (fun r => ∀ w' n', r = Some (w', n') → evolves 0 n n') (split_loop fs fuel w n i).
Proof.
  revert w n i. induction fuel as [|fuel IH]; intros w n i; cbn [split_loop];
    (destruct (tablets_ n !! i) as [t|]; [|intros ? ? [= _ <-]; auto]); [done|].
  destruct (_ <=? _); [|apply IH].
  eapply post_bind; [apply TrySplitTablet_evolves|]. intros [[w1 n1] ok] He. cbn [fst snd] in He.
  eapply post_mono; [apply IH|]. intros r Hr w' n' E. eapply (evolves_trans 0 0); [exact He|by eapply Hr].
Qed.

(** A turn moves at most one tablet. *)
Lemma BalancerRound_evolves fuel dur w n :
  post (fun r => ∀ w' n', r = Some (w', n') → ∃ k, (k ≤ 1)%nat ∧ evolves k n n') (BalancerRound fs fuel dur w n).
Proof.
  unfold BalancerRound. eapply post_bind; [apply SyncAllTabletStats_evolves|].
  intros [w1 n1] He1. eapply post_bind; [apply split_loop_evolves|].
  intros [[w2 n2]|] He2; [|done]. specialize (He2 _ _ eq_refl).
  eapply post_bind; [apply DoLoadBalance_evolves|]. intros [[w3 n3] ok] He3 w' n' [= _ <-].
  exists (if ok then 1 else 0)%nat. split; [by destruct ok; lia|].
  exact (evolves_trans 0 _ _ _ _ He1 (evolves_trans 0 _ _ _ _ He2 He3)).
Qed.

Lemma BalancerLoop_evolves fuel durs w n :
  post (fun r => ∀ w' n', r = Some (w', n') → ∃ k, (k ≤ length durs)%nat ∧ evolves k n n') (BalancerLoop fs fuel durs w n).
Proof.
  revert w n. induction durs as [|dur durs IH]; intros w n; cbn [BalancerLoop].
  { intros ? ? [= _ <-]. by exists 0%nat. }
  eapply post_bind; [apply BalancerRound_evolves|]. intros [[w1 n1]|] He; [|done].
  eapply post_mono; [apply IH|]. intros r Hr w' n' E. destruct (He _ _ eq_refl) as (j & Hj & He1), (Hr w' n' E) as (k & Hk & He2).
  exists (j + k)%nat. split; [cbn [length]; lia|]. by eapply evolves_trans.
Qed.
End Refines.

(** ** A transport given by a script

    Node [node] is connected when [up node]; the [k]-th receive returns the
    [k]-th frame of the script, a time-out when the script has none. *)
#[export] Instance outcome_eq_dec {A} `{EqDecision A} : EqDecision (outcome A).
Proof. solve_decision. Defined.

Record Script := { up : list Z; replies : list (option bytes) }.

Definition script_recv (s : Script) : Script * option bytes :=
  match replies s with
  | [] => (s, None)
  | r :: rs =>
      ({| up := up s; replies := rs |},
       f ← r; if bool_decide (10 ≤ zlen f ∧ rd32 f 0 = Ret (zlen f)) then Some f else None)
  end.

#[export] Instance script_transport : Transport Script := {|
  t_connected s node := bool_decide (node ∈ up s);
  t_send s _ _ := (s, true);
  t_recv s _ _ := script_recv s;
  t_publish s _ := s;
|}.

#[export] Instance script_transport_spec : TransportSpec Script.
Proof.
  split. intros s node t s' f. cbn. unfold script_recv. destruct (replies s) as [|[g|] rs]; try done.
  cbn. case_bool_decide; [|done]. by intros [= _ <-].
Qed.

(** The answer of a data node to TABLET_STATS. *)
Definition stats_reply (count : Z) (median : bytes) : bytes :=
  EncodeResponse 1 ST_OK (be32 count ++ be16 (zlen median) ++ median).

(** ** Properties *)

(** C6: the balancer thread keeps the routing table sound for ever: whatever
    the data nodes answer, late, wrong or not at all, no number of turns of the loop reads
    out of bounds; if it starts from a table that partitions the key space then
    after them the table still does, every key has exactly one route, to a node
    that owned a tablet at the start, and (as long as the 64-bit id counter does
    not wrap) the tablet ids stay distinct and all values fit their widths; the epoch has
    advanced by exactly the number of splits, each of which makes the table longer by one, and of moves,
    at most one per turn, in a run of the specification with that many moves: without moves every key is routed to the node it was routed to, and
    without splits and moves only counts have changed. *)
Theorem BalancerLoop_invariant {W} `{TransportSpec W} `{JsonTextSpec} fs fuel durs (w : W) (n : RaftNode)
    (Hp : partition (tablets_ n)) (Hids : ids_ok n) (Hok : table_ok n) :
  BalancerLoop fs fuel durs w n ≠ UB ∧
  ∀ w' n', BalancerLoop fs fuel durs w n = Ret (Some (w', n')) →
    let splits := (length (tablets_ n') - length (tablets_ n))%nat in
    partition (tablets_ n') ∧
    (∀ key, ∃ t, GetTabletRoute (tablets_ n') key = Ret (Some t) ∧ covers t key ∧
                 node_id t ∈ node_id <$> tablets_ n) ∧
    (next_tablet_id_ n + 2 * Z.of_nat splits + 2 < 2 ^ 64 →
     next_tablet_id_ n' = next_tablet_id_ n + 2 * Z.of_nat splits ∧ ids_ok n' ∧ Forall tablet_ok (tablets_ n')) ∧
    (length (tablets_ n) ≤ length (tablets_ n'))%nat ∧
    ∃ moves : nat, (moves ≤ length durs)%nat ∧ table_run moves (view n) (view n') ∧
      epoch_ n' = u64 (epoch_ n + Z.of_nat splits + Z.of_nat moves) ∧
      (moves = 0%nat → ∀ key t t', GetTabletRoute (tablets_ n) key = Ret (Some t) →
         GetTabletRoute (tablets_ n') key = Ret (Some t') → node_id t' = node_id t) ∧
      (splits = 0%nat → moves = 0%nat → Forall2 same_route (tablets_ n) (tablets_ n')).
Proof.
  pose proof (BalancerLoop_evolves fs fuel durs w n) as Hpost.
  split; [by eapply post_no_ub|]. intros w' n' E.
  destruct (post_ret_inv _ _ _ Hpost E w' n' eq_refl) as (k & Hk & Hs & _). destruct Hok as (Hw & Hnx & Hep).
  pose proof (steps_partition _ _ _ Hs Hp) as Hp'. cbv zeta. split; [exact Hp'|]. split; [|split; [|split]].
  - intros key. destruct (route_exact (tablets_ n') key Hp') as (i & t & _ & Hi & HR & Hc & _).
    exists t. split; [done|]. split; [done|]. apply (steps_owners _ _ _ _ Hs).
    apply list_elem_of_fmap. eauto using list_elem_of_lookup_2.
  - intros Hmax. apply (steps_ids _ _ _ Hs); cbn [view r_next r_tablets]; try done; lia.
  - exact (steps_length _ _ _ Hs).
  - destruct (steps_epoch _ _ _ Hs Hep) as [He Hsame]. exists k. split; [done|]. split; [exact Hs|]. split; [exact He|]. split; [|exact Hsame].
    intros Hk0 key t t' HR HR'.
    destruct (route_exact (tablets_ n) key Hp) as (i & u & _ & Hi & HRu & _ & Huniq).
    destruct (route_exact (tablets_ n') key Hp') as (j & v & _ & Hj & HRv & Hcv & _).
    rewrite HR in HRu. injection HRu as <-. rewrite HR' in HRv. injection HRv as <-.
    destruct (steps_stay _ _ _ t' key Hs Hk0 (list_elem_of_lookup_2 _ _ _ Hj) Hcv) as (x & Hx & Hcx & <-).
    apply list_elem_of_lookup_1 in Hx as [y Hy]. cbn [view r_tablets] in Hy.
    rewrite (Huniq y x Hy Hcx), Hi in Hy. by injection Hy as ->.
Qed.

(** A turn in which node 2 reports eight keys, its tablet is split at "g", and the
    right half moves to node 3, which acknowledges the records. *)
Definition demo_script : Script :=
  {| up := [2; 3];
     replies := [Some (stats_reply 8 (str "g")); Some (stats_reply 1 (str "z")); Some (stats_reply 8 (str "g"));
       Some (EncodeResponse 1 ST_OK (be32 1 ++ scan_record (str "h", str "v")));
       Some (EncodeResponse 2 ST_OK []); Some (EncodeResponse 1 ST_OK [])] |}.

Definition demo_fresh : RaftNode :=
  demo_master [ {| tid := 1; start_key := []; end_key := str "m"; node_id := 2; key_count := 0 |};
                {| tid := 2; start_key := str "m"; end_key := []; node_id := 3; key_count := 0 |} ].

Lemma BalancerLoop_invariant_witness :
  ∃ w' n', @BalancerLoop Script _ ref_json_text good_fs 10 [4] demo_script demo_fresh = Ret (Some (w', n')) ∧
    partition (tablets_ n') ∧ node_id <$> tablets_ n' = [3; 2; 3] ∧ ids_ok n' ∧
    ∃ moves : nat, (moves ≤ 1)%nat ∧ epoch_ n' = u64 (epoch_ demo_fresh + 1 + Z.of_nat moves).
Proof.
  destruct (@BalancerLoop Script _ ref_json_text good_fs 10 [4] demo_script demo_fresh)
    as [[[w' n']|]| |] eqn:E; try (vm_compute in E; discriminate).
  exists w', n'. split; [reflexivity|].
  destruct (@BalancerLoop_invariant Script _ _ ref_json_text ref_json_text_spec good_fs 10 [4] demo_script demo_fresh)
    as [_ H]; [apply (bool_decide_unpack _); vm_compute; exact I..|].
  destruct (H w' n' E) as (Hp & _ & Hids & _ & moves & Hm & _ & He & _). split; [exact Hp|].
  vm_compute in E. injection E as _ <-. split; [reflexivity|]. split; [apply Hids; vm_compute; reflexivity|].
  exists moves. split; [exact Hm|exact He].
Defined.

(** C35: the balancer only shuffles tablets between the nodes that had some from the start: on
    a fresh cluster with any number of data nodes, every tablet is for ever on
    one of the first two data nodes of the configuration; the others never
    receive any. *)
Theorem idle_data_nodes {W} `{TransportSpec W} `{JsonTextSpec} fs id (peers : list PeerInfo) (d : Disk)
    n0 n1 rest fuel durs (w w' : W) (n n' : RaftNode)
    (Hd : tablet_file d = None) (Hp : data_nodes peers = n0 :: n1 :: rest)
    (Hinit : init_master fs id LEADER_PORT peers d = Ret n)
    (Hrun : BalancerLoop fs fuel durs w n = Ret (Some (w', n'))) :
  Forall (fun t => node_id t = n0 ∨ node_id t = n1) (tablets_ n').
Proof.
  assert (Hts : node_id <$> tablets_ n = [n0; n1]).
  { unfold init_master, LoadTablets, BuildInitialTablets in Hinit. cbn [IsMaster port_ negb disk_ peers_] in Hinit.
    change (IsMaster _) with true in Hinit. cbn [negb] in Hinit. rewrite Hd in Hinit. cbn [mbind outcome_bind peers_] in Hinit.
    rewrite Hp in Hinit. cbn [mbind outcome_bind] in Hinit.
    pose proof (post_ret_inv _ _ _ (SaveTablets_view fs _) Hinit) as (Hv & _).
    unfold view in Hv. injection Hv as -> _ _. done. }
  destruct (post_ret_inv _ _ _ (BalancerLoop_evolves fs fuel durs w n) Hrun w' n' eq_refl) as (k & _ & Hs & _).
  apply Forall_forall. intros t Ht.
  assert (Hin : node_id t ∈ node_id <$> tablets_ n).
  { apply (steps_owners _ _ _ _ Hs). apply list_elem_of_fmap. eauto. }
  rewrite Hts in Hin. set_solver.
Qed.

(** Nodes 2, 3 and 4 hold data; node 4 is connected but stays idle. *)
Definition demo_peers3 : list PeerInfo :=
  demo_peers ++ [ {| pid := 4; ip := str "127.0.0.1"; port := 9004 |} ].
Definition demo_disk0 : Disk := {| tablet_file := None; tmp_file := None |}.

Lemma idle_data_nodes_witness :
  ∃ n w' n', @init_master ref_json_text good_fs 1 LEADER_PORT demo_peers3 demo_disk0 = Ret n ∧
    @BalancerLoop Script _ ref_json_text good_fs 10 [4] demo_script n = Ret (Some (w', n')) ∧
    length (tablets_ n') = 3%nat ∧ Forall (fun t => node_id t = 2 ∨ node_id t = 3) (tablets_ n').
Proof.
  destruct (@init_master ref_json_text good_fs 1 LEADER_PORT demo_peers3 demo_disk0) as [n| |] eqn:E;
    try (vm_compute in E; discriminate).
  destruct (@BalancerLoop Script _ ref_json_text good_fs 10 [4] demo_script n) as [[[w' n']|]| |] eqn:E2;
    try (vm_compute in E; injection E as <-; vm_compute in E2; discriminate).
  exists n, w', n'. split; [reflexivity|]. split; [exact E2|]. split.
  - vm_compute in E; injection E as <-; vm_compute in E2. injection E2 as _ <-. reflexivity.
  - refine (@idle_data_nodes Script _ _ ref_json_text ref_json_text_spec good_fs 1 demo_peers3 demo_disk0
      2 3 [4] 10 [4] demo_script w' n n' eq_refl _ E E2). vm_compute. reflexivity.
Defined.

(** C19: a split is exact: [TrySplitTablet] answers [true] exactly for a tablet at or
    above the threshold whose node has reported a median strictly inside the
    range, and then replaces exactly this tablet by two with fresh ids, on the same node, that
    meet at the median and share the reported count; both cover some key, and a key is covered by one of
    them if and only if the old tablet covered it.  In every other case it answers [false]
    and leaves the master unchanged. *)
Theorem TrySplitTablet_exact {W} `{TransportSpec W} `{JsonTextSpec} fs (w w' : W) (n n' : RaftNode)
    (idx : nat) (ok : bool) (Hids : 0 ≤ next_tablet_id_ n < 2 ^ 64 - 2)
    (Hrun : TrySplitTablet fs w n idx = Ret (w', n', ok)) :
  if ok then
    ∃ w1 t c m, tablets_ n !! idx = Some t ∧ SPLIT_THRESHOLD ≤ key_count t ∧
      QueryTabletStats w (node_id t) (start_key t) (end_key t) (key_count t) [] = Ret (w1, true, c, m) ∧
      slt (start_key t) m ∧ (end_key t = [] ∨ slt m (end_key t)) ∧
      let left := left_half t (next_tablet_id_ n) m c in
      let right := right_half t (next_tablet_id_ n + 1) m c in
      tablets_ n' = take idx (tablets_ n) ++ left :: right :: drop (S idx) (tablets_ n) ∧
      next_tablet_id_ n' = next_tablet_id_ n + 2 ∧ epoch_ n' = u64 (epoch_ n + 1) ∧
      key_count left + key_count right = c ∧ covers left (start_key t) ∧ covers right m ∧
      ∀ k, covers t k ↔ covers left k ∨ covers right k
  else n' = n ∧
    ∀ t, tablets_ n !! idx = Some t → SPLIT_THRESHOLD ≤ key_count t →
      ∃ qok c m, QueryTabletStats w (node_id t) (start_key t) (end_key t) (key_count t) [] = Ret (w', qok, c, m) ∧
        ¬ (qok = true ∧ slt (start_key t) m ∧ (end_key t = [] ∨ slt m (end_key t))).
Proof.
  pose proof (post_ret_inv _ _ _ (TrySplitTablet_spec fs w n idx) Hrun) as Hspec. cbn [fst snd] in Hspec. destruct ok.
  - destruct Hspec as (w1 & t & c & m & Hi & Hth & Hq & Hc & Hlt & He & Hv & _). exists w1, t, c, m.
    rewrite !u64_small in Hv by (rewrite ?u64_small; lia). unfold view in Hv. injection Hv as -> -> Hep.
    cbv zeta. split_and!; try done; [lia|cbn; lia|by split; [apply sle_refl|right]|].
    intros k. by apply covers_halves.
  - destruct Hspec as [-> Hno]. split; [done|]. intros t Ht Hth. destruct Hno as [[? _]|(u & Hu & Hno)]; [congruence|].
    rewrite Ht in Hu. injection Hu as <-. destruct Hno as [[? _]|(qok & c & m & Hq & Hno)]; [lia|].
    exists qok, c, m. split; [exact Hq|]. intros (-> & Hlt & He).
    destruct Hno as [?|[Hle|[? Hle]]]; [done|by apply (sle_not_slt _ _) in Hle|].
    destruct He as [?|He]; [done|by apply (sle_not_slt _ _) in Hle].
Qed.

Definition demo_big : RaftNode :=
  demo_master [ {| tid := 1; start_key := []; end_key := str "m"; node_id := 2; key_count := 8 |};
                {| tid := 2; start_key := str "m"; end_key := []; node_id := 3; key_count := 0 |} ].
Definition split_script : Script := {| up := [2; 3]; replies := [Some (stats_reply 9 (str "g"))] |}.

Lemma TrySplitTablet_exact_witness :
  ∃ w' n', @TrySplitTablet Script _ ref_json_text good_fs split_script demo_big 0 = Ret (w', n', true) ∧
    key_count <$> tablets_ n' = [4; 5; 0] ∧ epoch_ n' = u64 (epoch_ demo_big + 1).
Proof.
  destruct (@TrySplitTablet Script _ ref_json_text good_fs split_script demo_big 0) as [[[w' n'] [|]]| |] eqn:E;
    try (vm_compute in E; discriminate).
  exists w', n'. split; [reflexivity|].
  destruct (@TrySplitTablet_exact Script _ _ ref_json_text ref_json_text_spec good_fs split_script w' demo_big n' 0 true)
    as (w1 & t & c & m & _ & _ & _ & _ & _ & _ & _ & He & _); [split; reflexivity || (vm_compute; discriminate)|exact E|].
  split; [|exact He]. vm_compute in E. injection E as _ <-. reflexivity.
Defined.

(** C28: a migration is all or nothing for the routing table, and the migration
    counter counts failures: when [DoLoadBalance] answers [false] after picking
    a tablet, the table, the ids and the epoch are unchanged, but the number of
    keys of the tablet is added to [transfer_count_] as if they had been moved; when it
    answers [true] exactly this tablet is now on the destination and the epoch
    has advanced. *)
Theorem DoLoadBalance_exact {W} `{TransportSpec W} `{JsonTextSpec} fs dur (w w' : W) (n n' : RaftNode)
    (i : nat) (src dst : Z) (t : Tablet) (ok : bool) (Hp : plan_balance (tablets_ n) = Some (i, src, dst))
    (Hi : tablets_ n !! i = Some t) (Hne : node_id t ≠ dst)
    (Hrun : DoLoadBalance fs dur w n = Ret (w', n', ok)) :
  tablets_ n' = (if ok then <[i := set_node t dst]> (tablets_ n) else tablets_ n) ∧
  next_tablet_id_ n' = next_tablet_id_ n ∧
  epoch_ n' = (if ok then u64 (epoch_ n + 1) else epoch_ n) ∧
  transfer_count_ n' = u64 (transfer_count_ n + key_count t).
Proof.
  unfold DoLoadBalance, MigrateTablet in Hrun. rewrite Hp, Hi in Hrun.
  destruct (Z.eqb_spec (node_id t) dst); [done|].
  destruct (ScanAndTransferData_total w (node_id t) dst (start_key t) (end_key t)) as (w1 & sok & Hscan).
  rewrite Hscan in Hrun. cbn [mbind outcome_bind] in Hrun. destruct sok; cbn [negb] in Hrun.
  - rewrite Z.eqb_refl in Hrun. apply bind_ret_inv in Hrun as ([[w2 n2] ok2] & Hm & Hrun).
    rewrite bind_assoc in Hm. apply bind_ret_inv in Hm as (n3 & Hsave & Hm). cbn [mbind outcome_bind] in Hm.
    pose proof (post_ret_inv _ _ _ (SaveTablets_view fs _) Hsave) as (Hv & _ & _ & _ & Htc & _).
    unfold view in Hv. injection Hv as Ht3 Hn3 He3.
    match type of Hm with context [SendDeleteRange ?w] =>
      destruct (SendDeleteRange_total w (node_id t) (start_key t) (end_key t)) as (w4 & dok & Hdel) end.
    rewrite Hdel in Hm. cbn [mbind outcome_bind] in Hm. injection Hm as <- <- <-.
    cbn [set_table tablets_ transfer_count_] in *. rewrite Ht3 in Hrun.
    rewrite list_lookup_insert_eq in Hrun by (by eapply lookup_lt_Some).
    injection Hrun as <- <- <-. cbn [set_transfer tablets_ next_tablet_id_ epoch_ transfer_count_ set_node key_count].
    rewrite Htc. done.
  - cbn [mbind outcome_bind] in Hrun. rewrite ?Hi in Hrun. by injection Hrun as <- <- <-.
Qed.

(** Node 2 does not answer the scan. *)
Definition failed_script : Script := {| up := [2; 3]; replies := [None] |}.

Lemma DoLoadBalance_exact_witness :
  ∃ w' n', @DoLoadBalance Script _ ref_json_text good_fs 30000 failed_script demo_big = Ret (w', n', false) ∧
    tablets_ n' = tablets_ demo_big ∧ transfer_count_ n' = 8.
Proof.
  destruct (@DoLoadBalance Script _ ref_json_text good_fs 30000 failed_script demo_big) as [[[w' n'] [|]]| |] eqn:E;
    try (vm_compute in E; discriminate).
  exists w', n'. split; [reflexivity|].
  destruct (@DoLoadBalance_exact Script _ _ ref_json_text ref_json_text_spec good_fs 30000 failed_script w' demo_big n'
    0 2 3 {| tid := 1; start_key := []; end_key := str "m"; node_id := 2; key_count := 8 |} false eq_refl eq_refl)
    as (H1 & _ & _ & H2); [discriminate|exact E|]. split; [exact H1|exact H2].
Defined.
