(* ===== verification/TransferLog.v ===== *)
(** * The log of [Stop] (src/kv/raft_node.cpp)

    The last thing [RaftNode::Stop] does on the master: it writes what the balancer measured to
    transfer_time.json.  A [double] is a [spec_float] of 53 bits; printing (vendored
    library) is a parameter. *)

From S2P Require Import Prelude StringOrder Json Config Tablet RaftNode TableSteps BalancePlan Balancer.
From Stdlib Require Import Floats.SpecFloat.

(** An unsigned integer as a [double], and the operations on them. *)
Definition double_of (z : Z) : spec_float := binary_normalize 53 1024 z 0 false.
Definition double_mul : spec_float → spec_float → spec_float := SFmul 53 1024.
Definition double_div : spec_float → spec_float → spec_float := SFdiv 53 1024.

(** The members of the object, by their order in the source. *)
Record transfer_log := { log_count : Z; log_time : Z; log_average : spec_float }.

(** Both branches of the conditional are a [double]. *)
Definition Stop_log (n : RaftNode) : transfer_log :=
  {| log_count := transfer_count_ n;
     log_time := transfer_time_ms_ n;
     log_average :=
       if 0 <? transfer_count_ n
       then double_div (double_mul (double_of (transfer_time_ms_ n)) (double_of 1)) (double_of (transfer_count_ n))
       else double_of 0 |}.

Section File.
(** [dump(4)], and whether the file opens for writing. *)
Context (dump : transfer_log → bytes).

(** The file before and after; an [std::ofstream] truncates. *)
Definition write_log (n : RaftNode) (opens : bool) (file : option bytes) : option bytes :=
  if IsMaster n then
    let log := Stop_log n in
    if opens then Some (dump log) else file
  else file.

(** The log holds the last process only, although the program says it appended. *)
Lemma write_log_last n1 n2 open1 file :
  IsMaster n2 = true → write_log n2 true (write_log n1 open1 file) = Some (dump (Stop_log n2)).
Proof. intros Hm. unfold write_log. by rewrite Hm. Qed.
End File.
