(* ===== verification/Cluster.v ===== *)
(** * The cluster: the balancer of the master and the data nodes together

    The data nodes run the server code of RpcServer.v and DataNode.v on their
    databases; the master's transport delivers a request frame to the node and
    the node's response frame back.  The cluster then stores one map from keys
    to values, spread over the nodes by the routing table, and the operations of the
    balancer leave this map alone. *)

From S2P Require Import Prelude StringOrder BinaryProtocol Storage RpcClient RpcServer DataNode.
From S2P Require Import Json Config Tablet RaftNode TableSteps BalancePlan Balancer.

(** ** The data nodes as a transport *)
Section Nodes.
Context {D : Type} `{LevelDB D}.

(** [stores]: the reachable data nodes with their storage ([None]: not open);
    [inbox]: the response frames the master has not read yet. *)
Record Nodes := { stores : gmap Z (option D); inbox : list (Z * bytes) }.

Definition set_store (w : Nodes) (node : Z) (st : option D) : Nodes :=
  {| stores := <[node := st]> (stores w); inbox := inbox w |}.

(** A request frame arrives at a node, which serves it; a node that runs into
    undefined behaviour is gone. *)
Definition deliver (w : Nodes) (node : Z) (f : bytes) : Nodes * bool :=
  match stores w !! node with
  | None => (w, false)
  | Some st =>
      match serve_frame HandleDataNodeRequest st f with
      | Ret (st', Some resp) =>
          ({| stores := <[node := st']> (stores w); inbox := inbox w ++ [(node, resp)] |}, true)
      | Ret (st', None) => (set_store w node st', true)
      | _ => ({| stores := delete node (stores w); inbox := inbox w |}, true)
      end
  end.

(** The first unread response of a node. *)
Fixpoint take_reply (node : Z) (l : list (Z * bytes)) : option (bytes * list (Z * bytes)) :=
  match l with
  | [] => None
  | (n, f) :: l =>
      if n =? node then Some (f, l)
      else match take_reply node l with Some (g, l') => Some (g, (n, f) :: l') | None => None end
  end.

Definition receive (w : Nodes) (node : Z) : Nodes * option bytes :=
  match take_reply node (inbox w) with
  | None => (w, None)
  | Some (f, l) =>
      ({| stores := stores w; inbox := l |},
       if bool_decide (10 ≤ zlen f ∧ rd32 f 0 = Ret (zlen f)) then Some f else None)
  end.

#[export] Instance nodes_transport : Transport Nodes := {|
  t_connected w node := bool_decide (is_Some (stores w !! node));
  t_send := deliver;
  t_recv w node _ := receive w node;
  t_publish w _ := w;
|}.

#[export] Instance nodes_transport_spec : TransportSpec Nodes.
Proof.
  split. intros w node t w' f. cbn. unfold receive. destruct (take_reply _ _) as [[g l]|]; [|done].
  case_bool_decide; [|done]. by intros [= _ <-].
Qed.
End Nodes.
Arguments Nodes : clear implicits.

(** ** What the master reads in the answers

    Over any connections: the payloads that the data nodes send. *)
Section Answers.
Context {W : Type} `{Transport W}.
Implicit Types w : W.

Lemma stats_answer w w' node lo hi kc mk c med :
  t_connected w node = true →
  call w node (range_request OP_TABLET_STATS lo hi) 3000 = Ret (w', Some (resp_payload ST_OK (be32 c ++ be16 (zlen med) ++ med))) →
  0 ≤ c < 2 ^ 32 → zlen med < 2 ^ 16 → QueryTabletStats w node lo hi kc mk = Ret (w', true, c, med).
Proof.
  intros Hc Hcall Hcr Hm. unfold QueryTabletStats. rewrite Hc, Hcall. cbn [negb mbind outcome_bind].
  set (p := resp_payload _ _).
  assert (Hlen : zlen p = 11 + zlen med) by (unfold p, resp_payload; zlia).
  assert (at_ p 0 = Ret ST_OK) as ->.
  { unfold p, resp_payload. cbn [app]. by rewrite at_cons_0, Z_of_byte_of_Z. }
  assert (rd32 p 5 = Ret c) as ->.
  { unfold p, resp_payload. rewrite !rd32_app_r by zlia. autorewrite with zlen. apply rd32_app_l. zlia. }
  assert (rd16 p 9 = Ret (zlen med)) as ->.
  { unfold p, resp_payload. rewrite !rd16_app_r by zlia. autorewrite with zlen. apply rd16_app_l. zlia. }
  assert (slice p 11 (zlen med) = Ret med) as Hsl.
  { unfold p, resp_payload. rewrite !slice_app_r by zlia. autorewrite with zlen. by apply slice_all. }
  cbn [mbind outcome_bind]. rewrite Z.eqb_refl, Hsl. cbn [negb mbind outcome_bind]. zlen_nonneg_all.
  destruct (Z.ltb_spec (zlen p) 11); [lia|]. destruct (Z.ltb_spec (zlen p) (11 + zlen med)); [lia|]. done.
Qed.
End Answers.

(** The frame is a DELETE_RANGE request: the first byte of the payload. *)
Definition is_delete_range (f : bytes) : bool := bool_decide (f !! 10%nat = Some (byte_of_Z OP_DELETE_RANGE)).

(** ** Remote calls on a quiet network *)
Section Calls.
Context {D : Type} `{LevelDBSpec D}.
Implicit Types (w : Nodes D) (d : D) (st : option D).

Lemma set_store_same w node st : stores w !! node = Some st → set_store w node st = w.
Proof. intros Hs. destruct w as [ss l]. unfold set_store. cbn in *. by rewrite insert_id. Qed.

Lemma status_small s : s ∈ [ST_OK; ST_NOT_FOUND; ST_BAD_REQUEST; ST_TIMEOUT] → 0 ≤ s < 256.
Proof.
  intros Hs. repeat (apply elem_of_cons in Hs as [->|Hs]; [vm_compute; split; congruence|]).
  by apply elem_of_nil in Hs.
Qed.

(** A request frame and the frame that comes back. *)
Lemma roundtrip w node st st' rid p s v timeout :
  stores w !! node = Some st → inbox w = [] → 0 ≤ rid < 2 ^ 32 → fits_frame p →
  HandleDataNodeRequest st rid p = Ret (st', byte_of_Z s :: v) → 0 ≤ s < 256 → zlen v < 2 ^ 32 - 15 →
  ∃ w1, t_send w node (frame rid p) = (w1, true) ∧
    t_recv w1 node timeout = (set_store w node st', Some (frame rid (resp_payload s v))).
Proof.
  intros Hst Hin Hrid Hp Hh Hs Hv. cbn [t_send t_recv nodes_transport]. unfold deliver. rewrite Hst.
  rewrite serve_frame_request, Hh by done. cbn [mbind outcome_bind].
  rewrite pack_response_cons, Z_of_byte_of_Z, u8_small, EncodeResponse_frame by done.
  cbn [mbind outcome_bind]. eexists. split; [done|]. unfold receive. cbn [inbox stores]. rewrite Hin.
  cbn [app take_reply]. rewrite Z.eqb_refl. unfold set_store. rewrite Hin.
  rewrite bool_decide_eq_true_2; [done|].
  assert (Hfit : fits_frame (resp_payload s v)) by (unfold fits_frame, resp_payload; zlia).
  split; [unfold resp_payload; zlia|]. pose proof (announces_frame rid (resp_payload s v) [] Hfit) as Ha.
  unfold announces in Ha. by rewrite app_nil_r in Ha.
Qed.

Lemma call_roundtrip w node st st' p s v timeout :
  stores w !! node = Some st → inbox w = [] → fits_frame p →
  HandleDataNodeRequest st 1 p = Ret (st', byte_of_Z s :: v) → 0 ≤ s < 256 → zlen v < 2 ^ 32 - 15 →
  call w node (frame 1 p) timeout = Ret (set_store w node st', Some (resp_payload s v)).
Proof.
  intros Hst Hin Hp Hh Hs Hv. unfold call.
  destruct (roundtrip w node st st' 1 p s v timeout) as (w1 & -> & ->); try done. cbn [negb].
  rewrite <- (app_nil_r (frame 1 _)), TryDecode_frame; [done|lia|unfold fits_frame, resp_payload; zlia].
Qed.

Lemma range_request_frame op lo hi :
  zlen lo < 2 ^ 16 → zlen hi < 2 ^ 16 →
  range_request op lo hi = frame 1 (range_payload op lo hi) ∧ fits_frame (range_payload op lo hi).
Proof.
  intros. assert (Hf : fits_frame (range_payload op lo hi)) by (unfold fits_frame, range_payload; zlia).
  split; [|done]. unfold range_request. rewrite !u16_small by zlia. by apply EncodeCustomRequest_frame.
Qed.

Lemma connected w node st : stores w !! node = Some st → t_connected w node = true.
Proof. intros Hs. cbn. rewrite Hs. by apply bool_decide_eq_true_2. Qed.

(** What a healthy database answers to a request for statistics. *)
Lemma stats_served d lo hi :
  let keys := (map_range (ldb_view d) lo hi).*1 in
  let med := if zlen keys =? 0 then [] else nth (Z.to_nat (zlen keys / 2)) keys [] in
  ldb_healthy d → zlen lo < 2 ^ 16 → zlen hi < 2 ^ 16 → zlen keys < 2 ^ 32 → zlen med < 2 ^ 16 →
  HandleDataNodeRequest (Some d) 1 (range_payload OP_TABLET_STATS lo hi) =
    Ret (Some d, byte_of_Z ST_OK :: be32 (zlen keys) ++ be16 (zlen med) ++ med).
Proof.
  cbv zeta. intros Hh Hlo Hhi Hk Hm. pose proof (stats_request d 1 lo hi Hh Hlo Hhi) as Hreq.
  rewrite RangeStats_healthy in Hreq by done. cbv beta iota zeta in Hreq. zlen_nonneg_all.
  rewrite u32_small, u16_small in Hreq by lia. exact Hreq.
Qed.

(** The statistics a node reports are those of its database. *)
Lemma QueryTabletStats_ok w node d lo hi kc mk :
  let keys := (map_range (ldb_view d) lo hi).*1 in
  let med := if zlen keys =? 0 then [] else nth (Z.to_nat (zlen keys / 2)) keys [] in
  stores w !! node = Some (Some d) → inbox w = [] → ldb_healthy d →
  zlen lo < 2 ^ 16 → zlen hi < 2 ^ 16 → zlen keys < 2 ^ 32 → zlen med < 2 ^ 16 →
  QueryTabletStats w node lo hi kc mk = Ret (w, true, zlen keys, med).
Proof.
  cbv zeta. intros Hst Hin Hh Hlo Hhi Hk Hm. zlen_nonneg_all.
  apply stats_answer; [by eapply connected| |lia|done].
  destruct (range_request_frame OP_TABLET_STATS lo hi Hlo Hhi) as [-> Hfit].
  rewrite (call_roundtrip w node _ _ _ ST_OK _ _ Hst Hin Hfit (stats_served d lo hi Hh Hlo Hhi Hk Hm)) by (unfold ST_OK; zlia).
  by rewrite set_store_same.
Qed.
End Calls.

(** ** Migration on a quiet network *)

(** An entry that fits the requests and records. *)
Definition wire_entry (p : entry) : Prop := zlen p.1 < 2 ^ 16 ∧ zlen p.1 + zlen p.2 < 2 ^ 32 - 17.

Lemma zlen_scan_record p : zlen (scan_record p) = 6 + zlen p.1 + zlen p.2.
Proof. unfold scan_record. zlia. Qed.

(** Writing a list of entries over a map. *)
Definition put_all (l : list entry) (m : gmap bytes bytes) : gmap bytes bytes :=
  fold_left (fun m p => <[p.1 := p.2]> m) l m.

(** One record: the reads of the loop. *)
Lemma record_reads (pre rest : bytes) k v :
  wire_entry (k, v) →
  let p := pre ++ scan_record (k, v) ++ rest in
  let pos := zlen pre in
  rd16 p pos = Ret (zlen k) ∧ slice p (pos + 2) (zlen k) = Ret k ∧
  rd32 p (pos + 2 + zlen k) = Ret (zlen v) ∧ slice p (pos + 2 + zlen k + 4) (zlen v) = Ret v.
Proof.
  intros [Hk Hv]. cbn [fst snd] in *. cbv zeta. unfold scan_record. cbn [fst snd].
  rewrite u16_small, u32_small by zlia. rewrite <- !app_assoc. zlen_nonneg_all.
  rewrite rd16_app_r, Z.sub_diag, rd16_app_l by zlia. split; [done|].
  rewrite !slice_app_r by zlia. autorewrite with zlen.
  replace (zlen pre + 2 - zlen pre - 2) with 0 by lia. rewrite slice_app_l by done. split; [done|].
  rewrite !rd32_app_r by zlia. autorewrite with zlen.
  replace (zlen pre + 2 + zlen k - zlen pre - 2 - zlen k) with 0 by lia. rewrite rd32_app_l by zlia.
  split; [done|]. rewrite !slice_app_r by zlia. autorewrite with zlen.
  replace (zlen pre + 2 + zlen k + 4 - zlen pre - 2 - zlen k - 4) with 0 by lia. by apply slice_app_l.
Qed.

Section Records.
Context {W : Type} `{Transport W}.
Implicit Types w : W.

(** One turn of the loop over the records, over any connections. *)
Lemma transfer_step fuel w dst (pre rest : bytes) k v count i transferred :
  wire_entry (k, v) → i < count →
  transfer_loop (S fuel) w dst (pre ++ scan_record (k, v) ++ rest) count i (zlen pre) transferred =
    let next w tr := transfer_loop fuel w dst ((pre ++ scan_record (k, v)) ++ rest) count (i + 1)
                       (zlen (pre ++ scan_record (k, v))) tr in
    let '(w, sent) := t_send w dst (frame (u32 (1 + i + 1)) (kv_payload OP_PUT k v)) in
    if negb sent then next w transferred else
    let '(w, r) := t_recv w dst 5000 in
    match r with None => next w transferred | Some _ => next w (transferred + 1) end.
Proof.
  intros Hkv Hi. destruct (record_reads pre rest k v Hkv) as (E1 & E2 & E3 & E4).
  destruct Hkv as [Hk Hv]. cbn [fst snd] in Hk, Hv. cbn [transfer_loop].
  rewrite <- (app_assoc pre). set (p := pre ++ scan_record (k, v) ++ rest) in *.
  assert (Hlen : zlen p = zlen pre + (6 + zlen k + zlen v) + zlen rest).
  { unfold p. rewrite !zlen_app, zlen_scan_record. cbn [fst snd]. lia. }
  zlen_nonneg_all. destruct (Z.ltb_spec i count); [|lia].
  destruct (Z.ltb_spec (zlen p) (zlen pre + 2)); [lia|]. rewrite E1. cbn [mbind outcome_bind].
  destruct (Z.ltb_spec (zlen p) (zlen pre + 2 + zlen k)); [lia|]. rewrite E2. cbn [mbind outcome_bind].
  destruct (Z.ltb_spec (zlen p) (zlen pre + 2 + zlen k + 4)); [lia|]. rewrite E3. cbn [mbind outcome_bind].
  destruct (Z.ltb_spec (zlen p) (zlen pre + 2 + zlen k + 4 + zlen v)); [lia|].
  rewrite E4. cbn [mbind outcome_bind]. rewrite EncodeRequest_frame by done.
  replace (zlen pre + 2 + zlen k + 4 + zlen v) with (zlen (pre ++ scan_record (k, v)))
    by (rewrite zlen_app, zlen_scan_record; cbn [fst snd]; lia). done.
Qed.

Lemma scan_records_size (l : list entry) : 6 * zlen l ≤ zlen (scan_records l).
Proof.
  induction l as [|p l IH]; [done|]. rewrite scan_records_cons, zlen_app, zlen_scan_record, zlen_cons.
  zlen_nonneg_all. lia.
Qed.

(** The payload of an answer to SCAN_RANGE, up to the first record. *)
Definition scan_header (l : list entry) : bytes :=
  [byte_of_Z ST_OK] ++ be32 (4 + zlen (scan_records l)) ++ be32 (zlen l).

Lemma scan_answer w w' src dst lo hi (l : list entry) :
  t_connected w src = true → t_connected w dst = true →
  call w src (range_request OP_SCAN_RANGE lo hi) 30000 =
    Ret (w', Some (resp_payload ST_OK (be32 (zlen l) ++ scan_records l))) →
  zlen (scan_records l) + 24 < 2 ^ 32 →
  ScanAndTransferData w src dst lo hi =
    ('(w, transferred) ← transfer_loop (S (length (scan_header l ++ scan_records l))) w' dst
        (scan_header l ++ scan_records l) (zlen l) 0 (zlen (scan_header l)) 0;
     Ret (w, transferred =? zlen l)).
Proof.
  intros Hsrc Hdst Hcall Hsz. unfold ScanAndTransferData. rewrite Hsrc, Hdst, Hcall. cbn [negb mbind outcome_bind].
  pose proof (scan_records_size l). pose proof (zlen_nonneg l).
  assert (Hp : resp_payload ST_OK (be32 (zlen l) ++ scan_records l) = scan_header l ++ scan_records l).
  { unfold resp_payload, scan_header. rewrite <- !app_assoc. by replace (zlen (be32 (zlen l) ++ scan_records l))
      with (4 + zlen (scan_records l)) by zlia. }
  rewrite Hp. set (p := scan_header l ++ scan_records l) in *.
  assert (Hlen : zlen p = 9 + zlen (scan_records l)) by (unfold p, scan_header; zlia).
  zlen_nonneg_all. rewrite bool_decide_eq_false_2 by (intros E; rewrite E, zlen_nil in Hlen; lia).
  assert (at_ p 0 = Ret ST_OK) as ->.
  { unfold p, scan_header. cbn [app]. by rewrite at_cons_0, Z_of_byte_of_Z. }
  cbn [mbind outcome_bind]. rewrite Z.eqb_refl. cbn [negb].
  destruct (Z.ltb_spec (zlen p) 5); [lia|].
  assert (rd32 p 1 = Ret (4 + zlen (scan_records l))) as ->.
  { unfold p, scan_header. rewrite <- !app_assoc, rd32_app_r by zlia. apply rd32_app_l. zlia. }
  cbn [mbind outcome_bind]. rewrite u32_small by lia.
  destruct (Z.ltb_spec (zlen p) (5 + (4 + zlen (scan_records l)))); [lia|]. destruct (Z.ltb_spec (zlen p) (5 + 4)); [lia|].
  assert (rd32 p 5 = Ret (zlen l)) as ->.
  { unfold p, scan_header. rewrite <- !app_assoc, !rd32_app_r by zlia. autorewrite with zlen. apply rd32_app_l. zlia. }
  done.
Qed.
End Records.

Section Migration.
Context {D : Type} `{LevelDBSpec D}.
Implicit Types (w : Nodes D) (d : D).

(** The storage of a node after a PUT, whatever its state. *)
Definition put_store (st : option D) (p : entry) : option D :=
  match st with Some d => Some (Put d p.1 p.2).1 | None => None end.

Lemma put_answer st rid k v :
  wire_entry (k, v) → ∃ s, s ∈ [ST_OK; ST_TIMEOUT] ∧
    HandleDataNodeRequest st rid (kv_payload OP_PUT k v) = Ret (put_store st (k, v), [byte_of_Z s]).
Proof.
  intros [Hk Hv]. cbn [fst snd] in *. rewrite put_request by done. unfold put_store. cbn [fst snd].
  destruct st as [d|]; [|exists ST_TIMEOUT; split; [set_solver|done]].
  destruct (Put d k v) as [d' []]; [exists ST_OK|exists ST_TIMEOUT]; (split; [set_solver|done]).
Qed.

(** Every record is sent and counted, whatever status the destination answers. *)
Lemma transfer_loop_any fuel w dst st (pre : bytes) (l : list entry) count i transferred :
  stores w !! dst = Some st → inbox w = [] →
  Forall wire_entry l → 0 ≤ i → i + zlen l = count → count < 2 ^ 32 - 1 → (length l < fuel)%nat →
  transfer_loop fuel w dst (pre ++ scan_records l) count i (zlen pre) transferred =
    Ret (set_store w dst (fold_left put_store l st), transferred + zlen l).
Proof.
  intros Hst Hin Hl. revert fuel w st pre i transferred Hst Hin.
  induction Hl as [|[k v] l Hkv Hl IH]; intros fuel w st pre i transferred Hst Hin Hi Hc Hmax Hf.
  { rewrite zlen_nil in *. cbn [fold_left]. destruct fuel; cbn [transfer_loop];
      (destruct (Z.ltb_spec i count); [lia|]); by rewrite set_store_same, Z.add_0_r. }
  destruct fuel as [|fuel]; [simpl in Hf; lia|]. rewrite zlen_cons in *. pose proof (zlen_nonneg l).
  rewrite scan_records_cons, transfer_step by (done || lia).
  destruct (put_answer st (u32 (1 + i + 1)) k v Hkv) as (s & Hs & Hreq). destruct Hkv as [Hk Hv]. cbn [fst snd] in Hk, Hv.
  destruct (roundtrip w dst st (put_store st (k, v)) (u32 (1 + i + 1)) (kv_payload OP_PUT k v) s [] 5000)
    as (w1 & -> & ->); try done.
  { apply u32_range. }
  { unfold fits_frame. rewrite zlen_kv_payload. zlen_nonneg_all. lia. }
  { apply status_small. set_solver. }
  cbn [negb]. cbv zeta. rewrite (IH fuel (set_store w dst (put_store st (k, v))) (put_store st (k, v))); try done; try lia.
  - cbn [fold_left]. unfold set_store. cbn [stores inbox]. rewrite insert_insert_eq. do 2 f_equal. lia.
  - cbn. by rewrite lookup_insert_eq.
  - simpl in Hf. lia.
Qed.

Lemma ScanAndTransferData_any w src dst d st lo hi :
  let l := map_range (ldb_view d) lo hi in
  stores w !! src = Some (Some d) → stores w !! dst = Some st → inbox w = [] →
  ldb_healthy d → zlen lo < 2 ^ 16 → zlen hi < 2 ^ 16 →
  Forall wire_entry l → zlen (scan_records l) + 24 < 2 ^ 32 →
  ScanAndTransferData w src dst lo hi = Ret (set_store w dst (fold_left put_store l st), true).
Proof.
  cbv zeta. set (l := map_range (ldb_view d) lo hi).
  intros Hsrc Hdst Hin Hd Hlo Hhi Hl Hsz.
  destruct (range_request_frame OP_SCAN_RANGE lo hi Hlo Hhi) as [Hframe Hfit].
  pose proof (scan_records_size l). pose proof (zlen_nonneg l). pose proof (scan_request d 1 lo hi Hd Hlo Hhi) as Hreq.
  fold l in Hreq. specialize (Hreq ltac:(lia)).
  rewrite (scan_answer w w src dst lo hi l); [|by eapply connected..| |done].
  2: { rewrite Hframe, (call_roundtrip w src _ _ _ ST_OK _ _ Hsrc Hin Hfit Hreq) by (unfold ST_OK; zlia).
       by rewrite set_store_same. }
  rewrite (transfer_loop_any _ w dst st (scan_header l) l (zlen l) 0 0); try done; try lia;
    [|rewrite length_app; unfold zlen in *; lia].
  cbn [mbind outcome_bind]. by rewrite Z.add_0_l, Z.eqb_refl.
Qed.

(** On a healthy destination the records are written. *)
Lemma fold_put_healthy l d :
  ldb_healthy d → ∃ d', fold_left put_store l (Some d) = Some d' ∧ ldb_healthy d' ∧
                        ldb_view d' = put_all l (ldb_view d).
Proof.
  unfold put_all. revert d. induction l as [|[k v] l IH]; intros d Hh; cbn [fold_left put_store fst snd]; [eauto|].
  unfold Put. pose proof (ldb_put_healthy d k v Hh) as [Hok Hh1].
  destruct (ldb_put d k v) as [d1 b] eqn:E. cbn [fst snd] in *. subst b.
  destruct (IH d1 Hh1) as (d' & ? & ? & Hv). exists d'. by rewrite Hv, (ldb_put_ok _ _ _ _ E).
Qed.

Lemma ScanAndTransferData_ok w src dst d e lo hi :
  let l := map_range (ldb_view d) lo hi in
  stores w !! src = Some (Some d) → stores w !! dst = Some (Some e) → inbox w = [] →
  ldb_healthy d → ldb_healthy e → zlen lo < 2 ^ 16 → zlen hi < 2 ^ 16 →
  Forall wire_entry l → zlen (scan_records l) + 24 < 2 ^ 32 →
  ∃ e', ScanAndTransferData w src dst lo hi = Ret (set_store w dst (Some e'), true) ∧
        ldb_healthy e' ∧ ldb_view e' = put_all l (ldb_view e).
Proof.
  cbv zeta. intros. erewrite ScanAndTransferData_any by done.
  destruct (fold_put_healthy (map_range (ldb_view d) lo hi) e) as (e' & -> & ? & ?); [done|]. by exists e'.
Qed.

Lemma SendDeleteRange_ok w node d lo hi :
  stores w !! node = Some (Some d) → inbox w = [] → ldb_healthy d → zlen lo < 2 ^ 16 → zlen hi < 2 ^ 16 →
  ∃ d', SendDeleteRange w node lo hi = Ret (set_store w node (Some d'), true) ∧ ldb_healthy d' ∧
        ldb_view d' = filter (fun kv => ¬ in_range lo hi kv.1) (ldb_view d).
Proof.
  intros Hst Hin Hd Hlo Hhi. unfold SendDeleteRange. rewrite (connected w node _ Hst). cbn [negb].
  destruct (range_request_frame OP_DELETE_RANGE lo hi Hlo Hhi) as [-> Hfit].
  pose proof (delete_range_request d 1 lo hi Hlo Hhi) as Hreq.
  rewrite (call_roundtrip w node _ _ _ ST_OK [] _ Hst Hin Hfit Hreq) by (unfold ST_OK; zlia).
  cbn [mbind outcome_bind]. rewrite bool_decide_eq_false_2 by done.
  unfold resp_payload. cbn [app]. rewrite at_cons_0, Z_of_byte_of_Z. cbn [mbind outcome_bind].
  destruct (DeleteRange_healthy d lo hi Hd) as (_ & ? & ?). eexists. split; [done|]. done.
Qed.
End Migration.

(** ** The map the cluster stores *)

(** [node] holds the tablet that covers [k]. *)
Definition owner (ts : list Tablet) (node : Z) (k : bytes) : Prop :=
  ∃ t, t ∈ ts ∧ covers t k ∧ node_id t = node.

Definition short (t : Tablet) : Prop := zlen (start_key t) < 2 ^ 16 ∧ zlen (end_key t) < 2 ^ 16.

(** Entries and totals fit the messages of the protocol. *)
Definition wire_map (A : gmap bytes bytes) : Prop :=
  (∀ k v, A !! k = Some v → wire_entry (k, v)) ∧ zlen (scan_records (map_to_list A)) + 24 < 2 ^ 32.

Record represents {D} `{LevelDB D} (n : RaftNode) (w : Nodes D) (A : gmap bytes bytes) : Prop := {
  rep_partition : partition (tablets_ n);
  rep_short : Forall short (tablets_ n);
  rep_store : ∀ t, t ∈ tablets_ n → ∃ d, stores w !! node_id t = Some (Some d);
  rep_healthy : ∀ node d, stores w !! node = Some (Some d) → ldb_healthy d;
  rep_view : ∀ node d k v, stores w !! node = Some (Some d) →
    ldb_view d !! k = Some v ↔ A !! k = Some v ∧ owner (tablets_ n) node k;
  rep_inbox : inbox w = [];
  rep_wire : wire_map A;
}.

Lemma scan_records_submseteq l1 l2 : l1 ⊆+ l2 → zlen (scan_records l1) ≤ zlen (scan_records l2).
Proof.
  induction 1 as [|p l1 l2 _ IH|p q l|p l1 l2 _ IH|l1 l2 l3 _ IH1 _ IH2];
    rewrite ?scan_records_cons, ?zlen_app, ?zlen_scan_record; zlen_nonneg_all; lia.
Qed.

Lemma map_range_filter m lo hi :
  map_range m lo hi ≡ₚ map_to_list (filter (fun kv => in_range lo hi kv.1) m).
Proof. apply merge_sort_Permutation. Qed.

Lemma wire_range A m lo hi :
  wire_map A → m ⊆ A → Forall wire_entry (map_range m lo hi) ∧
    zlen (scan_records (map_range m lo hi)) + 24 < 2 ^ 32 ∧ zlen (map_range m lo hi) < 2 ^ 32 - 1.
Proof.
  intros [Hw Ht] Hm. assert (Hs : zlen (scan_records (map_range m lo hi)) ≤ zlen (scan_records (map_to_list A))).
  { apply scan_records_submseteq. rewrite map_range_filter. apply map_to_list_submseteq.
    etransitivity; [apply map_filter_subseteq|done]. }
  split; [|split; [lia|]].
  - apply Forall_forall. intros [k v] Hkv. apply elem_of_map_range in Hkv as [Hkv _].
    apply Hw. by eapply lookup_weaken.
  - set (l := map_range m lo hi) in *. clearbody l.
    pose proof (scan_records_size l). zlen_nonneg_all. lia.
Qed.

(** What [put_all] does to one key. *)
Lemma put_all_cases l m k :
  (k ∉ l.*1 ∧ put_all l m !! k = m !! k) ∨ ∃ v, (k, v) ∈ l ∧ put_all l m !! k = Some v.
Proof.
  unfold put_all. revert m. induction l as [|[k1 v1] l IH]; intros m; cbn [fold_left fst snd].
  { left. split; [apply not_elem_of_nil|done]. }
  rewrite fmap_cons, not_elem_of_cons. cbn [fst].
  destruct (IH (<[k1 := v1]> m)) as [[Hn ->]|(v & Hv & ->)].
  - destruct (decide (k1 = k)) as [->|Hne].
    + right. exists v1. rewrite lookup_insert_eq. split; [by left|done].
    + left. rewrite lookup_insert_ne by done. split; [split; congruence|done].
  - right. exists v. split; [by right|done].
Qed.

Lemma put_all_range m lo hi m' k v :
  put_all (map_range m lo hi) m' !! k = Some v ↔
    (in_range lo hi k ∧ m !! k = Some v) ∨ ((¬ in_range lo hi k ∨ m !! k = None) ∧ m' !! k = Some v).
Proof.
  destruct (put_all_cases (map_range m lo hi) m' k) as [[Hn ->]|(v' & Hv' & ->)].
  - assert (Hout : ∀ v, ¬ (m !! k = Some v ∧ in_range lo hi k)).
    { intros v' Hv'. apply Hn, list_elem_of_fmap. exists (k, v'). by rewrite elem_of_map_range. }
    split; [|intros [[? ?]|[_ ?]]; [exfalso; by eapply Hout|done]].
    intros Hv. right. split; [|done]. destruct (decide (in_range lo hi k)); [right|by left].
    destruct (m !! k) eqn:E; [exfalso; by eapply Hout|done].
  - apply elem_of_map_range in Hv' as [Hm Hr]. split.
    + intros [= ->]. by left.
    + intros [[_ Hv]|[[?|Hv] _]]; congruence.
Qed.

(** ** Owners *)
Lemma owner_of ts t node k :
  partition ts → t ∈ ts → covers t k → owner ts node k ↔ node = node_id t.
Proof.
  intros Hp (i & Hi)%list_elem_of_lookup_1 Hc. split.
  - intros (u & (j & Hj)%list_elem_of_lookup_1 & Hu & <-).
    assert (i = j) as <- by (by eapply chain_disjoint). congruence.
  - intros ->. exists t. split; [by eapply list_elem_of_lookup_2|done].
Qed.

(** Handing a tablet to another node. *)
Lemma owner_set_node ts i t dst node k :
  partition ts → ts !! i = Some t →
  owner (<[i := set_node t dst]> ts) node k ↔
    (covers t k ∧ node = dst) ∨ (¬ covers t k ∧ owner ts node k).
Proof.
  intros Hp Hi. assert (Hp' : partition (<[i := set_node t dst]> ts)) by (by eapply partition_insert).
  assert (Ht' : set_node t dst ∈ <[i := set_node t dst]> ts).
  { eapply list_elem_of_lookup_2, list_lookup_insert_eq. by eapply lookup_lt_Some. }
  destruct (decide (covers t k)) as [Hc|Hc].
  - rewrite (owner_of _ _ node k Hp' Ht') by done. cbn [set_node node_id]. tauto.
  - split.
    + intros (u & [->|Hu]%elem_of_insert_inv & Hcu & <-); [done|].
      right. split; [done|]. by exists u.
    + intros [[? _]|[_ (u & (j & Hj)%list_elem_of_lookup_1 & Hcu & <-)]]; [done|].
      exists u. split; [|done]. apply (list_elem_of_lookup_2 _ j).
      rewrite list_lookup_insert_ne; [done|]. intros ->. congruence.
Qed.

Lemma owner_same_route ts ts' node k :
  Forall2 same_route ts ts' → owner ts node k ↔ owner ts' node k.
Proof.
  intros Hf. unfold owner, covers. split.
  - intros (t & Ht & Hc & <-). destruct (proj1 (Forall2_same_length_lookup _ _ _) Hf) as [Hlen Hl].
    apply list_elem_of_lookup_1 in Ht as [i Hi].
    destruct (lookup_lt_is_Some_2 ts' i) as [u Hu]; [rewrite <- Hlen; by eapply lookup_lt_Some|].
    destruct (Hl i t u Hi Hu) as (Hs & He & Hn & _). exists u.
    split; [by eapply list_elem_of_lookup_2|]. by rewrite <- Hs, <- He.
  - intros (t & Ht & Hc & <-). destruct (proj1 (Forall2_same_length_lookup _ _ _) Hf) as [Hlen Hl].
    apply list_elem_of_lookup_1 in Ht as [i Hi].
    destruct (lookup_lt_is_Some_2 ts i) as [u Hu]; [rewrite Hlen; by eapply lookup_lt_Some|].
    destruct (Hl i u t Hu Hi) as (Hs & He & Hn & _). exists u.
    split; [by eapply list_elem_of_lookup_2|]. by rewrite Hs, He.
Qed.

(** Another table with the same owners. *)
Record same_owners (ts ts' : list Tablet) : Prop := {
  so_partition : partition ts';
  so_short : Forall short ts';
  so_nodes : ∀ node, node ∈ node_id <$> ts' → node ∈ node_id <$> ts;
  so_owner : ∀ node k, owner ts' node k ↔ owner ts node k;
}.

Lemma same_route_owners ts ts' :
  partition ts → Forall short ts → Forall2 same_route ts ts' → same_owners ts ts'.
Proof.
  intros Hp Hs Hf. split.
  - eapply (partition_proper ts); [|exact Hp]. eapply Forall2_impl; [exact Hf|].
    intros t u (? & ? & _). split; done.
  - clear Hp. induction Hf as [|t u ts us (E1 & E2 & _) Hf IH]; [done|].
    apply Forall_cons in Hs as [[? ?] Hs]. constructor; [|auto]. unfold short. by rewrite <- E1, <- E2.
  - intros node. assert (node_id <$> ts = node_id <$> ts') as ->; [|done].
    clear -Hf. induction Hf as [|t u ts us (_ & _ & E & _) Hf IH]; [done|]. by rewrite !fmap_cons, E, IH.
  - intros node k. symmetry. by apply owner_same_route.
Qed.

(** Cutting tablet [i] at [m]. *)
Lemma split_owners ts i t id1 id2 m c :
  partition ts → Forall short ts → ts !! i = Some t →
  slt (start_key t) m → (end_key t = [] ∨ slt m (end_key t)) → zlen m < 2 ^ 16 →
  same_owners ts (take i ts ++ left_half t id1 m c :: right_half t id2 m c :: drop (S i) ts).
Proof.
  intros Hp Hs Hi Hlt He Hm. pose proof (take_drop_middle _ _ _ Hi) as Hmid. split.
  - eapply chain_split; [|exact Hlt|exact He|done..]. by rewrite Hmid.
  - rewrite <- Hmid in Hs. apply Forall_app in Hs as [? Hs]. apply Forall_cons in Hs as [[? ?] ?].
    apply Forall_app. split; [done|]. repeat (constructor; [by split|]). done.
  - intros node. rewrite <- Hmid at 3. rewrite !fmap_app, !fmap_cons. cbn [left_half right_half node_id]. set_solver.
  - intros node k. rewrite <- Hmid at 3. unfold owner.
    setoid_rewrite elem_of_app. setoid_rewrite elem_of_cons. setoid_rewrite elem_of_cons.
    pose proof (covers_halves t id1 id2 m c k Hlt He) as Hc.
    split.
    + intros (u & [?|[->|[->|?]]] & Hu & <-); [by exists u; auto|exists t|exists t|by exists u; auto];
        (split; [auto|]; split; [apply Hc; auto|done]).
    + intros (u & [?|[->|?]] & Hu & <-); [by exists u; auto| |by exists u; auto 6].
      apply Hc in Hu as [Hu|Hu]; eexists; (split; [|split; [exact Hu|done]]); auto.
Qed.

(** Maps that agree on a range. *)
Lemma map_range_eq m1 m2 lo hi :
  (∀ k, in_range lo hi k → m1 !! k = m2 !! k) → map_range m1 lo hi = map_range m2 lo hi.
Proof.
  intros He. unfold map_range. do 2 f_equal. apply map_eq. intros k. apply option_eq. intros v.
  rewrite !map_lookup_filter_Some. cbn [fst]. split; intros [Hv Hr]; (split; [|done]);
    [rewrite <- He|rewrite He]; done.
Qed.

Lemma wire_within A m lo hi :
  wire_map A → (∀ k v, in_range lo hi k → m !! k = Some v → A !! k = Some v) →
  Forall wire_entry (map_range m lo hi) ∧
    zlen (scan_records (map_range m lo hi)) + 24 < 2 ^ 32 ∧ zlen (map_range m lo hi) < 2 ^ 32 - 1.
Proof.
  intros HA Hm. rewrite (map_range_eq m (filter (fun kv => in_range lo hi kv.1) m)).
  - apply (wire_range A); [done|]. apply map_subseteq_spec. intros k v [Hv Hr]%map_lookup_filter_Some. by apply Hm.
  - intros k Hk. apply option_eq. intros v. rewrite map_lookup_filter_Some. cbn [fst]. tauto.
Qed.

Section Refinement.
Context {D : Type} `{LevelDBSpec D}.
Implicit Types (w : Nodes D) (d : D) (n : RaftNode) (A : gmap bytes bytes).

(** Another table with the same owners represents the same map. *)
Lemma rep_retable n n' w A :
  represents n w A → same_owners (tablets_ n) (tablets_ n') → represents n' w A.
Proof.
  intros [Hp Hs Hst Hh Hv Hi Hw] [Hp' Hs' Hn Ho]. split; try done.
  - intros t Ht. destruct (proj1 (list_elem_of_fmap _ _ _) (Hn (node_id t)
      (proj2 (list_elem_of_fmap _ _ _) (ex_intro _ t (conj eq_refl Ht))))) as (u & -> & Hu). by apply Hst.
  - intros node d k v Hd. rewrite Ho. by apply Hv.
Qed.

Lemma rep_view_eq n n' w A : tablets_ n' = tablets_ n → represents n w A → represents n' w A.
Proof. intros E [? ? ? ? ? ? ?]. split; rewrite ?E; done. Qed.

Lemma rep_same_route n n' w A :
  represents n w A → Forall2 same_route (tablets_ n) (tablets_ n') → represents n' w A.
Proof. intros Hr Hf. apply (rep_retable n); [done|]. apply same_route_owners; [apply Hr..|done]. Qed.

(** A tablet's node stores exactly the map's part in the tablet's range. *)
Lemma rep_range n w A t d :
  represents n w A → t ∈ tablets_ n → stores w !! node_id t = Some (Some d) →
  map_range (ldb_view d) (start_key t) (end_key t) = map_range A (start_key t) (end_key t).
Proof.
  intros Hr Ht Hd. apply map_range_eq. intros k Hk. apply option_eq. intros v.
  rewrite (rep_view _ _ _ Hr (node_id t) d k v Hd). split; [by intros [? _]|]. intros Hv. split; [done|]. by exists t.
Qed.

Lemma rep_subset n w A node d :
  represents n w A → stores w !! node = Some (Some d) → ldb_view d ⊆ A.
Proof.
  intros Hr Hd. apply map_subseteq_spec. intros k v Hv.
  by apply (rep_view _ _ _ Hr node d k v Hd) in Hv as [? _].
Qed.

(** The median and the count of a range of the map. *)
Definition count_of A t : Z := zlen (map_range A (start_key t) (end_key t)).
Definition median_of A t : bytes :=
  let keys := (map_range A (start_key t) (end_key t)).*1 in
  if zlen keys =? 0 then [] else nth (Z.to_nat (zlen keys / 2)) keys [].

Lemma zlen_fmap {X Y} (f : X → Y) (l : list X) : zlen (f <$> l) = zlen l.
Proof. unfold zlen. by rewrite length_fmap. Qed.

Lemma median_elem A t :
  median_of A t = [] ∨ ∃ i, (map_range A (start_key t) (end_key t)).*1 !! i = Some (median_of A t) ∧
    Z.of_nat i = count_of A t / 2.
Proof.
  unfold median_of, count_of. set (l := map_range _ _ _). rewrite zlen_fmap.
  destruct (Z.eqb_spec (zlen l) 0) as [|Hne]; [by left|right]. exists (Z.to_nat (zlen l / 2)).
  pose proof (zlen_nonneg l). pose proof (Z.div_pos (zlen l) 2). pose proof (Z.div_lt (zlen l) 2).
  split; [|lia]. destruct (lookup_lt_is_Some_2 l.*1 (Z.to_nat (zlen l / 2))) as [k Hk].
  { rewrite length_fmap. unfold zlen in *. lia. }
  by rewrite nth_lookup, Hk.
Qed.

Lemma median_wire A t : wire_map A → 0 ≤ count_of A t < 2 ^ 32 - 1 ∧ zlen (median_of A t) < 2 ^ 16.
Proof.
  intros HA. destruct (wire_range A A (start_key t) (end_key t) HA ltac:(done)) as (Hw & _ & Hn).
  split; [unfold count_of; zlen_nonneg_all; lia|].
  destruct (median_elem A t) as [->|(i & Hi & _)]; [done|].
  apply list_elem_of_lookup_2, list_elem_of_fmap in Hi as (p & -> & Hp).
  rewrite Forall_forall in Hw. by destruct (Hw p Hp).
Qed.

Lemma QueryTabletStats_rep n w A t kc mk :
  represents n w A → t ∈ tablets_ n →
  QueryTabletStats w (node_id t) (start_key t) (end_key t) kc mk = Ret (w, true, count_of A t, median_of A t)
  ∧ 0 ≤ count_of A t < 2 ^ 32 - 1 ∧ zlen (median_of A t) < 2 ^ 16.
Proof.
  intros Hr Ht. destruct (rep_store _ _ _ Hr t Ht) as [d Hd].
  pose proof (rep_short _ _ _ Hr) as Hs. rewrite Forall_forall in Hs. destruct (Hs t Ht) as [Hlo Hhi].
  destruct (median_wire A t (rep_wire _ _ _ Hr)) as [Hc Hm]. split; [|done].
  pose proof (QueryTabletStats_ok w (node_id t) d (start_key t) (end_key t) kc mk) as Hq.
  cbv zeta in Hq. rewrite (rep_range n w A t d Hr Ht Hd), zlen_fmap in Hq.
  unfold count_of, median_of in *. rewrite zlen_fmap in *.
  apply Hq; try done; [apply Hr|by eapply (rep_healthy _ _ _ Hr)|lia].
Qed.
End Refinement.

(** ** A split, whatever the statistics *)
Lemma TrySplitTablet_stats {W} `{Transport W} `{JsonTextSpec} fs (w w' : W) n i t ok c m :
  tablets_ n !! i = Some t →
  QueryTabletStats w (node_id t) (start_key t) (end_key t) (key_count t) [] = Ret (w', ok, c, m) →
  (ok = true → 0 ≤ c < 2 ^ 32) →
  post (fun r => (r.1.1 = w ∨ ∃ tables, r.1.1 = fold_left t_publish tables w') ∧
          (tablets_ r.1.2 = tablets_ n ∨
           (SPLIT_THRESHOLD ≤ key_count t ∧ ok = true ∧ slt (start_key t) m ∧ (end_key t = [] ∨ slt m (end_key t)) ∧
            tablets_ r.1.2 = take i (tablets_ n) ++ left_half t (next_tablet_id_ n) m c
              :: right_half t (u64 (next_tablet_id_ n + 1)) m c :: drop (S i) (tablets_ n))))
    (TrySplitTablet fs w n i).
Proof.
  intros Hi Hq Hc. unfold TrySplitTablet. rewrite Hi.
  destruct (Z.ltb_spec (key_count t) SPLIT_THRESHOLD); [by split; left|].
  rewrite Hq. cbn [mbind outcome_bind]. cbn [set_count start_key end_key tid node_id key_count].
  destruct (negb ok || bool_decide (m = []) || str_leb m (start_key t) || past_end (end_key t) m) eqn:Hg;
    [by split; [right; exists []|left]|].
  rewrite !orb_false_iff in Hg. destruct Hg as [[[Hok _] Hs] He]. destruct ok; [|done]. specialize (Hc eq_refl).
  destruct (str_leb_spec m (start_key t)) as [|Hlt]; [done|].
  destruct (past_end_spec (end_key t) m) as [|He']; [done|].
  rewrite Z.eqb_refl. cbn [negb].
  eapply post_bind; [apply SaveTablets_view|]. intros n' (Hv & _). cbn [post fst snd].
  unfold view in Hv. injection Hv as Hts _ _. cbn [set_table tablets_] in Hts.
  rewrite (insert_after _ _ t) in Hts by done.
  rewrite (u64_small (c - c / 2)) in Hts
    by (pose proof (Z.div_le_upper_bound c 2 c); pose proof (Z.div_pos c 2); lia).
  split; [right; by eexists [_; _]|]. right. done.
Qed.

(** The nodes do not see the table. *)
Lemma fold_publish {D} `{LevelDB D} tables (w : Nodes D) : fold_left t_publish tables w = w.
Proof. by induction tables. Qed.

(** ** The operations of the balancer preserve the map *)
Section Balanced.
Context {D : Type} `{LevelDBSpec D} `{JsonTextSpec} (fs : nat → fs_answer).
Implicit Types (w : Nodes D) (d : D) (n : RaftNode) (A : gmap bytes bytes).

(** The counts do not matter: a table with other counts routes the same. *)
Lemma set_count_route ts i t c : ts !! i = Some t → Forall2 same_route ts (<[i := set_count t c]> ts).
Proof.
  intros Hi. apply Forall2_same_length_lookup_2; [by rewrite length_insert|]. intros j x y Hx Hy.
  apply list_lookup_insert_Some in Hy as [(<- & <- & _)|[_ Hy]]; [|by simplify_eq].
  simplify_eq. by split_and!.
Qed.

Lemma rep_step_table n w A ts next ep :
  represents n w A → Forall2 same_route (tablets_ n) ts → represents (set_table n ts next ep) w A.
Proof. intros Hr Hf. by apply (rep_same_route n). Qed.

Lemma sync_loop_ok fuel n w A i :
  represents n w A →
  ∃ ts, sync_loop fuel w (tablets_ n) i = Ret (w, ts) ∧ Forall2 same_route (tablets_ n) ts.
Proof.
  revert n i. induction fuel as [|fuel IH]; intros n i Hr; cbn [sync_loop]; [by exists (tablets_ n)|].
  destruct (tablets_ n !! i) as [t|] eqn:Hi; [|by exists (tablets_ n)].
  destruct (QueryTabletStats_rep n w A t 0 [] Hr ltac:(by eapply list_elem_of_lookup_2)) as [-> _].
  cbn [mbind outcome_bind negb]. destruct (negb _); [|by apply IH].
  pose proof (set_count_route _ _ _ (count_of A t) Hi) as Hf.
  destruct (IH (set_table n (<[i := set_count t (count_of A t)]> (tablets_ n)) 0 0) (S i)) as (ts & HR & Hts).
  { by apply rep_step_table. }
  exists ts. split; [exact HR|]. by etransitivity.
Qed.

Lemma SyncAllTabletStats_ok n w A :
  represents n w A →
  ∃ n', SyncAllTabletStats w n = Ret (w, n') ∧ represents n' w A ∧
    Forall2 same_route (tablets_ n) (tablets_ n').
Proof.
  intros Hr. unfold SyncAllTabletStats. case_bool_decide as E; [by exists n|].
  destruct (sync_loop_ok (length (tablets_ n)) n w A 0 Hr) as (ts & -> & Hf). cbn [mbind outcome_bind].
  eexists. split; [done|]. split; [by apply rep_step_table|done].
Qed.

(** The table after a split. *)
Definition split_table (ts : list Tablet) (i : nat) (t : Tablet) (next : Z) A : list Tablet :=
  take i ts ++ left_half t next (median_of A t) (count_of A t)
  :: right_half t (u64 (next + 1)) (median_of A t) (count_of A t) :: drop (S i) ts.

Lemma rep_split n n' w A i t :
  represents n w A → tablets_ n !! i = Some t →
  slt (start_key t) (median_of A t) → (end_key t = [] ∨ slt (median_of A t) (end_key t)) →
  tablets_ n' = split_table (tablets_ n) i t (next_tablet_id_ n) A → represents n' w A.
Proof.
  intros Hr Hi Hlt He Hts. apply (rep_retable n); [done|]. rewrite Hts. unfold split_table.
  apply split_owners; try done; [apply Hr..|]. apply median_wire, Hr.
Qed.

Lemma TrySplitTablet_ok n w A i t :
  represents n w A → tablets_ n !! i = Some t →
  post (fun r => r.1.1 = w ∧ represents r.1.2 w A ∧
          (tablets_ r.1.2 = tablets_ n ∨
           (SPLIT_THRESHOLD ≤ key_count t ∧ slt (start_key t) (median_of A t) ∧
            tablets_ r.1.2 = split_table (tablets_ n) i t (next_tablet_id_ n) A)))
    (TrySplitTablet fs w n i).
Proof.
  intros Hr Hi.
  destruct (QueryTabletStats_rep n w A t (key_count t) [] Hr ltac:(by eapply list_elem_of_lookup_2)) as (Hq & Hc & _).
  eapply post_mono; [eapply (TrySplitTablet_stats fs w w n i t _ _ _ Hi Hq); intros _; lia|].
  intros [[w1 n1] ok] (Hw & Hts); cbn [fst snd] in *.
  assert (w1 = w) as -> by (destruct Hw as [->|[tables ->]]; [done|apply fold_publish]). split; [done|].
  destruct Hts as [Hts|(Hk & _ & Hlt & He & Hts)];
    [split; [by eapply rep_view_eq, Hr|by left]|split; [by eapply rep_split|by right]].
Qed.

(** After a successful migration. *)
Lemma rep_move n n' w A i t dst d e d' e' :
  represents n w A → tablets_ n !! i = Some t → node_id t ≠ dst →
  stores w !! node_id t = Some (Some d) → stores w !! dst = Some (Some e) →
  ldb_healthy d' → ldb_healthy e' →
  ldb_view e' = put_all (map_range (ldb_view d) (start_key t) (end_key t)) (ldb_view e) →
  ldb_view d' = filter (fun kv => ¬ in_range (start_key t) (end_key t) kv.1) (ldb_view d) →
  tablets_ n' = <[i := set_node t dst]> (tablets_ n) → dst ∈ node_id <$> tablets_ n →
  represents n' (set_store (set_store w dst (Some e')) (node_id t) (Some d')) A.
Proof.
  intros Hr Hi Hne Hd He Hhd Hhe Hve Hvd Hts Hdst. pose proof (list_elem_of_lookup_2 _ _ _ Hi) as Ht.
  pose proof (rep_partition _ _ _ Hr) as Hp.
  set (w' := set_store _ _ _).
  assert (Hsrc' : stores w' !! node_id t = Some (Some d')) by (cbn; apply lookup_insert_eq).
  assert (Hdst' : stores w' !! dst = Some (Some e')).
  { cbn. rewrite lookup_insert_ne by done. apply lookup_insert_eq. }
  assert (Hother : ∀ node, node ≠ node_id t → node ≠ dst → stores w' !! node = stores w !! node).
  { intros. cbn. by rewrite !lookup_insert_ne. }
  split; rewrite ?Hts.
  - by eapply partition_insert.
  - apply Forall_insert; [apply Hr|]. pose proof (rep_short _ _ _ Hr) as Hs.
    rewrite Forall_forall in Hs. exact (Hs t Ht).
  - intros u [->|Hu]%elem_of_insert_inv; [cbn [set_node node_id]; eauto|].
    destruct (decide (node_id u = node_id t)) as [->|]; [eauto|].
    destruct (decide (node_id u = dst)) as [->|]; [eauto|]. rewrite Hother by done. by apply Hr.
  - intros node x Hx. destruct (decide (node = node_id t)) as [->|]; [congruence|].
    destruct (decide (node = dst)) as [->|]; [congruence|]. rewrite Hother in Hx by done.
    by eapply (rep_healthy _ _ _ Hr).
  - intros node x k v Hx. rewrite owner_set_node by done.
    pose proof (rep_view _ _ _ Hr (node_id t) d k) as Hvt.
    pose proof (owner_of (tablets_ n) t) as Hown.
    destruct (decide (node = node_id t)) as [->|Hn1]; [|destruct (decide (node = dst)) as [->|Hn2]].
    + rewrite Hsrc' in Hx. injection Hx as <-. rewrite Hvd, map_lookup_filter_Some, Hvt by done.
      cbn [fst]. fold (covers t k). naive_solver.
    + rewrite Hdst' in Hx. injection Hx as <-. rewrite Hve, put_all_range.
      rewrite (rep_view _ _ _ Hr dst e k v He). fold (covers t k).
      destruct (decide (covers t k)) as [Hc|Hc].
      * rewrite Hvt, !(Hown _ _ Hp Ht Hc) by done. naive_solver.
      * naive_solver.
    + rewrite Hother in Hx by done. rewrite (rep_view _ _ _ Hr node x k v Hx).
      destruct (decide (covers t k)) as [Hc|Hc]; [|naive_solver].
      rewrite (Hown _ _ Hp Ht Hc). naive_solver.
  - apply Hr.
  - apply Hr.
Qed.

Lemma MigrateTablet_ok n w A i t dst :
  represents n w A → tablets_ n !! i = Some t → node_id t ≠ dst → dst ∈ node_id <$> tablets_ n →
  post (fun r => represents r.1.2 r.1.1 A ∧ r.2 = true ∧
                 tablets_ r.1.2 = <[i := set_node t dst]> (tablets_ n)) (MigrateTablet fs w n i dst).
Proof.
  intros Hr Hi Hne Hdst. unfold MigrateTablet. rewrite Hi.
  destruct (Z.eqb_spec (node_id t) dst); [done|].
  pose proof (list_elem_of_lookup_2 _ _ _ Hi) as Ht.
  destruct (rep_store _ _ _ Hr t Ht) as [d Hd].
  pose proof Hdst as (u & -> & Hu)%list_elem_of_fmap. destruct (rep_store _ _ _ Hr u Hu) as [e He].
  pose proof (rep_short _ _ _ Hr) as Hs. rewrite Forall_forall in Hs. destruct (Hs t Ht) as [Hlo Hhi].
  pose proof (rep_healthy _ _ _ Hr _ _ Hd) as Hhd. pose proof (rep_healthy _ _ _ Hr _ _ He) as Hhe.
  destruct (wire_range A (ldb_view d) (start_key t) (end_key t) (rep_wire _ _ _ Hr)
    (rep_subset _ _ _ _ _ Hr Hd)) as (Hw1 & Hw2 & _).
  destruct (ScanAndTransferData_ok w (node_id t) (node_id u) d e (start_key t) (end_key t))
    as (e' & -> & Hhe' & Hve); try done; [apply Hr|]. cbn [mbind outcome_bind negb].
  rewrite Z.eqb_refl, bind_assoc. eapply post_bind; [apply SaveTablets_view|]. intros n' (Hv & _).
  cbn [mbind outcome_bind t_publish nodes_transport].
  destruct (SendDeleteRange_ok (set_store w (node_id u) (Some e')) (node_id t) d (start_key t) (end_key t))
    as (d' & -> & Hhd' & Hvd); try done.
  { cbn. by rewrite lookup_insert_ne. }
  { apply Hr. }
  cbn [mbind outcome_bind post fst snd]. unfold view in Hv. injection Hv as Hts _ _. cbn [set_table tablets_] in Hts.
  split; [|done]. by eapply (rep_move n n' w A i t (node_id u) d e d' e').
Qed.

Lemma DoLoadBalance_ok dur n w A :
  represents n w A →
  post (fun r => represents r.1.2 r.1.1 A ∧
          (tablets_ r.1.2 = tablets_ n ∨
           ∃ i t dst, tablets_ n !! i = Some t ∧ tablets_ r.1.2 = <[i := set_node t dst]> (tablets_ n)))
    (DoLoadBalance fs dur w n).
Proof.
  intros Hr. unfold DoLoadBalance. destruct (plan_balance (tablets_ n)) as [[[i src] dst]|] eqn:E; [|by split; [|left]].
  apply plan_balance_owner in E as [Hdst Hi]. destruct (lookup_lt_is_Some_2 _ _ Hi) as [t Ht].
  destruct (decide (node_id t = dst)) as [Heq|Hne].
  - unfold MigrateTablet. rewrite Ht. destruct (Z.eqb_spec (node_id t) dst); [|done].
    cbn [mbind outcome_bind]. rewrite Ht. split; [by eapply rep_view_eq, Hr|by left].
  - eapply post_bind; [by apply (MigrateTablet_ok n w A i t dst)|].
    intros [[w1 n1] ok] (Hr1 & _ & Hts). cbn [fst snd] in *. rewrite Hts.
    rewrite list_lookup_insert_eq by done. split; [by eapply rep_view_eq, Hr1|right].
    by exists i, t, dst.
Qed.
End Balanced.

(** ** Termination of the split loop *)

(** What the loop may still spend on a tablet. *)
Definition weight (A : gmap bytes bytes) (t : Tablet) : nat :=
  (1 + (if (SPLIT_THRESHOLD <=? key_count t)%Z then 1 else 0)
   + length (map_range A (start_key t) (end_key t)))%nat.

(** Fuel for the tablets of a table: two for each tablet and one for each of its keys. *)
Definition split_fuel (A : gmap bytes bytes) (ts : list Tablet) : nat :=
  sum_list_with (fun t => 2 + length (map_range A (start_key t) (end_key t)))%nat ts.

Lemma sum_list_with_le {X} (f g : X → nat) l : (∀ x, (f x ≤ g x)%nat) → (sum_list_with f l ≤ sum_list_with g l)%nat.
Proof. intros Hle. induction l as [|x l IH]; simpl; [lia|]. specialize (Hle x). lia. Qed.

Lemma weight_fuel A ts : (sum_list_with (weight A) ts ≤ split_fuel A ts)%nat.
Proof. apply sum_list_with_le. intros t. unfold weight. destruct (_ <=? _); lia. Qed.

Lemma split_fuel_route A ts ts' : Forall2 same_route ts ts' → split_fuel A ts = split_fuel A ts'.
Proof.
  induction 1 as [|t u ts us (E1 & E2 & _) _ IH]; [done|]. unfold split_fuel in *. cbn [sum_list_with].
  by rewrite IH, E1, E2.
Qed.

Lemma NoDup_map_range A lo hi : NoDup (map_range A lo hi).
Proof.
  unfold map_range. rewrite merge_sort_Permutation. apply NoDup_map_to_list.
Qed.

(** The keys of the right half are fewer, once the left half has one. *)
Lemma right_half_keys A t id c :
  slt (start_key t) (median_of A t) →
  let r := right_half t id (median_of A t) c in
  (length (map_range A (start_key r) (end_key r)) ≤ length (map_range A (start_key t) (end_key t)))%nat ∧
  (2 ≤ count_of A t →
   (length (map_range A (start_key r) (end_key r)) < length (map_range A (start_key t) (end_key t)))%nat).
Proof.
  intros Hlt. cbv zeta. cbn [right_half start_key end_key].
  set (m := median_of A t) in *. set (lt := map_range A (start_key t) (end_key t)).
  set (lr := map_range A m (end_key t)).
  assert (Hsub : ∀ p, p ∈ lr → p ∈ lt).
  { intros [k v]. unfold lr, lt. rewrite !elem_of_map_range. unfold in_range. intros (? & ? & ?).
    split; [done|]. split; [str_order|done]. }
  split.
  - apply submseteq_length, NoDup_submseteq; [apply NoDup_map_range|done].
  - intros Hc. destruct (median_elem A t) as [Em|(i & Hi & Hic)].
    { fold m in Em. rewrite Em in Hlt. by apply slt_nil in Hlt. }
    fold m lt in Hi. assert (1 ≤ count_of A t / 2) by (apply Z.div_le_lower_bound; lia).
    rewrite list_lookup_fmap in Hi. destruct (lt !! i) as [q|] eqn:Hq; [|done]. injection Hi as Hqm.
    pose proof (map_range_sorted A (start_key t) (end_key t)) as Hs. fold lt in Hs.
    destruct i as [|i]; [lia|]. destruct Hs as [|p l Hs Hp]; [done|]. simpl in Hq.
    rewrite Forall_forall in Hp. specialize (Hp q (list_elem_of_lookup_2 _ _ _ Hq)).
    unfold key_lt in Hp. rewrite Hqm in Hp.
    assert (Hpn : p ∉ lr).
    { destruct p as [k v]. unfold lr. rewrite elem_of_map_range. intros (_ & Hge & _). cbn in Hp. str_order. }
    assert (Hlen : (length (p :: lr) ≤ length (p :: l))%nat); [|simpl in *; lia].
    apply submseteq_length, NoDup_submseteq; [apply NoDup_cons; split; [done|apply NoDup_map_range]|].
    intros x [->|Hx]%elem_of_cons; [left|by apply Hsub].
Qed.

Lemma right_half_weight A t id :
  SPLIT_THRESHOLD ≤ key_count t → slt (start_key t) (median_of A t) →
  (weight A (right_half t id (median_of A t) (count_of A t)) < weight A t)%nat.
Proof.
  intros Hk Hlt. destruct (right_half_keys A t id (count_of A t) Hlt) as [H1 H2].
  unfold weight. destruct (Z.leb_spec SPLIT_THRESHOLD (key_count t)); [|lia].
  set (r := right_half _ _ _ _) in *. destruct (Z.leb_spec SPLIT_THRESHOLD (key_count r)) as [Hr|Hr]; [|lia].
  unfold r in Hr. cbn [right_half key_count] in Hr. unfold SPLIT_THRESHOLD in Hr.
  pose proof (Z.div_pos (count_of A t) 2). pose proof (zlen_nonneg (map_range A (start_key t) (end_key t))).
  unfold count_of in *. specialize (H2 ltac:(lia)). lia.
Qed.

(** What is left for the loop after a split. *)
Lemma split_table_weight A ts i t next :
  ts !! i = Some t → SPLIT_THRESHOLD ≤ key_count t → slt (start_key t) (median_of A t) →
  (sum_list_with (weight A) (drop (S i) (split_table ts i t next A)) < sum_list_with (weight A) (drop i ts))%nat.
Proof.
  intros Hi Hk Hlt. pose proof (lookup_lt_Some _ _ _ Hi). erewrite (drop_S ts) by done. unfold split_table.
  rewrite drop_app_ge by (rewrite length_take; lia). rewrite length_take.
  replace (S i - (i `min` length ts))%nat with 1%nat by lia. cbn [drop sum_list_with].
  pose proof (right_half_weight A t (u64 (next + 1)) Hk Hlt). lia.
Qed.

Section Round.
Context {D : Type} `{LevelDBSpec D} `{JsonTextSpec} (fs : nat → fs_answer).
Implicit Types (w : Nodes D) (n : RaftNode) (A : gmap bytes bytes).

Lemma split_loop_ok fuel w n A i :
  represents n w A → (sum_list_with (weight A) (drop i (tablets_ n)) ≤ fuel)%nat →
  post (fun r => ∃ n', r = Some (w, n') ∧ represents n' w A) (split_loop fs fuel w n i).
Proof.
  revert n i. induction fuel as [|fuel IH]; intros n i Hr Hf; cbn [split_loop];
    (destruct (tablets_ n !! i) as [t|] eqn:Hi; [|by exists n]);
    (erewrite drop_S in Hf by done; cbn [sum_list_with] in Hf);
    [unfold weight in Hf; lia|].
  assert (Hw : (1 ≤ weight A t)%nat) by (unfold weight; lia).
  destruct (Z.leb_spec SPLIT_THRESHOLD (key_count t)) as [Hk|Hk]; [|apply IH; [done|lia]].
  eapply post_bind; [by apply (TrySplitTablet_ok fs n w A i t)|].
  intros [[w1 n1] ok] (Hw1 & Hr1 & Hts). cbn [fst snd] in Hw1, Hr1, Hts. subst w1. apply IH; [done|].
  destruct Hts as [->|(_ & Hlt & ->)]; [lia|].
  pose proof (split_table_weight A (tablets_ n) i t (next_tablet_id_ n) Hi Hk Hlt) as Hw1.
  erewrite (drop_S (tablets_ n)) in Hw1 by done. cbn [sum_list_with] in Hw1. lia.
Qed.

(** A whole turn, with enough fuel. *)
Lemma round_ok fuel dur w n A :
  represents n w A → (split_fuel A (tablets_ n) ≤ fuel)%nat →
  post (fun r => ∃ w' n', r = Some (w', n') ∧ represents n' w' A) (BalancerRound fs fuel dur w n).
Proof.
  intros Hr Hfuel. unfold BalancerRound. destruct (SyncAllTabletStats_ok n w A Hr) as (n1 & -> & Hr1 & Hf).
  cbn [mbind outcome_bind]. eapply post_bind.
  { apply (split_loop_ok fuel w n1 A 0); [done|]. rewrite drop_0.
    rewrite (split_fuel_route A _ _ Hf) in Hfuel. pose proof (weight_fuel A (tablets_ n1)). lia. }
  intros r (n2 & -> & Hr2). eapply post_bind; [by apply DoLoadBalance_ok|].
  intros [[w3 n3] ok] [Hr3 _]. exists w3, n3. done.
Qed.

(** ** A turn throws nothing when the library can print the keys

    [good]: the strings that it can. *)
Context (good : bytes → Prop).

Definition good_bounds (t : Tablet) : Prop := good (start_key t) ∧ good (end_key t).
Definition prints : Prop := ∀ n, Forall good_bounds (tablets_ n) → json_dump (table_json n) ≠ Throw.

Context (Hprints : prints).

Lemma SaveTablets_prints n :
  Forall good_bounds (tablets_ n) → nothrow (fun n' => Forall good_bounds (tablets_ n')) (SaveTablets fs n).
Proof.
  intros Hg. unfold SaveTablets. destruct (negb _); [done|]. apply (nothrow_bind _ (fun _ => True)); [|done].
  destruct (fs_open _); [|done]. specialize (Hprints n Hg). by destruct (json_dump (table_json n)).
Qed.

Lemma split_prints {W} `{TransportSpec W} (v : W) n i :
  Forall good_bounds (tablets_ n) →
  (∀ t v' c m, tablets_ n !! i = Some t →
     QueryTabletStats v (node_id t) (start_key t) (end_key t) (key_count t) [] = Ret (v', true, c, m) → good m) →
  nothrow (fun r : W * RaftNode * bool => Forall good_bounds (tablets_ r.1.2)) (TrySplitTablet fs v n i).
Proof.
  intros Hg Hm. unfold TrySplitTablet. destruct (tablets_ n !! i) as [t|] eqn:Hi; [|done].
  destruct (_ <? _); [done|].
  destruct (QueryTabletStats_total v (node_id t) (start_key t) (end_key t) (key_count t) []) as (v1 & ok & c & m & Hq & _).
  rewrite Hq. cbn [mbind outcome_bind]. destruct (_ || _ || _ || _) eqn:E; [done|].
  rewrite !orb_false_iff in E. destruct E as [[[Hok _] _] _]. destruct ok; [|done]. specialize (Hm t v1 c m eq_refl Hq).
  cbn [set_count tid start_key end_key node_id key_count]. rewrite Z.eqb_refl. cbn [negb].
  apply (nothrow_bind _ (fun n' => Forall good_bounds (tablets_ n'))); [|done]. apply SaveTablets_prints. cbn [set_table tablets_].
  erewrite (insert_after _ _ t) by done. rewrite <- (take_drop_middle _ _ _ Hi), Forall_app, Forall_cons in Hg.
  destruct Hg as (? & [? ?] & ?). apply Forall_app. split; [done|]. by repeat (constructor; [by split|]).
Qed.

Lemma migrate_prints {W} `{TransportSpec W} (v : W) n i dst :
  Forall good_bounds (tablets_ n) → nothrow (fun _ => True) (MigrateTablet fs v n i dst).
Proof.
  intros Hg. unfold MigrateTablet. destruct (tablets_ n !! i) as [t|] eqn:Hi; [|done].
  destruct (_ =? _); [done|].
  destruct (ScanAndTransferData_total v (node_id t) dst (start_key t) (end_key t)) as (v1 & [] & ->); [|done].
  cbn [mbind outcome_bind negb]. rewrite Z.eqb_refl, bind_assoc.
  eapply nothrow_bind; [apply SaveTablets_prints; cbn [set_table tablets_]; apply Forall_insert; [done|]|].
  { rewrite Forall_forall in Hg. exact (Hg t (list_elem_of_lookup_2 _ _ _ Hi)). }
  intros n' _. cbn [mbind outcome_bind]. match goal with |- context [SendDeleteRange ?x] =>
    by destruct (SendDeleteRange_total x (node_id t) (start_key t) (end_key t)) as (v2 & ok & ->) end.
Qed.

Lemma balance_prints {W} `{TransportSpec W} dur (v : W) n :
  Forall good_bounds (tablets_ n) → nothrow (fun _ => True) (DoLoadBalance fs dur v n).
Proof.
  intros Hg. unfold DoLoadBalance. destruct (plan_balance _) as [[[i src] dst]|]; [|done].
  eapply nothrow_bind; [by apply migrate_prints|]. intros [[v' n'] ok] _. by destruct (tablets_ n' !! i).
Qed.

Lemma good_route ts ts' : Forall2 same_route ts ts' → Forall good_bounds ts → Forall good_bounds ts'.
Proof.
  induction 1 as [|t u ts us (E1 & E2 & _) _ IH]; [done|]. rewrite !Forall_cons. unfold good_bounds at 1 3.
  rewrite E1, E2. naive_solver.
Qed.

Lemma split_loop_prints fuel w n A i :
  represents n w A → map_Forall (fun k _ => good k) A → Forall good_bounds (tablets_ n) → good [] →
  nothrow (fun r => match r with Some (_, n') => Forall good_bounds (tablets_ n') | None => True end)
    (split_loop fs fuel w n i).
Proof.
  intros Hr HA Hg Hnil. revert n i Hr Hg. induction fuel as [|fuel IH]; intros n i Hr Hg; cbn [split_loop];
    (destruct (tablets_ n !! i) as [t|] eqn:Hi; [|done]); [done|].
  destruct (SPLIT_THRESHOLD <=? key_count t); [|by apply IH].
  eapply nothrow_bind; [apply nothrow_post; [by apply (TrySplitTablet_ok fs n w A i t)|apply split_prints; [done|]]|].
  - intros u w' c m Hu Hq. rewrite Hi in Hu. injection Hu as <-.
    destruct (QueryTabletStats_rep n w A t (key_count t) [] Hr) as (Hq' & _); [by eapply list_elem_of_lookup_2|].
    rewrite Hq' in Hq. injection Hq as _ _ <-. destruct (median_elem A t) as [->|(j & Hj & _)]; [done|].
    apply list_elem_of_lookup_2, list_elem_of_fmap in Hj as ([k v] & -> & [Hk _]%elem_of_map_range). by eapply HA.
  - intros [[w1 n1] ok] [(Hw & Hr1 & _) Hg1]. cbn [fst snd] in *. subst w1. by apply IH.
Qed.

Lemma round_prints fuel dur w n A :
  represents n w A → map_Forall (fun k _ => good k) A → Forall good_bounds (tablets_ n) → good [] →
  nothrow (fun _ => True) (BalancerRound fs fuel dur w n).
Proof.
  intros Hr HA Hg Hnil. unfold BalancerRound. destruct (SyncAllTabletStats_ok n w A Hr) as (n1 & -> & Hr1 & Hf).
  cbn [mbind outcome_bind]. eapply nothrow_bind; [eapply split_loop_prints; try done; by eapply good_route|].
  intros [[w2 n2]|] Hg2; [|done]. eapply nothrow_bind; [by apply balance_prints|]. by intros [[w3 n3] ok] _.
Qed.
End Round.

(** ** A concrete cluster *)

#[export] Instance owner_dec ts node k : Decision (owner ts node k).
Proof.
  destruct (decide (Exists (fun t => covers t k ∧ node_id t = node) ts)) as [He|He]; [left|right].
  - apply Exists_exists in He as (t & ? & ? & ?). by exists t.
  - intros (t & ? & ? & ?). apply He, Exists_exists. by exists t.
Defined.

(** In-memory nodes, each holding its tablets' part of the map. *)
Definition spread_nodes (ts : list Tablet) (A : gmap bytes bytes) : Nodes MemDB :=
  {| stores := list_to_map ((fun node => (node,
       Some {| mem_map := filter (fun kv => owner ts node kv.1) A; mem_up := true |})) <$> (node_id <$> ts));
     inbox := [] |}.

Lemma spread_represents n A :
  partition (tablets_ n) → Forall short (tablets_ n) → wire_map A →
  represents n (spread_nodes (tablets_ n) A) A.
Proof.
  intros Hp Hs Hw.
  assert (Hst : ∀ node d, stores (spread_nodes (tablets_ n) A) !! node = Some (Some d) →
    d = {| mem_map := filter (fun kv => owner (tablets_ n) node kv.1) A; mem_up := true |}).
  { intros node d Hd. apply elem_of_list_to_map_2, list_elem_of_fmap in Hd as (x & [= <- ->] & _). done. }
  split; try done.
  - intros t Ht. destruct (stores (spread_nodes (tablets_ n) A) !! node_id t) as [x|] eqn:E.
    + pose proof E as E'. apply elem_of_list_to_map_2, list_elem_of_fmap in E' as (y & [= <- ->] & _). eauto.
    + exfalso. apply not_elem_of_list_to_map_2 in E. apply E. rewrite <- list_fmap_compose.
      apply list_elem_of_fmap. exists (node_id t). split; [done|]. apply list_elem_of_fmap. eauto.
  - intros node d ->%Hst. reflexivity.
  - intros node d k v ->%Hst. cbn. apply map_lookup_filter_Some.
Qed.

Definition demo_map : gmap bytes bytes :=
  list_to_map [(str "a", str "1"); (str "b", str "2"); (str "c", str "3"); (str "d", str "4"); (str "e", str "5");
    (str "f", str "6"); (str "g", str "7"); (str "h", str "8"); (str "x", str "9")].

Lemma demo_represents : represents demo_fresh (spread_nodes (tablets_ demo_fresh) demo_map) demo_map.
Proof.
  apply spread_represents.
  - apply (bool_decide_unpack _). vm_compute. exact I.
  - repeat (apply List.Forall_cons; [split; reflexivity|]). apply List.Forall_nil.
  - split; [|reflexivity].
    assert (Hall : map_Forall (fun k v => wire_entry (k, v)) demo_map); [|exact Hall].
    apply (bool_decide_unpack _). vm_compute. exact I.
Qed.

(** The reference printer prints what is ASCII. *)
Definition ascii (s : bytes) : Prop := forallb (fun b => Z_of_byte b <? 128) s = true.
#[export] Instance ascii_dec s : Decision (ascii s).
Proof. unfold ascii. apply _. Defined.

Lemma ref_prints : @prints ref_json_text ascii.
Proof.
  intros n Hg. cbn [json_dump ref_json_text].
  assert (json_ascii (table_json n) = true) as ->; [|done].
  cbn. rewrite andb_true_r. induction Hg as [|t ts [Hs He] _ IH]; [done|]. unfold ascii in Hs, He.
  cbn. by rewrite Hs, He, IH.
Qed.

(** When the median is not text the turn throws, whatever the map. *)
Definition demo_latin : gmap bytes bytes :=
  list_to_map ((fun b => ([b], str "v")) <$> (byte_of_Z <$> [97; 98; 99; 100; 228; 246; 252; 253])).

Definition demo_latin_master : RaftNode :=
  demo_master [ {| tid := 1; start_key := []; end_key := []; node_id := 2; key_count := 0 |} ].

Example turn_throws :
  @BalancerRound _ _ ref_json_text good_fs 30 7 (spread_nodes (tablets_ demo_latin_master) demo_latin) demo_latin_master = Throw.
Proof. vm_compute. reflexivity. Qed.

(** ** Properties *)

(** C2: a turn of the balancer loses and invents nothing: in a cluster whose data
    nodes are healthy and reachable and hold exactly the tablets' parts of a map
    from keys to values (whose entries fit the messages), refreshing the
    counts, splitting and migrating end within the fuel (two for each tablet
    and one for each key) without undefined behaviour, and leave the cluster
    holding exactly the same map, spread by the new routing table; unless printing a table for the disk throws,
    which the JSON library does for a boundary key that is not text.  When the library prints every table with
    [good] boundaries, and the boundaries of the table and the keys of the map are [good], nothing is thrown: the turn
    does end in this way. *)
Theorem BalancerRound_preserves {D} `{LevelDBSpec D} `{JsonTextSpec} (fs : nat → fs_answer) (fuel : nat) (dur : Z) (w : Nodes D)
    (n : RaftNode) (A : gmap bytes bytes) (Hr : represents n w A)
    (Hfuel : (split_fuel A (tablets_ n) ≤ fuel)%nat) :
  post (fun r => ∃ w' n', r = Some (w', n') ∧ represents n' w' A) (BalancerRound fs fuel dur w n) ∧
  ∀ good, prints good → good [] → Forall (good_bounds good) (tablets_ n) → map_Forall (fun k _ => good k) A →
    ∃ w' n', BalancerRound fs fuel dur w n = Ret (Some (w', n')) ∧ represents n' w' A.
Proof.
  pose proof (round_ok fs fuel dur w n A Hr Hfuel) as Hpost. split; [done|]. intros good Hp Hnil Hb HA.
  destruct (post_nothrow _ _ _ Hpost (round_prints fs good Hp fuel dur w n A Hr HA Hb Hnil)) as (r & -> & (w' & n' & -> & Hr') & _).
  by exists w', n'.
Qed.

(** C7: a migration moves the data: on such a cluster, moving a tablet to another node
    that owns a tablet runs into nothing undefined and, if it is not cut short by an exception of printing the table
    (there is none when the boundaries are [good] and the library prints every table with [good] ones),
    succeeds and changes only the node of this tablet; afterwards the node that now owns a key has its storage and
    stores exactly what the map has for the key (the destination, for the keys of the tablet), and
    no other node stores the key. *)
Theorem MigrateTablet_moves {D} `{LevelDBSpec D} `{JsonTextSpec} (fs : nat → fs_answer) (w : Nodes D) (n : RaftNode)
    (A : gmap bytes bytes) (i : nat) (t : Tablet) (dst : Z) (Hr : represents n w A) (Hi : tablets_ n !! i = Some t)
    (Hne : node_id t ≠ dst) (Hdst : dst ∈ node_id <$> tablets_ n) :
  post (fun '(w', n', ok) => ok = true ∧ tablets_ n' = <[i := set_node t dst]> (tablets_ n) ∧
    ∀ k, ∃ node d, owner (tablets_ n') node k ∧ (covers t k → node = dst) ∧
      stores w' !! node = Some (Some d) ∧ ldb_view d !! k = A !! k ∧
      ∀ node' d', stores w' !! node' = Some (Some d') → node' ≠ node → ldb_view d' !! k = None)
    (MigrateTablet fs w n i dst) ∧
  ∀ good, prints good → Forall (good_bounds good) (tablets_ n) → ∃ w' n', MigrateTablet fs w n i dst = Ret (w', n', true).
Proof.
  pose proof (MigrateTablet_ok fs n w A i t dst Hr Hi Hne Hdst) as Hpost. split.
  2: { intros good Hp Hb. destruct (post_nothrow _ _ _ Hpost (migrate_prints fs good Hp w n i dst Hb))
         as ([[w' n'] ok] & -> & (_ & Hok & _) & _). cbn [snd] in Hok. exists w', n'. by rewrite Hok. }
  eapply post_mono; [exact Hpost|].
  intros [[w' n'] ok] (Hr' & Hok & Hts). cbn [fst snd] in *. split; [done|]. split; [done|]. intros k.
  destruct (route_exact (tablets_ n') k (rep_partition _ _ _ Hr')) as (j & u & _ & Hj & _ & Hc & _).
  pose proof (list_elem_of_lookup_2 _ _ _ Hj) as Hu. destruct (rep_store _ _ _ Hr' u Hu) as [d Hd].
  assert (Hown : ∀ node, owner (tablets_ n') node k ↔ node = node_id u) by (intros; apply owner_of; [apply Hr'|done|done]).
  exists (node_id u), d. split; [by apply Hown|]. split; [|split; [done|split]].
  - intros Hct. symmetry. apply Hown. rewrite Hts. apply owner_set_node; [apply Hr|done|by left].
  - apply option_eq. intros v. rewrite (rep_view _ _ _ Hr' (node_id u) d k v Hd), Hown. naive_solver.
  - intros node' d' Hd' Hnn. destruct (ldb_view d' !! k) as [v|] eqn:E; [|done].
    apply (rep_view _ _ _ Hr' node' d' k v Hd') in E as [_ E%Hown]. done.
Qed.

Lemma MigrateTablet_moves_witness :
  let w := spread_nodes (tablets_ demo_fresh) demo_map in
  ∃ w' n', @MigrateTablet _ _ ref_json_text good_fs w demo_fresh 0 3 = Ret (w', n', true) ∧
    node_id <$> tablets_ n' = [3; 3] ∧
    ∃ d, stores w' !! 3 = Some (Some d) ∧ ldb_view d !! str "c" = Some (str "3").
Proof.
  cbv zeta.
  assert (Hn : match @MigrateTablet _ _ ref_json_text good_fs (spread_nodes (tablets_ demo_fresh) demo_map) demo_fresh 0 3
               with Ret _ => true | _ => false end = true) by (vm_compute; reflexivity).
  assert (Hne : 2 ≠ 3) by discriminate.
  assert (Hdst : 3 ∈ node_id <$> tablets_ demo_fresh) by (apply (bool_decide_unpack _); vm_compute; exact I).
  pose proof (@MigrateTablet_moves MemDB _ _ ref_json_text ref_json_text_spec good_fs
    (spread_nodes (tablets_ demo_fresh) demo_map) demo_fresh demo_map 0
    {| tid := 1; start_key := []; end_key := str "m"; node_id := 2; key_count := 0 |} 3 demo_represents eq_refl Hne Hdst) as H.
  destruct (@MigrateTablet _ _ ref_json_text good_fs (spread_nodes (tablets_ demo_fresh) demo_map) demo_fresh 0 3)
    as [[[w' n'] ok]| |]; [|discriminate Hn|discriminate Hn].
  assert (Hcov : covers {| tid := 1; start_key := []; end_key := str "m"; node_id := 2; key_count := 0 |} (str "c"))
    by (apply (bool_decide_unpack _); vm_compute; exact I).
  destruct H as [(Hok & Hts & Hk) _]. destruct (Hk (str "c")) as (node & d & _ & Hc & Hd & Hv & _).
  exists w', n'. split; [by rewrite Hok|]. split; [by rewrite Hts|]. exists d. rewrite <- (Hc Hcov). split; [exact Hd|].
  rewrite Hv. vm_compute. reflexivity.
Defined.

Lemma BalancerRound_preserves_witness :
  let w := spread_nodes (tablets_ demo_fresh) demo_map in
  ∃ w' n', @BalancerRound _ _ ref_json_text good_fs 30 7 w demo_fresh = Ret (Some (w', n')) ∧
    represents n' w' demo_map ∧ node_id <$> tablets_ n' = [3; 2; 3].
Proof.
  cbv zeta.
  assert (Hf : (split_fuel demo_map (tablets_ demo_fresh) ≤ 30)%nat)
    by (apply (bool_decide_unpack _); vm_compute; exact I).
  pose proof (@BalancerRound_preserves MemDB _ _ ref_json_text ref_json_text_spec good_fs 30 7
    (spread_nodes (tablets_ demo_fresh) demo_map) demo_fresh demo_map demo_represents Hf) as H.
  assert (Hn : match @BalancerRound _ _ ref_json_text good_fs 30 7 (spread_nodes (tablets_ demo_fresh) demo_map) demo_fresh
               with Ret (Some (_, n')) => node_id <$> tablets_ n' | _ => [] end = [3; 2; 3])
    by (vm_compute; reflexivity).
  destruct (@BalancerRound _ _ ref_json_text good_fs 30 7 (spread_nodes (tablets_ demo_fresh) demo_map) demo_fresh)
    as [r| |]; [|discriminate Hn|discriminate Hn].
  destruct H as [_ H]. destruct (H ascii ref_prints eq_refl) as (w' & n' & [= ->] & Hr).
  - repeat (apply List.Forall_cons; [split; reflexivity|]). apply List.Forall_nil.
  - apply (bool_decide_unpack _). vm_compute. exact I.
  - exists w', n'. split; [reflexivity|]. split; [exact Hr|exact Hn].
Defined.

(** C29: refused writes count as migrated: when the storage of the destination is
    not open, the node reports zero keys
    for every range and refuses every PUT with
    [ST_TIMEOUT]; moving a tablet to it nevertheless succeeds, the tablet is
    routed to it, and the records are deleted from the source: no key of the
    range is left on either node. *)
Theorem migration_to_closed_storage {D} `{LevelDBSpec D} `{JsonTextSpec} (fs : nat → fs_answer)
    (w w' : Nodes D) (n n' : RaftNode) (i : nat) (t : Tablet) (dst : Z) (d : D) (ok : bool)
    (Hi : tablets_ n !! i = Some t) (Hne : node_id t ≠ dst) (Hs : short t)
    (Hsrc : stores w !! node_id t = Some (Some d)) (Hh : ldb_healthy d)
    (Hdst : stores w !! dst = Some None) (Hin : inbox w = []) (Hw : wire_map (ldb_view d))
    (Hrun : MigrateTablet fs w n i dst = Ret (w', n', ok)) :
  (∀ lo hi kc mk, zlen lo < 2 ^ 16 → zlen hi < 2 ^ 16 →
     QueryTabletStats w dst lo hi kc mk = Ret (w, true, 0, [])) ∧
  (∀ rid key value, zlen key < 2 ^ 16 → zlen key + zlen value < 2 ^ 32 - 17 →
     HandleDataNodeRequest (D := D) None rid (kv_payload OP_PUT key value) = Ret (None, [byte_of_Z ST_TIMEOUT])) ∧
  ok = true ∧ tablets_ n' = <[i := set_node t dst]> (tablets_ n) ∧
  stores w' !! dst = Some None ∧
  ∃ d', stores w' !! node_id t = Some (Some d') ∧
    ∀ k, ldb_view d' !! k = if decide (covers t k) then None else ldb_view d !! k.
Proof.
  split.
  - intros lo hi kc mk Hlo Hhi. unfold QueryTabletStats. rewrite (connected w dst _ Hdst). cbn [negb].
    destruct (range_request_frame OP_TABLET_STATS lo hi Hlo Hhi) as [-> Hfit].
    assert (Hreq : HandleDataNodeRequest (D := D) None 1 (range_payload OP_TABLET_STATS lo hi) =
      Ret (None, byte_of_Z ST_OK :: be32 0 ++ be16 0)).
    { erewrite dispatch by (apply range_opcode; unfold OP_TABLET_STATS; zlia).
      unfold OP_TABLET_STATS, OP_PUT, OP_GET, OP_DELETE. cbn [Z.eqb Pos.eqb].
      unfold HandleDataNodeTabletStats. by rewrite parse_range_payload. }
    rewrite (call_roundtrip w dst _ _ _ ST_OK _ _ Hdst Hin Hfit Hreq) by (unfold ST_OK; zlia).
    by rewrite set_store_same.
  - split; [intros; by rewrite put_request|].
    destruct Hs as [Hlo Hhi].
    destruct (wire_range (ldb_view d) (ldb_view d) (start_key t) (end_key t) Hw ltac:(done)) as (Hw1 & Hw2 & _).
    assert (Hnone : ∀ l, fold_left put_store l (@None D) = None) by (induction l; done).
    pose proof (ScanAndTransferData_any w (node_id t) dst d None (start_key t) (end_key t) Hsrc Hdst Hin Hh Hlo Hhi Hw1 Hw2) as Hscan.
    cbv zeta in Hscan. rewrite Hnone, set_store_same in Hscan by done.
    destruct (migrate_inv fs _ _ _ _ _ _ _ _ _ Hi Hne Hscan Hrun) as (-> & Hts & c & Hrun2). cbn [t_publish nodes_transport] in Hrun2.
    destruct (SendDeleteRange_ok w (node_id t) d (start_key t) (end_key t)) as (d' & Hdel & Hhd & Hvd); try done.
    rewrite Hdel in Hrun2. injection Hrun2 as <- _.
    split; [done|]. split; [done|]. split; [cbn; by rewrite lookup_insert_ne|].
    exists d'. split; [cbn; apply lookup_insert_eq|]. intros k. rewrite Hvd, map_lookup_filter.
    unfold covers. destruct (ldb_view d !! k); simpl; case_decide; simpl; by try case_guard.
Qed.

(** The cluster of the example, with the storage of node 3 not open. *)
Definition closed_nodes : Nodes MemDB :=
  {| stores := <[3 := None]> (stores (spread_nodes (tablets_ demo_fresh) demo_map)); inbox := [] |}.

Definition node2_db : MemDB :=
  {| mem_map := filter (fun kv => owner (tablets_ demo_fresh) 2 kv.1) demo_map; mem_up := true |}.

Lemma migration_to_closed_storage_witness :
  match @MigrateTablet _ _ ref_json_text good_fs closed_nodes demo_fresh 0 3 with
  | Ret (w', n', ok) => ok = true ∧ node_id <$> tablets_ n' = [3; 3] ∧ stores w' !! 3 = Some None ∧
      HandleDataNodeRequest (D := MemDB) None 2 (kv_payload OP_PUT (str "a") (str "1")) = Ret (None, [byte_of_Z ST_TIMEOUT]) ∧
      ldb_view node2_db !! str "a" = Some (str "1") ∧
      ∃ d', stores w' !! 2 = Some (Some d') ∧ ldb_view d' !! str "a" = None
  | _ => False
  end.
Proof.
  pose proof (fun w' n' ok => @migration_to_closed_storage MemDB _ _ ref_json_text ref_json_text_spec good_fs
    closed_nodes w' demo_fresh n' 0 {| tid := 1; start_key := []; end_key := str "m"; node_id := 2; key_count := 0 |}
    3 node2_db ok eq_refl) as H.
  assert (Hr : match @MigrateTablet _ _ ref_json_text good_fs closed_nodes demo_fresh 0 3
               with Ret _ => true | _ => false end = true) by (vm_compute; reflexivity).
  destruct (@MigrateTablet _ _ ref_json_text good_fs closed_nodes demo_fresh 0 3) as [[[w' n'] ok]| |];
    [|discriminate Hr|discriminate Hr].
  destruct (H w' n' ok) as (_ & Hput & Hok & Hts & H3 & d' & Hd' & Hv); try reflexivity.
  - discriminate.
  - split; reflexivity.
  - split; [|reflexivity].
    assert (Hall : map_Forall (fun k v => wire_entry (k, v)) (ldb_view node2_db)); [|exact Hall].
    apply (bool_decide_unpack _). vm_compute. exact I.
  - split; [exact Hok|]. split; [by rewrite Hts|]. split; [exact H3|].
    split; [apply Hput; vm_compute; [reflexivity|reflexivity]|]. split; [vm_compute; reflexivity|].
    exists d'. split; [exact Hd'|]. rewrite Hv. rewrite decide_True; [reflexivity|].
    apply (bool_decide_unpack _). vm_compute. exact I.
Defined.
