(* ===== verification/Faults.v ===== *)
(** * What the cluster does when an assumption fails

    A data node does not know which tablets it holds: it accepts any key. The
    behaviours here are runs of the same definitions as in Cluster.v and
    EndToEnd.v, from states a client with an old routing table can reach. *)

From S2P Require Import Prelude StringOrder BinaryProtocol Storage RpcClient RpcServer DataNode.
From S2P Require Import Json Config Tablet RaftNode TableSteps BalancePlan Balancer Cluster.

(** The database of [node] is open and holds [value] under [key]. *)
Definition holds {D} `{LevelDB D} `{!LevelDBSpec D} (w : Nodes D) (node : Z) (key value : bytes) : Prop :=
  ∃ d, stores w !! node = Some (Some d) ∧ ldb_view d !! key = Some value.

Section Stale.
Context {D : Type} `{LevelDBSpec D} `{JsonTextSpec} (fs : nat → fs_answer).

(** Any node whose database works takes a PUT of any key. *)
Lemma put_applied (d : D) rid (key value : bytes) :
  ldb_healthy d → zlen key < 2 ^ 16 → zlen key + zlen value < 2 ^ 32 - 17 →
  ∃ d1, HandleDataNodeRequest (Some d) rid (kv_payload OP_PUT key value) = Ret (Some d1, [byte_of_Z ST_OK]) ∧
    ldb_healthy d1 ∧ ldb_view d1 = <[key := value]> (ldb_view d).
Proof.
  intros Hh Hk Hv. destruct (ldb_put_healthy d key value Hh) as [Hok Hh1].
  destruct (ldb_put d key value) as [d1 b] eqn:E. cbn [fst snd] in Hok, Hh1. subst b.
  exists d1. rewrite put_request by done. unfold Put. rewrite E. split; [done|]. split; [done|].
  by apply ldb_put_ok in E.
Qed.

(** Moving tablet [i] to a node whose database works moves the records of its
    owner over what the node already has: what only the node has stays. *)
Lemma migrate_onto (w w2 : Nodes D) (n n2 : RaftNode) (A : gmap bytes bytes) (i : nat) (t : Tablet) (node : Z)
    (e d1 : D) (ok : bool) :
  partition (tablets_ n) → short t → wire_map A → (∀ k v, covers t k → ldb_view e !! k = Some v → A !! k = Some v) →
  inbox w = [] →
  tablets_ n !! i = Some t → node_id t ≠ node →
  stores w !! node_id t = Some (Some e) → ldb_healthy e →
  stores w !! node = Some (Some d1) → ldb_healthy d1 →
  MigrateTablet fs w n i node = Ret (w2, n2, ok) →
  tablets_ n2 = <[i := set_node t node]> (tablets_ n) ∧
  ∀ key v, ldb_view e !! key = None → ldb_view d1 !! key = Some v → holds w2 node key v.
Proof.
  intros Hp [Hlo Hhi] Hw Hsub Hin Hi Hne He Hhe Hd Hh1 Hrun.
  destruct (wire_within A (ldb_view e) (start_key t) (end_key t) Hw Hsub) as (Hw1 & Hw2 & _).
  destruct (ScanAndTransferData_ok w (node_id t) node e d1 (start_key t) (end_key t))
    as (d2 & Hscan & Hh2 & Hv2); try done.
  destruct (migrate_inv fs _ _ _ _ _ _ _ _ _ Hi Hne Hscan Hrun) as (_ & Hts & c & Hrun2). cbn [t_publish nodes_transport] in Hrun2.
  destruct (SendDeleteRange_ok (set_store w node (Some d2)) (node_id t) e
    (start_key t) (end_key t)) as (e' & Hdel & _); try done.
  { cbn. by rewrite lookup_insert_ne. }
  rewrite Hdel in Hrun2. injection Hrun2 as <- _. split; [done|].
  intros key v Hek Hdk. exists d2. split; [cbn; rewrite lookup_insert_ne by done; apply lookup_insert_eq|].
  rewrite Hv2. apply put_all_range. right. split; [right; congruence|done].
Qed.
End Stale.

(** ** Properties *)

(** C34: a write with an outdated route is acknowledged, lost, and can come back:
    a PUT that reaches a node which does not own the key (its tablet has moved
    since the client fetched the table) is answered [ST_OK], never
    [ST_NOT_MY_SHARD]; the owner of the key still has the old contents, so no
    routed GET sees the value; and when the tablet later moves to that node
    while the key is absent, the lost value reappears in the owner's database. *)
Theorem stale_put {D} `{LevelDBSpec D} `{JsonTextSpec} (fs : nat → fs_answer) (w : Nodes D) (n : RaftNode)
    (A : gmap bytes bytes) (i : nat) (t : Tablet) (node rid : Z) (d : D) (key value : bytes)
    (Hr : represents n w A) (Hi : tablets_ n !! i = Some t) (Hc : covers t key)
    (Hne : node_id t ≠ node) (Hd : stores w !! node = Some (Some d))
    (Hk : zlen key < 2 ^ 16) (Hv : zlen key + zlen value < 2 ^ 32 - 17) :
  ∃ d1, HandleDataNodeRequest (Some d) rid (kv_payload OP_PUT key value) = Ret (Some d1, [byte_of_Z ST_OK]) ∧
    let w1 := set_store w node (Some d1) in
    (∀ e, stores w1 !! node_id t = Some (Some e) → ldb_view e !! key = A !! key) ∧
    (A !! key = None → ∀ w2 n2 ok, MigrateTablet fs w1 n i node = Ret (w2, n2, ok) →
       owner (tablets_ n2) node key ∧
       holds w2 node key value).
Proof.
  pose proof (list_elem_of_lookup_2 _ _ _ Hi) as Ht. pose proof (rep_partition _ _ _ Hr) as Hp.
  destruct (rep_store _ _ _ Hr t Ht) as [e He].
  destruct (put_applied d rid key value (rep_healthy _ _ _ Hr _ _ Hd) Hk Hv) as (d1 & Hput & Hh1 & Hv1).
  assert (Hview : ldb_view e !! key = A !! key).
  { apply option_eq. intros v. rewrite (rep_view _ _ _ Hr _ e key v He), (owner_of _ t _ key Hp Ht Hc). tauto. }
  exists d1. split; [done|]. cbv zeta. split.
  { intros e'. cbn. rewrite lookup_insert_ne by done. rewrite He. by intros [= <-]. }
  intros Hnone w2 n2 ok Hrun. pose proof (rep_short _ _ _ Hr) as Hs. rewrite Forall_forall in Hs.
  destruct (migrate_onto fs (set_store w node (Some d1)) w2 n n2 A i t node e d1 ok Hp (Hs t Ht) (rep_wire _ _ _ Hr)
    (fun k v _ Hv => lookup_weaken _ _ _ _ Hv (rep_subset _ _ _ _ _ Hr He)) (rep_inbox _ _ _ Hr) Hi Hne) as [Hts Hb]; try done.
  - cbn. by rewrite lookup_insert_ne.
  - by eapply rep_healthy.
  - cbn. by rewrite lookup_insert_eq.
  - split; [rewrite Hts; apply owner_set_node; [done|done|by left]|].
    apply Hb; [congruence|]. rewrite Hv1. apply lookup_insert_eq.
Qed.

Lemma stale_put_witness :
  let t := {| tid := 1; start_key := []; end_key := str "m"; node_id := 2; key_count := 0 |} in
  let db3 := {| mem_map := filter (fun kv => owner (tablets_ demo_fresh) 3 kv.1) demo_map; mem_up := true |} in
  demo_map !! str "k" = None ∧
  ∃ d1, HandleDataNodeRequest (Some db3) 9 (kv_payload OP_PUT (str "k") (str "lost")) =
          Ret (Some d1, [byte_of_Z ST_OK]) ∧
    ∀ w2 n2 ok, @MigrateTablet _ _ ref_json_text good_fs
        (set_store (spread_nodes (tablets_ demo_fresh) demo_map) 3 (Some d1)) demo_fresh 0 3 = Ret (w2, n2, ok) →
      holds w2 3 (str "k") (str "lost").
Proof.
  cbv zeta. assert (Hg : demo_map !! str "k" = None) by (vm_compute; reflexivity). split; [exact Hg|].
  assert (Hcov : covers {| tid := 1; start_key := []; end_key := str "m"; node_id := 2; key_count := 0 |} (str "k"))
    by (apply (bool_decide_unpack _); vm_compute; exact I).
  destruct (@stale_put MemDB _ _ ref_json_text ref_json_text_spec good_fs
    (spread_nodes (tablets_ demo_fresh) demo_map) demo_fresh demo_map 0
    {| tid := 1; start_key := []; end_key := str "m"; node_id := 2; key_count := 0 |} 3 9
    {| mem_map := filter (fun kv => owner (tablets_ demo_fresh) 3 kv.1) demo_map; mem_up := true |}
    (str "k") (str "lost") demo_represents eq_refl Hcov) as (d1 & Hput & _ & Hback);
    [discriminate|reflexivity|reflexivity|reflexivity|].
  exists d1. split; [exact Hput|]. intros w2 n2 ok E.
  exact (proj2 (Hback Hg w2 n2 ok E)).
Defined.
