(* ===== verification/Unreliable.v ===== *)
(** * The balancer over connections that fail

    The cluster of Cluster.v with connections that lose requests and answers,
    and with an answer that arrives after its call has timed out.  Losses cost nothing but
    stray records, whatever is lost and however often, while clients only read and write: every
    key is still stored at its owner, and a reader finds it there at every moment of a migration.  Stray
    records when a client deletes, and late answers, are a different matter. *)

From S2P Require Import Prelude StringOrder BinaryProtocol Storage RpcClient RpcServer DataNode.
From S2P Require Import Json Config Tablet RaftNode TableSteps BalancePlan Balancer Cluster Faults.

(** ** The data nodes behind lossy connections *)

(** What becomes of a request: it is served and answered; it is lost on its
    way; it is served and the answer is lost; [Send] itself fails. *)
Inductive fault : Type := Deliver | LoseRequest | LoseAnswer | SendFails.
#[export] Instance fault_dec : EqDecision fault. Proof. solve_decision. Defined.

Section Lossy.
Context {D : Type} `{LevelDBSpec D}.
Implicit Types (w : Nodes D) (d : D) (st : option D).

(** [Stored]: a request is over, and the nodes store this; [Published]: an assignment
    to the master's table is over, and readers find this table. *)
Inductive moment : Type :=
  | Stored (m : gmap Z (option D))
  | Published (ts : list Tablet).

(** [fate]: what becomes of the [clock]-th request, by its node and frame; [past]: the requests and
    the assignments, in their order. *)
Record Lossy := {
  lnet : Nodes D;
  clock : nat;
  fate : nat → Z → bytes → fault;
  past : list moment;
}.

Definition with_net (b : Lossy) (w : Nodes D) : Lossy :=
  {| lnet := w; clock := clock b; fate := fate b; past := past b |}.
Definition tick (b : Lossy) (w : Nodes D) : Lossy :=
  {| lnet := w; clock := S (clock b); fate := fate b; past := past b ++ [Stored (stores w)] |}.

Definition publish (b : Lossy) (ts : list Tablet) : Lossy :=
  {| lnet := lnet b; clock := clock b; fate := fate b; past := past b ++ [Published ts] |}.

Definition lossy_send (b : Lossy) (node : Z) (f : bytes) : Lossy * bool :=
  let '(w, ok) := deliver (lnet b) node f in
  match fate b (clock b) node f with
  | Deliver => (tick b w, ok)
  | LoseRequest => (tick b (lnet b), true)
  | LoseAnswer => (tick b {| stores := stores w; inbox := inbox (lnet b) |}, ok)
  | SendFails => (tick b (lnet b), false)
  end.

#[export] Instance lossy_transport : Transport Lossy := {|
  t_connected b node := t_connected (lnet b) node;
  t_send := lossy_send;
  t_recv b node timeout :=
    let '(w, r) := receive (lnet b) node in (with_net b w, r);
  t_publish := publish;
|}.

#[export] Instance lossy_transport_spec : TransportSpec Lossy.
Proof.
  split. intros b node t b' f. cbn. destruct (receive (lnet b) node) as [w r] eqn:E.
  intros [= _ ->]. by apply (t_recv_frame (lnet b) node t w f).
Qed.

Lemma receive_stores w node w' r : receive w node = (w', r) → stores w' = stores w.
Proof. unfold receive. destruct (take_reply _ _) as [[f l]|]; by intros [= <- _]. Qed.

(** One request that the node would answer with [good] and state [st']. *)
Definition exchange (b b' : Lossy) (node : Z) (f : bytes) (st' : option D) (good : bytes) (r : option bytes) : Prop :=
  fate b' = fate b ∧ past b' = past b ++ [Stored (stores (lnet b'))] ∧
  (r = None ∧ (lnet b' = lnet b ∨ lnet b' = set_store (lnet b) node st') ∨
   r = Some good ∧ lnet b' = set_store (lnet b) node st') ∧
  (fate b (clock b) node f = Deliver → r = Some good) ∧
  (fate b (clock b) node f = LoseRequest → lnet b' = lnet b).

Lemma lossy_roundtrip b node st st' rid p s v timeout :
  stores (lnet b) !! node = Some st → inbox (lnet b) = [] → 0 ≤ rid < 2 ^ 32 → fits_frame p →
  HandleDataNodeRequest st rid p = Ret (st', byte_of_Z s :: v) → 0 ≤ s < 256 → zlen v < 2 ^ 32 - 15 →
  let good := frame rid (resp_payload s v) in
  ∃ b1 sent, t_send b node (frame rid p) = (b1, sent) ∧
    if sent : bool
    then ∃ b2 r, t_recv b1 node timeout = (b2, r) ∧ exchange b b2 node (frame rid p) st' good r
    else exchange b b1 node (frame rid p) st' good None.
Proof.
  intros Hst Hin Hrid Hp Hh Hs Hv. cbv zeta.
  destruct (roundtrip (lnet b) node st st' rid p s v timeout) as (w1 & Hsend & Hrecv); try done.
  cbn [t_send t_recv nodes_transport lossy_transport] in *. unfold lossy_send. rewrite Hsend.
  assert (Hnone : ∀ w, inbox w = [] → receive w node = (w, None)) by (intros w E; unfold receive; by rewrite E).
  assert (Hx : ∀ b2 r, fate b2 = fate b → past b2 = past b ++ [Stored (stores (lnet b2))] →
    (r = None ∧ (lnet b2 = lnet b ∨ lnet b2 = set_store (lnet b) node st') ∨
     r = Some (frame rid (resp_payload s v)) ∧ lnet b2 = set_store (lnet b) node st') →
    (fate b (clock b) node (frame rid p) = Deliver → r = Some (frame rid (resp_payload s v))) →
    (fate b (clock b) node (frame rid p) = LoseRequest → lnet b2 = lnet b) →
    exchange b b2 node (frame rid p) st' (frame rid (resp_payload s v)) r).
  { intros b2 r ? ? ? ? ?. do 2 (split; [done|]). by split. }
  destruct (fate b (clock b) node (frame rid p)) eqn:Hf; eexists _, _; (split; [done|]); cbn [tick lnet fate past].
  - rewrite Hrecv. eexists _, _. split; [done|]. apply receive_stores in Hrecv.
    apply Hx; cbn [lnet with_net past]; rewrite ?Hrecv; auto; done.
  - rewrite Hnone by done. eexists _, _. split; [done|]. apply Hx; cbn [lnet]; auto; done.
  - rewrite Hnone by done. eexists _, _. split; [done|]. apply Hx; cbn [lnet]; try done.
    left. split; [done|]. right. unfold deliver in Hsend. rewrite Hst, serve_frame_request, Hh in Hsend by done.
    cbn [mbind outcome_bind] in Hsend. rewrite pack_response_cons in Hsend. cbn [mbind outcome_bind] in Hsend.
    by injection Hsend as <-.
  - apply Hx; cbn [lnet tick]; auto; done.
Qed.

Lemma lossy_call b node st st' p s v timeout :
  stores (lnet b) !! node = Some st → inbox (lnet b) = [] → fits_frame p →
  HandleDataNodeRequest st 1 p = Ret (st', byte_of_Z s :: v) → 0 ≤ s < 256 → zlen v < 2 ^ 32 - 15 →
  ∃ b' r, call b node (frame 1 p) timeout = Ret (b', r) ∧ exchange b b' node (frame 1 p) st' (resp_payload s v) r.
Proof.
  intros Hst Hin Hp Hh Hs Hv. unfold call.
  destruct (lossy_roundtrip b node st st' 1 p s v timeout) as (b1 & sent & -> & Hx); try done.
  destruct sent; cbn [negb].
  - destruct Hx as (b2 & r & -> & Hf & Hc & Hr & Hd & Hl). destruct r as [f|].
    + destruct Hr as [[? _]|[[= ->] Hn]]; [done|].
      rewrite <- (app_nil_r (frame 1 _)), TryDecode_frame; [|lia|unfold fits_frame, resp_payload; zlia].
      cbn [mbind outcome_bind]. eexists _, _. split; [done|]. repeat (split; [by auto|]). auto.
    + destruct Hr as [[_ Hn]|[? _]]; [|done]. eexists _, _. split; [done|].
      repeat (split; [by auto|]). split; [intros E; by apply Hd in E|done].
  - destruct Hx as (Hf & Hc & Hr & Hd & Hl). destruct Hr as [[_ Hn]|[? _]]; [|done].
    eexists _, _. split; [done|]. repeat (split; [by auto|]). split; [intros E; by apply Hd in E|done].
Qed.
End Lossy.
Arguments Lossy : clear implicits.

(** ** The owners keep every key *)

(** Like [represents], but a node may also hold stray records of keys of the map. *)
Record keeps {D} `{LevelDB D} (n : RaftNode) (w : Nodes D) (A : gmap bytes bytes) : Prop := {
  kp_partition : partition (tablets_ n);
  kp_short : Forall short (tablets_ n);
  kp_store : ∀ t, t ∈ tablets_ n → ∃ d, stores w !! node_id t = Some (Some d);
  kp_healthy : ∀ node d, stores w !! node = Some (Some d) → ldb_healthy d;
  kp_stray : ∀ node d k v, stores w !! node = Some (Some d) → ldb_view d !! k = Some v → is_Some (A !! k);
  kp_owned : ∀ node d k v, stores w !! node = Some (Some d) → owner (tablets_ n) node k →
    A !! k = Some v → ldb_view d !! k = Some v;
  kp_inbox : inbox w = [];
  kp_wire : wire_map A;
}.

Section Keeping.
Context {D : Type} `{LevelDBSpec D}.
Implicit Types (w : Nodes D) (d : D) (n : RaftNode) (A : gmap bytes bytes) (b : Lossy D).

Lemma represents_keeps n w A : represents n w A → keeps n w A.
Proof.
  intros Hr. split; try apply Hr.
  { intros node d k v Hd Hv. exists v. by eapply lookup_weaken, rep_subset. }
  intros node d k v Hd Ho Hv. by apply (rep_view _ _ _ Hr node d k v Hd).
Qed.

(** What an owner stores under its keys is what the map has. *)
Lemma keep_view n w A node d k :
  keeps n w A → stores w !! node = Some (Some d) → owner (tablets_ n) node k → ldb_view d !! k = A !! k.
Proof.
  intros Hk Hd Ho. apply option_eq. intros v. split; [|by eapply (kp_owned _ _ _ Hk)].
  intros Hv. destruct (kp_stray _ _ _ Hk node d k v Hd Hv) as [x Hx].
  pose proof (kp_owned _ _ _ Hk node d k x Hd Ho Hx). congruence.
Qed.

(** A GET of any key at the node the table routes it to finds what the map has. *)
Definition reads (ts : list Tablet) (m : gmap Z (option D)) A : Prop :=
  ∀ k, ∃ t d, GetTabletRoute ts k = Ret (Some t) ∧ m !! node_id t = Some (Some d) ∧ Get d k = A !! k.

Lemma get_view d k : ldb_healthy d → Get d k = ldb_view d !! k.
Proof. intros Hh. unfold Get. rewrite ldb_get_healthy by done. by destruct (ldb_view d !! k). Qed.

Lemma keep_reads n w A : keeps n w A → reads (tablets_ n) (stores w) A.
Proof.
  intros Hk k. destruct (route_exact (tablets_ n) k (kp_partition _ _ _ Hk)) as (i & t & _ & Hi & HR & Hc & _).
  pose proof (list_elem_of_lookup_2 _ _ _ Hi) as Ht. destruct (kp_store _ _ _ Hk t Ht) as [d Hd].
  exists t, d. split; [done|]. split; [done|]. rewrite get_view by (by eapply (kp_healthy _ _ _ Hk)).
  eapply keep_view; [done..|]. by exists t.
Qed.

Lemma keep_range n w A t d :
  keeps n w A → t ∈ tablets_ n → stores w !! node_id t = Some (Some d) →
  map_range (ldb_view d) (start_key t) (end_key t) = map_range A (start_key t) (end_key t).
Proof. intros Hk Ht Hd. apply map_range_eq. intros k Hc. eapply keep_view; [done..|]. by exists t. Qed.

Lemma keep_retable n n' w A : keeps n w A → same_owners (tablets_ n) (tablets_ n') → keeps n' w A.
Proof.
  intros [Hp Hs Hst Hh Hsub Hv Hi Hw] [Hp' Hs' Hn Ho]. split; try done.
  - intros t Ht. destruct (proj1 (list_elem_of_fmap _ _ _) (Hn (node_id t)
      (proj2 (list_elem_of_fmap _ _ _) (ex_intro _ t (conj eq_refl Ht))))) as (u & -> & Hu). by apply Hst.
  - intros node d k v Hd. rewrite Ho. by apply Hv.
Qed.

Lemma keep_same_route n n' w A : keeps n w A → Forall2 same_route (tablets_ n) (tablets_ n') → keeps n' w A.
Proof. intros Hk Hf. apply (keep_retable n); [done|]. apply same_route_owners; [apply Hk..|done]. Qed.

(** Statistics get lost, or are those of the map. *)
Lemma lossy_stats n b A t kc mk :
  keeps n (lnet b) A → t ∈ tablets_ n →
  ∃ b' ok, lnet b' = lnet b ∧
    QueryTabletStats b (node_id t) (start_key t) (end_key t) kc mk =
      Ret (b', ok, if ok : bool then count_of A t else kc, if ok then median_of A t else mk).
Proof.
  intros Hk Ht. destruct (kp_store _ _ _ Hk t Ht) as [d Hd].
  pose proof (kp_short _ _ _ Hk) as Hs. rewrite Forall_forall in Hs. destruct (Hs t Ht) as [Hlo Hhi].
  destruct (median_wire A t (kp_wire _ _ _ Hk)) as [Hc Hm].
  pose proof (stats_served d (start_key t) (end_key t)) as Hreq. cbv zeta in Hreq.
  rewrite (keep_range n (lnet b) A t d Hk Ht Hd), zlen_fmap in Hreq.
  assert (Hcount : zlen (map_range A (start_key t) (end_key t)) = count_of A t) by done.
  assert (Hmed : (if zlen (map_range A (start_key t) (end_key t)) =? 0 then []
    else nth (Z.to_nat (zlen (map_range A (start_key t) (end_key t)) / 2)) (map_range A (start_key t) (end_key t)).*1 []) =
    median_of A t) by (unfold median_of; by rewrite zlen_fmap).
  rewrite Hmed, Hcount in Hreq. specialize (Hreq ltac:(by eapply (kp_healthy _ _ _ Hk)) Hlo Hhi ltac:(lia) Hm).
  destruct (range_request_frame OP_TABLET_STATS _ _ Hlo Hhi) as [Hframe Hfit].
  destruct (lossy_call b (node_id t) _ _ _ ST_OK _ 3000 Hd (kp_inbox _ _ _ Hk) Hfit Hreq)
    as (b' & r & Hcall & _ & _ & Hr & _); [unfold ST_OK; lia|zlia|].
  rewrite set_store_same in Hr by done. rewrite <- Hframe in Hcall.
  assert (Hconn : t_connected b (node_id t) = true) by exact (connected (lnet b) _ _ Hd).
  exists b', (if r is Some _ then true else false).
  destruct Hr as [[-> Hn]|[-> Hn]]; (split; [naive_solver|]).
  - unfold QueryTabletStats. rewrite Hconn, Hcall. done.
  - by apply stats_answer; [..|lia|].
Qed.
End Keeping.

(** ** Migrating over lossy connections *)
Section Moving.
Context {D : Type} `{LevelDBSpec D}.
Implicit Types (w : Nodes D) (d e : D) (n : RaftNode) (A : gmap bytes bytes) (b : Lossy D).

(** The cleanups are lost, and only they. *)
Definition loses_cleanups b : Prop :=
  ∀ c node f, fate b c node f = if is_delete_range f then LoseRequest else Deliver.

Lemma loses_cleanups_deliver b c node f : loses_cleanups b → is_delete_range f = false → fate b c node f = Deliver.
Proof. intros Hl Hf. by rewrite Hl, Hf. Qed.

(** [b'] comes after [b]; the nodes stored [h] in between. *)
Record later b b' (h : list (gmap Z (option D))) : Prop := {
  lt_fate : fate b' = fate b;
  lt_past : past b' = past b ++ (Stored <$> h);
}.

Lemma later_trans b b1 b2 h1 h2 : later b b1 h1 → later b1 b2 h2 → later b b2 (h1 ++ h2).
Proof. intros [E1 P1] [E2 P2]. split; [congruence|]. by rewrite P2, P1, fmap_app, app_assoc. Qed.

Lemma later_loses b b' h : later b b' h → loses_cleanups b → loses_cleanups b'.
Proof. intros [E _] Hl c node f. rewrite E. apply Hl. Qed.

(** [e'] has some of the records [l] more than [e]. *)
Record copied e (l : list entry) e' : Prop := {
  cp_healthy : ldb_healthy e';
  cp_from : ∀ k v, ldb_view e' !! k = Some v → ldb_view e !! k = Some v ∨ (k, v) ∈ l;
  cp_out : ∀ k, k ∉ l.*1 → ldb_view e' !! k = ldb_view e !! k;
}.

Lemma copied_nil e l : ldb_healthy e → copied e l e.
Proof. intros Hh. by split; [|left|]. Qed.

Lemma copied_cons e e1 e2 k v l :
  ldb_view e1 = ldb_view e ∨ ldb_view e1 = <[k := v]> (ldb_view e) → copied e1 l e2 → copied e ((k, v) :: l) e2.
Proof.
  intros Hv [Hh Hf Ho]. split; [done|..].
  - intros k' v' [Hk|Hk]%Hf; [|right; by right]. destruct Hv as [Hv|Hv]; rewrite Hv in Hk; [by left|].
    apply lookup_insert_Some in Hk as [[-> ->]|[_ ?]]; [right; by left|by left].
  - intros k'. rewrite fmap_cons, not_elem_of_cons. cbn [fst]. intros [Hne Hk']. rewrite Ho by done.
    destruct Hv as [-> | ->]; [done|]. by rewrite lookup_insert_ne.
Qed.

(** Only the database at [dst] has changed, by such records. *)
Definition copying w (dst : Z) e (l : list entry) (m : gmap Z (option D)) : Prop :=
  ∃ e', m = <[dst := Some e']> (stores w) ∧ copied e l e'.

(** One PUT of the loop: [m] counts it when its answer came. *)
Lemma lossy_put {X} (F : Lossy D → Z → X) b dst e k v rid tr :
  stores (lnet b) !! dst = Some (Some e) → inbox (lnet b) = [] → ldb_healthy e → wire_entry (k, v) → 0 ≤ rid < 2 ^ 32 →
  ∃ b' e' m,
    (let '(b1, sent) := t_send b dst (frame rid (kv_payload OP_PUT k v)) in
     if negb sent then F b1 tr else
     let '(b2, r) := t_recv b1 dst 5000 in
     match r with None => F b2 tr | Some _ => F b2 (tr + 1) end) = F b' (tr + m) ∧
    later b b' [stores (lnet b')] ∧ lnet b' = set_store (lnet b) dst (Some e') ∧ ldb_healthy e' ∧
    (ldb_view e' = ldb_view e ∧ m = 0 ∨ ldb_view e' = <[k := v]> (ldb_view e) ∧ 0 ≤ m ≤ 1) ∧
    (loses_cleanups b → m = 1).
Proof.
  intros Hst Hin Hh [Hk Hv] Hrid. cbn [fst snd] in Hk, Hv.
  destruct (put_applied e rid k v Hh Hk Hv) as (e1 & Hreq & Hh1 & Hv1).
  destruct (lossy_roundtrip b dst (Some e) (Some e1) rid (kv_payload OP_PUT k v) ST_OK [] 5000)
    as (b1 & sent & -> & Hx); try done.
  { unfold fits_frame. rewrite zlen_kv_payload. zlen_nonneg_all. lia. }
  assert (Hop : is_delete_range (frame rid (kv_payload OP_PUT k v)) = false)
    by (apply bool_decide_eq_false_2; cbn; discriminate).
  assert (Hsame : lnet b = set_store (lnet b) dst (Some e)) by (by rewrite set_store_same).
  assert (Hlater : ∀ b', fate b' = fate b → past b' = past b ++ [Stored (stores (lnet b'))] → later b b' [stores (lnet b')]) by by split.
  destruct sent; cbn [negb].
  - destruct Hx as (b2 & r & -> & Hf & Hpast & Hr & Hd & _). destruct r as [f|].
    + destruct Hr as [[? _]|[_ Hn]]; [done|]. exists b2, e1, 1. split; [done|]. split; [by apply Hlater|].
      rewrite Hn, Hv1. split_and!; auto. right. split; [done|lia].
    + assert (Hlose : loses_cleanups b → 0 = 1) by (intros Hl; by specialize (Hd (loses_cleanups_deliver _ _ _ _ Hl Hop))).
      destruct Hr as [[_ [Hn|Hn]]|[? _]]; [| |done].
      * exists b2, e, 0. rewrite Z.add_0_r. split; [done|]. split; [by apply Hlater|].
      rewrite Hn. split_and!; auto.
      * exists b2, e1, 0. rewrite Z.add_0_r. split; [done|]. split; [by apply Hlater|].
      rewrite Hn, Hv1. split_and!; auto. right. split; [done|lia].
  - destruct Hx as (Hf & Hpast & Hr & Hd & _).
    assert (Hlose : loses_cleanups b → 0 = 1) by (intros Hl; by specialize (Hd (loses_cleanups_deliver _ _ _ _ Hl Hop))).
    destruct Hr as [[_ [Hn|Hn]]|[? _]]; [| |done].
    + exists b1, e, 0. rewrite Z.add_0_r. split; [done|]. split; [by apply Hlater|].
      rewrite Hn. split_and!; auto.
    + exists b1, e1, 0. rewrite Z.add_0_r. split; [done|]. split; [by apply Hlater|].
      rewrite Hn, Hv1. split_and!; auto. right. split; [done|lia].
Qed.

(** The loop over the records: the destination gets some of them, all if all are counted. *)
Lemma lossy_transfer fuel b dst e (pre : bytes) (l : list entry) count i tr :
  stores (lnet b) !! dst = Some (Some e) → inbox (lnet b) = [] → ldb_healthy e →
  Forall wire_entry l → 0 ≤ i → i + zlen l = count → count < 2 ^ 32 - 1 → (length l < fuel)%nat →
  ∃ b' e' tr' h,
    transfer_loop fuel b dst (pre ++ scan_records l) count i (zlen pre) tr = Ret (b', tr') ∧
    later b b' h ∧ Forall (copying (lnet b) dst e l) h ∧ lnet b' = set_store (lnet b) dst (Some e') ∧ copied e l e' ∧
    tr' ≤ tr + zlen l ∧ (tr' = tr + zlen l → ldb_view e' = put_all l (ldb_view e)) ∧
    (loses_cleanups b → tr' = tr + zlen l) ∧ last (stores (lnet b) :: h) = Some (stores (lnet b')).
Proof.
  intros Hst Hin Hh Hl. revert fuel b e pre i tr Hst Hin Hh.
  induction Hl as [|[k v] l Hkv Hl IH]; intros fuel b e pre i tr Hst Hin Hh Hi Hc Hmax Hf.
  { rewrite zlen_nil in *. exists b, e, tr, []. rewrite Z.add_0_r, set_store_same by done.
    split; [|split_and!; auto; try lia; [split; [done|by rewrite app_nil_r]|by apply copied_nil]].
    destruct fuel; cbn [transfer_loop]; (destruct (Z.ltb_spec i count); [lia|done]). }
  destruct fuel as [|fuel]; [simpl in Hf; lia|]. rewrite zlen_cons in *. pose proof (zlen_nonneg l).
  rewrite scan_records_cons, transfer_step by (done || lia). cbv zeta.
  destruct (lossy_put (fun b tr => transfer_loop fuel b dst ((pre ++ scan_record (k, v)) ++ scan_records l) count (i + 1)
      (zlen (pre ++ scan_record (k, v))) tr) b dst e k v (u32 (1 + i + 1)) tr Hst Hin Hh Hkv (u32_range _))
    as (b1 & e1 & m & Heq & Hf1 & Hn1 & Hh1 & Hv1 & Hm). rewrite Heq. clear Heq.
  destruct (IH fuel b1 e1 (pre ++ scan_record (k, v)) (i + 1) (tr + m))
    as (b2 & e2 & tr2 & h & -> & Hf2 & Hmid & Hn2 & Hcp & Hle & Hall & Hlc & Hlast); try done; try lia.
  { rewrite Hn1. cbn. by rewrite lookup_insert_eq. }
  { by rewrite Hn1. }
  { simpl in Hf. lia. }
  assert (Hv : ldb_view e1 = ldb_view e ∨ ldb_view e1 = <[k := v]> (ldb_view e)) by naive_solver.
  assert (Hover : ∀ x : option D, <[dst := x]> (stores (lnet b1)) = <[dst := x]> (stores (lnet b)))
    by (intros x; rewrite Hn1; cbn; by rewrite insert_insert_eq).
  exists b2, e2, tr2, (stores (lnet b1) :: h). split; [done|]. split; [by eapply (later_trans _ _ _ [_])|]. split.
  { constructor; [exists e1; split; [by rewrite Hn1|by eapply copied_cons, copied_nil]|].
    eapply Forall_impl; [exact Hmid|]. intros x (e' & -> & He'). exists e'. split; [apply Hover|by eapply copied_cons]. }
  split; [rewrite Hn2; unfold set_store; cbn [stores]; by rewrite Hover, Hn1|].
  split; [by eapply copied_cons|]. split; [|split; [|split]].
  - destruct Hv1 as [[_ ->]|[_ ?]]; lia.
  - intros E. assert (m = 1) as -> by (destruct Hv1 as [[_ ->]|[_ ?]]; lia).
    destruct Hv1 as [[_ ?]|[Hv1 _]]; [done|]. rewrite Hall, Hv1 by lia. done.
  - intros Hlose. rewrite Hlc, (Hm Hlose); [lia|]. by eapply later_loses.
  - exact Hlast.
Qed.

Lemma lossy_scan b src dst d e lo hi :
  let l := map_range (ldb_view d) lo hi in
  stores (lnet b) !! src = Some (Some d) → stores (lnet b) !! dst = Some (Some e) → inbox (lnet b) = [] →
  ldb_healthy d → ldb_healthy e → zlen lo < 2 ^ 16 → zlen hi < 2 ^ 16 →
  Forall wire_entry l → zlen (scan_records l) + 24 < 2 ^ 32 →
  ∃ b' e' ok h, ScanAndTransferData b src dst lo hi = Ret (b', ok) ∧
    later b b' (h ++ [stores (lnet b')]) ∧ Forall (copying (lnet b) dst e l) h ∧
    lnet b' = set_store (lnet b) dst (Some e') ∧ copied e l e' ∧
    (ok = true → ldb_view e' = put_all l (ldb_view e)) ∧ (loses_cleanups b → ok = true).
Proof.
  cbv zeta. set (l := map_range (ldb_view d) lo hi). intros Hsrc Hdst Hin Hd He Hlo Hhi Hl Hsz.
  destruct (range_request_frame OP_SCAN_RANGE lo hi Hlo Hhi) as [Hframe Hfit].
  pose proof (scan_records_size l). pose proof (zlen_nonneg l). pose proof (scan_request d 1 lo hi Hd Hlo Hhi) as Hreq.
  fold l in Hreq. specialize (Hreq ltac:(lia)).
  destruct (lossy_call b src _ _ _ ST_OK _ 30000 Hsrc Hin Hfit Hreq) as (b1 & r & Hcall & Hf & Hpast & Hr & Hdel & _);
    [unfold ST_OK; lia|zlia|].
  rewrite set_store_same in Hr by done. assert (Hn1 : lnet b1 = lnet b) by (destruct Hr as [[_ [?|?]]|[_ ?]]; done).
  assert (Hcs : t_connected b src = true) by exact (connected (lnet b) _ _ Hsrc).
  assert (Hcd : t_connected b dst = true) by exact (connected (lnet b) _ _ Hdst).
  assert (Hop : is_delete_range (frame 1 (range_payload OP_SCAN_RANGE lo hi)) = false)
    by (apply bool_decide_eq_false_2; cbn; discriminate).
  destruct Hr as [[-> _]|[-> _]].
  - exists b1, e, false, []. unfold ScanAndTransferData. rewrite Hcs, Hcd, Hframe, Hcall. split; [done|].
    split; [done|]. split; [done|]. split; [by rewrite set_store_same|]. split; [by apply copied_nil|]. split; [done|].
    intros Hlose. by specialize (Hdel (loses_cleanups_deliver _ _ _ _ Hlose Hop)).
  - rewrite <- Hframe in Hcall. rewrite (scan_answer b b1 src dst lo hi l Hcs Hcd Hcall Hsz).
    destruct (lossy_transfer (S (length (scan_header l ++ scan_records l))) b1 dst e (scan_header l) l (zlen l) 0 0)
      as (b2 & e' & tr & h & -> & Hf2 & Hmid & Hn2 & Hcp & _ & Hall & Hlc & Hlast); rewrite ?Hn1; try done; try lia.
    { rewrite length_app. unfold zlen in *. lia. }
    assert (Hb1 : later b b1 [stores (lnet b1)]) by done. pose proof (later_trans _ _ _ _ _ Hb1 Hf2) as Hf3.
    cbn [mbind outcome_bind app] in *. apply last_Some in Hlast as [h2 Hh2]. rewrite Hh2 in Hf3.
    rewrite Hn1 in Hn2, Hmid. exists b2, e', (tr =? zlen l), h2. split; [done|]. split; [done|]. split.
    { assert (Hfst : copying (lnet b) dst e l (stores (lnet b1))).
      { exists e. rewrite Hn1. split; [by rewrite insert_id|by apply copied_nil]. }
      pose proof (Forall_cons_2 _ _ _ Hfst Hmid) as Hall2. rewrite Hh2 in Hall2. by apply Forall_app in Hall2 as [? _]. }
    split; [done|]. split; [done|]. split.
    + intros E%Z.eqb_eq. by apply Hall.
    + intros Hlose. apply Z.eqb_eq. rewrite Hlc; [lia|]. by eapply later_loses.
Qed.

(** The cleanup happens or not. *)
Lemma lossy_cleanup b node d lo hi :
  stores (lnet b) !! node = Some (Some d) → inbox (lnet b) = [] → ldb_healthy d → zlen lo < 2 ^ 16 → zlen hi < 2 ^ 16 →
  ∃ b' d' ok, SendDeleteRange b node lo hi = Ret (b', ok) ∧ later b b' [stores (lnet b')] ∧
    lnet b' = set_store (lnet b) node (Some d') ∧ ldb_healthy d' ∧
    (d' = d ∨ ldb_view d' = filter (fun kv => ¬ in_range lo hi kv.1) (ldb_view d)) ∧
    (loses_cleanups b → lnet b' = lnet b).
Proof.
  intros Hst Hin Hd Hlo Hhi. unfold SendDeleteRange.
  assert (Hc : t_connected b node = true) by exact (connected (lnet b) _ _ Hst). rewrite Hc. cbn [negb].
  destruct (range_request_frame OP_DELETE_RANGE lo hi Hlo Hhi) as [-> Hfit].
  pose proof (delete_range_request d 1 lo hi Hlo Hhi) as Hreq.
  destruct (DeleteRange_healthy d lo hi Hd) as (_ & Hh' & Hv').
  destruct (lossy_call b node _ _ _ ST_OK [] 10000 Hst Hin Hfit Hreq) as (b1 & r & -> & Hf & Hpast & Hr & _ & Hl);
    [unfold ST_OK; lia|zlia|]. cbn [mbind outcome_bind].
  assert (Hok : ∃ ok, match r with
      | None => Ret (b1, false)
      | Some p => if bool_decide (p = []) then Ret (b1, false) else st ← at_ p 0; Ret (b1, st =? ST_OK)
      end = Ret (b1, ok)).
  { destruct Hr as [[-> _]|[-> _]]; [by exists false|]. rewrite bool_decide_eq_false_2 by done.
    unfold resp_payload. cbn [app]. rewrite at_cons_0. by eexists. }
  assert (Hkeep : loses_cleanups b → lnet b1 = lnet b).
  { intros Hlose. apply Hl. rewrite Hlose.
    assert (is_delete_range (frame 1 (range_payload OP_DELETE_RANGE lo hi)) = true) as ->; [|done].
    apply bool_decide_eq_true_2. reflexivity. }
  destruct Hok as [ok ->]. destruct Hr as [[_ [Hn|Hn]]|[_ Hn]].
  - exists b1, d, ok. split; [done|]. split; [done|]. split; [by rewrite set_store_same|]. auto.
  - exists b1, (DeleteRange d lo hi).1, ok. split_and!; auto; done.
  - exists b1, (DeleteRange d lo hi).1, ok. split_and!; auto; done.
Qed.

Lemma store_at w node e node' d :
  stores (set_store w node (Some e)) !! node' = Some (Some d) →
  node' = node ∧ d = e ∨ node' ≠ node ∧ stores w !! node' = Some (Some d).
Proof. cbn. intros [[-> [= ->]]|[? Hx]]%lookup_insert_Some; [by left|right; by split]. Qed.

(** Replacing a database by one that still has what its node owns. *)
Lemma keep_set n w A node d e :
  keeps n w A → stores w !! node = Some (Some d) → ldb_healthy e → (∀ k v, ldb_view e !! k = Some v → is_Some (A !! k)) →
  (∀ k v, owner (tablets_ n) node k → A !! k = Some v → ldb_view e !! k = Some v) →
  keeps n (set_store w node (Some e)) A.
Proof.
  intros [Hp Hs Hst Hh Hsub Hv Hi Hw] Hd He Hse Hown. split; try done.
  - intros t Ht. cbn. destruct (decide (node_id t = node)) as [->|].
    + rewrite lookup_insert_eq. eauto.
    + rewrite lookup_insert_ne by done. auto.
  - intros node' x Hx. apply store_at in Hx as [[_ ->]|[_ Hx]]; [done|by eapply Hh].
  - intros node' x k v Hx. apply store_at in Hx as [[_ ->]|[_ Hx]]; [by apply Hse|by eapply Hsub].
  - intros node' x k v Hx. apply store_at in Hx as [[-> ->]|[_ Hx]]; [by apply Hown|by eapply Hv].
Qed.

(** Changing the route of a tablet to a node that has its records. *)
Lemma keep_route n n' w A i t dst e :
  keeps n w A → tablets_ n !! i = Some t → tablets_ n' = <[i := set_node t dst]> (tablets_ n) →
  stores w !! dst = Some (Some e) → (∀ k v, covers t k → A !! k = Some v → ldb_view e !! k = Some v) → keeps n' w A.
Proof.
  intros [Hp Hs Hst Hh Hsub Hv Hin Hw] Hi Hts He Hcov. split; rewrite ?Hts; try done.
  - by eapply partition_insert.
  - apply Forall_insert; [done|]. rewrite Forall_forall in Hs. exact (Hs t (list_elem_of_lookup_2 _ _ _ Hi)).
  - intros u [->|Hu]%elem_of_insert_inv; [cbn [set_node node_id]; eauto|auto].
  - intros node d k v Hd. rewrite owner_set_node by done. intros [[Hc ->]|[_ Ho]] HA; [|by eapply Hv].
    rewrite He in Hd. injection Hd as <-. by apply Hcov.
Qed.

(** The records of a tablet at another node do not disturb. *)
Lemma keep_copying n w A t dst d e e' :
  keeps n w A → t ∈ tablets_ n → node_id t ≠ dst → stores w !! node_id t = Some (Some d) → stores w !! dst = Some (Some e) →
  copied e (map_range (ldb_view d) (start_key t) (end_key t)) e' → keeps n (set_store w dst (Some e')) A.
Proof.
  intros Hk Ht Hne Hd He [Hh Hfrom Hout]. apply (keep_set n _ A _ e); try done.
  - intros k v [Hv|[Hv _]%elem_of_map_range]%Hfrom; [exact (kp_stray _ _ _ Hk _ _ _ _ He Hv)|].
    exact (kp_stray _ _ _ Hk _ _ _ _ Hd Hv).
  - intros k v Ho Hv. rewrite Hout; [by eapply (kp_owned _ _ _ Hk)|].
    intros ([k' v'] & -> & [_ Hc]%elem_of_map_range)%list_elem_of_fmap. apply Hne. symmetry.
    by apply (owner_of _ _ _ _ (kp_partition _ _ _ Hk) Ht Hc).
Qed.

(** After the cleanup, or without it. *)
Lemma keep_cleaned n w A i t dst d d2 :
  keeps n w A → partition (tablets_ n) → tablets_ n !! i = Some (set_node t dst) → node_id t ≠ dst →
  stores w !! node_id t = Some (Some d) → ldb_healthy d2 →
  (d2 = d ∨ ldb_view d2 = filter (fun kv => ¬ in_range (start_key t) (end_key t) kv.1) (ldb_view d)) →
  keeps n (set_store w (node_id t) (Some d2)) A.
Proof.
  intros Hk Hp Hi Hne Hd Hh2 Hd2. apply (keep_set n _ A _ d); try done.
  - intros k v Hv. apply (kp_stray _ _ _ Hk _ d k v Hd). destruct Hd2 as [-> | Hd2]; [done|].
    rewrite Hd2 in Hv. by apply map_lookup_filter_Some in Hv as [? _].
  - intros k v Ho HA. pose proof (kp_owned _ _ _ Hk _ _ k v Hd Ho HA) as Hown.
    destruct Hd2 as [-> | ->]; [done|]. apply map_lookup_filter_Some. split; [done|]. cbn [fst]. intros Hc.
    apply (owner_of _ _ _ _ Hp (list_elem_of_lookup_2 _ _ _ Hi) Hc) in Ho. done.
Qed.

(** What a reader with the old route of [t] finds: the value, or nothing. *)
Definition stale_reads A t (m : gmap Z (option D)) : Prop :=
  ∀ k, covers t k → ∃ d, m !! node_id t = Some (Some d) ∧ (Get d k = A !! k ∨ Get d k = None).

(** A migration over lossy connections. *)
Lemma lossy_migrate `{JsonTextSpec} (fs : nat → fs_answer) n b A i t dst :
  keeps n (lnet b) A → tablets_ n !! i = Some t → node_id t ≠ dst → dst ∈ node_id <$> tablets_ n →
  post (fun r : Lossy D * RaftNode * bool => keeps r.1.2 (lnet r.1.1) A ∧ fate r.1.1 = fate b ∧
          tablets_ r.1.2 = (if r.2 then <[i := set_node t dst]> (tablets_ n) else tablets_ n) ∧
          (loses_cleanups b → r.2 = true ∧ stores (lnet r.1.1) !! node_id t = stores (lnet b) !! node_id t) ∧
          ∃ h, Forall (fun x => reads (tablets_ n) x A) h ∧
            if r.2 then
              (∀ m, last (stores (lnet b) :: h) = Some m → reads (tablets_ r.1.2) m A) ∧
              ∃ x, past r.1.1 = past b ++ (Stored <$> h) ++ [Published (tablets_ r.1.2); Stored x] ∧
                reads (tablets_ r.1.2) x A ∧ stale_reads A t x
            else past r.1.1 = past b ++ (Stored <$> h))
    (MigrateTablet fs b n i dst).
Proof.
  intros Hk Hi Hne Hdst. unfold MigrateTablet. rewrite Hi. destruct (Z.eqb_spec (node_id t) dst); [done|].
  pose proof (list_elem_of_lookup_2 _ _ _ Hi) as Ht. pose proof (kp_partition _ _ _ Hk) as Hp.
  destruct (kp_store _ _ _ Hk t Ht) as [d Hd]. pose proof Hdst as (u & -> & Hu)%list_elem_of_fmap.
  destruct (kp_store _ _ _ Hk u Hu) as [e He].
  pose proof (kp_short _ _ _ Hk) as Hs. rewrite Forall_forall in Hs. destruct (Hs t Ht) as [Hlo Hhi].
  pose proof (kp_healthy _ _ _ Hk _ _ Hd) as Hhd. pose proof (kp_healthy _ _ _ Hk _ _ He) as Hhe.
  assert (Hview : ∀ k v, covers t k → ldb_view d !! k = Some v → A !! k = Some v).
  { intros k v Hc. rewrite (keep_view n (lnet b) A (node_id t) d k Hk Hd); [done|by exists t]. }
  destruct (wire_within A (ldb_view d) (start_key t) (end_key t) (kp_wire _ _ _ Hk) Hview) as (Hw1 & Hw2 & _).
  destruct (lossy_scan b (node_id t) (node_id u) d e (start_key t) (end_key t) Hd He (kp_inbox _ _ _ Hk) Hhd Hhe
    Hlo Hhi Hw1 Hw2) as (b1 & e1 & ok & h & -> & [Hf1 Hp1] & Hmid & Hn1 & Hcp & Hall & Hlc). cbn [mbind outcome_bind].
  assert (Hk1 : keeps n (lnet b1) A) by (rewrite Hn1; by apply (keep_copying n _ A t (node_id u) d e e1)).
  assert (Hh : Forall (fun x => reads (tablets_ n) x A) (h ++ [stores (lnet b1)])).
  { apply Forall_app. split; [|apply Forall_singleton; by apply keep_reads]. eapply Forall_impl; [exact Hmid|].
    intros x (e' & -> & He'). by apply (keep_reads n (set_store (lnet b) (node_id u) (Some e'))), (keep_copying n _ A t (node_id u) d e e'). }
  destruct ok; cbn [negb].
  2: { split; [done|]. split; [done|]. split; [done|]. split; [intros Hl; by specialize (Hlc Hl)|].
    exists (h ++ [stores (lnet b1)]). by split. }
  rewrite Z.eqb_refl, bind_assoc. eapply post_bind; [apply SaveTablets_view|]. intros n' (Hv & _). cbn [mbind outcome_bind].
  unfold view in Hv. injection Hv as Hts _ _. cbn [set_table tablets_] in Hts.
  assert (Hd1 : stores (lnet b1) !! node_id t = Some (Some d)) by (rewrite Hn1; cbn; by rewrite lookup_insert_ne).
  assert (Hk2 : keeps n' (lnet b1) A).
  { apply (keep_route n n' _ A i t (node_id u) e1); try done; [rewrite Hn1; cbn; by rewrite lookup_insert_eq|].
    intros k v Hc HA. rewrite Hall by done. apply put_all_range. left. split; [done|].
    eapply (kp_owned _ _ _ Hk); [done|by exists t|done]. }
  set (b1' := t_publish b1 _). change (lnet b1) with (lnet b1') in Hd1, Hk1, Hk2.
  destruct (lossy_cleanup b1' (node_id t) d (start_key t) (end_key t) Hd1 (kp_inbox _ _ _ Hk1) Hhd Hlo Hhi)
    as (b2 & d2 & ok & -> & [Hf2 Hp2] & Hn2 & Hh2 & Hd2 & Hl2). cbn [mbind outcome_bind post fst snd].
  assert (Hk3 : keeps n' (lnet b2) A).
  { rewrite Hn2. eapply (keep_cleaned n' _ A i t (node_id u) d); try done; [apply Hk2|].
    rewrite Hts. apply list_lookup_insert_eq. by eapply lookup_lt_Some. }
  split; [done|]. split; [rewrite Hf2; exact Hf1|]. split; [done|]. split.
  { intros Hlose. split; [done|]. rewrite Hl2, Hd1, Hd; [done|]. intros c node f. cbn [b1' fate t_publish lossy_transport publish].
    rewrite Hf1. apply Hlose. }
  exists (h ++ [stores (lnet b1)]). split; [done|].
  split; [intros m; rewrite app_comm_cons, last_snoc; intros [= <-]; by apply keep_reads|].
  exists (stores (lnet b2)). split.
  { rewrite Hp2. cbn [b1' past t_publish lossy_transport publish]. by rewrite Hp1, Hts, <- !app_assoc. } split; [by apply keep_reads|].
  intros k Hc. exists d2. rewrite Hn2. cbn. split; [apply lookup_insert_eq|]. rewrite !get_view by done.
  destruct Hd2 as [-> | ->]; [left; eapply (keep_view n (lnet b)); [done..|by exists t]|].
  right. apply map_lookup_filter_None_2. right. intros x _ Hn. by apply Hn.
Qed.
End Moving.

(** ** Turns of the balancer over lossy connections *)
Section Turns.
Context {D : Type} `{LevelDBSpec D} `{JsonTextSpec} (fs : nat → fs_answer).
Implicit Types (w : Nodes D) (n : RaftNode) (A : gmap bytes bytes) (b : Lossy D).

Lemma lossy_sync_loop fuel n b A i :
  keeps n (lnet b) A →
  ∃ b' ts, sync_loop fuel b (tablets_ n) i = Ret (b', ts) ∧ lnet b' = lnet b ∧ Forall2 same_route (tablets_ n) ts.
Proof.
  revert n b i. induction fuel as [|fuel IH]; intros n b i Hk; cbn [sync_loop]; [by exists b, (tablets_ n)|].
  destruct (tablets_ n !! i) as [t|] eqn:Hi; [|by exists b, (tablets_ n)].
  destruct (lossy_stats n b A t 0 [] Hk ltac:(by eapply list_elem_of_lookup_2)) as (b1 & ok & Hn & ->).
  cbn [mbind outcome_bind]. rewrite <- Hn in Hk. destruct ok; cbn [negb].
  2: { destruct (IH n b1 (S i) Hk) as (b2 & ts & -> & Hn2 & Hf). exists b2, ts. by rewrite Hn2. }
  destruct (negb _).
  2: { destruct (IH n b1 (S i) Hk) as (b2 & ts & -> & Hn2 & Hf). exists b2, ts. by rewrite Hn2. }
  pose proof (set_count_route _ _ _ (count_of A t) Hi) as Hf.
  set (ts1 := <[i := _]> _) in *.
  destruct (IH (set_table n ts1 0 0) (t_publish b1 ts1) (S i)) as (b2 & ts & HR & Hn2 & Hts).
  { by apply (keep_same_route n). }
  exists b2, ts. split; [exact HR|]. split; [rewrite Hn2; exact Hn|]. by etransitivity.
Qed.

Lemma lossy_sync n b A :
  keeps n (lnet b) A →
  ∃ b' n', SyncAllTabletStats b n = Ret (b', n') ∧ lnet b' = lnet b ∧ keeps n' (lnet b') A ∧
    Forall2 same_route (tablets_ n) (tablets_ n').
Proof.
  intros Hk. unfold SyncAllTabletStats. case_bool_decide as E; [by exists b, n|].
  destruct (lossy_sync_loop (length (tablets_ n)) n b A 0 Hk) as (b' & ts & -> & Hn & Hf). cbn [mbind outcome_bind].
  eexists _, _. split; [done|]. split; [done|]. split; [|done]. rewrite Hn. by apply (keep_same_route n).
Qed.

Lemma lossy_publish tables b : lnet (fold_left t_publish tables b) = lnet b.
Proof. revert b. induction tables as [|ts tables IH]; intros b; [done|]. cbn [fold_left]. by rewrite IH. Qed.

Lemma lossy_split n b A i t :
  keeps n (lnet b) A → tablets_ n !! i = Some t →
  post (fun r : Lossy D * RaftNode * bool => lnet r.1.1 = lnet b ∧ keeps r.1.2 (lnet r.1.1) A ∧
          (tablets_ r.1.2 = tablets_ n ∨
           (SPLIT_THRESHOLD ≤ key_count t ∧ slt (start_key t) (median_of A t) ∧
            tablets_ r.1.2 = split_table (tablets_ n) i t (next_tablet_id_ n) A)))
    (TrySplitTablet fs b n i).
Proof.
  intros Hk Hi.
  destruct (lossy_stats n b A t (key_count t) [] Hk ltac:(by eapply list_elem_of_lookup_2)) as (b1 & ok & Hn & Hq).
  destruct (median_wire A t (kp_wire _ _ _ Hk)) as [Hc Hm].
  eapply post_mono; [eapply (TrySplitTablet_stats fs b b1 n i t _ _ _ Hi Hq); destruct ok; [lia|done]|].
  intros [[b2 n2] ok2] (Hb & Hts); cbn [fst snd] in *.
  assert (Hn2 : lnet b2 = lnet b) by (destruct Hb as [->|[tables ->]]; [done|by rewrite lossy_publish]).
  split; [done|]. rewrite Hn2.
  destruct Hts as [Hts|(Hkc & -> & Hlt & He & Hts)].
  - split; [|by left]. apply (keep_same_route n); [done|]. rewrite Hts. reflexivity.
  - split; [|by right]. apply (keep_retable n); [done|]. rewrite Hts. by apply split_owners; try apply Hk.
Qed.

(** Running out of fuel shows that there was too little. *)
Lemma lossy_split_loop fuel n b A i :
  keeps n (lnet b) A →
  post (fun r => match r with
                 | Some (b', n') => keeps n' (lnet b') A
                 | None => (fuel < sum_list_with (weight A) (drop i (tablets_ n)))%nat
                 end) (split_loop fs fuel b n i).
Proof.
  revert n b i. induction fuel as [|fuel IH]; intros n b i Hk; cbn [split_loop];
    (destruct (tablets_ n !! i) as [t|] eqn:Hi; [|done]);
    (assert (Hw : (1 ≤ weight A t)%nat) by (unfold weight; lia));
    (erewrite drop_S by done; cbn [sum_list_with]); [cbn [post]; lia|].
  assert (Hmono : ∀ x (m : outcome (option (Lossy D * RaftNode))), (x < weight A t + sum_list_with (weight A) (drop (S i) (tablets_ n)))%nat →
    post (fun r => match r with Some (b', n') => keeps n' (lnet b') A | None => (fuel < x)%nat end) m →
    post (fun r => match r with Some (b', n') => keeps n' (lnet b') A
      | None => (S fuel < weight A t + sum_list_with (weight A) (drop (S i) (tablets_ n)))%nat end) m).
  { intros x m Hx Hm. eapply post_mono; [exact Hm|]. intros [[b' n']|]; [done|lia]. }
  destruct (Z.leb_spec SPLIT_THRESHOLD (key_count t)) as [Hc|Hc]; [|eapply Hmono; [|by apply IH]; lia].
  eapply post_bind; [by apply (lossy_split n b A i t)|].
  intros [[b1 n1] ok] (_ & Hk1 & Hts). cbn [fst snd] in Hk1, Hts. eapply Hmono; [|by apply IH].
  destruct Hts as [->|(_ & Hlt & ->)]; [lia|].
  pose proof (split_table_weight A (tablets_ n) i t (next_tablet_id_ n) Hi Hc Hlt) as Hw1.
  erewrite (drop_S (tablets_ n)) in Hw1 by done. cbn [sum_list_with] in Hw1. lia.
Qed.

Lemma lossy_balance dur n b A :
  keeps n (lnet b) A →
  post (fun r : Lossy D * RaftNode * bool => keeps r.1.2 (lnet r.1.1) A) (DoLoadBalance fs dur b n).
Proof.
  intros Hk. unfold DoLoadBalance. destruct (plan_balance (tablets_ n)) as [[[i src] dst]|] eqn:E; [|done].
  apply plan_balance_owner in E as [Hdst Hi]. destruct (lookup_lt_is_Some_2 _ _ Hi) as [t Ht].
  assert (Hcount : ∀ (m : RaftNode) c ms (w : Nodes D), keeps m w A → keeps (set_transfer m c ms) w A).
  { intros m c ms w Hm. apply (keep_same_route m); [done|]. reflexivity. }
  destruct (decide (node_id t = dst)) as [Heq|Hne].
  - unfold MigrateTablet. rewrite Ht. destruct (Z.eqb_spec (node_id t) dst); [|done].
    cbn [mbind outcome_bind]. rewrite Ht. by apply Hcount.
  - eapply post_bind; [by apply (lossy_migrate fs n b A i t dst)|].
    intros [[b1 n1] ok] (Hk1 & _ & Hts & _). cbn [fst snd] in *.
    destruct (tablets_ n1 !! i) eqn:E; [by apply Hcount|]. exfalso. rewrite Hts in E.
    destruct ok; [rewrite list_lookup_insert_eq in E by done|rewrite Ht in E]; done.
Qed.

Lemma lossy_round fuel dur n b A :
  keeps n (lnet b) A →
  post (fun r => match r with
                 | Some (b', n') => keeps n' (lnet b') A
                 | None => (fuel < split_fuel A (tablets_ n))%nat
                 end) (BalancerRound fs fuel dur b n).
Proof.
  intros Hk. unfold BalancerRound. destruct (lossy_sync n b A Hk) as (b1 & n1 & -> & _ & Hk1 & Hf).
  cbn [mbind outcome_bind]. eapply post_bind; [by apply (lossy_split_loop fuel n1 b1 A 0)|].
  rewrite drop_0, (split_fuel_route A _ _ Hf). pose proof (weight_fuel A (tablets_ n1)).
  intros [[b2 n2]|] Hk2; [|cbn [post]; lia]. eapply post_bind; [by apply lossy_balance|].
  by intros [[b3 n3] ok] Hk3.
Qed.

(** ** Clients between the turns *)

(** The PUT of a client at the owner of its key. *)
Lemma keep_put n b A t d rid key value :
  keeps n (lnet b) A → t ∈ tablets_ n → covers t key → stores (lnet b) !! node_id t = Some (Some d) →
  wire_map (<[key := value]> A) →
  ∃ d1, HandleDataNodeRequest (Some d) rid (kv_payload OP_PUT key value) = Ret (Some d1, [byte_of_Z ST_OK]) ∧
    keeps n (set_store (lnet b) (node_id t) (Some d1)) (<[key := value]> A).
Proof.
  intros [Hp Hs Hst Hh Hsub Hv Hin Hw] Ht Hc Hd Hw'.
  assert (Hkv : wire_entry (key, value)) by (apply Hw', lookup_insert_eq). destruct Hkv as [Hkl Hvl]. cbn [fst snd] in Hkl, Hvl.
  destruct (put_applied d rid key value (Hh _ _ Hd) Hkl Hvl) as (d1 & Hput & Hh1 & Hv1).
  exists d1. split; [done|]. split; try done.
  - intros u Hu. cbn. destruct (decide (node_id u = node_id t)) as [->|].
    + rewrite lookup_insert_eq. eauto.
    + rewrite lookup_insert_ne by done. auto.
  - intros node x Hx. apply store_at in Hx as [[_ ->]|[_ Hx]]; [done|by eapply Hh].
  - intros node x k v Hx Hk. apply lookup_insert_is_Some. destruct (decide (key = k)); [by left|right; split; [done|]].
    apply store_at in Hx as [[_ ->]|[_ Hx]]; [|by eapply Hsub].
    rewrite Hv1, lookup_insert_ne in Hk by done. by eapply Hsub.
  - intros node x k v Hx Ho HA. apply store_at in Hx as [[-> ->]|[Hne Hx]].
    + rewrite Hv1. apply lookup_insert_Some in HA as [[-> ->]|[Hk HA]]; [apply lookup_insert_eq|].
      rewrite lookup_insert_ne by done. by eapply Hv.
    + apply lookup_insert_Some in HA as [[<- _]|[_ HA]]; [|by eapply Hv].
      by apply (owner_of _ _ _ _ Hp Ht Hc) in Ho.
Qed.

(** A client, on a connection of its own, PUTs a key at the node the table routes it to; or
    the balancer has a turn, with any fuel and any measured time.  The last component is the map of the clients. *)
Inductive lossy_step : Lossy D * RaftNode * gmap bytes bytes → Lossy D * RaftNode * gmap bytes bytes → Prop :=
  | lossy_client b n A t d d1 rid key value :
      GetTabletRoute (tablets_ n) key = Ret (Some t) → stores (lnet b) !! node_id t = Some (Some d) →
      HandleDataNodeRequest (Some d) rid (kv_payload OP_PUT key value) = Ret (Some d1, [byte_of_Z ST_OK]) →
      wire_map (<[key := value]> A) →
      lossy_step (b, n, A) (with_net b (set_store (lnet b) (node_id t) (Some d1)), n, <[key := value]> A)
  | lossy_turn b n A fuel dur b' n' :
      BalancerRound fs fuel dur b n = Ret (Some (b', n')) → lossy_step (b, n, A) (b', n', A).

Lemma lossy_step_keeps s s' :
  lossy_step s s' → keeps s.1.2 (lnet s.1.1) s.2 → keeps s'.1.2 (lnet s'.1.1) s'.2.
Proof.
  destruct 1 as [b n A t d d1 rid key value HR Hd Hput Hw|b n A fuel dur b' n' Hrun]; cbn [fst snd lnet with_net]; intros Hk.
  - destruct (route_exact (tablets_ n) key (kp_partition _ _ _ Hk)) as (i & u & _ & Hi & HR' & Hc & _).
    rewrite HR in HR'. injection HR' as <-.
    destruct (keep_put n b A t d rid key value Hk (list_elem_of_lookup_2 _ _ _ Hi) Hc Hd Hw) as (d2 & Hput2 & Hk2).
    rewrite Hput in Hput2. by injection Hput2 as <-.
  - exact (post_ret_inv _ _ _ (lossy_round fuel dur n b A Hk) Hrun).
Qed.

Lemma lossy_run_keeps s s' :
  rtc lossy_step s s' → keeps s.1.2 (lnet s.1.1) s.2 → keeps s'.1.2 (lnet s'.1.1) s'.2.
Proof. induction 1 as [|s s1 s2 Hstep _ IH]; [done|]. intros Hk. by eapply IH, lossy_step_keeps. Qed.
End Turns.

(** ** An answer that comes too late *)
(** No node has a record of the key any more. *)
Definition lost {D} `{LevelDB D} (w : Nodes D) (k : bytes) : Prop :=
  ∀ node d, stores w !! node = Some (Some d) → ldb_view d !! k = None.

Section Late.
Context {D : Type} `{LevelDBSpec D}.
Implicit Types (w : Nodes D) (d : D).

(** A cleanup is served whatever answer the master reads. *)
Lemma cleanup_stores w node d lo hi w' ok :
  stores w !! node = Some (Some d) → zlen lo < 2 ^ 16 → zlen hi < 2 ^ 16 →
  SendDeleteRange w node lo hi = Ret (w', ok) → stores w' = <[node := Some (DeleteRange d lo hi).1]> (stores w).
Proof.
  intros Hst Hlo Hhi. unfold SendDeleteRange. rewrite (connected w node _ Hst). cbn [negb].
  destruct (range_request_frame OP_DELETE_RANGE lo hi Hlo Hhi) as [-> Hfit]. unfold call.
  cbn [t_send t_recv nodes_transport]. unfold deliver. rewrite Hst, serve_frame_request by (done || lia).
  rewrite delete_range_request by done. unfold status. cbn [mbind outcome_bind]. rewrite pack_response_cons. cbn [mbind outcome_bind negb].
  destruct (receive _ node) as [w1 r] eqn:Hrecv. apply receive_stores in Hrecv. cbn [stores] in Hrecv.
  destruct r as [f|]; cbn [mbind outcome_bind]; [|by intros [= <- _]].
  destruct (TryDecode f) as [[rid n p|]| |]; cbn [mbind outcome_bind]; try done; [|by intros [= <- _]].
  case_bool_decide; [by intros [= <- _]|]. destruct (at_ _ 0); cbn [mbind outcome_bind]; [by intros [= <- _]|done|done].
Qed.

(** The answer to TABLET_STATS of a range without keys. *)
Definition empty_stats : bytes := frame 1 (resp_payload ST_OK (be32 0 ++ be16 0)).

Lemma empty_stats_sent w node d lo hi :
  stores w !! node = Some (Some d) → ldb_healthy d → zlen lo < 2 ^ 16 → zlen hi < 2 ^ 16 →
  map_range (ldb_view d) lo hi = [] →
  t_send w node (range_request OP_TABLET_STATS lo hi) =
    ({| stores := stores w; inbox := inbox w ++ [(node, empty_stats)] |}, true).
Proof.
  intros Hst Hh Hlo Hhi Hnone. destruct (range_request_frame OP_TABLET_STATS lo hi Hlo Hhi) as [-> Hfit].
  cbn [t_send nodes_transport]. unfold deliver. rewrite Hst, serve_frame_request by (done || lia).
  pose proof (stats_served d lo hi Hh Hlo Hhi) as Hs. cbv zeta in Hs. rewrite Hnone in Hs.
  rewrite Hs by (vm_compute; congruence || reflexivity). cbn [mbind outcome_bind]. rewrite pack_response_cons.
  cbn [mbind outcome_bind]. rewrite insert_id by done. reflexivity.
Qed.

(** Read as the answer to SCAN_RANGE it announces no records. *)
Lemma scan_reads_empty w src dst st d lo hi :
  stores w !! src = Some (Some d) → stores w !! dst = Some st → inbox w = [(src, empty_stats)] → ldb_healthy d →
  zlen lo < 2 ^ 16 → zlen hi < 2 ^ 16 → zlen (map_range (ldb_view d) lo hi) < 2 ^ 32 →
  ∃ w', ScanAndTransferData w src dst lo hi = Ret (w', true) ∧ stores w' = stores w.
Proof.
  intros Hsrc Hdst Hin Hd Hlo Hhi Hn. unfold ScanAndTransferData.
  rewrite (connected w src _ Hsrc), (connected w dst _ Hdst). cbn [negb].
  destruct (range_request_frame OP_SCAN_RANGE lo hi Hlo Hhi) as [-> Hfit].
  assert (Hcall : ∃ w', call w src (frame 1 (range_payload OP_SCAN_RANGE lo hi)) 30000 =
    Ret (w', Some (resp_payload ST_OK (be32 0 ++ be16 0))) ∧ stores w' = stores w).
  { unfold call. cbn [t_send t_recv nodes_transport]. unfold deliver.
    rewrite Hsrc, serve_frame_request, scan_request by (done || lia). unfold status. cbn [mbind outcome_bind app].
    rewrite pack_response_cons. cbn [mbind outcome_bind negb]. unfold receive. cbn [inbox]. rewrite Hin. cbn [app take_reply].
    rewrite Z.eqb_refl. rewrite bool_decide_eq_true_2 by (split; [vm_compute; congruence|reflexivity]).
    eexists. split; [reflexivity|]. cbn [stores]. by rewrite insert_id. }
  destruct Hcall as (w' & -> & Hst). exists w'. split; [reflexivity|done].
Qed.
End Late.

(** ** Properties *)

(** C3: losses are harmless to clients that only write: from a cluster that represents a map, in any
    sequence of PUTs of clients and turns of the balancer, whatever
    requests and answers of the master are lost on the way to and from the data nodes (requests not
    delivered, answers not delivered, failing sends, in any pattern), every
    key is routed to a node that stores it exactly as in the clients' map, and answers [ST_OK] to the next PUT of it;
    a failed migration changes no route; the balancer never runs into undefined behaviour, and with enough fuel
    its next turn ends (or throws in printing the table).  What is left behind are stray records, of keys of the map, on
    nodes that do not own them. *)
Theorem losses_keep_map {D} `{LevelDBSpec D} `{JsonTextSpec} (fs : nat → fs_answer)
    (b b' : Lossy D) (n n' : RaftNode) (A A' : gmap bytes bytes)
    (Hr : represents n (lnet b) A) (Hrun : rtc (lossy_step fs) (b, n, A) (b', n', A')) :
  reads (tablets_ n') (stores (lnet b')) A' ∧
  (∀ k value, wire_map (<[k := value]> A') → ∃ s, lossy_step fs (b', n', A') (s, n', <[k := value]> A')) ∧
  (∀ node d k v, stores (lnet b') !! node = Some (Some d) → ldb_view d !! k = Some v → is_Some (A' !! k)) ∧
  (∀ i dst, dst ∈ node_id <$> tablets_ n' →
     post (fun r => r.2 = false → tablets_ r.1.2 = tablets_ n') (MigrateTablet fs b' n' i dst)) ∧
  (∀ dur, post (fun r => r ≠ None) (BalancerRound fs (split_fuel A' (tablets_ n')) dur b' n')).
Proof.
  pose proof (lossy_run_keeps fs _ _ Hrun (represents_keeps _ _ _ Hr)) as Hk. cbn [fst snd] in Hk.
  split; [by apply keep_reads|]. split; [|split; [by apply Hk|split]].
  - intros k value Hw. destruct (route_exact (tablets_ n') k (kp_partition _ _ _ Hk)) as (i & t & _ & Hi & HR & Hc & _).
    pose proof (list_elem_of_lookup_2 _ _ _ Hi) as Ht. destruct (kp_store _ _ _ Hk t Ht) as [d Hd].
    destruct (keep_put n' b' A' t d 0 k value Hk Ht Hc Hd Hw) as (d1 & Hput & _). eexists. by eapply lossy_client.
  - intros i dst Hdst. destruct (tablets_ n' !! i) as [t|] eqn:Hi.
    + destruct (decide (node_id t = dst)) as [Heq|Hne].
      * unfold MigrateTablet. rewrite Hi. by destruct (Z.eqb_spec (node_id t) dst).
      * eapply post_mono; [by apply (lossy_migrate fs n' b' A' i t dst)|].
        intros [[b1 n1] ok] (_ & _ & Hts & _) E. cbn [fst snd] in *. by rewrite E in Hts.
    + unfold MigrateTablet. by rewrite Hi.
  - intros dur. eapply post_mono; [by apply lossy_round|]. intros [r|]; [done|lia].
Qed.

Definition demo_lossy (fate : nat → Z → bytes → fault) : Lossy MemDB :=
  {| lnet := spread_nodes (tablets_ demo_fresh) demo_map; clock := 0; fate := fate; past := [] |}.

(** Every fifth answer is lost, and every cleanup. *)
Definition demo_fate (c : nat) (node : Z) (f : bytes) : fault :=
  if is_delete_range f then LoseRequest else if (c mod 5 =? 4)%nat then LoseAnswer else Deliver.

(** A turn, a PUT of a new key, and another turn. *)
Lemma losses_keep_map_witness :
  ∃ b' n', rtc (@lossy_step MemDB _ ref_json_text good_fs) (demo_lossy demo_fate, demo_fresh, demo_map)
             (b', n', <[str "cc" := str "new"]> demo_map) ∧
    node_id <$> tablets_ n' = [2; 2; 3] ∧
    ∃ t d, GetTabletRoute (tablets_ n') (str "cc") = Ret (Some t) ∧ stores (lnet b') !! node_id t = Some (Some d) ∧
      Get d (str "cc") = Some (str "new").
Proof.
  assert (Hrun : ∃ b' n', rtc (@lossy_step MemDB _ ref_json_text good_fs) (demo_lossy demo_fate, demo_fresh, demo_map)
             (b', n', <[str "cc" := str "new"]> demo_map) ∧ node_id <$> tablets_ n' = [2; 2; 3]).
  { assert (Hc : match @BalancerRound _ _ ref_json_text good_fs 30 7 (demo_lossy demo_fate) demo_fresh with
      | Ret (Some (b1, n1)) => match GetTabletRoute (tablets_ n1) (str "cc") with
        | Ret (Some t) => match stores (lnet b1) !! node_id t with
          | Some (Some d) => match HandleDataNodeRequest (Some d) 0 (kv_payload OP_PUT (str "cc") (str "new")) with
            | Ret (Some d1, r) => r = [byte_of_Z ST_OK] ∧
                match @BalancerRound _ _ ref_json_text good_fs 30 7 (with_net b1 (set_store (lnet b1) (node_id t) (Some d1))) n1 with
                | Ret (Some (_, n2)) => node_id <$> tablets_ n2 = [2; 2; 3]
                | _ => False
                end
            | _ => False end
          | _ => False end
        | _ => False end
      | _ => False end) by (vm_compute; repeat split).
    destruct (@BalancerRound _ _ ref_json_text good_fs 30 7 (demo_lossy demo_fate) demo_fresh) as [[[b1 n1]|]| |] eqn:E1;
      [|destruct Hc..].
    destruct (GetTabletRoute (tablets_ n1) (str "cc")) as [[t|]| |] eqn:E2; [|destruct Hc..].
    destruct (stores (lnet b1) !! node_id t) as [[d|]|] eqn:E3; [|destruct Hc..].
    destruct (HandleDataNodeRequest (Some d) 0 _) as [[[d1|] r]| |] eqn:E4; [|destruct Hc..]. destruct Hc as [-> Hc].
    destruct (@BalancerRound _ _ ref_json_text good_fs 30 7 (with_net b1 _) n1) as [[[b2 n2]|]| |] eqn:E5; [|destruct Hc..].
    exists b2, n2. split; [|exact Hc].
    eapply rtc_l; [by eapply lossy_turn|]. eapply rtc_l; [|eapply rtc_once; by eapply lossy_turn].
    eapply lossy_client; [exact E2|exact E3|exact E4|apply (bool_decide_unpack _); vm_compute; exact I]. }
  destruct Hrun as (b' & n' & Hrun & Hn). exists b', n'. split; [exact Hrun|]. split; [exact Hn|].
  destruct (@losses_keep_map MemDB _ _ ref_json_text ref_json_text_spec good_fs
    (demo_lossy demo_fate) b' demo_fresh n' demo_map _ demo_represents Hrun) as (Hk & _).
  destruct (Hk (str "cc")) as (t & d & HR & Hd & Hg).
  exists t, d. split; [exact HR|]. split; [exact Hd|]. rewrite Hg. vm_compute. reflexivity.
Defined.

(** C5: clients can read while a tablet moves.  In a cluster that got where it is by PUTs of clients and
    turns of the balancer, with connections that lose what they like, the requests of a migration but the last (the scan and
    the records) come first, then the assignment that switches the route, then the last request, the cleanup.  After every request
    up to the switch a GET at the node of the old table finds what the map has, for every key; at the switch
    and after the cleanup it does so at the node of the new table, which readers find by then.  Only a reader that took its route before the switch and comes after the
    cleanup may be told that a key does not exist; nobody ever reads a wrong value.  A migration
    that fails switches nothing. *)
Theorem reads_during_migration {D} `{LevelDBSpec D} `{JsonTextSpec} (fs : nat → fs_answer) (b0 b b' : Lossy D)
    (n0 n n' : RaftNode) (A0 A : gmap bytes bytes) (i : nat) (t : Tablet) (dst : Z) (ok : bool)
    (Hr : represents n0 (lnet b0) A0) (Hbefore : rtc (lossy_step fs) (b0, n0, A0) (b, n, A))
    (Hi : tablets_ n !! i = Some t) (Hne : node_id t ≠ dst) (Hdst : dst ∈ node_id <$> tablets_ n)
    (Hrun : MigrateTablet fs b n i dst = Ret (b', n', ok)) :
  tablets_ n' = (if ok then <[i := set_node t dst]> (tablets_ n) else tablets_ n) ∧
  ∃ h, (∀ x, x ∈ stores (lnet b) :: h → reads (tablets_ n) x A) ∧
    if ok then
      (∀ m, last (stores (lnet b) :: h) = Some m → reads (tablets_ n') m A) ∧
      ∃ x, past b' = past b ++ (Stored <$> h) ++ [Published (tablets_ n'); Stored x] ∧
        reads (tablets_ n') x A ∧ stale_reads A t x
    else past b' = past b ++ (Stored <$> h).
Proof.
  pose proof (lossy_run_keeps fs _ _ Hbefore (represents_keeps _ _ _ Hr)) as Hk. cbn [fst snd] in Hk.
  pose proof (post_ret_inv _ _ _ (lossy_migrate fs n b A i t dst Hk Hi Hne Hdst) Hrun)
    as (_ & _ & Hts & _ & h & Hh & Hm). cbn [fst snd] in *.
  rewrite Forall_forall in Hh. split; [done|]. exists h. split; [|exact Hm].
  intros x [->|Hx]%elem_of_cons; [by apply keep_reads|by apply Hh].
Qed.

(** The scan, eight records, the switch, and the cleanup. *)
Lemma reads_during_migration_witness :
  ∃ b' n' h x, @MigrateTablet _ _ ref_json_text good_fs (demo_lossy (fun _ _ _ => Deliver)) demo_fresh 0 3 = Ret (b', n', true) ∧
    past b' = (Stored <$> h) ++ [Published (tablets_ n'); Stored x] ∧ length h = 9%nat ∧
    (∀ y, y ∈ h → ∃ t d, GetTabletRoute (tablets_ demo_fresh) (str "c") = Ret (Some t) ∧ y !! node_id t = Some (Some d) ∧
       Get d (str "c") = Some (str "3")) ∧
    ∃ t d, GetTabletRoute (tablets_ n') (str "c") = Ret (Some t) ∧ x !! node_id t = Some (Some d) ∧
       Get d (str "c") = Some (str "3").
Proof.
  set (shape := fun m : moment (D := MemDB) => match m with Stored _ => false | Published _ => true end).
  assert (Hn : match @MigrateTablet _ _ ref_json_text good_fs (demo_lossy (fun _ _ _ => Deliver)) demo_fresh 0 3 with
               | Ret (b', _, ok) => ok = true ∧ shape <$> past b' = replicate 9 false ++ [true; false]
               | _ => False end) by (vm_compute; split; reflexivity).
  destruct (@MigrateTablet _ _ ref_json_text good_fs (demo_lossy (fun _ _ _ => Deliver)) demo_fresh 0 3) as [[[b' n'] ok]| |] eqn:Hm;
    [|destruct Hn..]. destruct Hn as [-> Hn].
  assert (Hdst : 3 ∈ node_id <$> tablets_ demo_fresh) by (apply (bool_decide_unpack _); vm_compute; exact I).
  assert (Hne : 2 ≠ 3) by discriminate.
  assert (Hg : demo_map !! str "c" = Some (str "3")) by (vm_compute; reflexivity).
  destruct (@reads_during_migration MemDB _ _ ref_json_text ref_json_text_spec good_fs (demo_lossy (fun _ _ _ => Deliver))
    (demo_lossy (fun _ _ _ => Deliver)) b' demo_fresh demo_fresh n' demo_map demo_map 0
    {| tid := 1; start_key := []; end_key := str "m"; node_id := 2; key_count := 0 |} 3 true
    demo_represents (rtc_refl _ _) eq_refl Hne Hdst Hm) as (_ & h & Hold & _ & x & Hpast & Hnew & _).
  change (past b' = (Stored <$> h) ++ [Published (tablets_ n'); Stored x]) in Hpast.
  assert (Hl : length h = 9%nat).
  { apply (f_equal length) in Hn. rewrite Hpast, length_fmap, !length_app, length_fmap in Hn. cbn [length replicate] in Hn. lia. }
  exists b', n', h, x. split; [reflexivity|]. split; [exact Hpast|]. split; [exact Hl|]. rewrite <- Hg. split.
  - intros y Hy. apply Hold. right. exact Hy.
  - exact (Hnew (str "c")).
Defined.

(** C30: a late answer loses a tablet: the master does not compare the request id of an answer
    with that of its request.  When the statistics request for an empty tablet [u] of a node has timed out, its answer
    is still in the connection; if the next thing is a migration of a tablet [t] away from this
    node, the master takes the statistics for the scan: zero records.  The migration
    succeeds, the tablet is routed to the destination, and the cleanup
    deletes its records at the source: no node has any key of the tablet afterwards. *)
Theorem late_answer_loses_tablet {D} `{LevelDBSpec D} `{JsonTextSpec} (fs : nat → fs_answer) (w0 w w' : Nodes D)
    (n n' : RaftNode) (A : gmap bytes bytes) (i : nat) (t u : Tablet) (dst : Z) (ok : bool)
    (Hr : represents n w0 A) (Hi : tablets_ n !! i = Some t) (Hu : u ∈ tablets_ n) (Hsame : node_id u = node_id t)
    (Hempty : ∀ k v, A !! k = Some v → ¬ covers u k)
    (Hne : node_id t ≠ dst) (Hdst : dst ∈ node_id <$> tablets_ n)
    (Hsend : t_send w0 (node_id u) (range_request OP_TABLET_STATS (start_key u) (end_key u)) = (w, true))
    (Hrun : MigrateTablet fs w n i dst = Ret (w', n', ok)) :
  ok = true ∧ tablets_ n' = <[i := set_node t dst]> (tablets_ n) ∧
  ∀ k v, covers t k → A !! k = Some v → lost w' k.
Proof.
  pose proof (list_elem_of_lookup_2 _ _ _ Hi) as Ht. pose proof (rep_partition _ _ _ Hr) as Hp.
  destruct (rep_store _ _ _ Hr t Ht) as [d Hd]. pose proof (rep_healthy _ _ _ Hr _ _ Hd) as Hh.
  pose proof Hdst as (x & -> & Hx)%list_elem_of_fmap. destruct (rep_store _ _ _ Hr x Hx) as [e He].
  pose proof (rep_short _ _ _ Hr) as Hs. rewrite Forall_forall in Hs. destruct (Hs t Ht) as [Hlo Hhi], (Hs u Hu) as [Hlou Hhiu].
  destruct (wire_range A (ldb_view d) (start_key t) (end_key t) (rep_wire _ _ _ Hr) (rep_subset _ _ _ _ _ Hr Hd)) as (_ & _ & Hn).
  rewrite Hsame in Hsend.
  assert (Hnone : map_range (ldb_view d) (start_key u) (end_key u) = []).
  { rewrite <- Hsame in Hd. rewrite (rep_range n w0 A u d Hr Hu Hd).
    destruct (map_range A _ _) as [|[k v] l] eqn:E; [done|]. exfalso.
    assert (Hin : (k, v) ∈ map_range A (start_key u) (end_key u)) by (rewrite E; left).
    apply elem_of_map_range in Hin as [Hv Hc]. by eapply Hempty. }
  rewrite (empty_stats_sent w0 (node_id t) d) in Hsend by done. rewrite (rep_inbox _ _ _ Hr) in Hsend. cbn [app] in Hsend. injection Hsend as <-.
  edestruct (scan_reads_empty {| stores := stores w0; inbox := [(node_id t, empty_stats)] |} (node_id t) (node_id x)
    (Some e) d (start_key t) (end_key t)) as (w1 & Hscan & Hw1); try done; [lia|].
  destruct (migrate_inv fs _ _ _ _ _ _ _ _ _ Hi Hne Hscan Hrun) as (-> & Hts & c & Hdel). cbn [t_publish nodes_transport stores] in Hdel, Hw1.
  apply (cleanup_stores w1 (node_id t) d) in Hdel; [|by rewrite Hw1|done|done]. rewrite Hw1 in Hdel.
  destruct (DeleteRange_healthy d (start_key t) (end_key t) Hh) as (_ & _ & Hcut).
  destruct (DeleteRange d (start_key t) (end_key t)) as [d' del]. cbn [fst] in Hdel, Hcut.
  split; [done|]. split; [done|]. intros k v Hc Hv node y Hy. rewrite Hdel in Hy.
  apply lookup_insert_Some in Hy as [[<- [= <-]]|[Hnn Hy]].
  - rewrite Hcut. apply map_lookup_filter_None_2. right. intros z _ Hz. by apply Hz.
  - destruct (ldb_view y !! k) as [z|] eqn:E; [|done]. exfalso. apply Hnn. symmetry.
    apply (rep_view _ _ _ Hr node y k z Hy) in E as [_ Ho]. by apply (owner_of _ _ _ _ Hp Ht Hc).
Qed.

(** Node 2 has a tablet with keys and an empty one. *)
Definition demo_two : RaftNode :=
  demo_master [ {| tid := 1; start_key := []; end_key := str "m"; node_id := 2; key_count := 8 |};
                {| tid := 3; start_key := str "m"; end_key := str "s"; node_id := 2; key_count := 0 |};
                {| tid := 4; start_key := str "s"; end_key := []; node_id := 3; key_count := 1 |} ].

Lemma demo_two_represents : represents demo_two (spread_nodes (tablets_ demo_two) demo_map) demo_map.
Proof.
  apply spread_represents; [apply (bool_decide_unpack _); vm_compute; exact I| |apply demo_represents].
  repeat (apply List.Forall_cons; [split; reflexivity|]). apply List.Forall_nil.
Qed.

Lemma late_answer_loses_tablet_witness :
  let w0 := spread_nodes (tablets_ demo_two) demo_map in
  ∃ w n' w', t_send w0 2 (range_request OP_TABLET_STATS (str "m") (str "s")) = (w, true) ∧
    @MigrateTablet _ _ ref_json_text good_fs w demo_two 0 3 = Ret (w', n', true) ∧
    node_id <$> tablets_ n' = [3; 2; 3] ∧
    ∀ node d, stores w' !! node = Some (Some d) → ldb_view d !! str "c" = None.
Proof.
  cbv zeta. set (w0 := spread_nodes (tablets_ demo_two) demo_map).
  assert (Hsent : (t_send w0 2 (range_request OP_TABLET_STATS (str "m") (str "s"))).2 = true) by (vm_compute; reflexivity).
  assert (Hret : match @MigrateTablet _ _ ref_json_text good_fs
      (t_send w0 2 (range_request OP_TABLET_STATS (str "m") (str "s"))).1 demo_two 0 3 with Ret _ => true | _ => false end = true)
    by (vm_compute; reflexivity).
  destruct (t_send w0 2 (range_request OP_TABLET_STATS (str "m") (str "s"))) as [w b] eqn:Hs.
  cbn [fst snd] in Hsent, Hret. subst b.
  destruct (@MigrateTablet _ _ ref_json_text good_fs w demo_two 0 3) as [[[w' n'] ok]| |] eqn:Hm;
    [|discriminate Hret|discriminate Hret].
  assert (Hempty : map_Forall (fun k _ => ¬ covers {| tid := 3; start_key := str "m"; end_key := str "s"; node_id := 2; key_count := 0 |} k)
    demo_map) by (apply (bool_decide_unpack _); vm_compute; exact I).
  assert (Hc : covers {| tid := 1; start_key := []; end_key := str "m"; node_id := 2; key_count := 8 |} (str "c"))
    by (apply (bool_decide_unpack _); vm_compute; exact I).
  assert (Hg : demo_map !! str "c" = Some (str "3")) by (vm_compute; reflexivity).
  assert (Hdst : 3 ∈ node_id <$> tablets_ demo_two) by (apply (bool_decide_unpack _); vm_compute; exact I).
  assert (Hu : {| tid := 3; start_key := str "m"; end_key := str "s"; node_id := 2; key_count := 0 |} ∈ tablets_ demo_two)
    by (right; left).
  assert (Hne : 2 ≠ 3) by discriminate.
  destruct (@late_answer_loses_tablet MemDB _ _ ref_json_text ref_json_text_spec good_fs w0 w w' demo_two n' demo_map 0
    {| tid := 1; start_key := []; end_key := str "m"; node_id := 2; key_count := 8 |}
    {| tid := 3; start_key := str "m"; end_key := str "s"; node_id := 2; key_count := 0 |} 3 ok
    demo_two_represents eq_refl Hu eq_refl Hempty Hne Hdst Hs Hm) as (Hok & Hts & Hgone).
  exists w, n', w'. split; [reflexivity|]. split; [by rewrite Hok in Hm|]. split; [by rewrite Hts|].
  exact (Hgone (str "c") (str "3") Hc Hg).
Defined.

(** C31: a failed cleanup brings a deleted key back.  When the DELETE_RANGE at the end of a migration is
    lost the migration succeeds all the same and the source keeps its records.
    A client that then deletes a key at the new owner is answered [ST_OK] and the key is gone there; but
    when the tablet returns to the first node, the old record is served again. *)
Theorem failed_cleanup_resurrects {D} `{LevelDBSpec D} `{JsonTextSpec} (fs : nat → fs_answer) (b b1 : Lossy D)
    (n n1 : RaftNode) (A : gmap bytes bytes) (i : nat) (t : Tablet) (dst : Z) (key value : bytes) (ok : bool)
    (Hr : represents n (lnet b) A) (Hlose : loses_cleanups b) (Hi : tablets_ n !! i = Some t)
    (Hne : node_id t ≠ dst) (Hdst : dst ∈ node_id <$> tablets_ n) (Hc : covers t key) (Hv : A !! key = Some value)
    (Hrun : MigrateTablet fs b n i dst = Ret (b1, n1, ok)) :
  ok = true ∧ owner (tablets_ n1) dst key ∧
  ∃ d d1, stores (lnet b1) !! dst = Some (Some d) ∧ Get d key = Some value ∧
    HandleDataNodeRequest (Some d) 0 (kv_payload OP_DELETE key []) = Ret (Some d1, [byte_of_Z ST_OK]) ∧
    Get d1 key = None ∧
    ∀ w2 n2 ok2, MigrateTablet fs (set_store (lnet b1) dst (Some d1)) n1 i (node_id t) = Ret (w2, n2, ok2) →
      owner (tablets_ n2) (node_id t) key ∧ holds w2 (node_id t) key value.
Proof.
  pose proof (list_elem_of_lookup_2 _ _ _ Hi) as Ht. pose proof (rep_partition _ _ _ Hr) as Hp.
  destruct (rep_store _ _ _ Hr t Ht) as [e He].
  assert (Hev : ldb_view e !! key = Some value).
  { apply (rep_view _ _ _ Hr (node_id t) e key value He). split; [done|]. by exists t. }
  pose proof (post_ret_inv _ _ _ (lossy_migrate fs n b A i t dst (represents_keeps _ _ _ Hr) Hi Hne Hdst) Hrun)
    as (Hk & _ & Hts & Hl & _). destruct (Hl Hlose) as [Hok Hsrc]. cbn [fst snd] in *. subst ok. rewrite He in Hsrc.
  split; [done|]. assert (Hown : owner (tablets_ n1) dst key) by (rewrite Hts; apply owner_set_node; [done..|by left]).
  split; [done|]. pose proof (lookup_lt_Some _ _ _ Hi) as Hlt.
  assert (Hi1 : tablets_ n1 !! i = Some (set_node t dst)) by (rewrite Hts; by apply list_lookup_insert_eq).
  destruct (kp_store _ _ _ Hk (set_node t dst)) as [d Hd]; [by eapply list_elem_of_lookup_2|]. cbn [set_node node_id] in Hd.
  pose proof (kp_healthy _ _ _ Hk _ _ Hd) as Hh. pose proof (kp_healthy _ _ _ Hk _ _ Hsrc) as Hhe.
  destruct (kp_wire _ _ _ Hk) as [Hwire _]. destruct (Hwire key value Hv) as [Hkl _]. cbn [fst] in Hkl.
  destruct (ldb_delete_healthy d key Hh) as [Hdok Hh1].
  destruct (ldb_delete d key) as [d1 x] eqn:Edel. cbn [fst snd] in Hdok, Hh1. subst x.
  assert (Hv1 : ldb_view d1 = delete key (ldb_view d)) by (by apply ldb_delete_ok in Edel).
  exists d, d1. split; [done|]. split.
  { unfold Get. rewrite ldb_get_healthy by done. by rewrite (kp_owned _ _ _ Hk _ _ key value Hd Hown Hv). }
  split; [rewrite delete_request by done; unfold Delete; by rewrite Edel|].
  split; [unfold Get; rewrite ldb_get_healthy by done; by rewrite Hv1, lookup_delete_eq|].
  intros w2 n2 ok2 Hrun2. pose proof (kp_short _ _ _ Hk) as Hs. rewrite Forall_forall in Hs.
  destruct (migrate_onto fs (set_store (lnet b1) dst (Some d1)) w2 n1 n2 A i (set_node t dst) (node_id t) d1 e ok2)
    as [Hts2 Hback]; try done.
  - apply Hk.
  - apply Hs. by eapply list_elem_of_lookup_2.
  - apply Hk.
  - intros k v Hck Hvk. rewrite Hv1 in Hvk. apply lookup_delete_Some in Hvk as [_ Hvk].
    rewrite <- (keep_view n1 (lnet b1) A dst d k Hk Hd); [done|].
    exists (set_node t dst). split; [by eapply list_elem_of_lookup_2|done].
  - apply Hk.
  - cbn. apply lookup_insert_eq.
  - cbn. by rewrite lookup_insert_ne.
  - split; [rewrite Hts2; apply owner_set_node; [apply Hk|done|by left]|].
    apply Hback; [rewrite Hv1; apply lookup_delete_eq|done].
Qed.

Lemma failed_cleanup_resurrects_witness :
  ∃ b1 n1 d d1, @MigrateTablet _ _ ref_json_text good_fs (demo_lossy (fun _ _ f => if is_delete_range f then LoseRequest else Deliver))
      demo_fresh 0 3 = Ret (b1, n1, true) ∧
    stores (lnet b1) !! 3 = Some (Some d) ∧
    HandleDataNodeRequest (Some d) 0 (kv_payload OP_DELETE (str "c") []) = Ret (Some d1, [byte_of_Z ST_OK]) ∧
    ∀ w2 n2 ok2, @MigrateTablet _ _ ref_json_text good_fs (set_store (lnet b1) 3 (Some d1)) n1 0 2 = Ret (w2, n2, ok2) →
      owner (tablets_ n2) 2 (str "c") ∧ holds w2 2 (str "c") (str "3").
Proof.
  set (b := demo_lossy _).
  assert (Hret : match @MigrateTablet _ _ ref_json_text good_fs b demo_fresh 0 3 with Ret _ => true | _ => false end = true)
    by (vm_compute; reflexivity).
  destruct (@MigrateTablet _ _ ref_json_text good_fs b demo_fresh 0 3) as [[[b1 n1] ok]| |] eqn:Hm;
    [|discriminate Hret|discriminate Hret].
  assert (Hc : covers {| tid := 1; start_key := []; end_key := str "m"; node_id := 2; key_count := 0 |} (str "c"))
    by (apply (bool_decide_unpack _); vm_compute; exact I).
  assert (Hg : demo_map !! str "c" = Some (str "3")) by (vm_compute; reflexivity).
  assert (Hdst : 3 ∈ node_id <$> tablets_ demo_fresh) by (apply (bool_decide_unpack _); vm_compute; exact I).
  assert (Hne : 2 ≠ 3) by discriminate.
  assert (Hl : loses_cleanups b) by (intros c node f; reflexivity).
  destruct (@failed_cleanup_resurrects MemDB _ _ ref_json_text ref_json_text_spec good_fs b b1 demo_fresh n1 demo_map 0
    {| tid := 1; start_key := []; end_key := str "m"; node_id := 2; key_count := 0 |} 3 (str "c") (str "3") ok
    demo_represents Hl eq_refl Hne Hdst Hc Hg Hm) as (Hok & _ & d & d1 & Hd & _ & Hdel & _ & Hback).
  exists b1, n1, d, d1. split; [by rewrite Hok|]. split; [exact Hd|]. split; [exact Hdel|]. exact Hback.
Defined.
