(* ===== verification/Concurrency.v ===== *)
(** * What others can meet while the balancer works (src/kv/raft_node.cpp)

    The balancer thread of the master changes the table without a lock while the
    threads of the server read it, and the clients write to the data nodes while
    a tablet moves.  Here are the interleavings at the two places where the
    program has a window: between the two assignments of a split, which an observer of the table
    sees one after the other, and between the copy of a migration and its cleanup. *)

From S2P Require Import Prelude StringOrder BinaryProtocol Storage RpcClient RpcServer DataNode.
From S2P Require Import Json Config Tablet RaftNode TableSteps BalancePlan Balancer Cluster Faults.

(** ** A reader between the steps of a split *)

(** The table when [tablets_[idx] = left] is done and
    [tablets_.insert(tablets_.begin() + idx + 1, right)] is not. *)
Definition half_split (ts : list Tablet) (idx : nat) (left : Tablet) : list Tablet := <[idx := left]> ts.

(** The search looks at the start keys only. *)
Lemma search_loop_starts {A} (f : A → bytes) fuel (l l' : list A) key left right :
  f <$> l = f <$> l' → search_loop f fuel l key left right = search_loop f fuel l' key left right.
Proof.
  intros Hl. revert left right. induction fuel as [|fuel IH]; intros left right; cbn [search_loop]; [done|].
  destruct (left <? right)%nat; [|done].
  assert (Hm : ∀ m, f <$> l !! m = f <$> l' !! m) by (intros m; by rewrite <- !list_lookup_fmap, Hl).
  specialize (Hm (left + (right - left) / 2)%nat).
  destruct (l !! _), (l' !! _); try done. cbn in Hm. injection Hm as ->. by rewrite !IH.
Qed.

Lemma route_starts (ts ts' : list Tablet) key :
  start_key <$> ts = start_key <$> ts' → FindTabletIndex ts key = FindTabletIndex ts' key.
Proof.
  intros Hs. assert (Hlen : length ts = length ts') by (by rewrite <- (length_fmap start_key ts), Hs, length_fmap).
  unfold FindTabletIndex, search. by rewrite Hlen, (search_loop_starts _ _ _ _ _ _ _ Hs).
Qed.

Lemma route_at (ts : list Tablet) i t key :
  FindTabletIndex ts key = Ret i → ts !! i = Some t →
  GetTabletRoute ts key = Ret (if past_end (end_key t) key then None else Some t).
Proof.
  intros Hf Hi. unfold GetTabletRoute. pose proof (lookup_lt_Some _ _ _ Hi).
  rewrite bool_decide_eq_false_2 by (by intros ->). rewrite Hf. cbn [mbind outcome_bind]. rewrite Hi.
  destruct (Nat.leb_spec (length ts) i); [lia|]. by destruct (past_end _ _).
Qed.

Lemma past_end_in (t : Tablet) k : covers t k → past_end (end_key t) k = false.
Proof.
  intros [_ He]. destruct (past_end_spec (end_key t) k) as [[Hne Hge]|]; [|done].
  destruct He as [?|He]; [done|]. by apply (sle_not_slt _ _) in Hge.
Qed.

(** Connections with an observer of the table: [tables]: what the assignments of the balancer
    have made of it, one after the other. *)
Section Watched.
Context {W : Type} `{TransportSpec W}.

Record Watched := { unwatched : W; tables : list (list Tablet) }.

#[export] Instance watched_transport : Transport Watched := {|
  t_connected v node := t_connected (unwatched v) node;
  t_send v node f := let '(w, ok) := t_send (unwatched v) node f in ({| unwatched := w; tables := tables v |}, ok);
  t_recv v node timeout :=
    let '(w, r) := t_recv (unwatched v) node timeout in ({| unwatched := w; tables := tables v |}, r);
  t_publish v ts := {| unwatched := t_publish (unwatched v) ts; tables := tables v ++ [ts] |};
|}.

#[export] Instance watched_transport_spec : TransportSpec Watched.
Proof.
  split. intros v node t v' f. cbn. destruct (t_recv (unwatched v) node t) as [w r] eqn:E.
  intros [= _ ->]. by apply t_recv_frame in E.
Qed.

(** Statistics assign nothing. *)
Lemma call_tables v node req timeout v' r : call v node req timeout = Ret (v', r) → tables v' = tables v.
Proof.
  unfold call. cbn [t_send t_recv watched_transport]. destruct (t_send _ _ _) as [w1 []]; cbn [negb unwatched tables]; [|by intros [= <- _]].
  destruct (t_recv w1 _ _) as [w2 [f|]]; [|by intros [= <- _]].
  destruct (TryDecode f) as [[]| |]; cbn [mbind outcome_bind]; try done; by intros [= <- _].
Qed.

Lemma stats_tables v node lo hi kc mk v' ok c m :
  QueryTabletStats v node lo hi kc mk = Ret (v', ok, c, m) → tables v' = tables v.
Proof.
  unfold QueryTabletStats. destruct (negb _); [by intros [= <- _ _ _]|]. intros ([v1 r] & Hc & Hrun)%bind_ret_inv.
  apply call_tables in Hc. rewrite <- Hc. clear Hc. destruct r as [p|]; [|by injection Hrun as <- _ _ _].
  destruct (_ <? _); [by injection Hrun as <- _ _ _|]. apply bind_ret_inv in Hrun as (st & _ & Hrun).
  destruct (negb _); [by injection Hrun as <- _ _ _|]. apply bind_ret_inv in Hrun as (x & _ & Hrun).
  apply bind_ret_inv in Hrun as (y & _ & Hrun). destruct (_ <? _); [by injection Hrun as <- _ _ _|].
  apply bind_ret_inv in Hrun as (z & _ & Hrun). by injection Hrun as <- _ _ _.
Qed.
End Watched.
Arguments Watched : clear implicits.

(** A route with the half table. *)
Lemma half_split_route (ts : list Tablet) (idx i : nat) (t u : Tablet) (id c : Z) (m key : bytes) :
  partition ts → ts !! idx = Some t → slt (start_key t) m →
  FindTabletIndex ts key = Ret i → ts !! i = Some u → covers u key → (∀ j v, ts !! j = Some v → covers v key → j = i) →
  if decide (covers t key ∧ sle m key)
  then GetTabletRoute (half_split ts idx (left_half t id m c)) key = Ret None
  else ∃ u', GetTabletRoute (half_split ts idx (left_half t id m c)) key = Ret (Some u') ∧
         covers u' key ∧ node_id u' = node_id u.
Proof.
  intros Hp Ht Hlo Hf Hi Hcov Huniq. pose proof (lookup_lt_Some _ _ _ Ht) as Hlt.
  assert (Hf' : FindTabletIndex (half_split ts idx (left_half t id m c)) key = Ret i).
  { rewrite <- Hf. apply route_starts. unfold half_split. rewrite list_fmap_insert. apply list_insert_id.
    by rewrite list_lookup_fmap, Ht. }
  destruct (decide (i = idx)) as [->|Hne].
  - rewrite Ht in Hi. injection Hi as <-.
    assert (Hi' : half_split ts idx (left_half t id m c) !! idx = Some (left_half t id m c))
      by by apply list_lookup_insert_eq.
    rewrite (route_at _ _ _ _ Hf' Hi'). cbn [left_half end_key].
    assert (Hm : m ≠ []) by by eapply slt_not_nil.
    destruct (past_end_spec m key) as [[_ Hge]|Hlt']; case_decide as Hd; try done.
    + exfalso. apply Hd. by split.
    + exfalso. destruct Hd as [_ Hge]. destruct Hlt' as [?|Hlt']; [done|]. by apply (sle_not_slt _ _) in Hge.
    + eexists. split; [done|]. split; [|done]. split; [apply Hcov|]. exact Hlt'.
  - assert (Hi' : half_split ts idx (left_half t id m c) !! i = Some u) by (by unfold half_split; rewrite list_lookup_insert_ne).
    case_decide as Hd; [exfalso; apply Hne; symmetry; apply (Huniq _ _ Ht); tauto|].
    exists u. rewrite (route_at _ _ _ _ Hf' Hi'), past_end_in by done. by split.
Qed.

(** ** Clients that write while a tablet moves *)
Section Busy.
Context {D : Type} `{LevelDBSpec D}.
Implicit Types (w : Nodes D).

(** The data nodes, and requests of clients on their way, each with the node it
    is sent to, which arrive just before the next DELETE_RANGE of the master. *)
Record Busy := { net : Nodes D; pending : list (Z * bytes) }.

Definition client_request (w : Nodes D) (r : Z * bytes) : Nodes D :=
  match stores w !! r.1 with
  | None => w
  | Some st =>
      match HandleDataNodeRequest st 0 r.2 with
      | Ret (st', _) => set_store w r.1 st'
      | _ => {| stores := delete r.1 (stores w); inbox := inbox w |}
      end
  end.

Definition busy_send (b : Busy) (node : Z) (f : bytes) : Busy * bool :=
  if is_delete_range f then
    let '(w, ok) := deliver (fold_left client_request (pending b) (net b)) node f in ({| net := w; pending := [] |}, ok)
  else
    let '(w, ok) := deliver (net b) node f in ({| net := w; pending := pending b |}, ok).

#[export] Instance busy_transport : Transport Busy := {|
  t_connected b node := t_connected (net b) node;
  t_send := busy_send;
  t_recv b node timeout :=
    let '(w, r) := receive (net b) node in ({| net := w; pending := pending b |}, r);
  t_publish b _ := b;
|}.

#[export] Instance busy_transport_spec : TransportSpec Busy.
Proof.
  split. intros b node t b' f. cbn. destruct (receive (net b) node) as [w r] eqn:E.
  intros [= _ ->]. by apply (t_recv_frame (net b) node t w f).
Qed.

(** Up to the cleanup the master's calls behave as on the bare data nodes. *)
Lemma busy_call w p node req timeout w' r :
  is_delete_range req = false → call w node req timeout = Ret (w', r) →
  call {| net := w; pending := p |} node req timeout = Ret ({| net := w'; pending := p |}, r).
Proof.
  intros Hop. unfold call. cbn [t_send t_recv busy_transport nodes_transport]. unfold busy_send. rewrite Hop.
  cbn [net pending]. destruct (deliver w node req) as [w1 []]; cbn [negb]; [|by intros [= <- <-]].
  cbn [net pending]. destruct (receive w1 node) as [w2 [f|]]; [|by intros [= <- <-]].
  destruct (TryDecode f) as [[]| |]; cbn [mbind outcome_bind]; try done; by intros [= <- <-].
Qed.

Lemma busy_transfer fuel w p dst pl count i pos tr w' n :
  transfer_loop fuel w dst pl count i pos tr = Ret (w', n) →
  transfer_loop fuel {| net := w; pending := p |} dst pl count i pos tr = Ret ({| net := w'; pending := p |}, n).
Proof.
  revert w i pos tr. induction fuel as [|fuel IH]; intros w i pos tr; cbn [transfer_loop];
    (destruct (i <? count); [|by intros [= <- <-]]); [done|].
  destruct (_ <? _); [by intros [= <- <-]|].
  destruct (rd16 pl pos) as [kl| |]; cbn [mbind outcome_bind]; try done.
  destruct (_ <? _); [by intros [= <- <-]|].
  destruct (slice pl (pos + 2) kl) as [key| |]; cbn [mbind outcome_bind]; try done.
  destruct (_ <? _); [by intros [= <- <-]|].
  destruct (rd32 pl _) as [vl| |]; cbn [mbind outcome_bind]; try done.
  destruct (_ <? _); [by intros [= <- <-]|].
  destruct (slice pl _ vl) as [value| |]; cbn [mbind outcome_bind]; try done.
  cbn [t_send t_recv busy_transport nodes_transport]. unfold busy_send.
  assert (Hop : is_delete_range (EncodeRequest (u32 (1 + i + 1)) OP_PUT key value) = false)
    by (apply bool_decide_eq_false_2; cbn; discriminate).
  rewrite Hop. cbn [net pending]. destruct (deliver w dst _) as [w1 []]; cbn [negb]; [|apply IH].
  cbn [net pending]. destruct (receive w1 dst) as [w2 [f|]]; apply IH.
Qed.

Lemma busy_scan w p src dst lo hi w' ok :
  ScanAndTransferData w src dst lo hi = Ret (w', ok) →
  ScanAndTransferData {| net := w; pending := p |} src dst lo hi = Ret ({| net := w'; pending := p |}, ok).
Proof.
  unfold ScanAndTransferData. cbn [t_connected busy_transport net].
  destruct (negb _); [by intros [= <- <-]|]. destruct (negb _); [by intros [= <- <-]|].
  destruct (call w src _ _) as [[w1 r]| |] eqn:Ec; cbn [mbind outcome_bind]; try done.
  assert (Hop : is_delete_range (range_request OP_SCAN_RANGE lo hi) = false)
    by (apply bool_decide_eq_false_2; cbn; discriminate).
  rewrite (busy_call _ p _ _ _ _ _ Hop Ec). cbn [mbind outcome_bind].
  destruct r as [pl|]; [|by intros [= <- <-]]. destruct (bool_decide _); [by intros [= <- <-]|].
  destruct (at_ pl 0); cbn [mbind outcome_bind]; try done. destruct (negb _); [by intros [= <- <-]|].
  destruct (_ <? _); [by intros [= <- <-]|]. destruct (rd32 pl 1); cbn [mbind outcome_bind]; try done.
  destruct (_ <? _); [by intros [= <- <-]|]. destruct (_ <? _); [by intros [= <- <-]|].
  destruct (rd32 pl 5) as [count| |]; cbn [mbind outcome_bind]; try done.
  destruct (transfer_loop _ w1 _ _ _ _ _ _) as [[w2 tr]| |] eqn:Et; cbn [mbind outcome_bind]; try done.
  rewrite (busy_transfer _ _ p _ _ _ _ _ _ _ _ Et). cbn [mbind outcome_bind]. by intros [= <- <-].
Qed.

(** The cleanup meets what the clients have done by then. *)
Lemma busy_delete w p node lo hi w' ok :
  t_connected w node = true → t_connected (fold_left client_request p w) node = true →
  SendDeleteRange (fold_left client_request p w) node lo hi = Ret (w', ok) →
  SendDeleteRange {| net := w; pending := p |} node lo hi = Ret ({| net := w'; pending := [] |}, ok).
Proof.
  intros Hc Hc'. unfold SendDeleteRange. rewrite Hc'. cbn [t_connected busy_transport net]. rewrite Hc.
  cbn [negb]. unfold call.
  assert (Hop : is_delete_range (range_request OP_DELETE_RANGE lo hi) = true)
    by (apply bool_decide_eq_true_2; reflexivity).
  cbn [t_send t_recv busy_transport nodes_transport]. unfold busy_send. rewrite Hop. cbn [net pending].
  destruct (deliver _ node _) as [w1 []]; cbn [negb mbind outcome_bind]; [|by intros [= <- <-]]. cbn [net pending].
  destruct (receive w1 node) as [w2 [f|]]; cbn [mbind outcome_bind]; [|by intros [= <- <-]].
  destruct (TryDecode f) as [[? ? pl|]| |]; cbn [mbind outcome_bind]; try done; [|by intros [= <- <-]].
  destruct (bool_decide _); [by intros [= <- <-]|].
  destruct (at_ pl 0); cbn [mbind outcome_bind]; try done. by intros [= <- <-].
Qed.
(** A migration with one PUT to the source in front of the cleanup: the cleanup
    takes the written key with the rest of its range. *)
Lemma migrate_busy `{JsonTextSpec} (fs : nat → fs_answer) w (n : RaftNode) (A : gmap bytes bytes) i (t u : Tablet)
    (d e : D) (key value : bytes) (d1 : D) :
  represents n w A → tablets_ n !! i = Some t → node_id t ≠ node_id u → u ∈ tablets_ n →
  stores w !! node_id t = Some (Some d) → stores w !! node_id u = Some (Some e) → covers t key →
  HandleDataNodeRequest (Some d) 0 (kv_payload OP_PUT key value) = Ret (Some d1, [byte_of_Z ST_OK]) →
  ldb_healthy d1 → ldb_view d1 = <[key := value]> (ldb_view d) →
  ∀ b' n' ok,
  MigrateTablet fs {| net := w; pending := [(node_id t, kv_payload OP_PUT key value)] |} n i (node_id u) = Ret (b', n', ok) →
  ok = true ∧ pending b' = [] ∧ tablets_ n' = <[i := set_node t (node_id u)]> (tablets_ n) ∧ represents n' (net b') A.
Proof.
  intros Hr Hi Hne Hu Hd He Hc Hput Hh1 Hv1 b' n' ok Hrun. pose proof (list_elem_of_lookup_2 _ _ _ Hi) as Ht.
  pose proof (rep_short _ _ _ Hr) as Hs. rewrite Forall_forall in Hs. destruct (Hs t Ht) as [Hlo Hhi].
  pose proof (rep_healthy _ _ _ Hr _ _ Hd) as Hhd. pose proof (rep_healthy _ _ _ Hr _ _ He) as Hhe.
  destruct (wire_range A (ldb_view d) (start_key t) (end_key t) (rep_wire _ _ _ Hr)
    (rep_subset _ _ _ _ _ Hr Hd)) as (Hw1 & Hw2 & _).
  destruct (ScanAndTransferData_ok w (node_id t) (node_id u) d e (start_key t) (end_key t))
    as (e' & Hscan & Hhe' & Hve); try done; [apply Hr|].
  destruct (migrate_inv fs _ _ _ _ _ _ _ _ _ Hi Hne (busy_scan _ _ _ _ _ _ _ _ Hscan) Hrun) as (-> & Hts & c & Hclean).
  cbn [t_publish busy_transport] in Hclean. clear Hrun.
  set (w1 := set_store w (node_id u) (Some e')) in *. set (p := [(node_id t, kv_payload OP_PUT key value)]) in *.
  assert (Hsrc : stores w1 !! node_id t = Some (Some d)) by (cbn; by rewrite lookup_insert_ne).
  assert (Hw1' : fold_left client_request p w1 = set_store w1 (node_id t) (Some d1)).
  { unfold p. cbn [fold_left]. unfold client_request. cbn [fst snd]. by rewrite Hsrc, Hput. }
  assert (Hsrc1 : stores (set_store w1 (node_id t) (Some d1)) !! node_id t = Some (Some d1)) by apply lookup_insert_eq.
  destruct (SendDeleteRange_ok (set_store w1 (node_id t) (Some d1)) (node_id t) d1 (start_key t) (end_key t))
    as (d' & Hdel & Hhd' & Hvd); try done; [apply Hr|].
  rewrite <- Hw1' in Hdel. rewrite (busy_delete w1 p (node_id t) _ _ _ _ (connected _ _ _ Hsrc)
    ltac:(rewrite Hw1'; exact (connected _ _ _ Hsrc1)) Hdel) in Hclean.
  injection Hclean as <- <-. cbn [net pending].
  split; [done|]. split; [done|]. split; [done|].
  change (client_request w1 (node_id t, kv_payload OP_PUT key value)) with (fold_left client_request p w1).
  rewrite Hw1'. replace (set_store (set_store w1 (node_id t) (Some d1)) (node_id t) (Some d'))
    with (set_store w1 (node_id t) (Some d')) by (unfold set_store; cbn; by rewrite insert_insert_eq).
  apply (rep_move fs n n' w A i t (node_id u) d e d' e'); try done; [|by apply list_elem_of_fmap_2].
  rewrite Hvd, Hv1, map_filter_insert_False; [|cbn; intros Hn; by apply Hn].
  apply map_eq. intros k. destruct (decide (k = key)) as [->|].
  - rewrite map_lookup_filter_None_2; [|by left; apply lookup_delete_eq].
    symmetry. apply map_lookup_filter_None_2. right. intros x _ Hn. by apply Hn.
  - apply option_eq. intros x. rewrite !map_lookup_filter_Some, lookup_delete_ne by done. done.
Qed.
End Busy.

(** ** Properties *)

(** C33: a reader in the middle of a split: [TrySplitTablet] assigns the table twice, first the
    left half in place of the tablet, then the table with both halves.  Before the split and after it every key has a
    route, to the same node.  Between the two a route request for a key of the
    tablet at or above the median [m] (and there are such keys: [m] is one) is answered that no tablet has it; every other
    key gets a route to the same node as before.  No key ever
    gets a wrong node. *)
Theorem split_window {W} `{TransportSpec W} `{JsonTextSpec} (fs : nat → fs_answer) (v v' : Watched W) (n n' : RaftNode)
    (idx : nat) (Hp : partition (tablets_ n)) (Hrun : TrySplitTablet fs v n idx = Ret (v', n', true)) :
  ∃ t m c, let half := half_split (tablets_ n) idx (left_half t (next_tablet_id_ n) m c) in
    tablets_ n !! idx = Some t ∧ covers t m ∧ tables v' = tables v ++ [half; tablets_ n'] ∧
    ∀ key, ∃ u u', GetTabletRoute (tablets_ n) key = Ret (Some u) ∧ covers u key ∧
      (if decide (covers t key ∧ sle m key)
       then GetTabletRoute half key = Ret None
       else ∃ x, GetTabletRoute half key = Ret (Some x) ∧ covers x key ∧ node_id x = node_id u) ∧
      GetTabletRoute (tablets_ n') key = Ret (Some u') ∧ covers u' key ∧ node_id u' = node_id u.
Proof.
  pose proof (post_ret_inv _ _ _ (TrySplitTablet_spec fs v n idx) Hrun) as Hspec. cbn [fst snd] in Hspec.
  pose proof (post_ret_inv _ _ _ (TrySplitTablet_evolves fs v n idx) Hrun) as [Hs _]. cbn [fst snd] in Hs.
  destruct Hspec as (v1 & t & c & m & Ht & _ & Hq & _ & Hlt & He & Hv & _ & _ & _ & ->). exists t, m, c. cbv zeta.
  apply stats_tables in Hq. unfold view in Hv. injection Hv as Hts _ _. rewrite <- Hts.
  split; [done|]. split; [split; [by apply slt_sle|done]|]. split; [cbn [t_publish watched_transport tables]; by rewrite Hq, <- app_assoc|].
  intros key. destruct (route_exact (tablets_ n) key Hp) as (i & u & Hf & Hi & HR & Hcov & Huniq).
  destruct (route_exact (tablets_ n') key (steps_partition _ _ _ Hs Hp)) as (j & u' & _ & Hj & HR' & Hcov' & _).
  exists u, u'. split; [done|]. split; [done|]. split; [by eapply half_split_route|]. split; [done|]. split; [done|].
  destruct (steps_stay _ _ _ u' key Hs eq_refl (list_elem_of_lookup_2 _ _ _ Hj) Hcov') as (x & Hx & Hcx & <-).
  apply list_elem_of_lookup_1 in Hx as [y Hy]. cbn [view r_tablets] in Hy.
  rewrite (Huniq y x Hy Hcx), Hi in Hy. by injection Hy as ->.
Qed.

(** The first tablet is split at "g". *)
Lemma split_window_witness :
  let v := {| unwatched := split_script; tables := [] |} in
  ∃ v' n' half, @TrySplitTablet (Watched Script) _ ref_json_text good_fs v demo_big 0 = Ret (v', n', true) ∧
    tables v' = [half; tablets_ n'] ∧ GetTabletRoute half (str "h") = Ret None ∧
    ∃ t, GetTabletRoute (tablets_ n') (str "h") = Ret (Some t) ∧ node_id t = 2.
Proof.
  cbv zeta. set (v := {| unwatched := split_script; tables := [] |}).
  assert (Hp : partition (tablets_ demo_big)) by (apply (bool_decide_unpack _); vm_compute; exact I).
  destruct (@TrySplitTablet (Watched Script) _ ref_json_text good_fs v demo_big 0) as [[[v' n'] [|]]| |] eqn:E;
    try (vm_compute in E; discriminate).
  destruct (@split_window Script _ _ ref_json_text ref_json_text_spec good_fs v v' demo_big n' 0 Hp E)
    as (t & m & c & Ht & Hm & Htab & Hr). cbv zeta in Htab, Hr.
  exists v', n', (half_split (tablets_ demo_big) 0 (left_half t (next_tablet_id_ demo_big) m c)).
  split; [reflexivity|]. split; [exact Htab|].
  destruct (Hr (str "h")) as (u & u' & HR & _ & _ & HR' & _ & Hn). split.
  - set (half := half_split _ _ _) in *. clearbody half.
    assert (Hh : half = default [] (head (tables v'))) by (rewrite Htab; reflexivity). rewrite Hh.
    clear -E. vm_compute in E. injection E as <- _. vm_compute. reflexivity.
  - exists u'. split; [exact HR'|]. rewrite Hn. vm_compute in HR. injection HR as <-. reflexivity.
Defined.

(** C32: a write during a migration is acknowledged and lost even when the client's
    route is right: on a cluster that represents a map, a PUT that reaches the
    owner of a key after the records of its tablet were copied and before the
    source is cleaned up is answered [ST_OK]; the migration succeeds, the key is
    now routed to the destination, and the cluster represents the same map as before, without the
    write. *)
Theorem put_during_migration {D} `{LevelDBSpec D} `{JsonTextSpec} (fs : nat → fs_answer) (w : Nodes D) (b' : Busy)
    (n n' : RaftNode) (A : gmap bytes bytes) (i : nat) (t : Tablet) (dst : Z) (key value : bytes) (ok : bool)
    (Hr : represents n w A) (Hi : tablets_ n !! i = Some t) (Hc : covers t key)
    (Hne : node_id t ≠ dst) (Hdst : dst ∈ node_id <$> tablets_ n)
    (Hk : zlen key < 2 ^ 16) (Hv : zlen key + zlen value < 2 ^ 32 - 17)
    (Hrun : MigrateTablet fs {| net := w; pending := [(node_id t, kv_payload OP_PUT key value)] |} n i dst = Ret (b', n', ok)) :
  GetTabletRoute (tablets_ n) key = Ret (Some t) ∧
  (∃ d d1, stores w !! node_id t = Some (Some d) ∧
     HandleDataNodeRequest (Some d) 0 (kv_payload OP_PUT key value) = Ret (Some d1, [byte_of_Z ST_OK])) ∧
  ok = true ∧ pending b' = [] ∧ owner (tablets_ n') dst key ∧ represents n' (net b') A.
Proof.
  pose proof (list_elem_of_lookup_2 _ _ _ Hi) as Ht. pose proof (rep_partition _ _ _ Hr) as Hp.
  destruct (rep_store _ _ _ Hr t Ht) as [d Hd].
  pose proof Hdst as (u & -> & Hu)%list_elem_of_fmap. destruct (rep_store _ _ _ Hr u Hu) as [e He].
  pose proof (rep_healthy _ _ _ Hr _ _ Hd) as Hhd.
  destruct (put_applied d 0 key value Hhd Hk Hv) as (d1 & Hput & Hh1 & Hv1).
  destruct (migrate_busy fs w n A i t u d e key value d1 Hr Hi Hne Hu Hd He Hc Hput Hh1 Hv1 b' n' ok Hrun)
    as (-> & Hpend & Hts & Hrep).
  destruct (route_exact (tablets_ n) key Hp) as (j & v & _ & Hj & Hroute & Hcov & Huniq).
  assert (j = i) as -> by (symmetry; by apply (Huniq i t)). rewrite Hi in Hj. injection Hj as <-.
  split; [done|]. split; [by exists d, d1|]. split; [done|]. split; [done|]. split; [|done].
  rewrite Hts. apply owner_set_node; [done|done|by left].
Qed.

(** The demo cluster with a client that writes "k" while the first tablet moves. *)
Definition demo_busy : Busy :=
  {| net := spread_nodes (tablets_ demo_fresh) demo_map; pending := [(2, kv_payload OP_PUT (str "k") (str "new"))] |}.

Lemma put_during_migration_witness :
  match @MigrateTablet _ _ ref_json_text good_fs demo_busy demo_fresh 0 3 with
  | Ret (b', n', ok) => ok = true ∧ pending b' = [] ∧ owner (tablets_ n') 3 (str "k") ∧ represents n' (net b') demo_map
  | _ => False
  end.
Proof.
  assert (Hret : match @MigrateTablet _ _ ref_json_text good_fs demo_busy demo_fresh 0 3 with
                 | Ret _ => True | _ => False end) by (vm_compute; exact I).
  destruct (MigrateTablet good_fs demo_busy demo_fresh 0 3) as [[[b' n'] ok]| |] eqn:E; [|done|done].
  assert (Hcov : covers {| tid := 1; start_key := []; end_key := str "m"; node_id := 2; key_count := 0 |} (str "k"))
    by (apply (bool_decide_unpack _); vm_compute; exact I).
  destruct (@put_during_migration MemDB _ _ ref_json_text ref_json_text_spec good_fs
    (spread_nodes (tablets_ demo_fresh) demo_map) b' demo_fresh n' demo_map 0
    {| tid := 1; start_key := []; end_key := str "m"; node_id := 2; key_count := 0 |} 3 (str "k") (str "new") ok
    demo_represents eq_refl Hcov) as (_ & _ & ? & ? & ? & ?);
    [discriminate|by apply (bool_decide_unpack _)|reflexivity|reflexivity|exact E|].
  repeat (split; [assumption|]). assumption.
Defined.
