(* ===== verification/MasterHandlers.v ===== *)
(** * The requests the master answers (src/kv/raft_node.cpp)

    [HandleMasterGetRoute], [HandleMasterShards] and the dispatcher
    [HandleBinaryRequest] that master and data nodes share. *)

From S2P Require Import Prelude StringOrder BinaryProtocol Storage Text Json Config Tablet RaftNode DataNode.

Section MasterHandlers.
Variable n : RaftNode.

(** Answer: [[status][1B TabletID][4B Epoch][2B RouteLen][Route]]. *)
Definition HandleMasterGetRoute (req_id : Z) (payload : bytes) : outcome bytes :=
  if zlen payload <? 3 then Ret [byte_of_Z ST_BAD_REQUEST] else
  key_len ← rd16 payload 1;
  if zlen payload <? 3 + key_len then Ret [byte_of_Z ST_BAD_REQUEST] else
  key ← slice payload 3 key_len;
  r ← GetTabletRoute (tablets_ n) key;
  match r with
  | None => Ret [byte_of_Z ST_NO_SHARD]
  | Some t =>
      let addr := GetNodeAddr (peers_ n) (node_id t) in
      Ret ([byte_of_Z ST_OK] ++ [byte_of_Z (tid t)] ++ be32 (u32 (epoch_ n))
           ++ be16 (u16 (zlen addr)) ++ addr)
  end.

(** One tablet of the answer to SHARDS. *)
Definition shard_segment (t : Tablet) : bytes :=
  to_string (tid t) ++ str ":" ++ start_key t ++ str ":" ++ end_key t ++ str ":"
  ++ GetNodeAddr (peers_ n) (node_id t).

Fixpoint shard_segments (first : bool) (ts : list Tablet) : bytes :=
  match ts with
  | [] => []
  | t :: ts => (if first then [] else str " ") ++ shard_segment t ++ shard_segments false ts
  end.

Definition shards_body : bytes :=
  to_string (zlen (tablets_ n)) ++ str " " ++ shard_segments true (tablets_ n).

Definition HandleMasterShards (req_id : Z) : bytes := [byte_of_Z ST_OK] ++ shards_body.
End MasterHandlers.

(** [HandleBinaryRequest]: the role of the node chooses the requests it knows. *)
Definition HandleBinaryRequest {D} `{LevelDB D} (n : RaftNode) (storage_ : option D) (req_id : Z)
    (payload : bytes) : outcome (option D * bytes) :=
  if bool_decide (payload = []) then Ret (storage_, [byte_of_Z ST_BAD_REQUEST]) else
  opcode ← at_ payload 0;
  if IsMaster n then
    if opcode =? OP_GET_ROUTE then rp ← HandleMasterGetRoute n req_id payload; Ret (storage_, rp)
    else if opcode =? OP_SHARDS then Ret (storage_, HandleMasterShards n req_id)
    else Ret (storage_, [byte_of_Z ST_BAD_REQUEST])
  else HandleDataNodeRequest storage_ req_id payload.

(** ** Properties *)

(** The payload of [EncodeGetRoute]. *)
Definition route_payload (key : bytes) : bytes := [byte_of_Z OP_GET_ROUTE] ++ be16 (zlen key) ++ key.

Lemma route_request n rid key :
  zlen key < 2 ^ 16 →
  HandleMasterGetRoute n rid (route_payload key) =
    r ← GetTabletRoute (tablets_ n) key;
    match r with
    | None => Ret [byte_of_Z ST_NO_SHARD]
    | Some t =>
        let addr := GetNodeAddr (peers_ n) (node_id t) in
        Ret ([byte_of_Z ST_OK] ++ [byte_of_Z (tid t)] ++ be32 (u32 (epoch_ n))
             ++ be16 (u16 (zlen addr)) ++ addr)
    end.
Proof.
  intros Hk. unfold HandleMasterGetRoute, route_payload.
  destruct (Z.ltb_spec (zlen ([byte_of_Z OP_GET_ROUTE] ++ be16 (zlen key) ++ key)) 3); [zlia|].
  rewrite rd16_app_r, rd16_app_l by zlia. cbn [mbind outcome_bind].
  destruct (Z.ltb_spec (zlen ([byte_of_Z OP_GET_ROUTE] ++ be16 (zlen key) ++ key)) (3 + zlen key)); [zlia|].
  rewrite !slice_app_r by zlia. by rewrite slice_all by zlia.
Qed.

(** C13: the master's handlers are safe and route correctly: on any state of the
    master and any payload the dispatcher answers without undefined behaviour or exception
    and leaves the storage alone; and when the table partitions the key space a
    GET_ROUTE request for a key is answered with [ST_OK] and the address of the
    node of the one tablet that covers the key (its id cut to one byte, the
    epoch to four). *)
Theorem master_answers {D} `{LevelDB D} (n : RaftNode) (st : option D) rid (Hm : IsMaster n = true) :
  (∀ payload, ∃ rp, HandleBinaryRequest n st rid payload = Ret (st, rp)) ∧
  (partition (tablets_ n) → ∀ key, zlen key < 2 ^ 16 →
   ∃ i t, tablets_ n !! i = Some t ∧ covers t key ∧
     (∀ j u, tablets_ n !! j = Some u → covers u key → j = i) ∧
     let addr := GetNodeAddr (peers_ n) (node_id t) in
     HandleBinaryRequest n st rid (route_payload key) =
       Ret (st, [byte_of_Z ST_OK] ++ [byte_of_Z (tid t)] ++ be32 (u32 (epoch_ n))
                ++ be16 (u16 (zlen addr)) ++ addr)).
Proof.
  split.
  - intros payload. unfold HandleBinaryRequest. case_bool_decide as Hne; [eauto|].
    destruct (at_in payload 0) as (op & -> & _); [destruct payload; [done|zlia]|].
    cbn [mbind outcome_bind]. rewrite Hm. destruct (op =? OP_GET_ROUTE); [|destruct (op =? OP_SHARDS); eauto].
    unfold HandleMasterGetRoute. destruct (Z.ltb_spec (zlen payload) 3); [cbn; eauto|].
    destruct (rd16_in payload 1) as (kl & -> & ?); [lia|lia|]. cbn [mbind outcome_bind].
    destruct (Z.ltb_spec (zlen payload) (3 + kl)); [cbn; eauto|].
    rewrite slice_in by lia. cbn [mbind outcome_bind].
    match goal with |- context [GetTabletRoute ?ts ?k] =>
      destruct (route_sound ts k) as (r & -> & _) end.
    cbn [mbind outcome_bind]. destruct r; cbn; eauto.
  - intros Hp key Hk. destruct (route_exact _ key Hp) as (i & t & _ & Hi & HR & Hc & Hu).
    exists i, t. split_and!; [done|done|done|]. cbv zeta. unfold HandleBinaryRequest.
    rewrite bool_decide_eq_false_2 by done. rewrite Hm.
    assert (at_ (route_payload key) 0 = Ret OP_GET_ROUTE) as -> by apply at_cons_0.
    cbn [mbind outcome_bind]. rewrite Z.eqb_refl, route_request, HR by done. done.
Qed.

Lemma master_answers_witness :
  let n := demo_master demo_tablets in
  (∃ rp, HandleBinaryRequest n (@None MemDB) 7 (str "junk") = Ret (None, rp)) ∧
  ∃ i t, tablets_ n !! i = Some t ∧ covers t (str "h").
Proof.
  cbv zeta. destruct (master_answers (demo_master demo_tablets) (@None MemDB) 7 eq_refl) as [H1 H2].
  split; [apply H1|].
  destruct (H2 ltac:(apply (bool_decide_unpack _); vm_compute; exact I) (str "h") ltac:(reflexivity))
    as (i & t & Hi & Hc & _). exists i, t. split; [exact Hi|exact Hc].
Defined.
