(* ===== verification/Cli.v ===== *)
(** * The command line client (src/lekv_cli.cpp)

    The class [LekvCli]: it fetches the routing table from the master as text
    before every command, parses it, searches it with the same binary search as
    the master, and sends the request to the data node.  Its two connections
    are an interface, [Net].  Printing is an [output] value. *)

From S2P Require Import Prelude StringOrder Text Json Config BinaryProtocol Tablet RaftNode MasterHandlers.

Record CachedTablet := { cid : Z; start : bytes; end_ : bytes; addr : bytes }.

(** The long connection to the master ([proxy_conn_]) and the short one to a
    data node ([dn]). *)
Inductive endpoint : Type := Proxy | Dn.

(** [IsConnected], [Connect], [Close], [Send] and [RecvFrame] (with its timeout)
    of the client's connections. *)
Class Net (W : Type) := {
  n_connected : W → endpoint → bool;
  n_connect : W → endpoint → bytes → Z → W * bool;
  n_close : W → endpoint → W;
  n_send : W → endpoint → bytes → W * bool;
  n_recv : W → endpoint → Z → W * option bytes;
}.

(** What [RecvFrame] guarantees of a frame ([RecvFrame_total]). *)
Class NetSpec (W : Type) `{Net W} := {
  n_recv_frame w e timeout w' f :
    n_recv w e timeout = (w', Some f) → 10 ≤ zlen f ∧ rd32 f 0 = Ret (zlen f);
}.

(** ** The table text *)

(** The body of one segment: [None] when it has too few parts.  The test admits
    exactly four parts although [parts[4]] is read. *)
Definition parse_segment (segment : bytes) : outcome (option CachedTablet) :=
  let parts := split_at (byte_of_Z 58) segment in
  if (4 <=? length parts)%nat then
    match parts with
    | p0 :: p1 :: p2 :: p3 :: rest =>
        id ← stoull p0;
        match rest with
        | [] => UB
        | p4 :: _ => Ret (Some {| cid := id; start := p1; end_ := p2; addr := p3 ++ str ":" ++ p4 |})
        end
    | _ => UB
    end
  else Ret None.

Fixpoint parse_segments (segments : list bytes) : outcome (list CachedTablet) :=
  match segments with
  | [] => Ret []
  | s :: segments =>
      ct ← parse_segment s;
      cts ← parse_segments segments;
      Ret (match ct with Some ct => ct :: cts | None => cts end)
  end.

(** [std::sort] by start; the order among equal starts is not specified by C++,
    the model keeps the order of the text. *)
Definition start_le (a b : CachedTablet) : Prop := sle (start a) (start b).
#[export] Instance start_le_dec : RelDecision start_le := fun a b => sle_dec (start a) (start b).

(** From the body of the answer to the vector [out]. *)
Definition parse_table (body : bytes) : outcome (list CachedTablet) :=
  cts ← match extract_size body with
        | None => Ret []
        | Some (_, rest) => parse_segments (words rest)
        end;
  Ret (merge_sort start_le cts).

(** [None]: the result [false]. *)
Definition FindRoute (tablets : list CachedTablet) (key : bytes) : outcome (option bytes) :=
  if bool_decide (tablets = []) then Ret None else
  left ← search start tablets key;
  if (left =? 0)%nat then Ret None else
  match tablets !! (left - 1)%nat with
  | None => UB
  | Some t => if past_end (end_ t) key then Ret None else Ret (Some (addr t))
  end.

(** ** Requests *)
Section Client.
Context {W : Type} `{Net W}.

Record LekvCli := { master_ip_ : bytes; master_port_ : Z; req_id_ : Z }.

Definition Init (master_ip : bytes) (master_port : Z) : LekvCli :=
  {| master_ip_ := master_ip; master_port_ := master_port; req_id_ := 1 |}.

Definition NextReqId (c : LekvCli) : LekvCli * Z :=
  ({| master_ip_ := master_ip_ c; master_port_ := master_port_ c; req_id_ := u32 (req_id_ c + 1) |}, req_id_ c).

(** [Some (resp_req_id, payload)]: the result [true] with the out parameters. *)
Definition SendAndRecv (w : W) (e : endpoint) (req : bytes) : outcome (W * option (Z * bytes)) :=
  let '(w, sent) := n_send w e req in
  if negb sent then Ret (w, None) else
  let '(w, r) := n_recv w e 5000 in
  match r with
  | None => Ret (w, None)
  | Some frame =>
      d ← TryDecode frame;
      match d with
      | DecodeFail _ => Ret (w, None)
      | DecodeOk _ resp_req_id payload => Ret (w, Some (resp_req_id, payload))
      end
  end.

Definition FetchRouteTable (w : W) (c : LekvCli) : outcome (W * LekvCli * option (list CachedTablet)) :=
  let '(w, up) := if negb (n_connected w Proxy)
                  then n_connect w Proxy (master_ip_ c) (master_port_ c) else (w, true) in
  if negb up then Ret (w, c, None) else
  let '(c, rid) := NextReqId c in
  let req := EncodeRequest rid OP_SHARDS [] [] in
  '(w, r) ← SendAndRecv w Proxy req;
  '(w, r) ← match r with
            | Some _ => Ret (w, r)
            | None =>
                let w := n_close w Proxy in
                let '(w, up) := n_connect w Proxy (master_ip_ c) (master_port_ c) in
                if negb up then Ret (w, None) else SendAndRecv w Proxy req
            end;
  match r with
  | None => Ret (w, c, None)
  | Some (resp_req_id, payload) =>
      if negb (resp_req_id =? rid) || bool_decide (payload = []) then Ret (w, c, None) else
      st ← at_ payload 0;
      if negb (st =? ST_OK) then Ret (w, c, None) else
      body ← slice payload 5 (zlen payload - 5);
      out ← parse_table body;
      Ret (w, c, if bool_decide (out = []) then None else Some out)
  end.

(** The result, [status] and [result]. *)
Inductive dn_result : Type :=
  | DnOk (status : Z) (result : bytes)
  | DnFail (status : Z) (result : bytes).

(** [addr.find(':')]: the parts before and after the first colon. *)
Definition split_addr (addr : bytes) : option (bytes * bytes) :=
  match split_at (byte_of_Z 58) addr with
  | ip :: p :: ps => Some (ip, drop (S (length ip)) addr)
  | _ => None
  end.

(** The value of a response payload. *)
Definition response_value (payload : bytes) : outcome bytes :=
  if 5 <=? zlen payload then
    val_len ← rd32 payload 1;
    (* int + uint32_t *)
    if (0 <? val_len) && (u32 (5 + val_len) <=? zlen payload)
    then slice payload 5 val_len else Ret []
  else Ret [].

Definition DoDataNodeRequest (w : W) (c : LekvCli) (addr : bytes) (opcode : Z) (key value : bytes)
    : outcome (W * LekvCli * dn_result) :=
  match split_addr addr with
  | None => Ret (w, c, DnFail ST_BAD_REQUEST (str "Invalid addr format"))
  | Some (ip, port_text) =>
      p ← stoi port_text;
      let port := u16 p in
      let '(w, up) := n_connect w Dn ip port in
      if negb up then Ret (w, c, DnFail ST_TIMEOUT (str "Connect to " ++ addr ++ str " failed")) else
      let '(c, rid) := NextReqId c in
      let req := EncodeRequest rid opcode key value in
      '(w, r) ← SendAndRecv w Dn req;
      let w := n_close w Dn in
      match r with
      | None => Ret (w, c, DnFail ST_TIMEOUT (str "Recv timeout from " ++ addr))
      | Some (_, payload) =>
          if bool_decide (payload = []) then Ret (w, c, DnFail ST_BAD_REQUEST (str "Empty payload")) else
          status ← at_ payload 0;
          result ← response_value payload;
          Ret (w, c, DnOk status result)
      end
  end.

(** ** Commands *)

(** What a command prints. *)
Inductive output : Type :=
  | ONothing
  | OBye  (* and [exit(0)] *)
  | OHelp
  | OTablets (ts : list CachedTablet)
  | OFetchFailed
  | OKeyRequired
  | ONoRoute (key : bytes)
  | OError (result : bytes)
  | OValue (result : bytes)
  | OOk
  | OKeyNotFound
  | OStale
  | OStatus (status : Z) (result : bytes).

Definition parse_value (rest : bytes) : bytes :=
  let value := (getline rest).1 in
  match strip_spaces value with [] => value | v => v end.

Definition opcode_of (cmd : bytes) : Z :=
  if bool_decide (cmd = str "get") then OP_GET
  else if bool_decide (cmd = str "put") then OP_PUT
  else if bool_decide (cmd = str "delete") || bool_decide (cmd = str "del") then OP_DELETE
  else OP_GET.

(** The final [switch]. *)
Definition report (cmd : bytes) (status : Z) (result : bytes) : output :=
  if status =? ST_OK then
    if bool_decide (cmd = str "get")
    then OValue (if bool_decide (result = []) then str "(empty)" else result) else OOk
  else if status =? ST_NOT_FOUND then OKeyNotFound
  else if status =? ST_NOT_MY_SHARD then OStale
  else OStatus status result.

Definition Execute (w : W) (c : LekvCli) (line : bytes) : outcome (W * LekvCli * bool * output) :=
  match extract_word line with
  | None => Ret (w, c, true, ONothing)
  | Some (cmd, rest) =>
      let cmd := tolower <$> cmd in
      if bool_decide (cmd = str "exit") || bool_decide (cmd = str "quit") then Ret (w, c, true, OBye) else
      if bool_decide (cmd = str "help") then Ret (w, c, true, OHelp) else
      if bool_decide (cmd = str "tablets") then
        '(w, c, r) ← FetchRouteTable w c;
        match r with
        | None => Ret (w, c, false, OFetchFailed)
        | Some ts => Ret (w, c, true, OTablets ts)
        end
      else
      match extract_word rest with
      | None => Ret (w, c, false, OKeyRequired)
      | Some (key, rest) =>
          let value := if bool_decide (cmd = str "put") then parse_value rest else [] in
          let opcode := opcode_of cmd in
          '(w, c, r) ← FetchRouteTable w c;
          match r with
          | None => Ret (w, c, false, OFetchFailed)
          | Some tablets =>
              route ← FindRoute tablets key;
              match route with
              | None => Ret (w, c, false, ONoRoute key)
              | Some addr =>
                  '(w, c, d) ← DoDataNodeRequest w c addr opcode key value;
                  match d with
                  | DnFail _ result => Ret (w, c, false, OError result)
                  | DnOk status result => Ret (w, c, true, report cmd status result)
                  end
              end
          end
      end
  end.

(** [Run]: one line after the other, until [exit] or the end of the input. *)
Fixpoint Run (w : W) (c : LekvCli) (lines : list bytes) : outcome (W * LekvCli * list output) :=
  match lines with
  | [] => Ret (w, c, [])
  | line :: lines =>
      '(w, c, _, o) ← Execute w c line;
      match o with
      | OBye => Ret (w, c, [OBye])
      | _ => '(w, c, os) ← Run w c lines; Ret (w, c, o :: os)
      end
  end.
End Client.

(** ** Lemmas on the table text *)
Definition colon : Byte.byte := byte_of_Z 58.

Lemma split_at_none c s : c ∉ s → split_at c s = [s].
Proof.
  induction s as [|b s IH]; [done|]. rewrite not_elem_of_cons. intros [? ?]. cbn [split_at].
  rewrite IH by done. by rewrite bool_decide_eq_false_2 by congruence.
Qed.

Lemma split_at_ne c s : split_at c s ≠ [].
Proof. destruct s as [|b s]; cbn [split_at]; [done|]. destruct (split_at c s); [done|]. by case_bool_decide. Qed.

Lemma split_at_app c a s : c ∉ a → split_at c (a ++ c :: s) = a :: split_at c s.
Proof.
  pose proof (split_at_ne c) as Hne.
  induction a as [|b a IH].
  - intros _. cbn [app split_at]. specialize (Hne s). destruct (split_at c s); [done|].
    by rewrite bool_decide_eq_true_2.
  - rewrite not_elem_of_cons. intros [? ?]. cbn [app split_at]. rewrite IH by done.
    by rewrite bool_decide_eq_false_2 by congruence.
Qed.

(** A word the text can carry: no white space and no colon. *)
Definition plain (s : bytes) : Prop := Forall (fun b => is_space b = false ∧ b ≠ colon) s.
#[export] Instance plain_dec s : Decision (plain s) := _.

Lemma split_at_length c s1 s2 :
  length (split_at c (s1 ++ c :: s2)) = (length (split_at c s1) + length (split_at c s2))%nat.
Proof.
  induction s1 as [|b s1 IH]; cbn [app split_at].
  - destruct (split_at c s2) eqn:E; [by apply split_at_ne in E|]. by rewrite bool_decide_eq_true_2.
  - destruct (split_at c (s1 ++ c :: s2)) eqn:E1; [by apply split_at_ne in E1|].
    destruct (split_at c s1) eqn:E2; [by apply split_at_ne in E2|]. case_bool_decide; cbn [length] in *; lia.
Qed.

Lemma plain_colon s : plain s → colon ∉ s.
Proof. unfold plain. rewrite Forall_forall. intros H Hin. by destruct (H _ Hin). Qed.
Lemma plain_unspaced s : plain s → unspaced s.
Proof. intros H. eapply Forall_impl; [exact H|]. by intros b []. Qed.

Lemma to_string_plain z : 0 ≤ z < 2 ^ 64 → plain (to_string z) ∧ to_string z ≠ [].
Proof.
  intros Hz. destruct (to_string_spec z Hz) as (b & l & -> & Hd & _). split; [|done].
  eapply Forall_impl; [exact Hd|]. intros x Hx. split; [by apply digit_not_space|].
  intros ->. by vm_compute in Hx.
Qed.

(** ** The text of the master read back *)
Section RoundTrip.
Context (n : RaftNode).

(** What the client should hold for a tablet. *)
Definition cached (t : Tablet) : CachedTablet :=
  {| cid := tid t; start := start_key t; end_ := end_key t; addr := GetNodeAddr (peers_ n) (node_id t) |}.

(** A tablet the text can carry: keys without colon and white space, and a node
    of the configuration whose address is such a word and a port. *)
Definition carried (t : Tablet) : Prop :=
  0 ≤ tid t < 2 ^ 64 ∧ plain (start_key t) ∧ plain (end_key t) ∧
  ∃ ip port, GetNodeAddr (peers_ n) (node_id t) = ip ++ str ":" ++ to_string port ∧
             plain ip ∧ 0 ≤ port < 2 ^ 16.

Lemma unspaced_colon : unspaced (str ":").
Proof. repeat constructor. Qed.

Lemma shard_segment_word t : carried t → unspaced (shard_segment n t) ∧ shard_segment n t ≠ [].
Proof.
  intros (Hid & Hs & He & ip & port & Ha & Hip & Hport). destruct (to_string_plain _ Hid) as [Ht Hne].
  destruct (to_string_plain port) as [Hp _]; [lia|].
  unfold shard_segment. rewrite Ha. split.
  - repeat apply unspaced_app; auto using plain_unspaced, unspaced_colon.
  - destruct (to_string (tid t)); [done|]. discriminate.
Qed.

Lemma split_at_plain a s : plain a → split_at colon (a ++ str ":" ++ s) = a :: split_at colon s.
Proof. intros. change (str ":" ++ s) with (colon :: s). apply split_at_app. by apply plain_colon. Qed.

Lemma parse_shard_segment t : carried t → parse_segment (shard_segment n t) = Ret (Some (cached t)).
Proof.
  intros (Hid & Hs & He & ip & port & Ha & Hip & Hport). destruct (to_string_plain _ Hid) as [Ht _].
  destruct (to_string_plain port) as [Hp _]; [lia|].
  unfold parse_segment, shard_segment. rewrite Ha. fold colon.
  rewrite !split_at_plain, split_at_none by (done || by apply plain_colon). cbn [length Nat.leb].
  rewrite <- (app_nil_r (to_string (tid t))), stoull_to_string by (done || by intros ? ? [=]).
  cbn [mbind outcome_bind]. unfold cached. by rewrite Ha.
Qed.

Lemma parse_shard_segments ts :
  Forall carried ts → parse_segments (shard_segment n <$> ts) = Ret (cached <$> ts).
Proof.
  induction 1 as [|t ts Ht Hts IH]; [done|]. rewrite fmap_cons. cbn [parse_segments].
  rewrite parse_shard_segment, IH by done. done.
Qed.

Lemma shard_segments_spaced ts :
  str " " ++ shard_segments n true ts = match ts with [] => str " " | _ => spaced (shard_segment n <$> ts) end.
Proof.
  assert (Hgen : ∀ ts, shard_segments n false ts = spaced (shard_segment n <$> ts)).
  { clear ts. intros ts. induction ts as [|t ts IH]; [done|]. cbn [shard_segments]. rewrite IH, fmap_cons. unfold spaced.
    rewrite fmap_cons. cbn [concat]. by rewrite <- app_assoc. }
  destruct ts as [|t ts]; [done|]. cbn [shard_segments]. rewrite Hgen, fmap_cons. unfold spaced.
  rewrite fmap_cons. cbn [concat app]. by rewrite <- app_assoc.
Qed.

Lemma merge_sort_cached ts :
  partition ts → merge_sort start_le (cached <$> ts) = cached <$> ts.
Proof.
  intros Hp. assert (Htot : Total start_le).
  { intros a b. unfold start_le. destruct (str_leb_spec (start a) (start b)); auto. }
  assert (Htr : Transitive start_le) by (intros a b c; unfold start_le; intros; str_order).
  assert (Hstrict : ∀ lo, chain lo ts → StronglySorted (fun a b => slt (start a) (start b)) (cached <$> ts)
    ∧ Forall (fun a => sle lo (start a)) (cached <$> ts)).
  { clear Hp. induction ts as [|t ts IH]; intros lo Hc; [done|]. apply chain_cons in Hc as [Hs Hc].
    rewrite fmap_cons. destruct Hc as [[_ ->]|[Hlt Hc]].
    - split; [by repeat constructor|]. repeat constructor. simpl. rewrite Hs. apply sle_refl.
    - destruct (IH _ Hc) as [Hss Hle]. split.
      + constructor; [done|]. eapply Forall_impl; [exact Hle|]. cbn. intros a Ha. rewrite Hs. str_order.
      + constructor; [simpl; rewrite Hs; apply sle_refl|].
        eapply Forall_impl; [exact Hle|]. cbn. intros a Ha. str_order. }
  destruct (Hstrict [] Hp) as [Hss _].
  assert (Hle : StronglySorted start_le (cached <$> ts)).
  { clear -Hss. induction Hss as [|a l Hl IH Ha]; constructor; [done|].
    eapply Forall_impl; [exact Ha|]. cbn. unfold start_le. intros. str_order. }
  symmetry. apply (StronglySorted_unique_strong start_le); [|done|by apply StronglySorted_merge_sort|
    by rewrite merge_sort_Permutation].
  intros x1 x2 H1 H2 H12 H21. rewrite merge_sort_Permutation in H2. clear -Hss H1 H2 H12 H21.
  unfold start_le in *. induction Hss as [|a l Hl IH Ha]; [by apply elem_of_nil in H1|].
  rewrite Forall_forall in Ha.
  apply elem_of_cons in H1 as [->|H1], H2 as [->|H2]; try done; auto.
  - specialize (Ha x2 H2). str_order.
  - specialize (Ha x1 H1). str_order.
Qed.

Lemma parse_shards_body :
  partition (tablets_ n) → Forall carried (tablets_ n) → zlen (tablets_ n) < 2 ^ 64 →
  parse_table (shards_body n) = Ret (cached <$> tablets_ n).
Proof.
  intros Hp Hc Hlen. unfold parse_table, shards_body, extract_size. pose proof (zlen_nonneg (tablets_ n)).
  rewrite read_number_to_string by (done || by intros ? ? [= <- _]).
  destruct (Z.ltb_spec (Z.abs (zlen (tablets_ n))) (2 ^ 64)); [|lia].
  rewrite shard_segments_spaced. destruct (tablets_ n) as [|t ts] eqn:E; [done|]. rewrite <- E in *.
  rewrite words_spaced.
  - rewrite parse_shard_segments by done. cbn [mbind outcome_bind]. by rewrite merge_sort_cached.
  - apply Forall_forall. intros w (u & -> & Hu)%list_elem_of_fmap. rewrite Forall_forall in Hc.
    by apply shard_segment_word, Hc.
Qed.

Lemma search_loop_fmap {A B} (g : A → B) (f : B → bytes) fuel l key left right :
  search_loop f fuel (g <$> l) key left right = search_loop (fun x => f (g x)) fuel l key left right.
Proof.
  revert left right. induction fuel as [|fuel IH]; intros left right; cbn [search_loop]; [done|].
  destruct (left <? right)%nat; [|done]. rewrite list_lookup_fmap.
  destruct (l !! _); [|done]. cbn [fmap option_fmap option_map]. by rewrite !IH.
Qed.

Lemma FindRoute_cached key :
  FindRoute (cached <$> tablets_ n) key =
    (r ← GetTabletRoute (tablets_ n) key;
     Ret (option_map (fun t => GetNodeAddr (peers_ n) (node_id t)) r)).
Proof.
  unfold FindRoute, GetTabletRoute, FindTabletIndex.
  destruct (tablets_ n) as [|t0 ts] eqn:E; [done|]. rewrite <- E.
  rewrite !bool_decide_eq_false_2 by (rewrite E; done).
  unfold search. rewrite length_fmap, search_loop_fmap.
  change (fun x => start (cached x)) with start_key.
  destruct (search_spec start_key (tablets_ n) key) as (m & Hm & Hle & _). unfold search in Hm. rewrite Hm.
  cbn [mbind outcome_bind]. destruct (Nat.eqb_spec m 0) as [->|]; [by rewrite Nat.leb_refl|].
  destruct (Nat.leb_spec (length (tablets_ n)) (m - 1)); [lia|].
  rewrite list_lookup_fmap. destruct (tablets_ n !! (m - 1)%nat) as [t|]; [|done].
  cbn [fmap option_fmap option_map cached end_ addr]. by destruct (past_end (end_key t) key).
Qed.
End RoundTrip.

(** ** Properties *)

Lemma split_addr_port ip port :
  plain ip → 0 ≤ port < 2 ^ 16 →
  split_addr (ip ++ str ":" ++ to_string port) = Some (ip, to_string port) ∧ stoi (to_string port) = Ret port.
Proof.
  intros Hip Hport. destruct (to_string_plain port) as [Hp _]; [lia|]. split; [|apply stoi_to_string; lia].
  unfold split_addr. fold colon. rewrite split_at_plain, split_at_none by (done || by apply plain_colon).
  do 2 f_equal. rewrite drop_app_ge by lia. replace (S (length ip) - length ip)%nat with 1%nat by lia. done.
Qed.

(** C10: the client routes like the master: when the table partitions the key
    space and its keys and addresses contain no white space and no colon, the
    text of the SHARDS answer parses back to exactly the master's table, and for
    every key the client's binary search finds the address of the node of the
    one tablet that covers the key, which it takes apart into the host and the
    port of that node. *)
Theorem client_routes_like_master (n : RaftNode) (Hp : partition (tablets_ n))
    (Hc : Forall (carried n) (tablets_ n)) (Hlen : zlen (tablets_ n) < 2 ^ 64) :
  parse_table (shards_body n) = Ret (cached n <$> tablets_ n) ∧
  ∀ key, ∃ i t ip port, tablets_ n !! i = Some t ∧ covers t key ∧
    GetTabletRoute (tablets_ n) key = Ret (Some t) ∧
    FindRoute (cached n <$> tablets_ n) key = Ret (Some (GetNodeAddr (peers_ n) (node_id t))) ∧
    GetNodeAddr (peers_ n) (node_id t) = ip ++ str ":" ++ to_string port ∧
    split_addr (GetNodeAddr (peers_ n) (node_id t)) = Some (ip, to_string port) ∧
    stoi (to_string port) = Ret port.
Proof.
  split; [by apply parse_shards_body|]. intros key.
  destruct (route_exact _ key Hp) as (i & t & _ & Hi & HR & Hcov & _).
  rewrite Forall_forall in Hc.
  destruct (Hc t (list_elem_of_lookup_2 _ _ _ Hi)) as (_ & _ & _ & ip & port & Ha & Hip & Hport).
  exists i, t, ip, port. rewrite FindRoute_cached, HR. rewrite Ha.
  destruct (split_addr_port ip port Hip Hport) as [-> ->].
  split_and!; try done. cbn [mbind outcome_bind option_map]. by rewrite Ha.
Qed.

Lemma client_routes_like_master_witness :
  let n := demo_master demo_tablets in
  parse_table (shards_body n) = Ret (cached n <$> demo_tablets) ∧
  FindRoute (cached n <$> demo_tablets) (str "h") = Ret (Some (str "127.0.0.1:9003")).
Proof.
  cbv zeta. assert (Hp : partition demo_tablets) by (apply (bool_decide_unpack _); vm_compute; exact I).
  assert (Hc : Forall (carried (demo_master demo_tablets)) demo_tablets).
  { repeat (apply List.Forall_cons; [split; [simpl; lia|split; [apply (bool_decide_unpack _); vm_compute; exact I|
      split; [apply (bool_decide_unpack _); vm_compute; exact I|]]]|]); [..|apply List.Forall_nil];
      [exists (str "127.0.0.1"), 9002|exists (str "127.0.0.1"), 9003|exists (str "127.0.0.1"), 9003];
      (split; [vm_compute; reflexivity|split; [apply (bool_decide_unpack _); vm_compute; exact I|lia]]). }
  destruct (client_routes_like_master (demo_master demo_tablets) Hp Hc ltac:(reflexivity)) as [H1 _].
  split; [exact H1|]. vm_compute. reflexivity.
Defined.

(** C36: the limits of the table text: for a tablet on a node that is not in the configuration the
    address is empty, and the client then reads [parts[4]] past the end of its
    parts; and the segment of a tablet whose start key contains a colon is read without an error, as
    one of the same tablet with another start key, the part before the first colon. *)
Theorem shard_text_fragile (n : RaftNode) (t : Tablet) (Hid : 0 ≤ tid t < 2 ^ 64) :
  (plain (start_key t) → plain (end_key t) → GetNodeAddr (peers_ n) (node_id t) = [] →
     parse_segment (shard_segment n t) = UB) ∧
  (∀ a b, start_key t = a ++ str ":" ++ b → plain a →
     ∃ ct, parse_segment (shard_segment n t) = Ret (Some ct) ∧ cid ct = tid t ∧ start ct = a ∧ start ct ≠ start_key t).
Proof.
  destruct (to_string_plain _ Hid) as [Ht _]. unfold parse_segment, shard_segment. fold colon.
  assert (Hnum : stoull (to_string (tid t)) = Ret (tid t)).
  { rewrite <- (app_nil_r (to_string (tid t))). by apply stoull_to_string. }
  split.
  - intros Hs He Ha. rewrite Ha. rewrite !split_at_plain by done. cbn [split_at length Nat.leb]. by rewrite Hnum.
  - intros a b Hs Ha. rewrite Hs. rewrite split_at_plain by done. rewrite <- !app_assoc.
    rewrite split_at_plain by done. set (rest := b ++ _).
    assert (Hlen : (3 ≤ length (split_at colon rest))%nat).
    { unfold rest. change (str ":") with [colon]. cbn [app]. rewrite !split_at_length.
      pose proof (split_at_ne colon b). pose proof (split_at_ne colon (end_key t)).
      pose proof (split_at_ne colon (GetNodeAddr (peers_ n) (node_id t))).
      destruct (split_at colon b), (split_at colon (end_key t)), (split_at colon (GetNodeAddr _ _)); try done. cbn [length]. lia. }
    destruct (split_at colon rest) as [|p2 [|p3 [|p4 ps]]]; cbn [length] in Hlen; try lia.
    cbn [length Nat.leb]. rewrite Hnum. cbn [mbind outcome_bind]. eexists. split; [done|]. split; [done|]. split; [done|].
    cbn [start]. intros E. apply (f_equal length) in E.
    rewrite !length_app in E. change (length (str ":")) with 1%nat in E. lia.
Qed.

Lemma shard_text_fragile_witness :
  let t := {| tid := 5; start_key := str "user:1"; end_key := str "z"; node_id := 3; key_count := 0 |} in
  let n := demo_master demo_tablets in
  parse_segment (shard_segment n t) =
    Ret (Some {| cid := 5; start := str "user"; end_ := str "1"; addr := str "z:127.0.0.1" |}) ∧
  str "user" ≠ start_key t.
Proof.
  cbv zeta.
  destruct (shard_text_fragile (demo_master demo_tablets)
    {| tid := 5; start_key := str "user:1"; end_key := str "z"; node_id := 3; key_count := 0 |}
    ltac:(simpl; lia)) as [_ H].
  assert (E : parse_segment (shard_segment (demo_master demo_tablets)
      {| tid := 5; start_key := str "user:1"; end_key := str "z"; node_id := 3; key_count := 0 |}) =
    Ret (Some {| cid := 5; start := str "user"; end_ := str "1"; addr := str "z:127.0.0.1" |}))
    by (vm_compute; reflexivity).
  assert (Ha : plain (str "user")) by (apply (bool_decide_unpack _); vm_compute; exact I).
  destruct (H (str "user") (str "1") eq_refl Ha) as (ct & Hct & _ & Hstart & Hne).
  split; [exact E|]. rewrite <- Hstart. exact Hne.
Defined.
