(* ===== verification/EndToEnd.v ===== *)
(** * The whole system: client commands against the cluster

    The client of Cli.v talks to the master's handlers (MasterHandlers.v) and to
    the data nodes of Cluster.v.  The commands then act on the one map the
    cluster stores. *)

From S2P Require Import Prelude StringOrder BinaryProtocol Storage RpcClient RpcServer DataNode.
From S2P Require Import Text Json Config Tablet RaftNode TableSteps BalancePlan Balancer Cluster MasterHandlers Cli.

(** ** The network of the client *)
Section System.
Context {D : Type} `{LevelDB D}.

(** The connection to the master: none, one, or one whose other end is gone with
    the process it led to.  The client has not noticed: [IsConnected] holds,
    [send] may still succeed ([sent]), and nothing comes back. *)
Inductive link : Type := LDown | LUp | LDead (sent : bool).

(** [proxy_link], [proxy_in]: the connection to the master and its unread
    responses; [dn_node]: the data node the short connection leads to. *)
Record System := {
  master : RaftNode;
  nodes : Nodes D;
  proxy_link : link;
  proxy_in : list bytes;
  dn_node : option Z;
}.

(** The node that listens on an address. *)
Fixpoint find_peer (peers : list PeerInfo) (ip0 : bytes) (port0 : Z) : option Z :=
  match peers with
  | [] => None
  | p :: peers =>
      if bool_decide (ip p = ip0) && (port p =? port0) then Some (pid p) else find_peer peers ip0 port0
  end.

Definition sys_connect (s : System) (e : endpoint) (ip : bytes) (port : Z) : System * bool :=
  match e with
  | Proxy =>
      ({| master := master s; nodes := nodes s; proxy_link := LUp; proxy_in := []; dn_node := dn_node s |}, true)
  | Dn =>
      match find_peer (peers_ (master s)) ip port with
      | Some node =>
          if decide (is_Some (stores (nodes s) !! node))
          then ({| master := master s; nodes := nodes s; proxy_link := proxy_link s; proxy_in := proxy_in s;
                   dn_node := Some node |}, true)
          else (s, false)
      | None => (s, false)
      end
  end.

Definition sys_close (s : System) (e : endpoint) : System :=
  match e with
  | Proxy => {| master := master s; nodes := nodes s; proxy_link := LDown; proxy_in := []; dn_node := dn_node s |}
  | Dn => {| master := master s; nodes := nodes s; proxy_link := proxy_link s; proxy_in := proxy_in s; dn_node := None |}
  end.

Definition set_nodes (s : System) (w : Nodes D) : System :=
  {| master := master s; nodes := w; proxy_link := proxy_link s; proxy_in := proxy_in s; dn_node := dn_node s |}.

Definition sys_send (s : System) (e : endpoint) (f : bytes) : System * bool :=
  match e with
  | Proxy =>
      match proxy_link s with
      | LDown => (s, false)
      | LDead sent => (s, sent)
      | LUp =>
          match serve_frame (HandleBinaryRequest (master s)) (@None D) f with
          | Ret (_, Some resp) =>
              ({| master := master s; nodes := nodes s; proxy_link := LUp; proxy_in := proxy_in s ++ [resp];
                  dn_node := dn_node s |}, true)
          | _ => (s, true)
          end
      end
  | Dn =>
      match dn_node s with
      | Some node => let '(w, ok) := deliver (nodes s) node f in (set_nodes s w, ok)
      | None => (s, false)
      end
  end.

Definition sys_recv (s : System) (e : endpoint) (timeout : Z) : System * option bytes :=
  match e with
  | Proxy =>
      match proxy_in s with
      | [] => (s, None)
      | f :: fs =>
          ({| master := master s; nodes := nodes s; proxy_link := proxy_link s; proxy_in := fs; dn_node := dn_node s |},
           if bool_decide (10 ≤ zlen f ∧ rd32 f 0 = Ret (zlen f)) then Some f else None)
      end
  | Dn =>
      match dn_node s with
      | Some node => let '(w, r) := receive (nodes s) node in (set_nodes s w, r)
      | None => (s, None)
      end
  end.

#[export] Instance system_net : Net System := {|
  n_connected s e := match e with Proxy => match proxy_link s with LDown => false | _ => true end | Dn => bool_decide (is_Some (dn_node s)) end;
  n_connect := sys_connect;
  n_close := sys_close;
  n_send := sys_send;
  n_recv := sys_recv;
|}.

#[export] Instance system_net_spec : NetSpec System.
Proof.
  split. intros s [] t s' f; cbn; unfold sys_recv.
  - destruct (proxy_in s) as [|g gs]; [done|]. case_bool_decide; [|done]. by intros [= _ <-].
  - destruct (dn_node s) as [node|]; [|done]. destruct (receive (nodes s) node) as [w r] eqn:E.
    intros [= _ ->]. exact (t_recv_frame (nodes s) node t w f E).
Qed.
End System.
Arguments System : clear implicits.

(** ** Requests on a quiet network *)

(** A tablet the client can reach: the text carries it and its address leads to its node. *)
Definition addressed (n : RaftNode) (t : Tablet) : Prop :=
  0 ≤ tid t < 2 ^ 64 ∧ plain (start_key t) ∧ plain (end_key t) ∧
  ∃ ip port, GetNodeAddr (peers_ n) (node_id t) = ip ++ str ":" ++ to_string port ∧
    plain ip ∧ 0 ≤ port < 2 ^ 16 ∧ find_peer (peers_ n) ip port = Some (node_id t).

(** The system stores the map [A], and no response is under way. *)
Record serves {D} `{LevelDB D} (s : System D) (A : gmap bytes bytes) : Prop := {
  srv_rep : represents (master s) (nodes s) A;
  srv_master : IsMaster (master s) = true;
  srv_addr : Forall (addressed (master s)) (tablets_ (master s));
  srv_size : zlen (shards_body (master s)) < 2 ^ 32 - 15;
  srv_count : zlen (tablets_ (master s)) < 2 ^ 64;
  srv_quiet : proxy_in s = [];
}.

Section Requests.
Context {D : Type} `{LevelDBSpec D}.
Implicit Types (s : System D) (c : LekvCli) (A : gmap bytes bytes).

Lemma addressed_carried n t : addressed n t → carried n t.
Proof. intros (? & ? & ? & ip & port & ? & ? & ? & _). split; [done|]. split; [done|]. split; [done|]. by exists ip, port. Qed.

Definition up s : System D :=
  {| master := master s; nodes := nodes s; proxy_link := LUp; proxy_in := []; dn_node := dn_node s |}.

Lemma kv_frame rid op key value :
  zlen key < 2 ^ 16 → zlen key + zlen value < 2 ^ 32 - 17 →
  EncodeRequest rid op key value = frame rid (kv_payload op key value) ∧ fits_frame (kv_payload op key value).
Proof.
  intros. split; [by apply EncodeRequest_frame|]. unfold fits_frame. rewrite zlen_kv_payload. lia.
Qed.

(** The master answers SHARDS on a connection that is up. *)
Lemma shards_answered s A rid :
  serves s A → 0 ≤ rid < 2 ^ 32 →
  SendAndRecv (up s) Proxy (EncodeRequest rid OP_SHARDS [] []) =
    Ret (up s, Some (rid, resp_payload ST_OK (shards_body (master s)))).
Proof.
  intros Hs Hrid. destruct (kv_frame rid OP_SHARDS [] []) as [-> Hfit]; [done..|].
  assert (Hreq : HandleBinaryRequest (master s) (@None D) rid (kv_payload OP_SHARDS [] []) =
    Ret (None, byte_of_Z ST_OK :: shards_body (master s))).
  { unfold HandleBinaryRequest. rewrite bool_decide_eq_false_2 by done.
    rewrite kv_opcode by (vm_compute; split; congruence). cbn [mbind outcome_bind].
    by rewrite (srv_master _ _ Hs). }
  pose proof (srv_size _ _ Hs) as Hsize.
  assert (Hrfit : fits_frame (resp_payload ST_OK (shards_body (master s)))) by (unfold fits_frame, resp_payload; zlia).
  unfold SendAndRecv, up. cbn [n_send n_recv system_net sys_send master nodes proxy_link proxy_in dn_node negb].
  rewrite serve_frame_request, Hreq by done. cbn [mbind outcome_bind].
  rewrite pack_response_cons, Z_of_byte_of_Z, u8_small, EncodeResponse_frame by (done || unfold ST_OK; lia).
  cbn [mbind outcome_bind negb sys_recv proxy_in app].
  rewrite bool_decide_eq_true_2.
  2: { split; [unfold resp_payload; zlia|].
       pose proof (announces_frame rid (resp_payload ST_OK (shards_body (master s))) [] Hrfit) as Ha.
       unfold announces in Ha. by rewrite app_nil_r in Ha. }
  by rewrite <- (app_nil_r (frame _ (resp_payload _ _))), TryDecode_frame.
Qed.

(** The first attempt: on a dead connection nothing comes back. *)
Lemma first_attempt s A ip port rid :
  serves s A → 0 ≤ rid < 2 ^ 32 →
  let '(s1, connected) := if negb (n_connected s Proxy) then n_connect s Proxy ip port else (s, true) in
  connected = true ∧
  ((SendAndRecv s1 Proxy (EncodeRequest rid OP_SHARDS [] []) =
      Ret (up s, Some (rid, resp_payload ST_OK (shards_body (master s))))) ∨
   (SendAndRecv s1 Proxy (EncodeRequest rid OP_SHARDS [] []) = Ret (s1, None) ∧
    n_connect (n_close s1 Proxy) Proxy ip port = (up s, true))).
Proof.
  intros Hs Hrid. pose proof (shards_answered s A rid Hs Hrid) as Hans. pose proof (srv_quiet _ _ Hs) as Hq.
  destruct s as [m w l i dn]. cbn in Hq. subst i. unfold up in *. cbn [master nodes dn_node] in *.
  destruct l as [| |sent]; cbn [n_connected system_net proxy_link negb].
  - split; [done|]. by left.
  - split; [done|]. by left.
  - split; [done|]. right. split; [|done]. unfold SendAndRecv. cbn [n_send system_net sys_send proxy_link]. by destruct sent.
Qed.

(** The table the client fetches is the master's. *)
Lemma FetchRouteTable_ok s c A :
  serves s A → 0 ≤ req_id_ c < 2 ^ 32 →
  ∃ c', FetchRouteTable s c = Ret (up s, c', Some (cached (master s) <$> tablets_ (master s))) ∧
    0 ≤ req_id_ c' < 2 ^ 32.
Proof.
  intros Hs Hc. unfold FetchRouteTable.
  pose proof (first_attempt s A (master_ip_ c) (master_port_ c) (req_id_ c) Hs Hc) as Hfirst.
  destruct (if negb _ then _ else _) as [s1 connected]. destruct Hfirst as [-> Hfirst]. cbn [negb NextReqId].
  exists (NextReqId c).1. split; [|cbn [NextReqId fst req_id_]; apply u32_range].
  transitivity (
      st ← at_ (resp_payload ST_OK (shards_body (master s))) 0;
      if negb (st =? ST_OK) then Ret (up s, (NextReqId c).1, None) else
      body ← slice (resp_payload ST_OK (shards_body (master s))) 5 (zlen (resp_payload ST_OK (shards_body (master s))) - 5);
      out ← parse_table body;
      Ret (up s, (NextReqId c).1, if bool_decide (out = []) then None else Some out)).
  { destruct Hfirst as [->|[-> Hagain]]; cbn [mbind outcome_bind negb fst master_ip_ master_port_].
    - rewrite Z.eqb_refl. cbn [negb orb]. by rewrite bool_decide_eq_false_2.
    - rewrite Hagain. cbn [negb]. rewrite (shards_answered s A) by done. cbn [mbind outcome_bind]. rewrite Z.eqb_refl. cbn [negb orb].
      by rewrite bool_decide_eq_false_2. }
  assert (at_ (resp_payload ST_OK (shards_body (master s))) 0 = Ret ST_OK) as ->.
  { unfold resp_payload. cbn [app]. by rewrite at_cons_0, Z_of_byte_of_Z. }
  cbn [mbind outcome_bind]. rewrite Z.eqb_refl. cbn [negb].
  assert (slice (resp_payload ST_OK (shards_body (master s))) 5 (zlen (resp_payload ST_OK (shards_body (master s))) - 5)
    = Ret (shards_body (master s))) as ->.
  { unfold resp_payload. rewrite !slice_app_r by zlia. autorewrite with zlen. apply slice_all. zlia. }
  cbn [mbind outcome_bind]. pose proof (srv_rep _ _ Hs) as Hr.
  rewrite parse_shards_body; [|apply Hr| |exact (srv_count _ _ Hs)].
  2: { eapply Forall_impl; [exact (srv_addr _ _ Hs)|]. intros t. apply addressed_carried. }
  cbn [mbind outcome_bind]. pose proof (rep_partition _ _ _ Hr) as Hp.
  by rewrite bool_decide_eq_false_2 by (by destruct (tablets_ (master s))).
Qed.

(** The value of a response. *)
Lemma response_value_payload st v :
  zlen v < 2 ^ 32 - 15 → response_value (resp_payload st v) = Ret v.
Proof.
  intros Hv. unfold response_value, resp_payload. zlen_nonneg_all.
  destruct (Z.leb_spec 5 (zlen ([byte_of_Z st] ++ be32 (zlen v) ++ v))); [|zlia].
  rewrite rd32_app_r, rd32_app_l by zlia. cbn [mbind outcome_bind].
  destruct (Z.ltb_spec 0 (zlen v)) as [Hpos|Hz]; cbn [andb].
  - rewrite u32_small by lia.
    destruct (Z.leb_spec (5 + zlen v) (zlen ([byte_of_Z st] ++ be32 (zlen v) ++ v))); [|zlia].
    rewrite !slice_app_r by zlia. autorewrite with zlen. by apply slice_all.
  - by rewrite (zlen_0_inv v) by lia.
Qed.

(** One request to the data node of a tablet. *)
Lemma DoDataNodeRequest_ok s c A t op key value st st' status v :
  serves s A → 0 ≤ req_id_ c < 2 ^ 32 → t ∈ tablets_ (master s) →
  zlen key < 2 ^ 16 → zlen key + zlen value < 2 ^ 32 - 17 →
  stores (nodes s) !! node_id t = Some st → 0 ≤ status < 256 → zlen v < 2 ^ 32 - 15 →
  (∀ rid, HandleDataNodeRequest st rid (kv_payload op key value) = Ret (st', byte_of_Z status :: v)) →
  ∃ c', DoDataNodeRequest (up s) c (GetNodeAddr (peers_ (master s)) (node_id t)) op key value =
    Ret ({| master := master s; nodes := set_store (nodes s) (node_id t) st'; proxy_link := LUp; proxy_in := [];
            dn_node := None |}, c', DnOk status v) ∧ 0 ≤ req_id_ c' < 2 ^ 32.
Proof.
  intros Hs Hc Ht Hk Hv Hst Hstat Hvlen Hreq. pose proof (srv_addr _ _ Hs) as Ha.
  rewrite Forall_forall in Ha. destruct (Ha t Ht) as (_ & _ & _ & ip & port & Haddr & Hip & Hport & Hfind).
  unfold DoDataNodeRequest. rewrite Haddr. destruct (split_addr_port ip port Hip Hport) as [-> ->].
  cbn [mbind outcome_bind]. rewrite u16_small by lia.
  cbn [n_connect system_net sys_connect up master nodes]. rewrite Hfind, Hst.
  destruct (decide (is_Some (Some st))) as [_|Hn]; [|exfalso; apply Hn; eauto]. cbn [negb NextReqId].
  destruct (kv_frame (req_id_ c) op key value Hk Hv) as [-> Hfit].
  destruct (roundtrip (nodes s) (node_id t) st st' (req_id_ c) (kv_payload op key value) status v 5000)
    as (w1 & Hsend & Hrecv); try done; [apply Hs|].
  cbn [t_send t_recv nodes_transport] in Hsend, Hrecv.
  unfold SendAndRecv. cbn [n_send n_recv n_close system_net sys_send sys_recv dn_node nodes]. rewrite Hsend.
  cbn [negb set_nodes sys_recv dn_node nodes]. rewrite Hrecv.
  assert (Hrfit : fits_frame (resp_payload status v)) by (unfold fits_frame, resp_payload; zlia).
  rewrite <- (app_nil_r (frame _ (resp_payload _ _))), TryDecode_frame by done. cbn [mbind outcome_bind].
  rewrite bool_decide_eq_false_2 by done.
  assert (at_ (resp_payload status v) 0 = Ret status) as ->.
  { unfold resp_payload. cbn [app]. by rewrite at_cons_0, Z_of_byte_of_Z, u8_small. }
  rewrite response_value_payload by done. cbn [mbind outcome_bind].
  eexists. split; [done|]. cbn [req_id_]. apply u32_range.
Qed.
End Requests.

(** ** One key changes *)
Section Update.
Context {D : Type} `{LevelDBSpec D}.
Implicit Types (s : System D) (c : LekvCli) (A : gmap bytes bytes) (w : Nodes D).

(** Writing or deleting a key on the node that owns it. *)
Lemma rep_update n w A t key (o : option bytes) d d' :
  represents n w A → t ∈ tablets_ n → covers t key → stores w !! node_id t = Some (Some d) →
  ldb_healthy d' → ldb_view d' = partial_alter (fun _ => o) key (ldb_view d) →
  wire_map (partial_alter (fun _ => o) key A) →
  represents n (set_store w (node_id t) (Some d')) (partial_alter (fun _ => o) key A).
Proof.
  intros Hr Ht Hc Hd Hh Hv Hw. pose proof (rep_partition _ _ _ Hr) as Hp. split; try apply Hr; try done.
  - intros u Hu. cbn. destruct (decide (node_id u = node_id t)) as [->|].
    + rewrite lookup_insert_eq. eauto.
    + rewrite lookup_insert_ne by done. by apply (rep_store _ _ _ Hr).
  - intros node x. cbn. destruct (decide (node = node_id t)) as [->|].
    + rewrite lookup_insert_eq. by intros [= <-].
    + rewrite lookup_insert_ne by done. by apply (rep_healthy _ _ _ Hr).
  - intros node x k v. cbn. pose proof (owner_of (tablets_ n) t) as Hown.
    destruct (decide (k = key)) as [->|Hk].
    + rewrite lookup_partial_alter_eq, (Hown node key Hp Ht Hc).
      destruct (decide (node = node_id t)) as [->|].
      * rewrite lookup_insert_eq. intros [= <-]. rewrite Hv, lookup_partial_alter_eq. naive_solver.
      * rewrite lookup_insert_ne by done. intros Hx. rewrite (rep_view _ _ _ Hr node x key v Hx).
        rewrite (Hown node key Hp Ht Hc). naive_solver.
    + rewrite lookup_partial_alter_ne by done. destruct (decide (node = node_id t)) as [->|].
      * rewrite lookup_insert_eq. intros [= <-]. rewrite Hv, lookup_partial_alter_ne by done.
        by apply (rep_view _ _ _ Hr).
      * rewrite lookup_insert_ne by done. by apply (rep_view _ _ _ Hr).
Qed.

Lemma wire_delete A key : wire_map A → wire_map (delete key A).
Proof.
  intros [Hw Ht]. split.
  - intros k v Hk. apply Hw. by apply lookup_delete_Some in Hk as [_ ?].
  - pose proof (scan_records_submseteq _ _ (map_to_list_submseteq _ _ (delete_subseteq A key))). lia.
Qed.

(** The state of the system after a command that leaves storage [st'] on node [node]. *)
Definition after s (node : Z) (st' : option D) : System D :=
  {| master := master s; nodes := set_store (nodes s) node st'; proxy_link := LUp; proxy_in := []; dn_node := None |}.

Lemma serves_after s A A' node st' :
  serves s A → represents (master s) (set_store (nodes s) node st') A' → serves (after s node st') A'.
Proof. intros [? ? ? ? ? ?] Hr. by split. Qed.

(** ** The command line *)
Lemma extract_word_first (word rest : bytes) :
  unspaced word → word ≠ [] → (∀ b r, rest = b :: r → is_space b = true) →
  extract_word (word ++ rest) = Some (word, rest).
Proof.
  intros Hw Hne Hr. destruct word as [|b word]; [done|]. unfold extract_word.
  pose proof Hw as Hw'. apply Forall_cons in Hw' as [Hb _].
  assert (Hsk : skip_space ((b :: word) ++ rest) = (b :: word) ++ rest) by (simpl; by rewrite Hb).
  by rewrite Hsk, read_word_app.
Qed.

Lemma extract_key (key rest : bytes) :
  unspaced key → key ≠ [] → (∀ b r, rest = b :: r → is_space b = true) →
  extract_word (str " " ++ key ++ rest) = Some (key, rest).
Proof. intros Hk Hne Hr. destruct key as [|b key]; [done|]. by apply extract_word_app. Qed.

(** A value on one line, not starting with a space. *)
Definition line_value (value : bytes) : Prop :=
  ∃ b r, value = b :: r ∧ Z_of_byte b ≠ 32 ∧ Forall (fun b => Z_of_byte b ≠ 10) value.

Lemma parse_value_line value : line_value value → parse_value (str " " ++ value) = value.
Proof.
  intros (b & r & -> & Hb & Hl). unfold parse_value.
  assert (Hg : ∀ l, Forall (fun b => Z_of_byte b ≠ 10) l → (getline l).1 = l).
  { induction 1 as [|x l Hx _ IH]; [done|]. cbn [getline]. destruct (Z.eqb_spec (Z_of_byte x) 10); [done|].
    destruct (getline l). cbn in *. by rewrite IH. }
  rewrite (Hg (str " " ++ b :: r)) by (by constructor).
  assert (Hs : strip_spaces (str " " ++ b :: r) = b :: r); [|by rewrite Hs].
  change (strip_spaces (str " " ++ b :: r)) with (strip_spaces (b :: r)). cbn [strip_spaces].
  by destruct (Z.eqb_spec (Z_of_byte b) 32).
Qed.

(** A command with a key runs one request on the owner of the key. *)
Lemma Execute_request s c A cmd key rest value op t st st' status v :
  serves s A → 0 ≤ req_id_ c < 2 ^ 32 → 
  cmd ∈ [str "put"; str "get"; str "delete"] → unspaced key → key ≠ [] → 
  (∀ b r, rest = b :: r → is_space b = true) →
  value = (if bool_decide (cmd = str "put") then parse_value rest else []) → op = opcode_of cmd →
  t ∈ tablets_ (master s) → covers t key →
  zlen key < 2 ^ 16 → zlen key + zlen value < 2 ^ 32 - 17 →
  stores (nodes s) !! node_id t = Some st → 0 ≤ status < 256 → zlen v < 2 ^ 32 - 15 →
  (∀ rid, HandleDataNodeRequest st rid (kv_payload op key value) = Ret (st', byte_of_Z status :: v)) →
  ∃ c', Execute s c (cmd ++ str " " ++ key ++ rest) =
    Ret (after s (node_id t) st', c', true, report cmd status v) ∧ 0 ≤ req_id_ c' < 2 ^ 32.
Proof.
  intros Hs Hc Hcmd Hkey Hkne Hrest -> -> Ht Hcov Hkl Hvl Hst Hstat Hv Hreq.
  unfold Execute. rewrite extract_word_first; [| | |by intros ? ? [= <- _]].
  2,3: repeat (apply elem_of_cons in Hcmd as [->|Hcmd]; [first [done|repeat constructor]|]); by apply elem_of_nil in Hcmd.
  assert (Hlow : tolower <$> cmd = cmd ∧ cmd ≠ str "exit" ∧ cmd ≠ str "quit" ∧ cmd ≠ str "help" ∧ cmd ≠ str "tablets").
  { repeat (apply elem_of_cons in Hcmd as [->|Hcmd]; [vm_compute; split_and!; congruence|]). by apply elem_of_nil in Hcmd. }
  destruct Hlow as (Hl & ? & ? & ? & ?). rewrite Hl.
  rewrite !bool_decide_eq_false_2 by done. cbn [orb]. rewrite extract_key by done.
  destruct (FetchRouteTable_ok s c A Hs Hc) as (c1 & -> & Hc1). cbn [mbind outcome_bind].
  rewrite FindRoute_cached. pose proof (srv_rep _ _ Hs) as Hr.
  destruct (route_exact (tablets_ (master s)) key (rep_partition _ _ _ Hr)) as (i & u & _ & Hi & -> & _ & Hu).
  pose proof Ht as (j & Hj)%list_elem_of_lookup_1. pose proof (Hu j t Hj Hcov) as ->.
  rewrite Hi in Hj. injection Hj as ->. cbn [mbind outcome_bind option_map].
  destruct (DoDataNodeRequest_ok s c1 A t (opcode_of cmd) key _ st st' status v Hs Hc1 Ht Hkl Hvl Hst Hstat Hv Hreq)
    as (c2 & -> & Hc2).
  cbn [mbind outcome_bind]. by exists c2.
Qed.
(** ** The three commands *)

(** What the key of a command line is: a word that fits a request. *)
Definition line_key (key : bytes) : Prop := unspaced key ∧ key ≠ [] ∧ zlen key < 2 ^ 16.

Lemma owner_storage s A key :
  serves s A → ∃ t d, t ∈ tablets_ (master s) ∧ covers t key ∧
    stores (nodes s) !! node_id t = Some (Some d) ∧ ldb_healthy d ∧ ldb_view d !! key = A !! key.
Proof.
  intros Hs. pose proof (srv_rep _ _ Hs) as Hr.
  destruct (route_exact (tablets_ (master s)) key (rep_partition _ _ _ Hr)) as (i & t & _ & Hi & _ & Hcov & _).
  pose proof (list_elem_of_lookup_2 _ _ _ Hi) as Ht. destruct (rep_store _ _ _ Hr t Ht) as [d Hd].
  exists t, d. split_and!; try done; [by eapply (rep_healthy _ _ _ Hr)|].
  apply option_eq. intros v. rewrite (rep_view _ _ _ Hr _ d key v Hd).
  rewrite (owner_of _ t _ key (rep_partition _ _ _ Hr) Ht Hcov). tauto.
Qed.

(** [put key value] inserts. *)
Lemma put_command s c A key value :
  serves s A → 0 ≤ req_id_ c < 2 ^ 32 → line_key key → line_value value → wire_map (<[key := value]> A) →
  ∃ s' c', Execute s c (str "put " ++ key ++ str " " ++ value) = Ret (s', c', true, OOk) ∧
    serves s' (<[key := value]> A) ∧ master s' = master s ∧ 0 ≤ req_id_ c' < 2 ^ 32.
Proof.
  intros Hs Hc (Hkey & Hne & Hkl) Hval Hw. destruct (owner_storage s A key Hs) as (t & d & Ht & Hcov & Hd & Hh & _).
  assert (Hkv : zlen key + zlen value < 2 ^ 32 - 17).
  { destruct Hw as [Hw' _]. destruct (Hw' key value) as [_ ?]; [apply lookup_insert_eq|done]. }
  destruct (ldb_put_healthy d key value Hh) as [Hok Hh1].
  destruct (ldb_put d key value) as [d1 b] eqn:E. cbn [fst snd] in Hok, Hh1. subst b.
  destruct (Execute_request s c A (str "put") key (str " " ++ value) value OP_PUT t (Some d) (Some d1) ST_OK [])
    as (c' & HE & Hc'); try done; [set_solver|by intros ? ? [= <- _]|by rewrite parse_value_line| |].
  { intros rid. rewrite put_request by done. unfold Put. by rewrite E. }
  exists (after s (node_id t) (Some d1)), c'. split; [exact HE|]. split; [|done].
  apply (serves_after s A); [done|]. apply (rep_update _ _ _ t key (Some value) d); try done; [apply Hs|].
  by apply (ldb_put_ok _ _ _ _ E).
Qed.

(** What [get key] prints for the value found. *)
Definition get_output (o : option bytes) : output :=
  match o with
  | Some v => OValue (if bool_decide (v = []) then str "(empty)" else v)
  | None => OKeyNotFound
  end.

(** [get key] looks up and changes nothing stored. *)
Lemma get_command s c A key :
  serves s A → 0 ≤ req_id_ c < 2 ^ 32 → line_key key →
  ∃ s' c', Execute s c (str "get " ++ key) = Ret (s', c', true, get_output (A !! key)) ∧
    serves s' A ∧ master s' = master s ∧ 0 ≤ req_id_ c' < 2 ^ 32.
Proof.
  intros Hs Hc (Hkey & Hne & Hkl). destruct (owner_storage s A key Hs) as (t & d & Ht & Hcov & Hd & Hh & Hv).
  pose proof (srv_rep _ _ Hs) as Hr.
  replace (str "get " ++ key) with (str "get" ++ str " " ++ key ++ []) by (by rewrite app_nil_r).
  assert (Hset : set_store (nodes s) (node_id t) (Some d) = nodes s) by (by apply set_store_same).
  set (r := match A !! key with Some v => (ST_OK, v) | None => (ST_NOT_FOUND, []) end).
  assert (Hvl : zlen r.2 < 2 ^ 32 - 15 ∧ 0 ≤ r.1 < 256).
  { unfold r. destruct (A !! key) as [v|] eqn:E; [|done]. split; [|done].
    destruct (rep_wire _ _ _ Hr) as [Hwa _]. destruct (Hwa key v E) as [_ ?]. cbn in *. zlia. }
  destruct (Execute_request s c A (str "get") key [] [] OP_GET t (Some d) (Some d) r.1 r.2)
    as (c' & HE & Hc'); try done; [set_solver|zlia|apply Hvl|apply Hvl| |].
  { intros rid. rewrite get_request by (done || zlia). unfold Get. rewrite ldb_get_healthy, Hv by done.
    unfold r. by destruct (A !! key). }
  exists (after s (node_id t) (Some d)), c'. split; [|split; [|done]].
  - rewrite HE. unfold r. by destruct (A !! key).
  - apply (serves_after s A); [done|]. by rewrite Hset.
Qed.

(** [delete key] deletes. *)
Lemma delete_command s c A key :
  serves s A → 0 ≤ req_id_ c < 2 ^ 32 → line_key key →
  ∃ s' c', Execute s c (str "delete " ++ key) = Ret (s', c', true, OOk) ∧
    serves s' (delete key A) ∧ master s' = master s ∧ 0 ≤ req_id_ c' < 2 ^ 32.
Proof.
  intros Hs Hc (Hkey & Hne & Hkl). destruct (owner_storage s A key Hs) as (t & d & Ht & Hcov & Hd & Hh & _).
  replace (str "delete " ++ key) with (str "delete" ++ str " " ++ key ++ []) by (by rewrite app_nil_r).
  destruct (ldb_delete_healthy d key Hh) as [Hok Hh1].
  destruct (ldb_delete d key) as [d1 b] eqn:E. cbn [fst snd] in Hok, Hh1. subst b.
  destruct (Execute_request s c A (str "delete") key [] [] OP_DELETE t (Some d) (Some d1) ST_OK [])
    as (c' & HE & Hc'); try done; [set_solver|zlia| |].
  { intros rid. rewrite delete_request by (done || zlia). unfold Delete. by rewrite E. }
  exists (after s (node_id t) (Some d1)), c'. split; [exact HE|]. split; [|done].
  apply (serves_after s A); [done|]. apply (rep_update _ _ _ t key None d); try done; [apply Hs| |].
  - by apply (ldb_delete_ok _ _ _ E).
  - apply (wire_delete A key), Hs.
Qed.
End Update.

(** ** A small system *)
Definition demo_system : System MemDB :=
  {| master := demo_fresh; nodes := spread_nodes (tablets_ demo_fresh) demo_map; proxy_link := LDown; proxy_in := [];
     dn_node := None |}.

Lemma demo_addressed t port :
  0 ≤ tid t < 2 ^ 64 → plain (start_key t) → plain (end_key t) → 0 ≤ port < 2 ^ 16 →
  GetNodeAddr demo_peers (node_id t) = str "127.0.0.1:" ++ to_string port →
  find_peer demo_peers (str "127.0.0.1") port = Some (node_id t) → addressed demo_fresh t.
Proof.
  intros Hid Hs He Hp Ha Hf. split; [done|]. split; [done|]. split; [done|].
  exists (str "127.0.0.1"), port. split; [exact Ha|]. split; [|done].
  apply (bool_decide_unpack _). vm_compute. exact I.
Qed.

Lemma demo_serves : serves demo_system demo_map.
Proof.
  split; try reflexivity; [exact demo_represents|].
  repeat apply List.Forall_cons; [| |apply List.Forall_nil];
    [apply (demo_addressed _ 9002)|apply (demo_addressed _ 9003)];
    try (vm_compute; reflexivity); try (vm_compute; split; congruence);
    apply (bool_decide_unpack _); vm_compute; exact I.
Qed.
