(* ===== verification/Process.v ===== *)
(** * The process of a node: from [main] to its end (src/lekv.cpp, [main] of
    src/lekv_cli.cpp, the constructor, [Run] and [Stop] of src/kv/raft_node.cpp)

    What [main] makes of its arguments and the configuration, what the
    constructor builds, and the life of the process as a transition system of
    its threads: the main thread, the thread that waits for SIGINT and calls
    [Stop], the balancer, and the server with its workers.  The system is finite,
    so it is an executable function from a state to its successors, and its properties
    are decided by exploring it. *)

From S2P Require Import Prelude Storage Text Json Config Tablet RaftNode Cli.

(** ** [main] *)

(** The process ends with a code, or goes on with a node. *)
Inductive started (A : Type) : Type :=
  | Exit (code : Z)
  | Serve (a : A).
Arguments Exit {A} code.
Arguments Serve {A} a.

(** [args]: the arguments after the name of the program; [config]: the contents
    of config.json, if it can be opened.  Every exception ends in [return 1]. *)
Definition lekv_main {J : JsonText} (args : list bytes) (signal_ok : bool) (config : option bytes)
    : started (Z * Z * list PeerInfo) :=
  if (1 <? length args)%nat then Exit 0 else
  if negb signal_ok then Exit 1 else
  match parse_port (head args) with
  | Ret _ =>
      match config with
      | None => Exit 1
      | Some text =>
          match start_up (head args) text with
          | Ret node => Serve node
          | _ => Exit 1
          end
      end
  | _ => Exit 1
  end.

(** [main] of the client, up to [cli.Run()]; [Init] always succeeds. *)
Definition cli_main {J : JsonText} (config : option bytes) : started LekvCli :=
  match config with
  | None => Exit 1
  | Some text =>
      match (j ← json_parse text; read_master_config j) with
      | Ret master => Serve (Init (ip master) (port master))
      | _ => Exit 1
      end
  end.

(** ** The constructor *)
Section Construct.
Context {D : Type} {J : JsonText} (fs : nat → fs_answer).

(** [connects]: whether [Connect] to a peer succeeds; [db_open]: what LevelDB
    opens at a path; an exception of [StorageEngine] is caught. *)
Context (connects : PeerInfo → bool) (db_open : bytes → option D).

Record Node := { raft : RaftNode; node_clients_ : gset Z; storage_ : option D }.

(** The keys of [node_clients_]; a client that does not connect is dropped. *)
Fixpoint connect_peers (peers : list PeerInfo) (clients : gset Z) : gset Z :=
  match peers with
  | [] => clients
  | p :: peers =>
      if port p =? LEADER_PORT then connect_peers peers clients
      else if connects p then connect_peers peers ({[u32 (pid p)]} ∪ clients)
      else connect_peers peers clients
  end.

Definition db_path (node_id : Z) : bytes := str "db_" ++ to_string node_id.

Definition construct (id prt : Z) (peers : list PeerInfo) (d : Disk) : outcome Node :=
  if prt =? LEADER_PORT then
    let clients := connect_peers peers ∅ in
    n ← init_master fs id prt peers d;
    Ret {| raft := n; node_clients_ := clients; storage_ := None |}
  else
    Ret {| raft := {| node_id_ := id; port_ := prt; peers_ := peers; tablets_ := []; next_tablet_id_ := 3;
                      epoch_ := 1; transfer_count_ := 0; transfer_time_ms_ := 0; disk_ := d; saves_ := 0 |};
           node_clients_ := ∅; storage_ := match open_engine (db_open (db_path id)) with Ret d => Some d | _ => None end |}.
End Construct.

(** ** The threads *)

(** The main thread: in [Run] before [Start], before [running_ = true], before
    [balancer_running_ = true], before the balancer's thread, in [cv_.wait]; in
    [main] before [stop_thread.join()], before the destructor; the end, or
    [std::terminate] in the destructor of a thread that was not joined. *)
Inductive main_pc : Type :=
  | AtStart | AtRunning | AtBalancer | AtSpawn | Waiting | Joining | Destroying | Exited | Terminated.

(** [stop_thread]: polling [g_stop], and the statements of [Stop]. *)
Inductive stop_pc : Type :=
  | Polling | Entering | BalancerFlag | ServerStop | JoinBalancer | CloseClients | CloseStorage | StopDone.

Inductive server_state : Type := NoServer | Serving | ServerStopped.

(** [balancer_thread_]: at the test of [balancer_running_], in a turn. *)
Inductive balancer_state : Type := NotSpawned | AtTest | InTurn | Ended | Joined.

Record process := {
  is_master : bool;
  main_at : main_pc;
  stop_at : stop_pc;
  g_stop : bool;
  running_ : bool;
  balancer_running_ : bool;
  server : server_state;
  balancer : balancer_state;
  clients_open : bool;
  storage_open : bool;
}.

#[export] Instance main_pc_dec : EqDecision main_pc. Proof. solve_decision. Defined.
#[export] Instance stop_pc_dec : EqDecision stop_pc. Proof. solve_decision. Defined.
#[export] Instance server_state_dec : EqDecision server_state. Proof. solve_decision. Defined.
#[export] Instance balancer_state_dec : EqDecision balancer_state. Proof. solve_decision. Defined.
#[export] Instance process_dec : EqDecision process. Proof. solve_decision. Defined.

Definition launched (master : bool) : process :=
  {| is_master := master; main_at := AtStart; stop_at := Polling; g_stop := false; running_ := false;
     balancer_running_ := false; server := NoServer; balancer := NotSpawned; clients_open := true;
     storage_open := true |}.

Definition to_main (p : process) (pc : main_pc) : process :=
  {| is_master := is_master p; main_at := pc; stop_at := stop_at p; g_stop := g_stop p; running_ := running_ p;
     balancer_running_ := balancer_running_ p; server := server p; balancer := balancer p;
     clients_open := clients_open p; storage_open := storage_open p |}.
Definition to_stop (p : process) (pc : stop_pc) : process :=
  {| is_master := is_master p; main_at := main_at p; stop_at := pc; g_stop := g_stop p; running_ := running_ p;
     balancer_running_ := balancer_running_ p; server := server p; balancer := balancer p;
     clients_open := clients_open p; storage_open := storage_open p |}.
Definition set_flags (p : process) (g r b : bool) : process :=
  {| is_master := is_master p; main_at := main_at p; stop_at := stop_at p; g_stop := g; running_ := r;
     balancer_running_ := b; server := server p; balancer := balancer p;
     clients_open := clients_open p; storage_open := storage_open p |}.
Definition set_threads (p : process) (s : server_state) (b : balancer_state) : process :=
  {| is_master := is_master p; main_at := main_at p; stop_at := stop_at p; g_stop := g_stop p; running_ := running_ p;
     balancer_running_ := balancer_running_ p; server := s; balancer := b;
     clients_open := clients_open p; storage_open := storage_open p |}.
Definition set_open (p : process) (c s : bool) : process :=
  {| is_master := is_master p; main_at := main_at p; stop_at := stop_at p; g_stop := g_stop p; running_ := running_ p;
     balancer_running_ := balancer_running_ p; server := server p; balancer := balancer p;
     clients_open := c; storage_open := s |}.

(** [RaftNode::Run], the end of [main] and the destructor. *)
Definition main_step (p : process) : list process :=
  match main_at p with
  | AtStart => [to_main (set_threads p Serving (balancer p)) AtRunning; to_main p Joining]
  | AtRunning =>
      let p := set_flags p (g_stop p) true (balancer_running_ p) in
      [to_main p (if is_master p then AtBalancer else Waiting)]
  | AtBalancer => [to_main (set_flags p (g_stop p) (running_ p) true) AtSpawn]
  | AtSpawn => [to_main (set_threads p (server p) AtTest) Waiting]
  | Waiting => if running_ p then [] else [to_main p Joining]
  | Joining => if decide (stop_at p = StopDone) then [to_main p Destroying] else []
  | Destroying =>
      (* [Stop] returns at once; then the members are destroyed *)
      match balancer p with
      | NotSpawned | Joined => [to_main p Exited]
      | _ => [to_main p Terminated]
      end
  | Exited | Terminated => []
  end.

(** [stop_thread] and [RaftNode::Stop]. *)
Definition stop_step (p : process) : list process :=
  match stop_at p with
  | Polling => if g_stop p then [to_stop p Entering] else []
  | Entering =>
      if negb (running_ p) then [to_stop p StopDone]
      else [to_stop (set_flags p (g_stop p) false (balancer_running_ p)) BalancerFlag]
  | BalancerFlag => [to_stop (set_flags p (g_stop p) (running_ p) false) ServerStop]
  | ServerStop => [to_stop (set_threads p ServerStopped (balancer p)) JoinBalancer]
  | JoinBalancer =>
      match balancer p with
      | NotSpawned => [to_stop p CloseClients]
      | Ended => [to_stop (set_threads p (server p) Joined) CloseClients]
      | _ => []
      end
  | CloseClients => [to_stop (set_open p false (storage_open p)) CloseStorage]
  | CloseStorage => [to_stop (set_open p (clients_open p) false) StopDone]
  | StopDone => []
  end.

(** The outer loop of [BalancerLoop]. *)
Definition balancer_step (p : process) : list process :=
  match balancer p with
  | AtTest => [set_threads p (server p) (if balancer_running_ p then InTurn else Ended)]
  | InTurn => [set_threads p (server p) AtTest]
  | _ => []
  end.

(** SIGINT.  With [early] it can come at any time, else only when [Run] waits or
    has returned. *)
Definition signal_step (early : bool) (p : process) : list process :=
  if early || bool_decide (main_at p = Waiting) || bool_decide (main_at p = Joining)
  then [set_flags p true (running_ p) (balancer_running_ p)] else [].

Definition alive (p : process) : bool :=
  negb (bool_decide (main_at p = Exited)) && negb (bool_decide (main_at p = Terminated)).

Definition next (early : bool) (p : process) : list process :=
  if alive p then main_step p ++ stop_step p ++ balancer_step p ++ signal_step early p else [].

Definition moves (early : bool) (p p' : process) : Prop := p' ∈ next early p.

(** ** Deciding properties by exploration *)
Section Explore.
Context (early : bool).

Definition add_new (seen : list process) (l : list process) : list process :=
  fold_left (fun acc p => if bool_decide (p ∈ acc) then acc else p :: acc) l seen.

(** Rounds of adding the successors of everything seen. *)
Fixpoint explore (fuel : nat) (seen : list process) : list process :=
  match fuel with
  | O => seen
  | S fuel => explore fuel (add_new seen (seen ≫= next early))
  end.

Definition closed (l : list process) : bool := forallb (fun p => forallb (fun p' => bool_decide (p' ∈ l)) (next early p)) l.

(** The members of [l] from which a state of [good] can be reached. *)
Fixpoint can_reach (fuel : nat) (l good : list process) : list process :=
  match fuel with
  | O => good
  | S fuel => can_reach fuel l
      (add_new good (filter (fun p => existsb (fun p' => bool_decide (p' ∈ good)) (next early p) = true) l))
  end.

Lemma closed_spec l : closed l = true ↔ ∀ p p', p ∈ l → moves early p p' → p' ∈ l.
Proof.
  unfold closed, moves. rewrite forallb_forall. setoid_rewrite forallb_forall.
  setoid_rewrite bool_decide_eq_true. setoid_rewrite <- list_elem_of_In. naive_solver.
Qed.

Lemma closed_sound l p p' : closed l = true → p ∈ l → rtc (moves early) p p' → p' ∈ l.
Proof.
  rewrite closed_spec. intros Hc Hp Hr. induction Hr as [|x y z Hxy _ IH]; [done|].
  apply IH. by eapply Hc.
Qed.

Lemma elem_of_add_new l seen p : p ∈ add_new seen l → p ∈ seen ∨ p ∈ l.
Proof.
  unfold add_new. revert seen. induction l as [|x l IH]; intros seen; cbn [fold_left]; [by left|].
  intros Hp. apply IH in Hp as [Hp|Hp]; [|right; by right].
  case_bool_decide; [by left|]. apply elem_of_cons in Hp as [->|Hp]; [right; by left|by left].
Qed.

Lemma can_reach_sound fuel l good p :
  p ∈ can_reach fuel l good → ∃ p', p' ∈ good ∧ rtc (moves early) p p'.
Proof.
  revert good. induction fuel as [|fuel IH]; intros good; cbn [can_reach]; [by exists p|].
  intros Hp. apply IH in Hp as (q & Hq & Hr). apply elem_of_add_new in Hq as [Hq|Hq]; [by exists q|].
  apply list_elem_of_filter in Hq as [Hex _]. apply existsb_exists in Hex as (q' & Hin & Hq').
  rewrite bool_decide_eq_true in Hq'. exists q'. split; [done|].
  eapply rtc_r; [exact Hr|]. by apply list_elem_of_In.
Qed.

Lemma explore_sound fuel seen p :
  p ∈ explore fuel seen → ∃ q, q ∈ seen ∧ rtc (moves early) q p.
Proof.
  revert seen. induction fuel as [|fuel IH]; intros seen; cbn [explore]; [by exists p|].
  intros Hp. apply IH in Hp as (q & Hq & Hr). apply elem_of_add_new in Hq as [Hq|Hq]; [by exists q|].
  apply list_elem_of_bind in Hq as (x & Hx & Hxs). exists x. split; [done|].
  by eapply rtc_l.
Qed.
End Explore.

(** The states that can be met when the signal comes while [Run] waits, or at any time. *)
Definition met (early master : bool) : list process := explore early 24 [launched master].

Lemma met_all early master p : rtc (moves early) (launched master) p → p ∈ met early master.
Proof.
  apply closed_sound; [|destruct early, master; apply (bool_decide_unpack _); vm_compute; exact I].
  destruct early, master; vm_compute; reflexivity.
Qed.

Lemma met_reached early master p : p ∈ met early master → rtc (moves early) (launched master) p.
Proof.
  unfold met. intros Hp. destruct (explore_sound early 24 [launched master] p Hp) as (q & Hq & Hr).
  apply list_elem_of_singleton in Hq. rewrite Hq in Hr. exact Hr.
Qed.

(** Nothing that is in use is closed, and no thread is destroyed while it can be joined. *)
Definition in_order (p : process) : bool :=
  implb (bool_decide (server p = Serving)) (storage_open p) && implb (bool_decide (balancer p = InTurn)) (clients_open p)
  && negb (bool_decide (main_at p = Terminated)).

Lemma in_order_spec p :
  in_order p = true →
  (server p = Serving → storage_open p = true) ∧ (balancer p = InTurn → clients_open p = true) ∧ main_at p ≠ Terminated.
Proof.
  unfold in_order. rewrite !andb_true_iff, negb_true_iff, !implb_true_iff, !bool_decide_eq_true, bool_decide_eq_false.
  tauto.
Qed.

Definition exited (p : process) : Prop := main_at p = Exited.

Lemma forallb_elem {A} (f : A → bool) l x : forallb f l = true → x ∈ l → f x = true.
Proof. rewrite forallb_forall. intros Hf Hx. by apply Hf, list_elem_of_In. Qed.

Lemma met_in_order master : forallb in_order (met false master) = true.
Proof. destruct master; vm_compute; reflexivity. Qed.

(** The states from which the process can end. *)
Definition ends (master : bool) : list process :=
  can_reach false 24 (met false master) (filter exited (met false master)).

Definition can_end (master : bool) (p : process) : bool := implb (g_stop p) (bool_decide (p ∈ ends master)).

Lemma can_end_spec master p : can_end master p = true → g_stop p = true → p ∈ ends master.
Proof. unfold can_end. generalize (ends master). intros l. rewrite implb_true_iff, bool_decide_eq_true. tauto. Qed.

Lemma met_can_end master : forallb (can_end master) (met false master) = true.
Proof. destruct master; vm_compute; reflexivity. Qed.

Lemma ends_sound master p : p ∈ ends master → ∃ p', rtc (moves false) p p' ∧ main_at p' = Exited.
Proof.
  unfold ends. generalize (met false master). intros l Hp.
  destruct (can_reach_sound false 24 l (filter exited l) p Hp) as (p' & Hx & Hr).
  apply list_elem_of_filter in Hx as [Hx _]. exists p'. split; [exact Hr|exact Hx].
Qed.

(** SIGINT came before [running_ = true]: [Stop] has returned without doing anything. *)
Definition missed_stop (master : bool) : process :=
  {| is_master := master; main_at := AtRunning; stop_at := StopDone; g_stop := true; running_ := false;
     balancer_running_ := false; server := Serving; balancer := NotSpawned; clients_open := true;
     storage_open := true |}.

(** SIGINT came between [running_ = true] and the start of the balancer's thread,
    which [Stop] did not find: the thread is destroyed while it runs. *)
Definition crashed : process :=
  {| is_master := true; main_at := Terminated; stop_at := StopDone; g_stop := true; running_ := false;
     balancer_running_ := false; server := ServerStopped; balancer := Ended; clients_open := false;
     storage_open := false |}.

Lemma shutdown_in_order master p :
  rtc (moves false) (launched master) p →
  (server p = Serving → storage_open p = true) ∧ (balancer p = InTurn → clients_open p = true) ∧ main_at p ≠ Terminated.
Proof. intros Hr. apply in_order_spec. exact (forallb_elem _ _ _ (met_in_order master) (met_all _ _ _ Hr)). Qed.

Lemma shutdown_ends master p :
  rtc (moves false) (launched master) p → g_stop p = true → ∃ p', rtc (moves false) p p' ∧ main_at p' = Exited.
Proof.
  intros Hr Hg. apply (ends_sound master), can_end_spec; [|exact Hg].
  exact (forallb_elem _ _ _ (met_can_end master) (met_all _ _ _ Hr)).
Qed.

Lemma missed_stop_met master : missed_stop master ∈ met true master.
Proof. apply (bool_decide_unpack _). destruct master; vm_compute; exact I. Qed.

Definition after_missed (master : bool) : list process := explore true 8 [missed_stop master].

Lemma after_missed_closed master : closed true (after_missed master) = true.
Proof. destruct master; vm_compute; reflexivity. Qed.

Lemma after_missed_first master : missed_stop master ∈ after_missed master.
Proof. apply (bool_decide_unpack _). destruct master; vm_compute; exact I. Qed.

Lemma after_missed_serving master :
  Forall (fun p => server p = Serving ∧ main_at p ≠ Exited) (after_missed master).
Proof. apply (bool_decide_unpack _). destruct master; vm_compute; exact I. Qed.

Lemma crashed_met : crashed ∈ met true true.
Proof. apply (bool_decide_unpack _). vm_compute. exact I. Qed.

(** ** What the node is *)

Lemma db_path_inj i j : 0 ≤ i < 2 ^ 64 → 0 ≤ j < 2 ^ 64 → db_path i = db_path j → i = j.
Proof.
  unfold db_path. intros Hi Hj E. apply app_inv_head in E.
  assert (Hn : no_digit_first []) by done.
  pose proof (stoull_to_string i [] Hi Hn) as Ei. pose proof (stoull_to_string j [] Hj Hn) as Ej. congruence.
Qed.

Lemma lekv_main_inv {J : JsonText} args signal_ok config node :
  lekv_main args signal_ok config = Serve node → ∃ text, config = Some text ∧ start_up (head args) text = Ret node.
Proof.
  unfold lekv_main. destruct (_ <? _)%nat; [done|]. destruct (negb _); [done|].
  destruct (parse_port _); try done. destruct config as [text|]; [|done].
  destruct (start_up (head args) text) eqn:E; try done. intros [= <-]. by exists text.
Qed.

(** The connections the master gets. *)
Lemma connect_peers_spec connects peers clients x :
  x ∈ connect_peers connects peers clients ↔
    x ∈ clients ∨ ∃ p, p ∈ peers ∧ port p ≠ LEADER_PORT ∧ connects p = true ∧ x = u32 (pid p).
Proof.
  revert clients. induction peers as [|p peers IH]; intros clients; cbn [connect_peers].
  { split; [by left|]. intros [?|(p & Hp & _)]; [done|by apply elem_of_nil in Hp]. }
  assert (Hcons : (∃ q, q ∈ p :: peers ∧ port q ≠ LEADER_PORT ∧ connects q = true ∧ x = u32 (pid q)) ↔
    (port p ≠ LEADER_PORT ∧ connects p = true ∧ x = u32 (pid p)) ∨
    ∃ q, q ∈ peers ∧ port q ≠ LEADER_PORT ∧ connects q = true ∧ x = u32 (pid q)).
  { setoid_rewrite elem_of_cons. naive_solver. }
  rewrite Hcons. destruct (Z.eqb_spec (port p) LEADER_PORT); [|destruct (connects p)]; rewrite IH.
  - tauto.
  - rewrite elem_of_union, elem_of_singleton. tauto.
  - intuition congruence.
Qed.

(** ** Properties *)

(** C24: what a started process is: [main] goes on only with a configuration whose
    nodes are numbered without clash (the master has id 1 and port 9001, the
    followers 2, 3, ... in the order of the file and never port 9001), and with
    the peer that has its own port; it is the master if and only if its id is 1.
    The address resolved for an id is that of its peer.  The master has no storage and exactly the
    connections that could be made; a data node has no connection, an empty
    table and the database of a directory that no other id has. *)
Theorem node_started {D} {J : JsonText} fs (connects : PeerInfo → bool) (db_open : bytes → option D) args signal_ok
    config id prt peers disk nd (Hlen : zlen peers < 2 ^ 63)
    (Hmain : lekv_main args signal_ok config = Serve (id, prt, peers))
    (Hnode : construct fs connects db_open id prt peers disk = Ret nd) :
  (pid <$> peers = (fun i => 1 + Z.of_nat i) <$> seq 0 (length peers) ∧
   (∀ i p, peers !! i = Some p → (port p = MASTER_PORT ↔ i = 0%nat)) ∧
   (∃ p, p ∈ peers ∧ pid p = id ∧ port p = prt) ∧
   ∀ p, p ∈ peers → GetNodeAddr peers (pid p) = ip p ++ str ":" ++ to_string (port p)) ∧
  (prt = LEADER_PORT ↔ id = 1) ∧
  (prt = LEADER_PORT → storage_ nd = None ∧
     ∀ x, x ∈ node_clients_ nd ↔ ∃ p, p ∈ peers ∧ port p ≠ LEADER_PORT ∧ connects p = true ∧ x = u32 (pid p)) ∧
  (prt ≠ LEADER_PORT → node_clients_ nd = ∅ ∧ tablets_ (raft nd) = [] ∧ storage_ nd = db_open (db_path id) ∧
     ∀ p, p ∈ peers → db_path (pid p) = db_path id → pid p = id).
Proof.
  apply lekv_main_inv in Hmain as (text & -> & Hs).
  destruct (start_up_ids _ _ id prt peers Hlen Hs) as (Hids & Hports & (q & Hq & Hqid & Hqport) & Haddr).
  assert (Hpid : ∀ i p, peers !! i = Some p → pid p = 1 + Z.of_nat i).
  { intros i p Hi. assert (E : (pid <$> peers) !! i = Some (pid p)) by by rewrite list_lookup_fmap, Hi.
    rewrite Hids, list_lookup_fmap, lookup_seq_lt in E by (by eapply lookup_lt_Some). by injection E as <-. }
  assert (Hrange : ∀ p, p ∈ peers → 0 ≤ pid p < 2 ^ 64).
  { intros p [i Hi]%list_elem_of_lookup_1. rewrite (Hpid _ _ Hi).
    apply lookup_lt_Some in Hi. unfold zlen in Hlen. lia. }
  split; [split_and!; [exact Hids|exact Hports|by exists q|exact Haddr]|]. split.
  - pose proof Hq as [i Hi]%list_elem_of_lookup_1. specialize (Hpid _ _ Hi). specialize (Hports _ _ Hi).
    change LEADER_PORT with MASTER_PORT. rewrite <- Hqport, <- Hqid, Hports. lia.
  - unfold construct in Hnode. split; intros E.
    + rewrite E, Z.eqb_refl in Hnode. apply bind_ret_inv in Hnode as (n & _ & [= <-]). split; [done|].
      intros x. cbn [node_clients_]. rewrite connect_peers_spec.
      split; [intros [Hx|Hx]; [by apply elem_of_empty in Hx|exact Hx]|by right].
    + destruct (Z.eqb_spec prt LEADER_PORT); [done|]. injection Hnode as <-. split_and!; try done.
      { cbn [storage_]. by destruct (db_open _). }
      intros p Hp Hdb. apply db_path_inj; [by apply Hrange|rewrite <- Hqid; by apply Hrange|done].
Qed.

(** The master of the example configuration, when node 3 is down. *)
Definition demo_boot : JsonText := {| json_dump _ := Ret []; json_parse _ := Ret demo_config |}.

Definition demo_node : outcome (Node (D := MemDB)) :=
  construct (J := demo_boot) good_fs (fun p => pid p =? 2) (fun _ => None) 1 9001 demo_peers
    {| tablet_file := None; tmp_file := None |}.

Lemma node_started_witness : ∃ nd, demo_node = Ret nd ∧ node_clients_ nd = {[2]} ∧ storage_ nd = None.
Proof.
  assert (Hm : lekv_main (J := demo_boot) [] true (Some []) = Serve (1, 9001, demo_peers)) by (vm_compute; reflexivity).
  assert (Hlen : zlen demo_peers < 2 ^ 63) by (vm_compute; reflexivity).
  assert (Hn : match demo_node with Ret nd => bool_decide (node_clients_ nd = {[2]}) | _ => false end = true)
    by (vm_compute; reflexivity).
  destruct demo_node as [nd| |] eqn:E; [|discriminate Hn|discriminate Hn]. exists nd. split; [reflexivity|].
  split; [exact (bool_decide_eq_true_1 _ Hn)|].
  exact (proj1 (proj1 (proj2 (proj2 (node_started (J := demo_boot) good_fs (fun p => pid p =? 2) (fun _ => None) [] true
    (Some []) 1 9001 demo_peers _ nd Hlen Hm E))) eq_refl)).
Defined.

(** C23: stopping a node: when SIGINT comes while [Run] waits (or has given up), then in every
    interleaving of the four threads the storage is open as long as the server
    serves and the connections as long as the balancer works, no thread is
    destroyed unjoined, and the process can always go on to its end.  But SIGINT
    during the start can be lost, and then no later SIGINT ends
    the process; and on the master it can end in [std::terminate]. *)
Theorem node_shutdown (master : bool) :
  (∀ p, rtc (moves false) (launched master) p →
     (server p = Serving → storage_open p = true) ∧ (balancer p = InTurn → clients_open p = true) ∧
     main_at p ≠ Terminated ∧ (g_stop p = true → ∃ p', rtc (moves false) p p' ∧ main_at p' = Exited)) ∧
  (∃ p, rtc (moves true) (launched master) p ∧ g_stop p = true ∧ server p = Serving ∧
     ∀ p', rtc (moves true) p p' → server p' = Serving ∧ main_at p' ≠ Exited) ∧
  (master = true → ∃ p, rtc (moves true) (launched master) p ∧ main_at p = Terminated).
Proof.
  split; [|split].
  - intros p Hr. destruct (shutdown_in_order master p Hr) as (? & ? & ?). pose proof (shutdown_ends master p Hr).
    split_and!; assumption.
  - exists (missed_stop master). split; [exact (met_reached _ _ _ (missed_stop_met master))|].
    split; [reflexivity|]. split; [reflexivity|]. intros p' Hr.
    pose proof (closed_sound true _ _ _ (after_missed_closed master) (after_missed_first master) Hr) as Hp.
    pose proof (after_missed_serving master) as Hall. rewrite Forall_forall in Hall. exact (Hall p' Hp).
  - intros ->. exists crashed. split; [exact (met_reached _ _ _ crashed_met)|reflexivity].
Qed.

Lemma node_shutdown_witness :
  (∃ p, rtc (moves true) (launched true) p ∧ main_at p = Terminated) ∧
  (∃ p, rtc (moves true) (launched false) p ∧ g_stop p = true ∧ ∀ p', rtc (moves true) p p' → main_at p' ≠ Exited).
Proof.
  split; [exact (proj2 (proj2 (node_shutdown true)) eq_refl)|].
  destruct (proj1 (proj2 (node_shutdown false))) as (p & Hr & Hg & _ & Hp). exists p.
  split; [exact Hr|]. split; [exact Hg|]. intros p' Hr'. exact (proj2 (Hp p' Hr')).
Defined.
