(* ===== verification/Restart.v ===== *)
(** * Starting the system and restarting its master

    (src/kv/raft_node.cpp: the constructor, [SaveTablets] and [LoadTablets] around
    [BalancerLoop]; src/lekv_cli.cpp: a client whose master is gone.)

    After every turn of the balancer the table file holds the routes of the
    table in memory, so that the master that [Stop] ended (it waits for the
    turn under way) starts again with them; the key counts may be older.  And the first
    start on empty data nodes gives a system that serves the empty map. *)

From S2P Require Import Prelude StringOrder BinaryProtocol Storage RpcClient RpcServer DataNode.
From S2P Require Import Text Json Config Tablet RaftNode TableSteps BalancePlan Balancer Cluster MasterHandlers Cli.
From S2P Require Import EndToEnd Process.

(** ** The table on the disk *)

(** The file system does its work. *)
Definition saves_work (fs : nat → fs_answer) : Prop :=
  ∀ k, fs k = {| fs_open := true; fs_stored := None; fs_rename := true |}.

(** The file loads as the table, up to the key counts. *)
Definition saved {J : JsonText} (n : RaftNode) : Prop :=
  table_ok n ∧ ∃ text ts, tablet_file (disk_ n) = Some text ∧
    load_text text = Ret (ts, next_tablet_id_ n, epoch_ n) ∧ Forall2 same_route ts (tablets_ n) ∧ Forall tablet_ok ts.

(** A save that works leaves exactly the table on the disk. *)
Lemma SaveTablets_file {J : JsonText} `{!JsonTextSpec} fs n n' :
  fs (saves_ n) = {| fs_open := true; fs_stored := None; fs_rename := true |} → IsMaster n = true → table_ok n →
  SaveTablets fs n = Ret n' →
  ∃ text, tablet_file (disk_ n') = Some text ∧ load_text text = Ret (tablets_ n, next_tablet_id_ n, epoch_ n).
Proof.
  intros Hfs Hm Hok. unfold SaveTablets. rewrite Hm, Hfs. cbn [negb fs_open].
  intros Hs. apply bind_ret_inv in Hs as (text & Hd & [= <-]). exists text. cbn [set_disk disk_].
  rewrite save_trace_last by done. split; [done|by apply load_text_dump].
Qed.

(** A save that fails leaves the table file as it was. *)
Definition save_fails (a : fs_answer) : Prop := fs_open a = false ∨ fs_rename a = false.

Lemma SaveTablets_fails {J : JsonText} fs n n' :
  save_fails (fs (saves_ n)) → SaveTablets fs n = Ret n' → tablet_file (disk_ n') = tablet_file (disk_ n).
Proof.
  intros Hf. unfold SaveTablets. destruct (negb _); [by intros [= <-]|].
  intros Hs. apply bind_ret_inv in Hs as (text & _ & [= <-]). cbn [set_disk disk_]. unfold save_trace.
  destruct Hf as [-> | ->]; [done|]. destruct (fs_open _); [|done]. cbn [negb]. rewrite app_nil_r.
  destruct (last _) as [d|] eqn:Hl; [|done]. cbn [default].
  apply last_Some_elem_of, list_elem_of_fmap in Hl as (k & -> & _). done.
Qed.

Section Saved.
Context {W : Type} `{TransportSpec W} {J : JsonText} `{!JsonTextSpec} (fs : nat → fs_answer) (Hfs : saves_work fs).

Lemma SaveTablets_saved n : IsMaster n = true → table_ok n → post saved (SaveTablets fs n).
Proof.
  intros Hm Hok. pose proof (post_no_ub _ _ (SaveTablets_view fs n)) as Hub.
  destruct (SaveTablets fs n) as [n'| |] eqn:Hs; [|done|done].
  destruct (post_ret_inv _ _ _ (SaveTablets_view fs n) Hs) as (Hv & _). unfold view in Hv. injection Hv as Ht Hn Hep.
  destruct (SaveTablets_file fs n n' (Hfs _) Hm Hok Hs) as (text & Hf & Hl). cbn [post].
  unfold saved, table_ok. rewrite Ht, Hn, Hep. split; [exact Hok|]. exists text, (tablets_ n).
  split; [done|]. split; [done|]. split; [reflexivity|apply Hok].
Qed.

Lemma evolves_table_ok k n n' : evolves k n n' → table_ok n → table_ok n'.
Proof.
  intros [Hs _] (Hw & Hn & He). destruct (steps_widths _ _ _ Hs Hn Hw) as [Hn' Hw']. split; [done|]. split; [done|].
  destruct (steps_epoch _ _ _ Hs He) as [Hk _]. cbn [view r_epoch] in Hk. rewrite Hk. apply u64_range.
Qed.

(** Whatever ends with a save leaves the new table on the disk. *)
Lemma saved_last k n n1 n' :
  evolves k n n' → table_ok n → SaveTablets fs n1 = Ret n' → IsMaster n1 = true → saved n'.
Proof.
  intros He Hok Hs Hm. assert (Hok1 : table_ok n1); [|exact (post_ret_inv _ _ _ (SaveTablets_saved n1 Hm Hok1) Hs)].
  destruct (post_ret_inv _ _ _ (SaveTablets_view fs n1) Hs) as (Hv & _). unfold view in Hv. injection Hv as Ht Hn Hep.
  unfold table_ok. rewrite <- Ht, <- Hn, <- Hep. by eapply evolves_table_ok.
Qed.

Lemma sync_loop_route fuel w ts i : post (fun r => Forall2 same_route ts r.2) (sync_loop fuel w ts i).
Proof.
  revert w ts i. induction fuel as [|fuel IH]; intros w ts i; cbn [sync_loop]; [cbn; reflexivity|].
  destruct (ts !! i) as [t|] eqn:Hi; [|cbn; reflexivity].
  destruct (QueryTabletStats_total w (node_id t) (start_key t) (end_key t) 0 []) as (w1 & ok & c & mk & -> & _).
  cbn [mbind outcome_bind]. destruct (negb ok); [apply IH|]. destruct (negb _); [|apply IH].
  eapply post_mono; [apply IH|]. intros r Hr. etransitivity; [by apply set_count_route|exact Hr].
Qed.

Lemma saved_sync w n w' n' : saved n → SyncAllTabletStats w n = Ret (w', n') → saved n'.
Proof.
  intros (Hok & text & ts & Hf & Hl & Hr & Hw) Hs.
  pose proof (post_ret_inv _ _ _ (SyncAllTabletStats_evolves w n) Hs) as He. cbn [snd] in He.
  split; [by eapply evolves_table_ok|]. exists text, ts. revert Hs. unfold SyncAllTabletStats.
  case_bool_decide; [by intros [= <- <-]|]. intros Hs. apply bind_ret_inv in Hs as ([w1 ts1] & Hs & [= <- <-]).
  pose proof (post_ret_inv _ _ _ (sync_loop_route _ w (tablets_ n) 0) Hs) as Hts. cbn [snd] in Hts.
  cbn [set_table disk_ tablets_ next_tablet_id_ epoch_]. split_and!; try done. by etransitivity.
Qed.

(** A split, or a migration, saves last or changes nothing. *)
Definition saves_last (n n' : RaftNode) : Prop :=
  n' = n ∨ ∃ n1, SaveTablets fs n1 = Ret n' ∧ IsMaster n1 = IsMaster n.

Lemma SaveTablets_last n n1 : IsMaster n1 = IsMaster n → post (saves_last n) (SaveTablets fs n1).
Proof.
  intros Hm. pose proof (post_no_ub _ _ (SaveTablets_view fs n1)).
  destruct (SaveTablets fs n1) as [n'| |] eqn:E; [|done|done]. right. by exists n1.
Qed.

Lemma TrySplitTablet_last w n i : post (fun r => saves_last n r.1.2) (TrySplitTablet fs w n i).
Proof.
  unfold TrySplitTablet. destruct (tablets_ n !! i) as [t|]; [|by left]. destruct (_ <? _); [by left|].
  destruct (QueryTabletStats_total w (node_id t) (start_key t) (end_key t) (key_count t) [])
    as (w1 & ok & c & mk & -> & _). cbn [mbind outcome_bind].
  destruct (_ || _); [by left|]. destruct (negb _); [by left|].
  eapply post_bind; [by apply (SaveTablets_last n)|]. by intros.
Qed.

Lemma MigrateTablet_last w n i dst : post (fun r => saves_last n r.1.2) (MigrateTablet fs w n i dst).
Proof.
  unfold MigrateTablet. destruct (tablets_ n !! i) as [t|]; [|by left]. destruct (_ =? _); [by left|].
  destruct (ScanAndTransferData_total w (node_id t) dst (start_key t) (end_key t)) as (w1 & ok & ->).
  cbn [mbind outcome_bind]. destruct (negb ok); [by left|]. rewrite Z.eqb_refl, bind_assoc.
  eapply post_bind; [by apply (SaveTablets_last n)|]. intros n1 Hn1. cbn [mbind outcome_bind]. set (w1' := t_publish _ _).
  destruct (SendDeleteRange_total w1' (node_id t) (start_key t) (end_key t)) as (w2 & ok2 & ->).
  cbn [mbind outcome_bind post fst snd]. exact Hn1.
Qed.

Lemma saved_after k n n' : IsMaster n = true → saved n → saves_last n n' → evolves k n n' → saved n'.
Proof.
  intros Hm Hs [->|(n1 & Hsave & Hm1)] He; [done|]. eapply saved_last; [exact He|apply Hs|exact Hsave|congruence].
Qed.

Lemma evolves_master k n n' : evolves k n n' → IsMaster n' = IsMaster n.
Proof. intros (_ & _ & Hp & _). unfold IsMaster. by rewrite Hp. Qed.

Lemma saved_split_loop fuel w n i w' n' :
  IsMaster n = true → saved n → split_loop fs fuel w n i = Ret (Some (w', n')) → saved n'.
Proof.
  revert w n i. induction fuel as [|fuel IH]; intros w n i Hm Hs; cbn [split_loop];
    (destruct (tablets_ n !! i) as [t|]; [|by intros [= _ <-]]); [done|].
  destruct (_ <=? _); [|by apply IH]. intros Hrun. apply bind_ret_inv in Hrun as ([[w1 n1] ok] & Htry & Hrun).
  pose proof (post_ret_inv _ _ _ (TrySplitTablet_evolves fs w n i) Htry) as He. cbn [fst snd] in He.
  apply (IH w1 n1 (S i)); [by erewrite evolves_master| |exact Hrun].
  eapply (saved_after _ n); [done|done| |exact He]. exact (post_ret_inv _ _ _ (TrySplitTablet_last w n i) Htry).
Qed.

Lemma saved_balance dur w n w' n' ok :
  IsMaster n = true → saved n → DoLoadBalance fs dur w n = Ret (w', n', ok) → saved n'.
Proof.
  intros Hm Hs. unfold DoLoadBalance. destruct (plan_balance (tablets_ n)) as [[[i src] dst]|] eqn:Hplan;
    [|by intros [= _ <- _]].
  apply plan_balance_owner in Hplan as [Hdst _]. intros Hrun. apply bind_ret_inv in Hrun as ([[w1 n1] ok1] & Hmig & Hrun).
  destruct (post_ret_inv _ _ _ (MigrateTablet_evolves fs w n i dst Hdst) Hmig) as [He _]. cbn [fst snd] in He.
  assert (Hs1 : saved n1).
  { eapply (saved_after _ n); [done|done| |exact He]. exact (post_ret_inv _ _ _ (MigrateTablet_last w n i dst) Hmig). }
  destruct (tablets_ n1 !! i); [|done]. injection Hrun as _ <- _. exact Hs1.
Qed.

(** A turn of the balancer ends with its table on the disk. *)
Lemma saved_round fuel dur w n w' n' :
  IsMaster n = true → saved n → BalancerRound fs fuel dur w n = Ret (Some (w', n')) → saved n'.
Proof.
  intros Hm Hs Hrun. unfold BalancerRound in Hrun. apply bind_ret_inv in Hrun as ([w1 n1] & Hsync & Hrun).
  pose proof (post_ret_inv _ _ _ (SyncAllTabletStats_evolves w n) Hsync) as He1. cbn [snd] in He1.
  pose proof (saved_sync _ _ _ _ Hs Hsync) as Hs1.
  apply bind_ret_inv in Hrun as ([[w2 n2]|] & Hloop & Hrun); [|done].
  pose proof (post_ret_inv _ _ _ (split_loop_evolves fs fuel w1 n1 0) Hloop _ _ eq_refl) as He2.
  assert (Hm1 : IsMaster n1 = true) by (by erewrite evolves_master).
  pose proof (saved_split_loop _ _ _ _ _ _ Hm1 Hs1 Hloop) as Hs2.
  apply bind_ret_inv in Hrun as ([[w3 n3] ok] & Hbal & [= _ <-]).
  eapply saved_balance; [|exact Hs2|exact Hbal]. by erewrite evolves_master.
Qed.
End Saved.

(** ** The master starts again *)
Section Again.
Context {D : Type} `{LevelDBSpec D} {J : JsonText} `{!JsonTextSpec} (fs : nat → fs_answer).

(** The constructor, in a new process with the same configuration on the same
    disk, while every data node is up. *)
Definition start_again (n : RaftNode) : outcome (Node (D := D)) :=
  construct fs (fun _ => true) (fun _ => None) (node_id_ n) (port_ n) (peers_ n) (disk_ n).

Lemma start_again_saved n :
  IsMaster n = true → saved n →
  ∃ m, start_again n = Ret m ∧ storage_ m = None ∧ IsMaster (raft m) = true ∧ peers_ (raft m) = peers_ n ∧
    Forall2 same_route (tablets_ n) (tablets_ (raft m)) ∧ next_tablet_id_ (raft m) = next_tablet_id_ n ∧
    epoch_ (raft m) = epoch_ n ∧ saved (raft m).
Proof.
  intros Hm ([Hw Hok] & text & ts & Hf & Hl & Hr & Hts). pose proof Hm as Hp. apply Z.eqb_eq in Hp.
  unfold start_again, construct, init_master, LoadTablets. rewrite Hp. cbn [IsMaster port_ disk_].
  rewrite Hf, Hl. cbn [mbind outcome_bind negb Z.eqb LEADER_PORT Pos.eqb]. eexists. split; [reflexivity|].
  cbn [storage_ raft set_table tablets_ next_tablet_id_ epoch_ peers_]. split_and!; try done.
  split; [by split|]. exists text, ts. cbn [set_table disk_ tablets_ next_tablet_id_ epoch_]. by split_and!.
Qed.

Lemma shard_segments_route n n' first ts ts' :
  peers_ n' = peers_ n → Forall2 same_route ts ts' → shard_segments n' first ts' = shard_segments n first ts.
Proof.
  intros Hp Hf. revert first. induction Hf as [|t u ts us (E1 & E2 & E3 & E4) _ IH]; intros first; [done|].
  cbn [shard_segments]. unfold shard_segment. by rewrite IH, Hp, E1, E2, E3, E4.
Qed.

Lemma shards_body_route n n' :
  peers_ n' = peers_ n → Forall2 same_route (tablets_ n) (tablets_ n') → shards_body n' = shards_body n.
Proof.
  intros Hp Hf. unfold shards_body. rewrite (shard_segments_route n n' true _ _ Hp Hf).
  unfold zlen. by rewrite (Forall2_length _ _ _ Hf).
Qed.

Lemma addressed_route n n' t u : peers_ n' = peers_ n → same_route t u → addressed n t → addressed n' u.
Proof. intros Hp (E1 & E2 & E3 & E4). unfold addressed. by rewrite Hp, E1, E2, E3, E4. Qed.

(** A master with the same routes and addresses serves the same map. *)
Lemma serves_route (s s' : System D) A :
  serves s A → IsMaster (master s') = true → peers_ (master s') = peers_ (master s) →
  Forall2 same_route (tablets_ (master s)) (tablets_ (master s')) → nodes s' = nodes s → proxy_in s' = [] → serves s' A.
Proof.
  intros [Hr Hm Ha Hs Hc Hq] Hm' Hp Hf Hn Hq'. split; try done.
  - rewrite Hn. by apply (rep_same_route (master s)).
  - clear -Hp Hf Ha. induction Hf as [|t u ts us Htu _ IH]; [done|]. apply Forall_cons in Ha as [Ht Ha].
    constructor; [|auto]. by eapply addressed_route.
  - by rewrite (shards_body_route (master s)).
  - unfold zlen in *. by rewrite <- (Forall2_length _ _ _ Hf).
Qed.
End Again.

(** ** The first start *)

(** A configuration whose nodes have different ids and addresses, which the text
    of the table can carry. *)
Record well_configured (peers : list PeerInfo) : Prop := {
  wc_ids : NoDup (pid <$> peers);
  wc_addrs : NoDup ((fun p => (ip p, port p)) <$> peers);
  wc_peers : Forall (fun p => 0 ≤ pid p < 2 ^ 32 ∧ plain (ip p) ∧ zlen (ip p) < 2 ^ 16 ∧ 0 ≤ port p < 2 ^ 16) peers;
}.

Lemma find_peer_NoDup peers p :
  NoDup ((fun p => (ip p, port p)) <$> peers) → p ∈ peers → find_peer peers (ip p) (port p) = Some (pid p).
Proof.
  induction peers as [|q peers IH]; intros Hn Hp; [by apply elem_of_nil in Hp|].
  rewrite fmap_cons, NoDup_cons in Hn. destruct Hn as [Hq Hn]. cbn [find_peer].
  apply elem_of_cons in Hp as [->|Hp]; [by rewrite bool_decide_eq_true_2, Z.eqb_refl by done|].
  case_bool_decide as Hip; cbn [andb]; [|by apply IH]. destruct (Z.eqb_spec (port q) (port p)) as [Hport|]; [|by apply IH].
  exfalso. apply Hq. rewrite Hip, Hport. by apply (list_elem_of_fmap_2 (fun p => (ip p, port p))).
Qed.

Lemma data_node_peer peers node : well_configured peers → node ∈ data_nodes peers → ∃ p, p ∈ peers ∧ pid p = node.
Proof.
  intros [_ _ Hall] (p & -> & Hp)%list_elem_of_fmap. apply list_elem_of_filter in Hp as [_ Hp]. exists p.
  split; [done|]. rewrite Forall_forall in Hall. destruct (Hall p Hp) as (? & _). by rewrite u32_small.
Qed.

(** The address of a data node. *)
Lemma data_node_addr peers node :
  well_configured peers → node ∈ data_nodes peers →
  ∃ ip port, GetNodeAddr peers node = ip ++ str ":" ++ to_string port ∧ plain ip ∧ zlen ip < 2 ^ 16 ∧
    0 ≤ port < 2 ^ 16 ∧ find_peer peers ip port = Some node.
Proof.
  intros Hc Hn. destruct (data_node_peer _ _ Hc Hn) as (p & Hp & <-). destruct Hc as [Hids Haddrs Hall].
  rewrite Forall_forall in Hall. destruct (Hall p Hp) as (_ & ? & ? & ?). exists (ip p), (port p).
  split; [by apply GetNodeAddr_NoDup|]. split; [done|]. split; [done|]. split; [done|by apply find_peer_NoDup].
Qed.

(** Every data node is up with an empty database. *)
Record fresh_nodes {D} `{LevelDB D} (peers : list PeerInfo) (w : Nodes D) : Prop := {
  fresh_up node : node ∈ data_nodes peers → ∃ d, stores w !! node = Some (Some d);
  fresh_empty node d : stores w !! node = Some (Some d) → ldb_healthy d ∧ ldb_view d = ∅;
  fresh_inbox : inbox w = [];
}.

Lemma zlen_dec_go fuel z acc : zlen (dec_go fuel z acc) ≤ Z.of_nat fuel + zlen acc.
Proof.
  revert z acc. induction fuel as [|fuel IH]; intros z acc; cbn [dec_go]; [lia|].
  pose proof (IH (z / 10) (digit (z mod 10) :: acc)) as Hl. rewrite zlen_cons in Hl.
  destruct (_ =? 0); [rewrite zlen_cons|]; lia.
Qed.

Lemma zlen_to_string z : zlen (to_string z) ≤ 20.
Proof. pose proof (zlen_dec_go 20 z []) as Hl. change (zlen []) with 0 in Hl. unfold to_string. lia. Qed.

(** The table of [BuildInitialTablets]. *)
Definition first_table (n0 n1 : Z) : list Tablet :=
  [ {| tid := 1; start_key := []; end_key := str "m"; node_id := n0; key_count := 0 |};
    {| tid := 2; start_key := str "m"; end_key := []; node_id := n1; key_count := 0 |} ].

Section First.
Context {D : Type} `{LevelDBSpec D} {J : JsonText} `{!JsonTextSpec} (fs : nat → fs_answer).

Lemma init_master_two id peers d n0 n1 rest n :
  tablet_file d = None → data_nodes peers = n0 :: n1 :: rest → init_master fs id LEADER_PORT peers d = Ret n →
  tablets_ n = first_table n0 n1 ∧ peers_ n = peers ∧ IsMaster n = true ∧ (saves_work fs → saved n).
Proof.
  intros Hd Hdn Hrun. assert (Hn : Forall (fun x => 0 ≤ x < 2 ^ 32) (n0 :: n1 :: rest)).
  { rewrite <- Hdn. apply Forall_forall. intros x (p & -> & _)%list_elem_of_fmap. apply u32_range. }
  apply Forall_cons in Hn as [? Hn]. apply Forall_cons in Hn as [? _].
  unfold init_master, LoadTablets, BuildInitialTablets in Hrun.
  cbn [IsMaster port_ negb Z.eqb LEADER_PORT Pos.eqb disk_] in Hrun. rewrite Hd in Hrun.
  cbn [mbind outcome_bind peers_] in Hrun. rewrite Hdn in Hrun.
  cbn [mbind outcome_bind set_table tablets_ app] in Hrun.
  match type of Hrun with SaveTablets _ ?m = _ => set (n' := m) in Hrun end.
  destruct (post_ret_inv _ _ _ (SaveTablets_view fs n') Hrun) as (Hv & _ & Hp & Hps & _).
  unfold view in Hv. injection Hv as Ht _ _. split; [by rewrite Ht|]. split; [by rewrite Hps|].
  split; [unfold IsMaster; by rewrite Hp|]. intros Hfs.
  refine (post_ret_inv _ _ _ (SaveTablets_saved fs Hfs n' eq_refl _) Hrun).
  split; [|cbn; lia]. cbn. repeat constructor; cbn; lia.
Qed.

Lemma first_table_represents peers n n0 n1 rest (w : Nodes D) :
  data_nodes peers = n0 :: n1 :: rest → fresh_nodes peers w → tablets_ n = first_table n0 n1 →
  partition (tablets_ n) → represents n w ∅.
Proof.
  intros Hdn [Hup Hempty Hin] Ht Hp. rewrite Hdn in Hup. split; try done.
  - rewrite Ht. repeat constructor.
  - rewrite Ht. intros t Hin'. apply Hup. repeat (apply elem_of_cons in Hin' as [->|Hin']; [cbn [node_id]; set_solver|]).
    by apply elem_of_nil in Hin'.
  - intros node d Hd. by apply (Hempty node).
  - intros node d k v Hd. destruct (Hempty node d Hd) as [_ ->]. rewrite !lookup_empty. naive_solver.
Qed.

Lemma first_addressed peers n n0 n1 rest :
  well_configured peers → data_nodes peers = n0 :: n1 :: rest → peers_ n = peers → tablets_ n = first_table n0 n1 →
  Forall (addressed n) (tablets_ n) ∧ zlen (shards_body n) < 2 ^ 32 - 15.
Proof.
  intros Hc Hdn Hp Ht.
  destruct (data_node_addr peers n0 Hc ltac:(rewrite Hdn; set_solver)) as (ip0 & port0 & Ha0 & ? & ? & ? & ?).
  destruct (data_node_addr peers n1 Hc ltac:(rewrite Hdn; set_solver)) as (ip1 & port1 & Ha1 & ? & ? & ? & ?).
  assert (Hm : plain (str "m")) by (apply (bool_decide_unpack _); vm_compute; exact I).
  split.
  - rewrite Ht. repeat apply List.Forall_cons; [..|apply List.Forall_nil]; (split; [cbn; lia|]);
      (split; [first [exact Hm|apply List.Forall_nil]|]); (split; [first [exact Hm|apply List.Forall_nil]|]);
      rewrite Hp; cbn [node_id]; [exists ip0, port0|exists ip1, port1]; (split; [assumption|]); (split; [assumption|]);
      split; assumption.
  - unfold shards_body. rewrite Ht. cbn [first_table shard_segments]. unfold shard_segment. rewrite ?Hp. cbn [node_id].
    rewrite Ha0, Ha1. rewrite !zlen_app. pose proof (zlen_to_string port0). pose proof (zlen_to_string port1).
    pose proof (zlen_to_string 1). pose proof (zlen_to_string 2). pose proof (zlen_to_string (zlen (first_table n0 n1))).
    change (zlen (str ":")) with 1. change (zlen (str " ")) with 1. change (zlen (str "m")) with 1.
    cbn [tid start_key end_key]. change (zlen []) with 0. change (zlen (str "m")) with 1. lia.
Qed.
End First.

(** ** A migration and a restart *)
Section Migrated.
Context {D : Type} `{LevelDBSpec D} {J : JsonText} `{!JsonTextSpec} (fs : nat → fs_answer).

(** What a migration that succeeds saves. *)
Lemma MigrateTablet_saves (w w' : Nodes D) n n' i t dst :
  tablets_ n !! i = Some t → node_id t ≠ dst → MigrateTablet fs w n i dst = Ret (w', n', true) →
  SaveTablets fs (set_table n (<[i := set_node t dst]> (tablets_ n)) (next_tablet_id_ n) (u64 (epoch_ n + 1))) = Ret n'.
Proof.
  intros Hi Hne. unfold MigrateTablet. rewrite Hi, (proj2 (Z.eqb_neq _ _) Hne), Z.eqb_refl. intros Hrun.
  apply bind_ret_inv in Hrun as ([w1 ok] & _ & Hrun). destruct ok; cbn [negb] in Hrun; [|done].
  rewrite bind_assoc in Hrun. apply bind_ret_inv in Hrun as (n1 & Hs & Hrun). cbn [mbind outcome_bind] in Hrun.
  apply bind_ret_inv in Hrun as ([w2 ok2] & _ & [= _ <-]). exact Hs.
Qed.

Lemma moved_table_ok n i t dst :
  tablets_ n !! i = Some t → dst ∈ node_id <$> tablets_ n → table_ok n →
  table_ok (set_table n (<[i := set_node t dst]> (tablets_ n)) (next_tablet_id_ n) (u64 (epoch_ n + 1))).
Proof.
  intros Hi (u & -> & Hu)%list_elem_of_fmap (Hw & Hn & He). split; [|split; [done|apply u64_range]].
  rewrite Forall_forall in Hw. destruct (Hw t (list_elem_of_lookup_2 _ _ _ Hi)) as (? & _ & ?).
  destruct (Hw u Hu) as (_ & ? & _). apply Forall_insert; [by apply Forall_forall|].
  unfold tablet_ok. cbn [set_node tid node_id key_count]. lia.
Qed.

(** The master that starts with the table of a file. *)
Lemma start_again_file n text ts next ep :
  IsMaster n = true → tablet_file (disk_ n) = Some text → load_text text = Ret (ts, next, ep) →
  ∃ m, start_again (D := D) fs n = Ret m ∧ tablets_ (raft m) = ts.
Proof.
  intros Hm Hf Hl. apply Z.eqb_eq in Hm. unfold start_again, construct, init_master, LoadTablets. rewrite Hm.
  cbn [IsMaster port_ disk_]. rewrite Hf, Hl. by eexists.
Qed.
(** An old table leads to the source of a migration, which has none of the keys. *)
Lemma lost_at_source n n' (w' : Nodes D) A i t dst ts k v :
  partition (tablets_ n) →
  represents n' w' A → tablets_ n !! i = Some t →
  node_id t ≠ dst → tablets_ n' = <[i := set_node t dst]> (tablets_ n) → Forall2 same_route ts (tablets_ n) →
  covers t k → A !! k = Some v →
  ∃ u, GetTabletRoute ts k = Ret (Some u) ∧ node_id u = node_id t ∧
    ∀ d, stores w' !! node_id u = Some (Some d) → Get d k = None.
Proof.
  intros Hp Hr Hi Hne Hts Hf Hc Hv. pose proof (list_elem_of_lookup_2 _ _ _ Hi) as Ht.
  assert (Hpt : partition ts).
  { eapply (partition_proper (tablets_ n)); [|exact Hp]. symmetry. eapply Forall2_impl; [exact Hf|]. by intros x y (? & ? & _). }
  destruct (route_exact ts k Hpt) as (j & u & _ & Hj & Hroute & Hcu & _).
  destruct (Forall2_lookup_l _ _ _ _ _ Hf Hj) as (u' & Hu' & E1 & E2 & E3 & _).
  assert (Hn : node_id u = node_id t).
  { rewrite E3. apply (owner_of _ _ _ k Hp Ht Hc). exists u'. split; [by eapply list_elem_of_lookup_2|].
    split; [|done]. unfold covers in *. by rewrite <- E1, <- E2. }
  exists u. rewrite Hn. split; [done|]. split; [done|]. intros d Hd.
  unfold Get. rewrite ldb_get_healthy by by eapply (rep_healthy _ _ _ Hr).
  destruct (ldb_view d !! k) as [v'|] eqn:Hk; [|done]. apply (rep_view _ _ _ Hr _ _ _ _ Hd) in Hk as [_ Ho].
  exfalso. apply Hne. assert (Hd' : owner (tablets_ n') dst k).
  { rewrite Hts. apply owner_set_node; [done|done|by left]. }
  destruct Ho as (x & Hx & Hcx & <-), Hd' as (y & Hy & Hcy & <-).
  symmetry. apply (owner_of _ _ _ k (rep_partition _ _ _ Hr) Hx Hcx). by exists y.
Qed.
End Migrated.

(** ** Properties *)

(** C14: a migration and a restart. After a migration in a cluster that represents a map, when the table was saved
    the master that starts again loads exactly the new table and the cluster still represents the
    map; when the file could not be opened or renamed, which [SaveTablets] only prints, the
    migration goes on and deletes the records at the source, and the restarted master routes every
    key of the tablet to the source, where a GET finds nothing. *)
Theorem restart_after_migration {D} `{LevelDBSpec D} {J : JsonText} `{!JsonTextSpec} (fs fs' : nat → fs_answer)
    (w w' : Nodes D) (n n' : RaftNode) (A : gmap bytes bytes) (i : nat) (t : Tablet) (dst : Z)
    (Hr : represents n w A) (Hm : IsMaster n = true) (Hs : saved n) (Hi : tablets_ n !! i = Some t) (Hne : node_id t ≠ dst)
    (Hdst : dst ∈ node_id <$> tablets_ n) (Hrun : MigrateTablet fs w n i dst = Ret (w', n', true)) :
  (fs (saves_ n) = {| fs_open := true; fs_stored := None; fs_rename := true |} →
     ∃ m, start_again (D := D) fs' n' = Ret m ∧ tablets_ (raft m) = <[i := set_node t dst]> (tablets_ n) ∧
       represents (raft m) w' A) ∧
  (save_fails (fs (saves_ n)) →
     ∃ m, start_again (D := D) fs' n' = Ret m ∧ Forall2 same_route (tablets_ n) (tablets_ (raft m)) ∧
       ∀ k v, covers t k → A !! k = Some v →
       ∃ u, GetTabletRoute (tablets_ (raft m)) k = Ret (Some u) ∧ node_id u = node_id t ∧
         ∀ d, stores w' !! node_id u = Some (Some d) → Get d k = None).
Proof.
  destruct (post_ret_inv _ _ _ (MigrateTablet_ok fs n w A i t dst Hr Hi Hne Hdst) Hrun) as (Hr' & _ & Hts). cbn [fst snd] in *.
  pose proof (MigrateTablet_saves fs w w' n n' i t dst Hi Hne Hrun) as Hsave.
  destruct (post_ret_inv _ _ _ (SaveTablets_view fs _) Hsave) as (_ & _ & Hport & _). cbn [set_table port_] in Hport.
  assert (Hm' : IsMaster n' = true) by (unfold IsMaster in *; by rewrite Hport).
  set (n1 := set_table n _ _ _) in Hsave. split; intros Hfs.
  - destruct (SaveTablets_file fs n1 n' Hfs Hm (moved_table_ok n i t dst Hi Hdst (proj1 Hs)) Hsave) as (text & Hf & Hl).
    destruct (start_again_file (D := D) fs' n' text _ _ _ Hm' Hf Hl) as (m & Hrun' & Hm1). exists m. split; [done|].
    cbn [n1 set_table tablets_] in Hm1. split; [done|]. apply (rep_same_route n'); [done|]. by rewrite Hm1, Hts.
  - destruct Hs as (_ & text & ts & Hf & Hl & Hroute & _).
    pose proof (SaveTablets_fails fs n1 n' Hfs Hsave) as Hold. cbn [n1 set_table disk_] in Hold. rewrite Hf in Hold.
    destruct (start_again_file (D := D) fs' n' text _ _ _ Hm' Hold Hl) as (m & Hrun' & Hm1). exists m. split; [done|].
    rewrite Hm1. split; [by symmetry|]. intros k v Hc Hv. eapply (lost_at_source n n' w' A i t dst); try done. apply Hr.
Qed.

(** A table on the disk; then the disk is full. *)
Definition demo_saved : RaftNode :=
  match @SaveTablets ref_json_text good_fs demo_fresh with Ret n => n | _ => demo_fresh end.
Definition full_disk : nat → fs_answer := fun _ => {| fs_open := false; fs_stored := None; fs_rename := true |}.

Lemma demo_save : @SaveTablets ref_json_text good_fs demo_fresh = Ret demo_saved.
Proof. vm_compute. reflexivity. Qed.

Lemma demo_disk : saves_work good_fs ∧ @saved ref_json_text demo_saved.
Proof.
  assert (Hfs : saves_work good_fs) by done. split; [exact Hfs|].
  refine (post_ret_inv _ _ _ (@SaveTablets_saved ref_json_text ref_json_text_spec good_fs Hfs demo_fresh eq_refl _) demo_save).
  apply (bool_decide_unpack _). vm_compute. exact I.
Qed.

Lemma demo_saved_represents : represents demo_saved (spread_nodes (tablets_ demo_fresh) demo_map) demo_map.
Proof. apply (rep_same_route demo_fresh); [exact demo_represents|reflexivity]. Qed.

Lemma restart_after_migration_witness :
  let w := spread_nodes (tablets_ demo_fresh) demo_map in
  ∃ w' n' m, @MigrateTablet _ _ ref_json_text full_disk w demo_saved 0 3 = Ret (w', n', true) ∧
    @start_again MemDB ref_json_text good_fs n' = Ret m ∧
    ∃ u, GetTabletRoute (tablets_ (raft m)) (str "c") = Ret (Some u) ∧ node_id u = 2 ∧
      ∀ d, stores w' !! node_id u = Some (Some d) → Get d (str "c") = None.
Proof.
  cbv zeta. set (w := spread_nodes (tablets_ demo_fresh) demo_map).
  assert (Hret : match @MigrateTablet _ _ ref_json_text full_disk w demo_saved 0 3 with Ret (_, _, ok) => ok | _ => false end = true)
    by (vm_compute; reflexivity).
  destruct (@MigrateTablet _ _ ref_json_text full_disk w demo_saved 0 3) as [[[w' n'] ok]| |] eqn:Hm;
    [|discriminate Hret|discriminate Hret]. subst ok.
  assert (Hne : 2 ≠ 3) by discriminate.
  assert (Hdst : 3 ∈ node_id <$> tablets_ demo_saved) by (apply (bool_decide_unpack _); vm_compute; exact I).
  assert (Hi : tablets_ demo_saved !! 0%nat = Some {| tid := 1; start_key := []; end_key := str "m"; node_id := 2; key_count := 0 |})
    by (vm_compute; reflexivity).
  assert (Hg : demo_map !! str "c" = Some (str "3")) by (vm_compute; reflexivity).
  assert (Hc : covers {| tid := 1; start_key := []; end_key := str "m"; node_id := 2; key_count := 0 |} (str "c"))
    by (apply (bool_decide_unpack _); vm_compute; exact I).
  destruct (@restart_after_migration MemDB _ _ ref_json_text ref_json_text_spec full_disk good_fs w w' demo_saved n' demo_map 0
    {| tid := 1; start_key := []; end_key := str "m"; node_id := 2; key_count := 0 |} 3 demo_saved_represents
    eq_refl (proj2 demo_disk) Hi Hne Hdst Hm) as [_ Hfail].
  destruct (Hfail (or_introl eq_refl)) as (m & Hrun & _ & Hk).
  exists w', n', m. split; [reflexivity|]. split; [exact Hrun|]. exact (Hk (str "c") (str "3") Hc Hg).
Defined.

(** The configuration of the repository, on empty data nodes. *)
Definition empty_disk : Disk := {| tablet_file := None; tmp_file := None |}.
Definition empty_nodes : Nodes MemDB :=
  {| stores := list_to_map ((fun x => (x, Some {| mem_map := ∅; mem_up := true |})) <$> data_nodes demo_peers); inbox := [] |}.

Lemma demo_configured : well_configured demo_peers.
Proof. split; apply (bool_decide_unpack _); vm_compute; exact I. Qed.

Lemma empty_nodes_fresh : fresh_nodes demo_peers empty_nodes.
Proof.
  split; [| |reflexivity].
  - intros node Hn. change (data_nodes demo_peers) with [2; 3] in Hn. eexists.
    repeat (apply elem_of_cons in Hn as [->|Hn]; [reflexivity|]). by apply elem_of_nil in Hn.
  - intros node x Hx. apply elem_of_list_to_map_2, list_elem_of_fmap in Hx as (k & [= _ ->] & _). done.
Qed.
