(* ===== verification/SystemTrace.v ===== *)
(** * Runs of the whole system

    The specification of the store is one map with the commands of the clients as
    its operations.  A run of the system is any sequence of command lines typed
    at any number of clients, turns of the master's balancer, and restarts of the
    master between them ([Stop] waits for the turn under way); turns and restarts are stuttering
    steps of the specification. *)

From S2P Require Import Prelude StringOrder BinaryProtocol Storage RpcClient RpcServer DataNode.
From S2P Require Import Text Json Config Tablet RaftNode TableSteps BalancePlan Balancer Cluster MasterHandlers Cli.
From S2P Require Import EndToEnd Process Restart.

(** ** The specification *)
Inductive command : Type :=
  | CPut (key value : bytes)
  | CGet (key : bytes)
  | CDelete (key : bytes).

Definition line_of (cmd : command) : bytes :=
  match cmd with
  | CPut key value => str "put " ++ key ++ str " " ++ value
  | CGet key => str "get " ++ key
  | CDelete key => str "delete " ++ key
  end.

Definition spec_step (A : gmap bytes bytes) (cmd : command) : gmap bytes bytes * output :=
  match cmd with
  | CPut key value => (<[key := value]> A, OOk)
  | CGet key => (A, get_output (A !! key))
  | CDelete key => (delete key A, OOk)
  end.

(** What happens: a command line at a client, a turn of the balancer, or the end of
    the master's process and the start of the next one. *)
Inductive event : Type :=
  | Typed (i : nat) (cmd : command)
  | Turn
  | Restart.

#[export] Instance command_dec : EqDecision command. Proof. solve_decision. Defined.
#[export] Instance event_dec : EqDecision event. Proof. solve_decision. Defined.

(** The final map, and what the clients print, in order. *)
Fixpoint spec_run (A : gmap bytes bytes) (evs : list event) : gmap bytes bytes * list (nat * output) :=
  match evs with
  | [] => (A, [])
  | Typed i cmd :: evs =>
      let '(A, o) := spec_step A cmd in let '(A, os) := spec_run A evs in (A, (i, o) :: os)
  | (Turn | Restart) :: evs => spec_run A evs
  end.

(** A command within the limits of the program: the key is one word, without a
    colon when it is stored (it can become the boundary of a tablet), the value
    is on one line, and the records still fit the messages. *)
Definition allowed (A : gmap bytes bytes) (cmd : command) : Prop :=
  match cmd with
  | CPut key value => line_key key ∧ plain key ∧ line_value value ∧ wire_map (<[key := value]> A)
  | CGet key | CDelete key => line_key key
  end.

Fixpoint all_allowed (A : gmap bytes bytes) (evs : list event) : Prop :=
  match evs with
  | [] => True
  | Typed _ cmd :: evs => allowed A cmd ∧ all_allowed (spec_step A cmd).1 evs
  | (Turn | Restart) :: evs => all_allowed A evs
  end.

(** ** The runs of the system *)
Section Runs.
Context {D : Type} `{LevelDBSpec D} `{JsonTextSpec} (fs : nat → fs_answer).
Implicit Types (s : System D) (c : LekvCli) (A : gmap bytes bytes) (n : RaftNode) (w : Nodes D).

Definition with_cluster s (w : Nodes D) (n : RaftNode) : System D :=
  {| master := n; nodes := w; proxy_link := proxy_link s; proxy_in := proxy_in s; dn_node := dn_node s |}.

(** A client: its two connections and its own state. *)
Record Client := { k_link : link; k_in : list bytes; k_dn : option Z; k_cli : LekvCli }.

(** The master, the data nodes, and the clients. *)
Record Store := { s_master : RaftNode; s_nodes : Nodes D; s_clients : list Client }.

Definition seen_by (y : Store) (k : Client) : System D :=
  {| master := s_master y; nodes := s_nodes y; proxy_link := k_link k; proxy_in := k_in k; dn_node := k_dn k |}.

(** What client [i] leaves behind. *)
Definition left_by (y : Store) (i : nat) s c : Store :=
  {| s_master := master s; s_nodes := nodes s;
     s_clients := <[i := {| k_link := proxy_link s; k_in := proxy_in s; k_dn := dn_node s; k_cli := c |}]> (s_clients y) |}.

(** A client whose master is gone; [acks]: whether its next [send] succeeds. *)
Definition cut (acks : nat → bool) (i : nat) (k : Client) : Client :=
  {| k_link := match k_link k with LDown => LDown | _ => LDead (acks i) end; k_in := []; k_dn := k_dn k;
     k_cli := k_cli k |}.

(** A turn is any that ends, with any fuel and any measured time, and whose table
    still fits a response.  A restart is the constructor on the disk of the last
    process; the answers the old connections to the data nodes held are gone. *)
Inductive sys_step : Store → event → list (nat * output) → Store → Prop :=
  | step_typed y i k cmd s' c' ok o :
      s_clients y !! i = Some k → Execute (seen_by y k) (k_cli k) (line_of cmd) = Ret (s', c', ok, o) →
      sys_step y (Typed i cmd) [(i, o)] (left_by y i s' c')
  | step_turn y fuel dur w n :
      BalancerRound fs fuel dur (s_nodes y) (s_master y) = Ret (Some (w, n)) →
      zlen (shards_body n) < 2 ^ 32 - 15 →
      sys_step y Turn [] {| s_master := n; s_nodes := w; s_clients := s_clients y |}
  | step_restart y (m : Node (D := D)) acks :
      start_again fs (s_master y) = Ret m →
      sys_step y Restart [] {| s_master := raft m; s_nodes := {| stores := stores (s_nodes y); inbox := [] |};
                               s_clients := imap (cut acks) (s_clients y) |}.

Inductive sys_run : Store → list event → list (nat * output) → Store → Prop :=
  | run_nil y : sys_run y [] [] y
  | run_cons y ev os y1 evs os' y' :
      sys_step y ev os y1 → sys_run y1 evs os' y' → sys_run y (ev :: evs) (os ++ os') y'.

(** What a client sees: the system serves the map, whose keys the text of
    the table can carry. *)
Record serving s c A : Prop := {
  sv_serves : serves s A;
  sv_keys : ∀ k v, A !! k = Some v → plain k;
  sv_widths : Forall tablet_ok (tablets_ (master s));
  sv_next : 0 ≤ next_tablet_id_ (master s) < 2 ^ 64;
  sv_req : 0 ≤ req_id_ c < 2 ^ 32;
}.

(** The refinement relation: all clients see the same map. *)
Definition serving_all (y : Store) A : Prop :=
  s_clients y ≠ [] ∧ Forall (fun k => serving (seen_by y k) (k_cli k) A) (s_clients y).

(** ** The boundaries of the tablets *)
Definition bounds_in (Q : bytes → Prop) (t : Tablet) : Prop := Q (start_key t) ∧ Q (end_key t).

Section Bounds.
Context (A : gmap bytes bytes) (Q : bytes → Prop) (HQ0 : Q []) (HQ : ∀ k v, A !! k = Some v → Q k).

Lemma median_bound t : Q (median_of A t).
Proof.
  destruct (median_elem A t) as [->|(i & Hi & _)]; [done|].
  apply list_elem_of_lookup_2, list_elem_of_fmap in Hi as ([k v] & -> & Hp).
  apply elem_of_map_range in Hp as [? _]. by eapply HQ.
Qed.

Lemma split_table_bounds ts i t next :
  ts !! i = Some t → Forall (bounds_in Q) ts → Forall (bounds_in Q) (split_table ts i t next A).
Proof.
  intros Hi Hb. rewrite <- (take_drop_middle _ _ _ Hi) in Hb. unfold split_table.
  rewrite !Forall_app, !Forall_cons in *. destruct Hb as (Hl & [Hs He] & Hrs).
  pose proof (median_bound t). split; [done|]. by repeat split.
Qed.

(** Every turn of the split loop that ends, with any fuel. *)
Lemma split_loop_bounds fuel w n i :
  represents n w A → Forall (bounds_in Q) (tablets_ n) →
  post (fun r => ∀ w' n', r = Some (w', n') → w' = w ∧ represents n' w A ∧ Forall (bounds_in Q) (tablets_ n'))
    (split_loop fs fuel w n i).
Proof.
  revert n i. induction fuel as [|fuel IH]; intros n i Hr Hb; cbn [split_loop];
    (destruct (tablets_ n !! i) as [t|] eqn:Hi; [|by intros ? ? [= <- <-]]); [done|].
  destruct (_ <=? _); [|by apply IH].
  eapply post_bind; [by apply (TrySplitTablet_ok fs n w A i t)|].
  intros [[w1 n1] ok] (Hw1 & Hr1 & Hts). cbn [fst snd] in Hw1, Hr1, Hts. subst w1. apply IH; [done|].
  destruct Hts as [->|(_ & _ & ->)]; [done|]. by apply split_table_bounds.
Qed.

Lemma BalancerRound_bounds fuel dur w n :
  represents n w A → Forall (bounds_in Q) (tablets_ n) →
  post (fun r => ∀ w' n', r = Some (w', n') → represents n' w' A ∧ Forall (bounds_in Q) (tablets_ n'))
    (BalancerRound fs fuel dur w n).
Proof.
  intros Hr Hb. unfold BalancerRound. destruct (SyncAllTabletStats_ok n w A Hr) as (n1 & -> & Hr1 & Hf).
  cbn [mbind outcome_bind].
  assert (Hb1 : Forall (bounds_in Q) (tablets_ n1)).
  { clear -Hf Hb. induction Hf as [|t u ts us (E1 & E2 & _) Hf IH]; [done|].
    apply Forall_cons in Hb as [[? ?] Hb]. constructor; [|auto]. unfold bounds_in. by rewrite <- E1, <- E2. }
  eapply post_bind; [by apply (split_loop_bounds fuel w n1 0)|].
  intros [[w2 n2]|] Hloop; [|done]. destruct (Hloop _ _ eq_refl) as (-> & Hr2 & Hb2).
  eapply post_bind; [by apply DoLoadBalance_ok|].
  intros [[w3 n3] ok] [Hr3 Hts] w' n' [= <- <-]. cbn [fst snd] in *. split; [done|].
  destruct Hts as [->|(i & t & dst & Hi & ->)]; [done|]. apply Forall_insert; [done|].
  rewrite Forall_forall in Hb2. exact (Hb2 t (list_elem_of_lookup_2 _ _ _ Hi)).
Qed.
End Bounds.

(** ** One step *)

Lemma plain_nil : plain [].
Proof. by apply List.Forall_nil. Qed.

(** The text has a byte or more for each tablet. *)
Lemma shard_segments_count n first ts : zlen ts ≤ zlen (shard_segments n first ts).
Proof.
  revert first. induction ts as [|t ts IH]; intros first; [done|]. cbn [shard_segments].
  rewrite zlen_cons, !zlen_app. specialize (IH false). unfold shard_segment. rewrite !zlen_app.
  change (zlen (str ":")) with 1. zlen_nonneg_all. lia.
Qed.

Lemma turn_addressed k n n' :
  evolves k n n' → Forall (addressed n) (tablets_ n) → Forall tablet_ok (tablets_ n') →
  Forall (bounds_in plain) (tablets_ n') → Forall (addressed n') (tablets_ n').
Proof.
  intros (Hsteps & _ & _ & Hpeers) Ha Hw Hb. rewrite Forall_forall in *. intros t Ht.
  destruct (Hw t Ht) as (Hid & _). destruct (Hb t Ht) as [Hs He].
  pose proof (steps_owners _ _ _ (node_id t) Hsteps (list_elem_of_fmap_2 _ _ _ Ht)) as Hown.
  apply list_elem_of_fmap in Hown as (u & Hnode & Hu). destruct (Ha u Hu) as (_ & _ & _ & ip & port & Haddr).
  split; [done|]. split; [done|]. split; [done|]. exists ip, port. by rewrite Hpeers, Hnode.
Qed.

(** A turn of the balancer is a stuttering step. *)
Lemma turn_serving s c A fuel dur w n :
  serving s c A → BalancerRound fs fuel dur (nodes s) (master s) = Ret (Some (w, n)) →
  zlen (shards_body n) < 2 ^ 32 - 15 → serving (with_cluster s w n) c A.
Proof.
  intros [Hs Hkeys Hw Hn Hc] Hrun Hsize.
  destruct (post_ret_inv _ _ _ (BalancerRound_evolves fs fuel dur (nodes s) (master s)) Hrun _ _ eq_refl) as (k & _ & He).
  assert (Hb : Forall (bounds_in plain) (tablets_ (master s))).
  { eapply Forall_impl; [exact (srv_addr _ _ Hs)|]. by intros t (_ & ? & ? & _). }
  destruct (post_ret_inv _ _ _ (BalancerRound_bounds A plain plain_nil Hkeys fuel dur _ _ (srv_rep _ _ Hs) Hb)
    Hrun _ _ eq_refl) as [Hr' Hb'].
  pose proof He as (Hsteps & _ & Hport & Hpeers).
  destruct (steps_widths _ _ _ Hsteps Hn Hw) as [Hn' Hw']. cbn [view r_tablets r_next] in Hn', Hw'.
  split; try done. split; cbn [with_cluster master nodes proxy_in]; try done.
  - unfold IsMaster. rewrite Hport. exact (srv_master _ _ Hs).
  - by eapply turn_addressed; [exact He|apply Hs| |].
  - pose proof (shard_segments_count n true (tablets_ n)). unfold shards_body in Hsize.
    rewrite !zlen_app in Hsize. zlen_nonneg_all. lia.
  - apply Hs.
Qed.

(** A command does to the system what the specification does to the map. *)
Lemma command_serving s c A cmd :
  serving s c A → allowed A cmd →
  ∃ s' c', Execute s c (line_of cmd) = Ret (s', c', true, (spec_step A cmd).2) ∧
    serving s' c' (spec_step A cmd).1 ∧ master s' = master s.
Proof.
  intros [Hs Hkeys Hw Hn Hc] Ha. destruct cmd as [key value|key|key]; cbn [line_of spec_step fst snd allowed] in *.
  - destruct Ha as (Hk & Hp & Hv & Hwm).
    destruct (put_command s c A key value Hs Hc Hk Hv Hwm) as (s' & c' & HE & Hs' & Hm & Hc').
    exists s', c'. split; [exact HE|]. split; [|done]. split; rewrite ?Hm; try done.
    intros k v [[<- _]|[_ ?]]%lookup_insert_Some; [done|]. by eapply Hkeys.
  - destruct (get_command s c A key Hs Hc Ha) as (s' & c' & HE & Hs' & Hm & Hc').
    exists s', c'. split; [exact HE|]. split; [|done]. by split; rewrite ?Hm.
  - destruct (delete_command s c A key Hs Hc Ha) as (s' & c' & HE & Hs' & Hm & Hc').
    exists s', c'. split; [exact HE|]. split; [|done]. split; rewrite ?Hm; try done.
    intros k v [_ ?]%lookup_delete_Some. by eapply Hkeys.
Qed.

(** A client sees what another one sees, when its own connection is quiet. *)
Lemma serving_other s c s2 c2 A :
  serving s c A → master s2 = master s → nodes s2 = nodes s → proxy_in s2 = [] → 0 ≤ req_id_ c2 < 2 ^ 32 → serving s2 c2 A.
Proof. intros [[] ? ? ? ?] Hm Hn Hq Hc. split; rewrite ?Hm; try done. by split; rewrite ?Hm, ?Hn. Qed.

Lemma command_all (y : Store) A i k cmd :
  serving_all y A → s_clients y !! i = Some k → allowed A cmd →
  ∃ s' c', Execute (seen_by y k) (k_cli k) (line_of cmd) = Ret (s', c', true, (spec_step A cmd).2) ∧
    serving_all (left_by y i s' c') (spec_step A cmd).1 ∧ master s' = s_master y.
Proof.
  intros [Hne Hall] Hi Ha. rewrite Forall_forall in Hall.
  destruct (command_serving _ _ A cmd (Hall k (list_elem_of_lookup_2 _ _ _ Hi)) Ha) as (s' & c' & HE & Hsv & Hm).
  exists s', c'. split; [exact HE|]. split; [|exact Hm]. split.
  { cbn. intros E. apply (f_equal length) in E. rewrite length_insert in E. by destruct (s_clients y). }
  apply Forall_insert.
  - apply Forall_forall. intros k' Hk'. apply (serving_other s' c'); [done|done|done|..]; apply (Hall k' Hk').
  - by destruct s'.
Qed.

(** A restart changes nothing a client sees. *)
Lemma restart_serving (y : Store) A (m : Node (D := D)) acks :
  serving_all y A → saved (s_master y) → start_again fs (s_master y) = Ret m →
  serving_all {| s_master := raft m; s_nodes := {| stores := stores (s_nodes y); inbox := [] |};
                 s_clients := imap (cut acks) (s_clients y) |} A ∧ saved (raft m).
Proof.
  intros [Hne Hall] Hsaved Hrun. rewrite Forall_forall in Hall.
  assert (Hmaster : IsMaster (s_master y) = true).
  { destruct (s_clients y) as [|k ks]; [done|]. apply (srv_master _ _ (sv_serves _ _ _ (Hall k ltac:(left)))). }
  destruct (start_again_saved (D := D) fs (s_master y) Hmaster Hsaved) as (m' & Hm & _ & Hm1 & Hp & Hf & Hn & _ & Hs).
  rewrite Hrun in Hm. injection Hm as <-. split; [|exact Hs]. split.
  { cbn. intros E. apply (f_equal length) in E. rewrite length_imap in E. by destruct (s_clients y). }
  apply Forall_forall. intros k' (i & Hk)%list_elem_of_lookup_1. cbn [s_clients] in Hk.
  rewrite list_lookup_imap in Hk. destruct (s_clients y !! i) as [k|] eqn:Hi; [|done]. injection Hk as <-.
  destruct (Hall k (list_elem_of_lookup_2 _ _ _ Hi)) as [Hsv Hkeys Hw Hnx Hreq].
  split; [|done|apply Hs|cbn [seen_by master s_master] in *; by rewrite Hn|done].
  apply (serves_route (seen_by y k)); try done. cbn [seen_by nodes s_nodes]. symmetry.
  pose proof (rep_inbox _ _ _ (srv_rep _ _ Hsv)) as Hin. cbn [seen_by nodes] in Hin. destruct (s_nodes y). cbn in *. by rewrite Hin.
Qed.

(** What a run with a restart needs of the disk. *)
Definition durable (y : Store) (evs : list event) : Prop := Restart ∈ evs → saves_work fs ∧ saved (s_master y).

(** The forward simulation for whole runs. *)
Lemma run_refines y evs os y' :
  sys_run y evs os y' → ∀ A, serving_all y A → all_allowed A evs → durable y evs →
  os = (spec_run A evs).2 ∧ serving_all y' (spec_run A evs).1 ∧ (saves_work fs → saved (s_master y) → saved (s_master y')).
Proof.
  unfold durable. induction 1 as [y|y ev os y1 evs os' y' Hstep _ IH]; intros A Hsv Hall Hdur; [done|].
  destruct Hstep as [y i k cmd s1 c1 ok o Hi HE|y fuel dur w n Hrun Hsize|y m acks Hrun]; cbn [all_allowed spec_run] in *.
  - destruct Hall as [Ha Hall]. destruct (command_all y A i k cmd Hsv Hi Ha) as (s2 & c2 & HE2 & Hsv2 & Hm2).
    rewrite HE in HE2. injection HE2 as -> -> -> ->. cbn [left_by s_master] in IH. rewrite Hm2 in IH.
    destruct (IH _ Hsv2 Hall) as (-> & Hend & Hlast); [intros Hin; apply Hdur; by right|].
    destruct (spec_step A cmd) as [A1 o1]. cbn [fst snd] in *. by destruct (spec_run A1 evs).
  - assert (Hm : IsMaster (s_master y) = true).
    { destruct Hsv as [Hne Hsv]. destruct (s_clients y); [done|]. apply Forall_cons in Hsv as [Hk _]. apply Hk. }
    assert (Hn : saves_work fs → saved (s_master y) → saved n) by (intros Hfs Hs; exact (saved_round fs Hfs fuel dur _ _ _ _ Hm Hs Hrun)).
    destruct (IH A) as (? & ? & Hlast); [|done|intros Hin; destruct Hdur as [? ?]; [by right|]; split; [done|by apply Hn]|].
    { destruct Hsv as [Hne Hsv]. split; [done|]. eapply Forall_impl; [exact Hsv|]. intros k Hk.
      exact (turn_serving _ _ _ _ _ _ _ Hk Hrun Hsize). }
    split; [done|]. split; [done|]. intros Hfs Hs. apply Hlast; [done|]. by apply Hn.
  - destruct Hdur as [Hfs Hs]; [by left|]. destruct (restart_serving y A m acks Hsv Hs Hrun) as [Hsv' Hs'].
    destruct (IH A Hsv' Hall) as (? & ? & Hlast); [done|]. split; [done|]. split; [done|]. intros _ _. by apply Hlast.
Qed.
End Runs.

(** ** Properties *)

(** C1: the system is one map: every run of command lines, typed at any number of clients, balancer turns, and
    restarts of the master (if its table is on the disk and the file system does its work) from
    a system that serves a map prints exactly what the specification prints, client by client, and
    ends serving the map the specification ends with, turns of the balancer and restarts
    changing nothing, the table on the disk again; and the system never gets stuck there: the next allowed command of any client
    returns, also when the master it was connected to is gone, with enough fuel the next turn of the balancer returns or throws (only from the
    printing of a table with keys that are not text), never undefined behaviour, and the
    master can be started again. *)
Theorem system_refines_map {D} `{LevelDBSpec D} `{JsonTextSpec} (fs : nat → fs_answer) (y y' : Store)
    (A : gmap bytes bytes) (evs : list event) (os : list (nat * output))
    (Hsv : serving_all y A) (Hall : all_allowed A evs) (Hdisk : Restart ∈ evs → saves_work fs ∧ saved (s_master y))
    (Hrun : sys_run fs y evs os y') :
  let A' := (spec_run A evs).1 in
  os = (spec_run A evs).2 ∧ serving_all y' A' ∧
  (saves_work fs → saved (s_master y) → saved (s_master y') ∧ ∃ y2, sys_step fs y' Restart [] y2) ∧
  (∀ i k cmd, s_clients y' !! i = Some k → allowed A' cmd →
     ∃ y2, sys_step fs y' (Typed i cmd) [(i, (spec_step A' cmd).2)] y2) ∧
  (∃ fuel, ∀ dur, BalancerRound fs fuel dur (s_nodes y') (s_master y') = Throw ∨
     ∃ w n, BalancerRound fs fuel dur (s_nodes y') (s_master y') = Ret (Some (w, n))).
Proof.
  cbv zeta. destruct (run_refines fs _ _ _ _ Hrun A Hsv Hall Hdisk) as (Hos & Hend & Hlast).
  split; [done|]. split; [done|]. split; [|split].
  - intros Hfs Hs. split; [by apply Hlast|]. destruct Hend as [Hne Hend].
    assert (Hm : IsMaster (s_master y') = true).
    { destruct (s_clients y'); [done|]. apply Forall_cons in Hend as [Hk _]. apply Hk. }
    destruct (start_again_saved (D := D) fs (s_master y') Hm (Hlast Hfs Hs)) as (m & Hm' & _).
    eexists. by apply (step_restart (D := D) fs y' m (fun _ => true)).
  - intros i k cmd Hi Ha. destruct (command_all y' _ i k cmd Hend Hi Ha) as (s2 & c2 & HE & _ & _).
    exists (left_by y' i s2 c2). by eapply step_typed.
  - destruct Hend as [Hne Hend]. destruct (s_clients y') as [|k ks]; [done|]. apply Forall_cons in Hend as [Hk _].
    pose proof (srv_rep _ _ (sv_serves _ _ _ Hk)) as Hr. cbn [seen_by master nodes] in Hr.
    exists (split_fuel (spec_run A evs).1 (tablets_ (s_master y'))). intros dur.
    pose proof (round_ok fs _ dur _ _ _ Hr (Nat.le_refl _)) as Hp.
    destruct (BalancerRound _ _ _ _ _) as [r| |]; [right|by left|done].
    destruct Hp as (w & n & -> & _). by exists w, n.
Qed.

(** Two clients: the first puts, the balancer splits and moves, the master is
    restarted, and the clients get, the first on its dead connection. *)
Definition demo_client : Client := {| k_link := LDown; k_in := []; k_dn := None; k_cli := Init (str "127.0.0.1") 9001 |}.
Definition demo_store : Store :=
  {| s_master := demo_saved; s_nodes := nodes demo_system; s_clients := [demo_client; demo_client] |}.
Definition demo_events : list event :=
  [ Typed 0 (CPut (str "hello") (str "value 1")); Turn; Restart; Typed 0 (CGet (str "hello")); Typed 1 (CGet (str "hello")) ].
Definition demo_outputs : list (nat * output) :=
  [ (0%nat, OOk); (0%nat, OValue (str "value 1")); (1%nat, OValue (str "value 1")) ].

(** A command of a client that returns is a step. *)
Definition typed (y : Store (D := MemDB)) (i : nat) (cmd : command) : option (Store * output) :=
  match s_clients y !! i with
  | Some k =>
      match Execute (seen_by y k) (k_cli k) (line_of cmd) with
      | Ret (s, c, _, o) => Some (left_by y i s c, o)
      | _ => None
      end
  | None => None
  end.

Lemma typed_step y y' i cmd o :
  typed y i cmd = Some (y', o) → @sys_step MemDB _ ref_json_text good_fs y (Typed i cmd) [(i, o)] y'.
Proof.
  unfold typed. destruct (s_clients y !! i) as [k|] eqn:Hk; [|done].
  destruct (Execute _ _ _) as [[[[s c] ok] o']| |] eqn:HE; [|done|done]. intros [= <- <-]. by eapply step_typed.
Qed.

Definition turned (y : Store (D := MemDB)) : option Store :=
  match @BalancerRound _ _ ref_json_text good_fs 30 7 (s_nodes y) (s_master y) with
  | Ret (Some (w, n)) =>
      if zlen (shards_body n) <? 2 ^ 32 - 15 then Some {| s_master := n; s_nodes := w; s_clients := s_clients y |} else None
  | _ => None
  end.

Lemma turned_step y y' : turned y = Some y' → @sys_step MemDB _ ref_json_text good_fs y Turn [] y'.
Proof.
  unfold turned. destruct (BalancerRound _ _ _ _ _) as [[[w n]|]| |] eqn:HE; [|done|done|done].
  destruct (Z.ltb_spec (zlen (shards_body n)) (2 ^ 32 - 15)); [|done]. intros [= <-]. by eapply step_turn.
Qed.

Definition rebooted (y : Store (D := MemDB)) : option Store :=
  match @start_again MemDB ref_json_text good_fs (s_master y) with
  | Ret m => Some {| s_master := raft m; s_nodes := {| stores := stores (s_nodes y); inbox := [] |};
                     s_clients := imap (cut (fun _ => true)) (s_clients y) |}
  | _ => None
  end.

Lemma rebooted_step y y' : rebooted y = Some y' → @sys_step MemDB _ ref_json_text good_fs y Restart [] y'.
Proof.
  unfold rebooted. destruct (start_again _ _) as [m| |] eqn:HE; [|done|done]. intros [= <-]. by apply step_restart.
Qed.

Definition demo_end : option (Store * list output) :=
  '(y1, o1) ← typed demo_store 0 (CPut (str "hello") (str "value 1"));
  y2 ← turned y1;
  y3 ← rebooted y2;
  '(y4, o4) ← typed y3 0 (CGet (str "hello"));
  '(y5, o5) ← typed y4 1 (CGet (str "hello"));
  Some (y5, [o1; o4; o5]).

Lemma demo_all_run :
  ∃ y', @sys_run MemDB _ ref_json_text good_fs demo_store demo_events demo_outputs y' ∧
    node_id <$> tablets_ (s_master y') = [2; 3; 3].
Proof.
  assert (Hc : option_map (fun r => (node_id <$> tablets_ (s_master r.1), r.2)) demo_end =
    Some ([2; 3; 3], snd <$> demo_outputs)) by (vm_compute; reflexivity).
  unfold demo_end in Hc.
  destruct (typed demo_store 0 _) as [[y1 o1]|] eqn:E1; [|discriminate Hc]. cbn [mbind option_bind] in Hc.
  destruct (turned y1) as [y2|] eqn:E2; [|discriminate Hc]. cbn [mbind option_bind] in Hc.
  destruct (rebooted y2) as [y3|] eqn:E3; [|discriminate Hc]. cbn [mbind option_bind] in Hc.
  destruct (typed y3 0 _) as [[y4 o4]|] eqn:E4; [|discriminate Hc]. cbn [mbind option_bind] in Hc.
  destruct (typed y4 1 _) as [[y5 o5]|] eqn:E5; [|discriminate Hc].
  cbn [mbind option_bind option_map fst snd] in Hc. injection Hc as Hn Ho1 Ho4 Ho5. subst o1 o4 o5.
  exists y5. split; [|exact Hn].
  eapply (run_cons _ _ _ [_]); [by apply typed_step|]. eapply (run_cons _ _ _ []); [by apply turned_step|].
  eapply (run_cons _ _ _ []); [by apply rebooted_step|]. eapply (run_cons _ _ _ [_]); [by apply typed_step|].
  eapply (run_cons _ _ _ [_] _ _ []); [by apply typed_step|]. apply run_nil.
Qed.

Lemma demo_serving : serving_all demo_store demo_map.
Proof.
  assert (Hkeys : map_Forall (fun k _ => plain k) demo_map) by (apply (bool_decide_unpack _); vm_compute; exact I).
  assert (Hone : serving (seen_by demo_store demo_client) (k_cli demo_client) demo_map).
  { split; [|exact Hkeys| | |]; try (apply (bool_decide_unpack _); vm_compute; exact I);
      [|vm_compute; split; congruence..].
    apply (serves_route demo_system); [exact demo_serves|reflexivity|reflexivity|reflexivity|reflexivity|reflexivity]. }
  split; [discriminate|]. apply List.Forall_cons; [exact Hone|]. apply List.Forall_cons; [exact Hone|apply List.Forall_nil].
Qed.

Lemma system_refines_map_witness :
  ∃ y', @sys_run MemDB _ ref_json_text good_fs demo_store demo_events demo_outputs y' ∧
    serving_all y' (<[str "hello" := str "value 1"]> demo_map) ∧
    node_id <$> tablets_ (s_master y') = [2; 3; 3].
Proof.
  destruct demo_all_run as (y' & Hrun & Hn). exists y'. split; [exact Hrun|]. split; [|exact Hn].
  assert (Hp : plain (str "hello")) by (apply (bool_decide_unpack _); vm_compute; exact I).
  assert (Hget : line_key (str "hello")) by (split; [repeat constructor|split; [discriminate|reflexivity]]).
  assert (Hall : all_allowed demo_map demo_events).
  { split; [|split; [exact Hget|split; [exact Hget|exact I]]].
    split; [exact Hget|]. split; [exact Hp|]. split.
    - exists x76, (str "alue 1"). split; [reflexivity|]. split; [vm_compute; discriminate|].
      apply (bool_decide_unpack _). vm_compute. exact I.
    - split; [|reflexivity].
      assert (Hw : map_Forall (fun k v => wire_entry (k, v)) (<[str "hello" := str "value 1"]> demo_map)); [|exact Hw].
      apply (bool_decide_unpack _). vm_compute. exact I. }
  exact (proj1 (proj2 (@system_refines_map MemDB _ _ ref_json_text ref_json_text_spec good_fs _ _ _ _ _ demo_serving Hall
    (fun _ => demo_disk) Hrun))).
Defined.

(** C22: the first start of a system. Without a table file the constructor of the master, whatever
    connections succeed, opens no database and,
    with at least two data nodes, builds a table that partitions the key space at "m" between
    the first two, with well-formed ids, and saves it if the file system does its work; if the
    configuration names its nodes well and their databases are empty, the system serves the empty
    map to any clients, from where every run does what the map does.  With exactly one data node it reads
    [data_nodes[1]] out of bounds; with none the table is empty and no key has a route. *)
Theorem first_start_serves {D} `{LevelDBSpec D} {J : JsonText} `{!JsonTextSpec} (fs : nat → fs_answer)
    (connects : PeerInfo → bool) (db_open : bytes → option D) (id : Z) (peers : list PeerInfo) (d : Disk)
    (Hd : tablet_file d = None) :
  (∀ n0 n1 rest m, data_nodes peers = n0 :: n1 :: rest → construct fs connects db_open id LEADER_PORT peers d = Ret m →
     storage_ m = None ∧ partition (tablets_ (raft m)) ∧ ids_ok (raft m) ∧ node_id <$> tablets_ (raft m) = [n0; n1] ∧
     (∀ k, ∃ t, GetTabletRoute (tablets_ (raft m)) k = Ret (Some t) ∧ node_id t = if str_ltb k (str "m") then n0 else n1) ∧
     (saves_work fs → saved (raft m)) ∧
     (well_configured peers → ∀ w cs, fresh_nodes peers w → cs ≠ [] →
        Forall (fun k => k_in k = [] ∧ 0 ≤ req_id_ (k_cli k) < 2 ^ 32) cs →
        serving_all {| s_master := raft m; s_nodes := w; s_clients := cs |} ∅)) ∧
  (∀ n0, data_nodes peers = [n0] → construct fs connects db_open id LEADER_PORT peers d = UB) ∧
  (∀ m, data_nodes peers = [] → construct fs connects db_open id LEADER_PORT peers d = Ret m →
     ∀ k, GetTabletRoute (tablets_ (raft m)) k = Ret None).
Proof.
  unfold construct. rewrite Z.eqb_refl.
  assert (Hfresh := fun n => init_master_fresh fs id peers d n Hd).
  split; [|split].
  - intros n0 n1 rest m Hdn Hrun. apply bind_ret_inv in Hrun as (n & Hn & [= <-]). cbn [storage_ raft].
    destruct (proj1 (Hfresh n) n0 n1 rest Hdn Hn) as (Hp & Hids & (Hw' & Hnx & _) & Hnodes & Hroute).
    destruct (init_master_two fs id peers d n0 n1 rest n Hd Hdn Hn) as (Ht & Hps & Hm & Hsaved).
    do 6 (split; [done|]). intros Hwc w cs Hw Hne Hcs. destruct (first_addressed peers n n0 n1 rest Hwc Hdn Hps Ht) as [Ha Hs].
    split; [exact Hne|]. eapply Forall_impl; [exact Hcs|]. intros k [Hq Hk]. split; try done.
    split; try done; [by eapply first_table_represents|]. cbn [seen_by master s_master]. by rewrite Ht.
  - intros n0 Hdn. by rewrite (proj1 (proj2 (Hfresh demo_fresh)) n0 Hdn).
  - intros m Hdn Hrun. apply bind_ret_inv in Hrun as (n & Hn & [= <-]). exact (proj2 (proj2 (Hfresh n)) Hdn Hn).
Qed.

Lemma first_start_serves_witness :
  ∃ m, @construct MemDB ref_json_text good_fs (fun _ => true) (fun _ => None) 1 LEADER_PORT demo_peers empty_disk = Ret m ∧
    tablets_ (raft m) = first_table 2 3 ∧ @saved ref_json_text (raft m) ∧
    serving_all {| s_master := raft m; s_nodes := empty_nodes; s_clients := [demo_client] |} ∅.
Proof.
  destruct (@construct MemDB ref_json_text good_fs (fun _ => true) (fun _ => None) 1 LEADER_PORT demo_peers empty_disk)
    as [m| |] eqn:E; [|vm_compute in E; discriminate E|vm_compute in E; discriminate E].
  assert (Ht : Ret (tablets_ (raft m)) = Ret (first_table 2 3)).
  { change (Ret (tablets_ (raft m))) with ((fun r => match r with Ret m => Ret (tablets_ (raft m)) | _ => UB end) (Ret m)).
    rewrite <- E. vm_compute. reflexivity. }
  destruct (proj1 (@first_start_serves MemDB _ _ ref_json_text ref_json_text_spec good_fs (fun _ => true) (fun _ => None) 1
    demo_peers empty_disk eq_refl) 2 3 [] m ltac:(vm_compute; reflexivity) E) as (_ & _ & _ & _ & _ & Hs & Hv).
  exists m. split; [reflexivity|]. split; [injection Ht; intros Ht'; exact Ht'|]. split; [apply Hs; intros k; reflexivity|].
  apply (Hv demo_configured empty_nodes [demo_client] empty_nodes_fresh); [discriminate|].
  apply List.Forall_cons; [|apply List.Forall_nil]. split; [reflexivity|]. vm_compute. split; congruence.
Defined.
