(* ===== verification/LogTypes.v ===== *)
(** * The data types of the logger (src/logger/log_record.h, type_tag.h, type_tag.cpp)

    The log levels, the type tags of serialised arguments with the compile-time
    map from C++ types and the run-time map to sizes, and the layout of a record
    header.  The serialiser and the back end that would use them are not in the
    repository. *)

From S2P Require Import Prelude.

Inductive LogLevel : Type := Trace | Debug | LInfo | Warn | LError | Fatal | Off.

Inductive TypeTag : Type :=
  | Int8 | Uint8 | Int16 | Uint16 | Int32 | Uint32 | Int64 | Uint64
  | Float | Double | Bool | Char | CString | StringView | StdString
  | UserDefined | Unknown.

#[export] Instance TypeTag_eq_dec : EqDecision TypeTag.
Proof. solve_decision. Defined.

(** The enumerators' values, of type [uint16_t]. *)
Definition tag_value (t : TypeTag) : Z :=
  match t with
  | Int8 => 1 | Uint8 => 2 | Int16 => 3 | Uint16 => 4 | Int32 => 5 | Uint32 => 6 | Int64 => 7 | Uint64 => 8
  | Float => 9 | Double => 10 | Bool => 11 | Char => 12 | CString => 13 | StringView => 14 | StdString => 15
  | UserDefined => 1000 | Unknown => 65535
  end.

(** The C++ types after [remove_cvref]: the registered ones, the strings, any other. *)
Inductive cpp_type : Type :=
  | int8_t | uint8_t | int16_t | uint16_t | int32_t | uint32_t | int64_t | uint64_t
  | float | double | bool_ | char
  | const_char_ptr | string_view | string
  | other_type (n : nat).

(** [sizeof] of a scalar on the platform (LP64). *)
Definition sizeof_scalar (t : cpp_type) : option Z :=
  match t with
  | int8_t | uint8_t | bool_ | char => Some 1
  | int16_t | uint16_t => Some 2
  | int32_t | uint32_t | float => Some 4
  | int64_t | uint64_t | double => Some 8
  | _ => None
  end.

(** [TypeTagOf<T>::value]: only the scalars are registered. *)
Definition TypeTagOf (t : cpp_type) : TypeTag :=
  match t with
  | int8_t => Int8 | uint8_t => Uint8 | int16_t => Int16 | uint16_t => Uint16
  | int32_t => Int32 | uint32_t => Uint32 | int64_t => Int64 | uint64_t => Uint64
  | float => Float | double => Double | bool_ => Bool | char => Char
  | _ => Unknown
  end.

Definition is_scalar_tag_v (t : cpp_type) : bool :=
  negb (bool_decide (TypeTagOf t = Unknown)) && negb (bool_decide (TypeTagOf t = CString))
  && negb (bool_decide (TypeTagOf t = StringView)) && negb (bool_decide (TypeTagOf t = StdString)).

Record TypeTagInfo := { fixed_size : Z; is_string : bool }.

Definition query_type_tag_info (tag : TypeTag) : TypeTagInfo :=
  match tag with
  | Int8 | Uint8 | Bool | Char => {| fixed_size := 1; is_string := false |}
  | Int16 | Uint16 => {| fixed_size := 2; is_string := false |}
  | Int32 | Uint32 | Float => {| fixed_size := 4; is_string := false |}
  | Int64 | Uint64 | Double => {| fixed_size := 8; is_string := false |}
  | CString | StringView | StdString => {| fixed_size := 0; is_string := true |}
  | UserDefined | Unknown => {| fixed_size := 0; is_string := false |}
  end.

(** ** The record header *)

(** The fields in order with their sizes, which are their alignments. *)
Definition RecordHeader : list (bytes * Z) :=
  [(str "timestamp_ns", 8); (str "thread_id", 4); (str "line", 4); (str "file", 8); (str "func", 8); (str "format_str", 8);
   (str "level", 1); (str "payload_size", 2)].

Definition align_up (offset alignment : Z) : Z := (offset + alignment - 1) / alignment * alignment.

(** The offset of each field, and the end of the last one. *)
Fixpoint layout (offset : Z) (fields : list (bytes * Z)) : list (bytes * Z) * Z :=
  match fields with
  | [] => ([], offset)
  | (f, size) :: fields =>
      let at_f := align_up offset size in
      let '(l, e) := layout (at_f + size) fields in ((f, at_f) :: l, e)
  end.

Definition sizeof_struct (fields : list (bytes * Z)) : Z :=
  align_up (layout 0 fields).2 (foldr (fun f m => Z.max f.2 m) 1 fields).

Definition payload_offset : Z := sizeof_struct RecordHeader.

(** The address of the payload behind a header; both overloads. *)
Definition payload_ptr (header : Z) : Z := u64 (header + sizeof_struct RecordHeader).

(** ** Facts *)

(** The assertion of the source, and where the fields are. *)
Example sizeof_RecordHeader : sizeof_struct RecordHeader = 48.
Proof. vm_compute. reflexivity. Qed.

Example payload_size_at : (layout 0 RecordHeader).1 !! 7%nat = Some (str "payload_size", 42).
Proof. vm_compute. reflexivity. Qed.

(** The payload of an aligned header that ends inside the address space is aligned too. *)
Lemma payload_ptr_aligned header :
  0 ≤ header < 2 ^ 64 - 48 → (8 | header) → payload_ptr header = header + payload_offset ∧ (8 | payload_ptr header).
Proof.
  intros Hr Hd. unfold payload_ptr, payload_offset. change (sizeof_struct RecordHeader) with 48.
  rewrite u64_small by lia. split; [done|]. apply Z.divide_add_r; [done|]. by exists 6.
Qed.

(** What the front end writes for a type is what the back end reads: the tag of
    a scalar has the size of the type, and the template's scalars are exactly
    the types with a size. *)
Lemma type_tag_sizes t :
  match sizeof_scalar t with
  | Some n => query_type_tag_info (TypeTagOf t) = {| fixed_size := n; is_string := false |} ∧ is_scalar_tag_v t = true
  | None => TypeTagOf t = Unknown ∧ is_scalar_tag_v t = false
  end.
Proof. by destruct t. Qed.

Lemma tag_value_inj t1 t2 : tag_value t1 = tag_value t2 → t1 = t2.
Proof. destruct t1, t2; done. Qed.
