(* ===== verification/Atomics.v ===== *)
(** * Atomic positions with memory orders

    What src/logger/spsc_queue.cpp uses of [std::atomic<size_t>] and of plain
    memory shared by two threads.  An atomic object is the list of the values it
    had, in the order of the writes; a load may return any of them that is not
    older than one the thread has seen.  An acquire load of a value that a
    release operation wrote makes what happened before that operation happen
    before the load: clocks count the releases of each thread that happen before.
    Plain memory remembers the last store and the last load of a byte, and a
    conflicting access that these do not happen before is a data race. *)

From S2P Require Import Prelude.

(** ** Two threads, each changing one position and reading both

    A thread is named by the position it changes. *)
Inductive position : Type := WritePos | ReadPos.

Definition other (p : position) : position := match p with WritePos => ReadPos | ReadPos => WritePos end.

(** A number for each position. *)
Record counts := { of_write : nat; of_read : nat }.

Definition count (c : counts) (p : position) : nat := match p with WritePos => of_write c | ReadPos => of_read c end.
Definition set_count (c : counts) (p : position) (n : nat) : counts :=
  match p with
  | WritePos => {| of_write := n; of_read := of_read c |}
  | ReadPos => {| of_write := of_write c; of_read := n |}
  end.
Definition no_counts : counts := {| of_write := 0; of_read := 0 |}.
Definition join (c d : counts) : counts :=
  {| of_write := of_write c `max` of_write d; of_read := of_read c `max` of_read d |}.

(** [memory_order_relaxed], [_acquire], [_release]. *)
Inductive order : Type := relaxed | acquire | release.

(** A value of an atomic object, with the clock it releases. *)
Record message := { value : Z; released : counts }.
Abbreviation atomic := (list message).

(** What a thread knows: the releases that happen before its next operation, and the newest
    value it has seen of each position. *)
Record local := { clock : counts; seen : counts }.

(** [load] returns the value number [k]; [None] if the thread has seen a newer
    one, or there is none. *)
Definition load_at (p : position) (o : order) (a : atomic) (k : nat) (t : local) : option (Z * local) :=
  match a !! k with
  | Some m =>
      if (count (seen t) p <=? k)%nat then
        Some (value m, {| clock := match o with acquire => join (clock t) (released m) | _ => clock t end;
                          seen := set_count (seen t) p k |})
      else None
  | None => None
  end.

(** [fetch_add] reads the last value and writes the next; its value also releases
    what the one before it did (a release sequence). *)
Definition fetch_add (p : position) (o : order) (a : atomic) (n : Z) (t : local) : atomic * local :=
  let m := default {| value := 0; released := no_counts |} (last a) in
  (a ++ [{| value := u64 (value m + n);
            released := match o with release => join (released m) (clock t) | _ => released m end |}],
   {| clock := match o with release => set_count (clock t) p (S (count (clock t) p)) | _ => clock t end;
      seen := set_count (seen t) p (length a) |}).

(** A byte of plain memory that one thread stores and the other loads: the clocks of
    its last store and load.  The boolean says that an access is a data race. *)
Record cell := { content : Byte.byte; stored : nat; loaded : nat }.

Definition store_cell (t : local) (b : Byte.byte) (c : cell) : cell * bool :=
  ({| content := b; stored := of_write (clock t); loaded := loaded c |}, (of_read (clock t) <? loaded c)%nat).
Definition load_cell (t : local) (c : cell) : Byte.byte * cell * bool :=
  (content c, {| content := content c; stored := stored c; loaded := of_read (clock t) |},
   (of_write (clock t) <? stored c)%nat).

(** ** Laws *)
Lemma count_set c p n : count (set_count c p n) p = n.
Proof. by destruct p. Qed.
Lemma count_set_other c p n : count (set_count c p n) (other p) = count c (other p).
Proof. by destruct p. Qed.
Lemma count_join c d p : count (join c d) p = (count c p `max` count d p)%nat.
Proof. by destruct p. Qed.

Definition counts_le (c d : counts) : Prop := ∀ p, (count c p ≤ count d p)%nat.

#[export] Instance counts_le_po : PreOrder counts_le.
Proof. split; [by intros c p|intros c d e H1 H2 p; specialize (H1 p); specialize (H2 p); lia]. Qed.

Lemma counts_le_sides c d p :
  (count c p ≤ count d p)%nat → (count c (other p) ≤ count d (other p))%nat → counts_le c d.
Proof. intros H1 H2 []; destruct p; cbn in *; lia. Qed.

(** A history of values: the [k]-th is [f k] and releases at least [k] of the
    position's own clock. *)
Record history (p : position) (f : nat → Z) (a : atomic) : Prop := {
  history_value k m : a !! k = Some m → value m = u64 (f k);
  history_released k m : a !! k = Some m → (k ≤ count (released m) p)%nat;
}.

(** What a thread knows fits the atomics, of the lengths [n]: it is the only one
    to change its own position. *)
Record local_ok (n : counts) (p : position) (t : local) : Prop := {
  own_clock : count (clock t) p = count n p;
  own_seen : S (count (seen t) p) = count n p;
  other_clock : (count (clock t) (other p) ≤ count n (other p))%nat;
  other_seen : (count (seen t) (other p) < count n (other p))%nat;
}.

Lemma local_ok_more n n' p t :
  local_ok n p t → count n' p = count n p → (count n (other p) ≤ count n' (other p))%nat → local_ok n' p t.
Proof. intros [] ? ?. split; lia. Qed.

(** A load of the thread [p] from the position [x]. *)
Lemma load_at_ok n p x o a k t v t' :
  local_ok n p t → length a = count n x → Forall (fun m => counts_le (released m) n) a →
  load_at x o a k t = Some (v, t') →
  local_ok n p t' ∧ (x = p → S k = count n p) ∧ (∃ m, a !! k = Some m ∧ v = value m ∧
    (o = acquire → counts_le (released m) (clock t'))) ∧
  counts_le (clock t) (clock t') ∧ counts_le (seen t) (seen t') ∧ count (seen t') x = k.
Proof.
  intros Ht Hlen Ha. unfold load_at. destruct (a !! k) as [m|] eqn:Hm; [|done].
  destruct (Nat.leb_spec (count (seen t) x) k); [|done]. intros [= <- <-]. cbn [clock seen].
  pose proof (proj1 (Forall_lookup _ _) Ha _ _ Hm) as Hr. cbn beta in Hr.
  apply lookup_lt_Some in Hm as Hk. destruct Ht as [H1 H2 H3 H4].
  assert (Hc : local_ok n p {| clock := match o with acquire => join (clock t) (released m) | _ => clock t end;
                               seen := set_count (seen t) x k |}).
  { pose proof (Hr p). pose proof (Hr (other p)).
    split; cbn [clock seen]; [destruct o; rewrite ?count_join; lia| |destruct o; rewrite ?count_join; lia|];
      destruct x, p; cbn [count set_count other of_write of_read] in *; lia. }
  split; [done|]. split; [intros ->; lia|]. split; [|split_and!].
  - exists m. split_and!; try done. intros -> y. rewrite count_join. lia.
  - intros y. destruct o; rewrite ?count_join; lia.
  - intros y. destruct x, y; cbn in *; lia.
  - apply count_set.
Qed.

(** A release of the thread [p] on its own position. *)
Lemma fetch_add_ok n p f a d t a' t' :
  local_ok n p t → length a = count n p → history p f a → Forall (fun m => counts_le (released m) n) a →
  f (length a) = f (pred (length a)) + d →
  fetch_add p release a d t = (a', t') →
  ∃ m, a' = a ++ [m] ∧ history p f a' ∧ counts_le (released m) n ∧
    local_ok (set_count n p (S (count n p))) p t' ∧ count (clock t') (other p) = count (clock t) (other p) ∧
    count (seen t') (other p) = count (seen t) (other p).
Proof.
  intros [H1 H2 H3 H4] Hlen [Hv Hr] Ha Hf [= <- <-]. eexists. split; [done|].
  destruct (last a) as [m|] eqn:Hm; [|apply last_None in Hm; subst a; cbn in Hlen; lia].
  rewrite last_lookup in Hm. cbn [default]. apply Hv in Hm as Hvm.
  pose proof (proj1 (Forall_lookup _ _) Ha _ _ Hm) as Hle. cbn beta in Hle.
  split_and!.
  - split; intros k x Hx; (destruct (decide (k = length a)) as [->|];
      [rewrite list_lookup_middle in Hx by done; injection Hx as <-
      |rewrite lookup_app_l in Hx by (apply lookup_lt_Some in Hx; rewrite length_app in Hx; cbn in Hx; lia)]).
    + cbn [value]. rewrite Hvm, Hf. unfold u64. apply Zplus_mod_idemp_l.
    + by apply Hv.
    + cbn [released]. rewrite count_join. lia.
    + by apply Hr.
  - cbn [released]. intros y. rewrite count_join. pose proof (Hle y). destruct p, y; cbn in *; lia.
  - split; cbn [clock seen]; rewrite ?count_set, ?count_set_other; lia.
  - cbn [clock]. apply count_set_other.
  - cbn [seen]. apply count_set_other.
Qed.
