(* ===== verification/SpscQueue.v ===== *)
(** * The lock-free ring buffer of the logger (src/logger/spsc_queue.h, spsc_queue.cpp)

    One producer thread and one consumer thread share a ring of bytes through
    two atomic positions of type [size_t].  The member functions are modelled
    with their atomic accesses and memory orders (Atomics.v): a load may return an old
    value, and only release and acquire order the accesses to the bytes.  The two threads are an
    executable transition function: a move of one of them is one call, or one
    store or load of a byte of the buffer, and any list of moves is an interleaving. *)

From S2P Require Import Prelude Atomics.

(** ** [bit_ceil] (src/common/common.h)

    [shift] doubles while it is below 64. *)
Fixpoint ceil_loop (fuel : nat) (shift n : Z) : Z :=
  match fuel with
  | O => n
  | S fuel => if shift <? 64 then ceil_loop fuel (Z.shiftl shift 1) (Z.lor n (Z.shiftr n shift)) else n
  end.

Definition bit_ceil (n : Z) : Z :=
  if n <=? 1 then 1 else
  let n := n - 1 in
  u64 (ceil_loop 64 1 n + 1).

(** ** The queue *)
Record SpscQueue := {
  write_pos_ : atomic;
  read_pos_ : atomic;
  capacity_ : Z;
  mask_ : Z;
  buffer_ : list cell;
}.

(** The buffer is not initialised: its zeros stand for any bytes, and no run loads one. *)
Definition new_queue (capacity : Z) : SpscQueue :=
  let capacity_ := bit_ceil (Z.lor capacity 1) in
  let zero := {| value := 0; released := no_counts |} in
  {| write_pos_ := [zero]; read_pos_ := [zero]; capacity_ := capacity_; mask_ := u64 (capacity_ - 1);
     buffer_ := repeat {| content := x00; stored := 0; loaded := 0 |} (Z.to_nat capacity_) |}.

Definition atomic_of (q : SpscQueue) (p : position) : atomic :=
  match p with WritePos => write_pos_ q | ReadPos => read_pos_ q end.

(** The member functions that only load: [ch] says which value each position
    is loaded with. *)
Definition access (A : Type) : Type := SpscQueue → local → option (A * local).

#[export] Instance access_ret : MRet access := fun A a q t => Some (a, t).
#[export] Instance access_bind : MBind access := fun A B f x q t =>
  match x q t with Some (a, t) => f a q t | None => None end.

Definition load (ch : position → nat) (p : position) (o : order) : access Z :=
  fun q t => load_at p o (atomic_of q p) (ch p) t.
Definition const {A} (field : SpscQueue → A) : access A := fun q t => Some (field q, t).

(** The offset in the buffer; [None]: [nullptr]. *)
Definition prepare_write (ch : position → nat) (len : Z) : access (option Z) :=
  capacity_ ← const capacity_;
  mask_ ← const mask_;
  if len =? 0 then
    wp ← load ch WritePos relaxed;
    mret (Some (Z.land wp mask_))
  else
    wp ← load ch WritePos relaxed;
    rp ← load ch ReadPos acquire;
    let used := u64 (wp - rp) in
    if u64 (u64 (capacity_ - used) - 1) <? len then mret None else
    let pos := Z.land wp mask_ in
    let to_end := u64 (capacity_ - pos) in
    if to_end <? len then mret None else mret (Some pos).

Definition writable_bytes (ch : position → nat) : access Z :=
  capacity_ ← const capacity_;
  mask_ ← const mask_;
  wp ← load ch WritePos relaxed;
  rp ← load ch ReadPos acquire;
  let free_total := u64 (u64 (capacity_ - u64 (wp - rp)) - 1) in
  let pos := Z.land wp mask_ in
  mret (Z.min free_total (u64 (capacity_ - pos))).

Definition peek (ch : position → nat) : access (option Z) :=
  mask_ ← const mask_;
  rp ← load ch ReadPos relaxed;
  wp ← load ch WritePos acquire;
  mret (if rp =? wp then None else Some (Z.land rp mask_)).

Definition readable_bytes (ch : position → nat) : access Z :=
  capacity_ ← const capacity_;
  mask_ ← const mask_;
  rp ← load ch ReadPos relaxed;
  wp ← load ch WritePos acquire;
  let readable_total := u64 (wp - rp) in
  if readable_total =? 0 then mret 0 else
  let pos := Z.land rp mask_ in
  mret (Z.min readable_total (u64 (capacity_ - pos))).

Definition empty (ch : position → nat) : access bool :=
  rp ← load ch ReadPos relaxed;
  wp ← load ch WritePos acquire;
  mret (rp =? wp).

Definition capacity (q : SpscQueue) : Z := capacity_ q.

Definition commit_write (q : SpscQueue) (t : local) (len : Z) : SpscQueue * local :=
  let '(a, t) := fetch_add WritePos release (write_pos_ q) len t in
  ({| write_pos_ := a; read_pos_ := read_pos_ q; capacity_ := capacity_ q; mask_ := mask_ q; buffer_ := buffer_ q |}, t).

Definition consume (q : SpscQueue) (t : local) (len : Z) : SpscQueue * local :=
  let '(a, t) := fetch_add ReadPos release (read_pos_ q) len t in
  ({| write_pos_ := write_pos_ q; read_pos_ := a; capacity_ := capacity_ q; mask_ := mask_ q; buffer_ := buffer_ q |}, t).

Definition set_cell (q : SpscQueue) (i : nat) (c : cell) : SpscQueue :=
  {| write_pos_ := write_pos_ q; read_pos_ := read_pos_ q; capacity_ := capacity_ q; mask_ := mask_ q;
     buffer_ := <[i := c]> (buffer_ q) |}.

(** ** The two threads *)

(** The producer between [prepare_write] and [commit_write]: the offset, the
    record, and how many of its bytes are stored. *)
Inductive producer : Type :=
  | PIdle
  | PWriting (pos : Z) (data : bytes) (written : nat).

(** The consumer between [peek], [readable_bytes] and [consume]: the offset, the
    count, and the bytes loaded so far. *)
Inductive consumer : Type :=
  | CIdle
  | CPeeked (pos : Z)
  | CReading (pos : Z) (n : Z) (bytes_read : bytes).

(** [sent]: the records committed so far; [got]: the pieces consumed so far;
    [raced]: a data race has happened, and the program has no meaning. *)
Record machine := {
  queue : SpscQueue;
  ptid : local;
  ctid : local;
  prod : producer;
  cons : consumer;
  sent : list bytes;
  got : list bytes;
  raced : bool;
}.

Definition start (capacity : Z) : machine :=
  {| queue := new_queue capacity;
     ptid := {| clock := {| of_write := 1; of_read := 0 |}; seen := no_counts |};
     ctid := {| clock := {| of_write := 0; of_read := 1 |}; seen := no_counts |};
     prod := PIdle; cons := CIdle; sent := []; got := []; raced := false |}.

Definition with_prod (m : machine) (t : local) (p : producer) : machine :=
  {| queue := queue m; ptid := t; ctid := ctid m; prod := p; cons := cons m; sent := sent m; got := got m; raced := raced m |}.
Definition with_cons (m : machine) (t : local) (c : consumer) : machine :=
  {| queue := queue m; ptid := ptid m; ctid := t; prod := prod m; cons := c; sent := sent m; got := got m; raced := raced m |}.
Definition with_cell (m : machine) (i : nat) (c : cell) (race : bool) : machine :=
  {| queue := set_cell (queue m) i c; ptid := ptid m; ctid := ctid m; prod := prod m; cons := cons m; sent := sent m;
     got := got m; raced := raced m || race |}.

(** A move of a thread; [ch] chooses the values its loads return. *)
Inductive move : Type :=
  | Prepare (ch : position → nat) (data : bytes)
  | StoreByte
  | Commit
  | AskWritable (ch : position → nat)
  | ProducerEmpty (ch : position → nat)
  | Peek (ch : position → nat)
  | Count (ch : position → nat)
  | LoadByte
  | Consume
  | ConsumerEmpty (ch : position → nat).

(** [None]: the thread cannot make the move. *)
Definition step (mv : move) (m : machine) : option machine :=
  let q := queue m in
  match mv, prod m, cons m with
  | Prepare ch data, PIdle, _ =>
      '(r, t) ← prepare_write ch (zlen data) q (ptid m);
      Some (with_prod m t (match r with Some pos => PWriting pos data 0 | None => PIdle end))
  | StoreByte, PWriting pos data k, _ =>
      b ← data !! k;
      c ← buffer_ q !! (Z.to_nat pos + k)%nat;
      let '(c, race) := store_cell (ptid m) b c in
      Some (with_prod (with_cell m (Z.to_nat pos + k) c race) (ptid m) (PWriting pos data (S k)))
  | Commit, PWriting pos data k, _ =>
      if decide (k = length data) then
        let '(q, t) := commit_write q (ptid m) (zlen data) in
        Some {| queue := q; ptid := t; ctid := ctid m; prod := PIdle; cons := cons m;
                sent := sent m ++ [data]; got := got m; raced := raced m |}
      else None
  | AskWritable ch, p, _ => '(_, t) ← writable_bytes ch q (ptid m); Some (with_prod m t p)
  | ProducerEmpty ch, p, _ => '(_, t) ← empty ch q (ptid m); Some (with_prod m t p)
  | Peek ch, _, CIdle =>
      '(r, t) ← peek ch q (ctid m);
      Some (with_cons m t (match r with Some pos => CPeeked pos | None => CIdle end))
  | Count ch, _, CPeeked pos =>
      '(n, t) ← readable_bytes ch q (ctid m); Some (with_cons m t (CReading pos n []))
  | LoadByte, _, CReading pos n l =>
      if zlen l <? n then
        c ← buffer_ q !! (Z.to_nat pos + length l)%nat;
        let '(b, c, race) := load_cell (ctid m) c in
        Some (with_cons (with_cell m (Z.to_nat pos + length l) c race) (ctid m) (CReading pos n (l ++ [b])))
      else None
  | Consume, _, CReading pos n l =>
      let '(q, t) := consume q (ctid m) (zlen l) in
      Some {| queue := q; ptid := ptid m; ctid := t; prod := prod m; cons := CIdle;
              sent := sent m; got := got m ++ [l]; raced := raced m |}
  | ConsumerEmpty ch, _, c => '(_, t) ← empty ch q (ctid m); Some (with_cons m t c)
  | _, _, _ => None
  end.

Fixpoint run (mvs : list move) (m : machine) : option machine :=
  match mvs with
  | [] => Some m
  | mv :: mvs => m ← step mv m; run mvs m
  end.

(** ** [bit_ceil] computes the next power of two *)

(** [x] has a bit set where [m] has one in the window of [w] bits above. *)
Definition smeared (m : Z) (w : Z) (x : Z) : Prop :=
  0 ≤ x ∧ ∀ i, 0 ≤ i → Z.testbit x i = true ↔ ∃ j, i ≤ j < i + w ∧ Z.testbit m j = true.

Lemma smear_step m w x : 0 < w → smeared m w x → smeared m (w + w) (Z.lor x (Z.shiftr x w)).
Proof.
  intros Hw [Hx Hs]. split; [apply Z.lor_nonneg; split; [done|by apply Z.shiftr_nonneg]|].
  intros i Hi. rewrite Z.lor_spec, Z.shiftr_spec, orb_true_iff, !Hs by lia. split.
  - intros [(j & ? & ?)|(j & ? & ?)]; exists j; (split; [lia|done]).
  - intros (j & ? & ?). destruct (Z.lt_ge_cases j (i + w)); [left|right]; exists j; (split; [lia|done]).
Qed.

Lemma ceil_loop_smeared m fuel s x :
  0 < s → 64 ≤ s + Z.of_nat fuel → smeared m s x → ∃ w, 64 ≤ w ∧ smeared m w (ceil_loop fuel s x).
Proof.
  revert s x. induction fuel as [|fuel IH]; intros s x Hs Hf Hx; cbn [ceil_loop]; [exists s; split; [lia|done]|].
  destruct (Z.ltb_spec s 64); [|exists s; split; [lia|done]].
  rewrite Z.shiftl_mul_pow2 by lia. apply IH; [lia|lia|].
  replace (s * 2 ^ 1) with (s + s) by lia. by apply smear_step.
Qed.

Lemma ceil_loop_ones m : 0 < m < 2 ^ 64 → ceil_loop 64 1 m = Z.ones (Z.log2 m + 1).
Proof.
  intros Hm. assert (H1 : smeared m 1 m).
  { split; [lia|]. intros i Hi. split; [intros; exists i; split; [lia|done]|].
    intros (j & ? & ?). by replace i with j by lia. }
  destruct (ceil_loop_smeared m 64 1 m ltac:(lia) ltac:(lia) H1) as (w & Hw & _ & Hs).
  apply Z.bits_inj'. intros i Hi. pose proof (Z.log2_nonneg m).
  assert (Hlog : Z.log2 m < 64) by (apply Z.log2_lt_pow2; lia).
  apply eq_true_iff_eq. rewrite Hs by done. split.
  - intros (j & ? & Hj). rewrite Z.ones_spec_low; [done|]. split; [done|].
    destruct (Z.le_gt_cases j (Z.log2 m)); [lia|]. by rewrite Z.bits_above_log2 in Hj by lia.
  - intros Ho. destruct (Z.le_gt_cases i (Z.log2 m)).
    + exists (Z.log2 m). split; [lia|]. apply Z.bit_log2. lia.
    + by rewrite Z.ones_spec_high in Ho by lia.
Qed.

Lemma bit_ceil_pow2 n :
  0 ≤ n ≤ 2 ^ 63 → ∃ e, 0 ≤ e ≤ 63 ∧ bit_ceil n = 2 ^ e ∧ n ≤ 2 ^ e ∧ (1 < n → 2 ^ (e - 1) < n) ∧ (n ≤ 1 → e = 0).
Proof.
  intros Hn. unfold bit_ceil. destruct (Z.leb_spec n 1); [exists 0; split_and!; lia|].
  rewrite ceil_loop_ones by lia. exists (Z.log2 (n - 1) + 1).
  destruct (Z.log2_spec (n - 1)) as [Hlo Hhi]; [lia|]. pose proof (Z.log2_nonneg (n - 1)).
  assert (Z.log2 (n - 1) < 63) by (apply Z.log2_lt_pow2; lia).
  rewrite Z.ones_equiv. replace (Z.pred (2 ^ (Z.log2 (n - 1) + 1)) + 1) with (2 ^ (Z.log2 (n - 1) + 1)) by lia.
  rewrite <- Z.add_1_r in Hhi. split; [lia|]. split; [|split; [lia|split; [|lia]]].
  - apply u64_small. split; [lia|]. apply Z.pow_lt_mono_r; lia.
  - intros _. replace (Z.log2 (n - 1) + 1 - 1) with (Z.log2 (n - 1)) by lia. lia.
Qed.

(** ** What the positions say *)

(** The bytes of the first [k] pieces. *)
Definition upto (l : list bytes) (k : nat) : Z := zlen (concat (take k l)).

Lemma upto_nonneg l k : 0 ≤ upto l k.
Proof. apply zlen_nonneg. Qed.
Lemma upto_mono l j k : (j ≤ k)%nat → upto l j ≤ upto l k.
Proof.
  intros Hjk. unfold upto. rewrite <- (take_drop j (take k l)), take_take, Nat.min_l by done.
  rewrite concat_app, zlen_app. pose proof (zlen_nonneg (concat (drop j (take k l)))). lia.
Qed.
Lemma upto_all l k : (length l ≤ k)%nat → upto l k = zlen (concat l).
Proof. intros. unfold upto. by rewrite take_ge. Qed.
Lemma upto_le l k : upto l k ≤ zlen (concat l).
Proof.
  destruct (decide (length l ≤ k)%nat); [by rewrite upto_all|].
  rewrite <- (upto_all l (length l)) by done. apply upto_mono. lia.
Qed.
Lemma upto_snoc l x k : (k ≤ length l)%nat → upto (l ++ [x]) k = upto l k.
Proof. intros. unfold upto. by rewrite take_app_le. Qed.
Lemma concat_snoc l (x : bytes) : concat (l ++ [x]) = concat l ++ x.
Proof. rewrite concat_app. cbn [concat]. by rewrite app_nil_r. Qed.
Lemma upto_last l x : upto (l ++ [x]) (S (length l)) = upto (l ++ [x]) (length l) + zlen x.
Proof.
  rewrite (upto_snoc l x (length l)), !upto_all, concat_snoc, zlen_app by (rewrite ?length_app; cbn; lia). done.
Qed.

Definition zat {A} (l : list A) (i : Z) : option A := l !! Z.to_nat i.

Lemma zat_app {A} (l1 l2 : list A) i :
  0 ≤ i → zat (l1 ++ l2) i = if i <? Z.of_nat (length l1) then zat l1 i else zat l2 (i - Z.of_nat (length l1)).
Proof.
  intros. unfold zat. destruct (Z.ltb_spec i (Z.of_nat (length l1))).
  - apply lookup_app_l. lia.
  - rewrite lookup_app_r by lia. f_equal. lia.
Qed.

Lemma u64_sub x y : 0 ≤ x - y < 2 ^ 64 → u64 (u64 x - u64 y) = x - y.
Proof. intros. unfold u64. rewrite <- Zminus_mod. by apply Z.mod_small. Qed.

Definition lens (q : SpscQueue) : counts := {| of_write := length (write_pos_ q); of_read := length (read_pos_ q) |}.

Section Invariant.
Context (e : Z) (He : 0 ≤ e ≤ 63).
Let c := 2 ^ e.

Lemma c_bounds : 0 < c ≤ 2 ^ 63.
Proof. unfold c. split; [apply Z.pow_pos_nonneg; lia|]. apply Z.pow_le_mono_r; lia. Qed.

(** The offset of a position, on 64 bits or not. *)
Lemma offset_mod x : Z.land (u64 x) (u64 (c - 1)) = x mod c.
Proof.
  pose proof c_bounds. rewrite (u64_small (c - 1)) by lia.
  replace (c - 1) with (Z.ones e) by (rewrite Z.ones_equiv; unfold c; lia).
  rewrite Z.land_ones by lia. unfold u64. fold c. apply Z.mod_mod_divide.
  exists (2 ^ (64 - e)). unfold c. rewrite <- Z.pow_add_r by lia. f_equal. lia.
Qed.

Lemma offset_range x : 0 ≤ x mod c < c.
Proof. pose proof c_bounds. apply Z.mod_pos_bound. lia. Qed.

(** Two positions less than a lap apart have different offsets. *)
Lemma offsets_differ i j : 0 < j - i < c → i mod c ≠ j mod c.
Proof.
  intros Hd E. pose proof c_bounds. pose proof (Z.div_mod i c ltac:(lia)). pose proof (Z.div_mod j c ltac:(lia)).
  assert (j - i = c * (j / c - i / c)) as Hk by lia. rewrite Hk in Hd.
  assert (0 < j / c - i / c < 1) by nia. lia.
Qed.

Lemma offset_add w i : 0 ≤ i → w mod c + i < c → (w + i) mod c = w mod c + i.
Proof.
  intros. pose proof c_bounds. pose proof (offset_range w).
  rewrite Z.add_mod by lia. rewrite (Z.mod_small i) by lia. apply Z.mod_small. lia.
Qed.

(** The atomics hold the totals of the records [s] committed and of the pieces
    [g] consumed; the producer has seen enough consumed for what it wrote, the consumer
    has seen committed what it consumed. *)
Record positions (q : SpscQueue) (tp tc : local) (s g : list bytes) : Prop := {
  at_capacity : capacity_ q = c;
  at_mask : mask_ q = u64 (c - 1);
  at_buffer : Z.of_nat (length (buffer_ q)) = c;
  write_history : history WritePos (upto s) (write_pos_ q);
  write_length : length (write_pos_ q) = S (length s);
  read_history : history ReadPos (upto g) (read_pos_ q);
  read_length : length (read_pos_ q) = S (length g);
  messages_ok p : Forall (fun x => counts_le (released x) (lens q)) (atomic_of q p);
  producer_ok : local_ok (lens q) WritePos tp;
  consumer_ok : local_ok (lens q) ReadPos tc;
  room : zlen (concat s) - upto g (of_read (seen tp)) ≤ c - 1;
  behind : zlen (concat g) ≤ upto s (of_write (seen tc));
}.

Lemma at_order q tp tc s g :
  positions q tp tc s g → 0 ≤ zlen (concat g) ≤ zlen (concat s) ∧ zlen (concat s) - zlen (concat g) ≤ c - 1.
Proof.
  intros [_ _ _ _ _ _ _ _ _ _ Hr Hb]. pose proof (zlen_nonneg (concat g)).
  pose proof (upto_le s (of_write (seen tc))). pose proof (upto_le g (of_read (seen tp))). lia.
Qed.

(** The value a thread [p] loads from a position with the totals [f]. *)
Lemma load_value q p x f o ch t v t' :
  local_ok (lens q) p t → Forall (fun m => counts_le (released m) (lens q)) (atomic_of q x) →
  history x f (atomic_of q x) → load ch x o q t = Some (v, t') →
  local_ok (lens q) p t' ∧ v = u64 (f (ch x)) ∧ (x = p → S (ch x) = count (lens q) p) ∧
  count (seen t') x = ch x ∧ (o = acquire → (ch x ≤ count (clock t') x)%nat) ∧
  counts_le (clock t) (clock t') ∧ counts_le (seen t) (seen t').
Proof.
  intros Ht Ha [Hv Hr] Hl.
  apply (load_at_ok (lens q) p x o (atomic_of q x) (ch x) t v t') in Hl as (Ht' & Hown & (m & Hm & -> & Hacq) & Hc & Hs & Hseen);
    [|done|by destruct x|done].
  split_and!; try done; [by apply Hv|]. intros Ho. specialize (Hacq Ho x). apply Hr in Hm. lia.
Qed.

Lemma producer_load q tp tc s g ch x o v t' :
  positions q tp tc s g → load ch x o q tp = Some (v, t') →
  positions q t' tc s g ∧ counts_le (clock tp) (clock t') ∧ counts_le (seen tp) (seen t') ∧
  match x with
  | WritePos => v = u64 (zlen (concat s))
  | ReadPos => v = u64 (upto g (of_read (seen t'))) ∧ (o = acquire → (of_read (seen t') ≤ of_read (clock t'))%nat)
  end.
Proof.
  intros [Hc Hm Hb Hw Hwl Hr Hrl Hmsg Hp Hcs Hroom Hbeh] Hl.
  destruct (load_value q WritePos x (match x with WritePos => upto s | ReadPos => upto g end) o ch tp v t')
    as (Hp' & -> & Hown & Hseen & Hacq & Hcl & Hsn); [done|done|by destruct x|done|].
  split; [|split_and!; [done|done|]].
  - split; try done. pose proof (upto_mono g _ _ (Hsn ReadPos)) as Hmono. cbn [count] in Hmono. lia.
  - destruct x; cbn [count] in *.
    + rewrite upto_all; [done|]. specialize (Hown eq_refl). cbn [lens of_write] in Hown. lia.
    + rewrite <- Hseen in Hacq |- *. done.
Qed.

Lemma consumer_load q tp tc s g ch x o v t' :
  positions q tp tc s g → load ch x o q tc = Some (v, t') →
  positions q tp t' s g ∧ counts_le (clock tc) (clock t') ∧ counts_le (seen tc) (seen t') ∧
  match x with
  | ReadPos => v = u64 (zlen (concat g))
  | WritePos => v = u64 (upto s (of_write (seen t'))) ∧ (o = acquire → (of_write (seen t') ≤ of_write (clock t'))%nat)
  end.
Proof.
  intros [Hc Hm Hb Hw Hwl Hr Hrl Hmsg Hp Hcs Hroom Hbeh] Hl.
  destruct (load_value q ReadPos x (match x with WritePos => upto s | ReadPos => upto g end) o ch tc v t')
    as (Hp' & -> & Hown & Hseen & Hacq & Hcl & Hsn); [done|done|by destruct x|done|].
  split; [|split_and!; [done|done|]].
  - split; try done. pose proof (upto_mono s _ _ (Hsn WritePos)) as Hmono. cbn [count] in Hmono. lia.
  - destruct x; cbn [count] in *.
    + rewrite <- Hseen in Hacq |- *. done.
    + rewrite upto_all; [done|]. specialize (Hown eq_refl). cbn [lens of_read] in Hown. lia.
Qed.

(** ** The calls *)

(** One load after the other. *)
Ltac next_load L :=
  match goal with
  | Hr : context [load ?ch ?x ?o ?q ?t] |- _ =>
      let Hl := fresh "Hl" in
      destruct (load ch x o q t) as [[? ?]|] eqn:Hl; [|discriminate Hr];
      eapply L in Hl as (? & ? & ? & ?); [|eassumption]
  end.

(** The acquire load among them. *)
Ltac acquired H :=
  match goal with
  | Ha : _ ∧ (acquire = acquire → _) |- _ => destruct Ha as [-> H]; specialize (H eq_refl)
  end.

(** The record fits behind [w] in one piece, with room the producer knows to be consumed. *)
Definition fits (t : local) (s g : list bytes) (len : Z) : Prop :=
  zlen (concat s) mod c + len ≤ c ∧
  (0 < len → ∃ j, (j ≤ of_read (clock t))%nat ∧ (j ≤ of_read (seen t))%nat ∧ zlen (concat s) - upto g j + len ≤ c - 1).

Lemma prepare_ok q tp tc s g ch len res t' :
  positions q tp tc s g → 0 ≤ len → prepare_write ch len q tp = Some (res, t') →
  positions q t' tc s g ∧ ∀ pos, res = Some pos → pos = zlen (concat s) mod c ∧ fits t' s g len.
Proof.
  intros Hq Hlen. pose proof c_bounds. pose proof (offset_range (zlen (concat s))).
  pose proof (at_order _ _ _ _ _ Hq). unfold prepare_write, const, mret, access_ret, mbind, access_bind.
  rewrite (at_capacity _ _ _ _ _ Hq), (at_mask _ _ _ _ _ Hq). intros Hrun.
  destruct (Z.eqb_spec len 0) as [->|Hne].
  - next_load producer_load. subst. injection Hrun as <- <-. split; [done|]. intros pos [= <-].
    rewrite offset_mod. split; [done|]. split; [lia|intros ?; lia].
  - do 2 next_load producer_load. subst. acquired Hacq.
    destruct (_ <? len) eqn:Hfree in Hrun; [by injection Hrun as <- <-|].
    destruct (_ <? len) eqn:Hend in Hrun; [by injection Hrun as <- <-|]. injection Hrun as <- <-.
    split; [done|]. intros pos [= <-]. rewrite offset_mod in Hend |- *. split; [done|].
    assert (positions q l0 tc s g) as [_ _ _ _ _ _ _ _ _ _ Hroom _] by assumption. pose proof (upto_le g (of_read (seen l0))).
    rewrite u64_sub, (u64_small (c - _)), u64_small in Hfree by lia. rewrite u64_small in Hend by lia.
    split; [lia|]. intros _. exists (of_read (seen l0)). split; [done|]. split; [done|lia].
Qed.

(** What the consumer may read: it is committed, and the consumer knows it. *)
Definition readable (t : local) (s g : list bytes) (n : Z) : Prop :=
  zlen (concat g) mod c + n ≤ c ∧
  ∃ k, (k ≤ of_write (clock t))%nat ∧ (k ≤ of_write (seen t))%nat ∧ 0 ≤ n ≤ upto s k - zlen (concat g).

Lemma peek_ok q tp tc s g ch res t' :
  positions q tp tc s g → peek ch q tc = Some (res, t') →
  positions q tp t' s g ∧ ∀ pos, res = Some pos → pos = zlen (concat g) mod c.
Proof.
  intros Hq. unfold peek, const, mret, access_ret, mbind, access_bind.
  rewrite (at_mask _ _ _ _ _ Hq). intros Hrun. do 2 next_load consumer_load. subst. injection Hrun as <- <-.
  split; [done|]. intros pos. destruct (_ =? _); [done|]. intros [= <-]. apply offset_mod.
Qed.

Lemma readable_ok q tp tc s g ch n t' :
  positions q tp tc s g → readable_bytes ch q tc = Some (n, t') →
  positions q tp t' s g ∧ readable t' s g n.
Proof.
  intros Hq. pose proof c_bounds. pose proof (offset_range (zlen (concat g))).
  unfold readable_bytes, const, mret, access_ret, mbind, access_bind.
  rewrite (at_capacity _ _ _ _ _ Hq), (at_mask _ _ _ _ _ Hq). intros Hrun.
  do 2 next_load consumer_load. subst. acquired Hacq.
  assert (Hp : positions q tp l0 s g) by assumption.
  pose proof (behind _ _ _ _ _ Hp). pose proof (at_order _ _ _ _ _ Hp). pose proof (upto_le s (of_write (seen l0))).
  rewrite u64_sub, offset_mod, u64_small in Hrun by lia.
  destruct (Z.eqb_spec (upto s (of_write (seen l0)) - zlen (concat g)) 0); injection Hrun as <- <-;
    (split; [done|]; split; [lia|]; exists (of_write (seen l0)); split; [done|]; split; [done|lia]).
Qed.

Lemma writable_ok q tp tc s g ch n t' :
  positions q tp tc s g → writable_bytes ch q tp = Some (n, t') →
  positions q t' tc s g ∧ counts_le (clock tp) (clock t') ∧ counts_le (seen tp) (seen t').
Proof.
  intros Hq. unfold writable_bytes, const, mret, access_ret, mbind, access_bind. intros Hrun.
  do 2 next_load producer_load. injection Hrun as <- <-. split; [done|]. by split; etrans.
Qed.

Lemma producer_empty_ok q tp tc s g ch b t' :
  positions q tp tc s g → empty ch q tp = Some (b, t') →
  positions q t' tc s g ∧ counts_le (clock tp) (clock t') ∧ counts_le (seen tp) (seen t').
Proof.
  intros Hq. unfold empty, mret, access_ret, mbind, access_bind. intros Hrun.
  do 2 next_load producer_load. injection Hrun as <- <-. split; [done|]. by split; etrans.
Qed.

Lemma consumer_empty_ok q tp tc s g ch b t' :
  positions q tp tc s g → empty ch q tc = Some (b, t') →
  positions q tp t' s g ∧ counts_le (clock tc) (clock t') ∧ counts_le (seen tc) (seen t').
Proof.
  intros Hq. unfold empty, mret, access_ret, mbind, access_bind. intros Hrun.
  do 2 next_load consumer_load. injection Hrun as <- <-. split; [done|]. by split; etrans.
Qed.

(** ** Committing and consuming *)
Lemma history_snoc p l x a : length a = S (length l) → history p (upto l) a → history p (upto (l ++ [x])) a.
Proof.
  intros Hlen [Hv Hr]. split; [|done]. intros k m Hm. rewrite upto_snoc; [by apply Hv|].
  apply lookup_lt_Some in Hm. lia.
Qed.

(** One more value of the position [p]. *)
Lemma release_ok q q' p t d t' (f : nat → Z) :
  local_ok (lens q) p t → history p f (atomic_of q p) →
  (∀ x, Forall (fun m => counts_le (released m) (lens q)) (atomic_of q x)) →
  f (count (lens q) p) = f (pred (count (lens q) p)) + d →
  fetch_add p release (atomic_of q p) d t = (atomic_of q' p, t') → atomic_of q' (other p) = atomic_of q (other p) →
  lens q' = set_count (lens q) p (S (count (lens q) p)) ∧ history p f (atomic_of q' p) ∧
  (∀ x, Forall (fun m => counts_le (released m) (lens q')) (atomic_of q' x)) ∧ local_ok (lens q') p t' ∧
  count (clock t') (other p) = count (clock t) (other p) ∧ count (seen t') (other p) = count (seen t) (other p).
Proof.
  intros Ht Hh Hm Hf Hadd Hother. assert (Hlen : length (atomic_of q p) = count (lens q) p) by by destruct p.
  edestruct fetch_add_ok as (m & Ha & Hh' & Hle & Hok & Hc & Hs); [exact Ht|exact Hlen|exact Hh|apply Hm|by rewrite Hlen|exact Hadd|].
  assert (Hlens : lens q' = set_count (lens q) p (S (count (lens q) p))).
  { destruct p; cbn [atomic_of other] in *; unfold lens; cbn [set_count count of_write of_read]; rewrite Ha, Hother, length_app;
      cbn [length]; by rewrite Nat.add_1_r. }
  rewrite Hlens. split_and!; try done. intros x.
  assert (Hmore : ∀ m, counts_le (released m) (lens q) → counts_le (released m) (set_count (lens q) p (S (count (lens q) p)))).
  { intros y Hy z. specialize (Hy z). destruct p, z; cbn in *; lia. }
  assert (x = p ∨ x = other p) as [->| ->] by (destruct x, p; auto).
  - rewrite Ha. apply Forall_app_2; [|by constructor; [apply Hmore|]]. eapply Forall_impl; [apply Hm|done].
  - rewrite Hother. eapply Forall_impl; [apply Hm|done].
Qed.

Lemma commit_ok q tp tc s g d q' t' :
  positions q tp tc s g → fits tp s g (zlen d) → commit_write q tp (zlen d) = (q', t') →
  positions q' t' tc (s ++ [d]) g ∧ buffer_ q' = buffer_ q.
Proof.
  intros [Hc Hm Hb Hw Hwl Hr Hrl Hmsg Hp Hcs Hroom Hbeh] [_ Hfit]. unfold commit_write.
  destruct (fetch_add _ _ _ _ _) as [a t] eqn:Hadd. intros [= <- <-].
  set (q' := {| write_pos_ := a; read_pos_ := _; capacity_ := _; mask_ := _; buffer_ := _ |}).
  destruct (release_ok q q' WritePos tp (zlen d) t (upto (s ++ [d]))) as (Hl & Hh & Hmsg' & Hok & Hclk & Hseen); try done.
  { by apply history_snoc. }
  { cbn [lens count of_write]. rewrite Hwl. apply upto_last. }
  pose proof (other_seen _ _ _ Hcs) as Hos. cbn [count other lens of_write] in *.
  split; [|done]. split; try done.
  - cbn [q' write_pos_]. injection Hl as Hl. rewrite Hl, length_app. cbn [length]. lia.
  - eapply local_ok_more; [exact Hcs| |]; rewrite Hl; cbn [count set_count other of_write of_read lens]; lia.
  - rewrite Hseen, concat_snoc, zlen_app. pose proof (zlen_nonneg d).
    destruct (decide (zlen d = 0)) as [->|]; [lia|]. destruct Hfit as (j & _ & Hj & Hjr); [lia|].
    pose proof (upto_mono g _ _ Hj). lia.
  - rewrite upto_snoc; [done|]. lia.
Qed.

Lemma consume_ok q tp tc s g n l q' t' :
  positions q tp tc s g → readable tc s g n → zlen l ≤ n → consume q tc (zlen l) = (q', t') →
  positions q' tp t' s (g ++ [l]) ∧ buffer_ q' = buffer_ q.
Proof.
  intros [Hc Hm Hb Hw Hwl Hr Hrl Hmsg Hp Hcs Hroom Hbeh] (_ & k & _ & Hk & Hn) Hln. unfold consume.
  destruct (fetch_add _ _ _ _ _) as [a t] eqn:Hadd. intros [= <- <-].
  set (q' := {| write_pos_ := _; read_pos_ := a; capacity_ := _; mask_ := _; buffer_ := _ |}).
  destruct (release_ok q q' ReadPos tc (zlen l) t (upto (g ++ [l]))) as (Hl & Hh & Hmsg' & Hok & Hclk & Hseen); try done.
  { by apply history_snoc. }
  { cbn [lens count of_read]. rewrite Hrl. apply upto_last. }
  pose proof (other_seen _ _ _ Hp) as Hos. cbn [count other lens of_read] in *.
  split; [|done]. split; try done.
  - cbn [q' read_pos_]. injection Hl as Hl. rewrite Hl, length_app. cbn [length]. lia.
  - eapply local_ok_more; [exact Hp| |]; rewrite Hl; cbn [count set_count other of_write of_read lens]; lia.
  - rewrite upto_snoc; [done|]. lia.
  - rewrite Hseen, concat_snoc, zlen_app. pose proof (upto_mono s _ _ Hk). lia.
Qed.

(** ** The invariant *)
Definition prod_ok (b : list cell) (t : local) (p : producer) (s g : list bytes) : Prop :=
  match p with
  | PIdle => True
  | PWriting pos data k =>
      pos = zlen (concat s) mod c ∧ fits t s g (zlen data) ∧ (k ≤ length data)%nat ∧
      ∀ i x, 0 ≤ i < Z.of_nat k → zat data i = Some x → ∃ cl, zat b (pos + i) = Some cl ∧ content cl = x
  end.

Definition cons_ok (t : local) (p : consumer) (s g : list bytes) : Prop :=
  match p with
  | CIdle => True
  | CPeeked pos => pos = zlen (concat g) mod c
  | CReading pos n l =>
      pos = zlen (concat g) mod c ∧ zlen l ≤ n ∧ readable t s g n ∧
      l = take (length l) (drop (length (concat g)) (concat s))
  end.

(** A committed byte is in its place, stored before the commit that made it
    visible; a place the producer may still write was loaded before the consume that freed it. *)
Record inv (m : machine) : Prop := {
  inv_pos : positions (queue m) (ptid m) (ctid m) (sent m) (got m);
  inv_prefix : ∃ pending, concat (sent m) = concat (got m) ++ pending;
  inv_data x b : zlen (concat (got m)) ≤ x < zlen (concat (sent m)) → zat (concat (sent m)) x = Some b →
    ∃ cl, zat (buffer_ (queue m)) (x mod c) = Some cl ∧ content cl = b ∧
      ∀ j, x < upto (sent m) j → (stored cl ≤ j)%nat;
  inv_loads y k cl : zlen (concat (sent m)) ≤ y < upto (got m) k + c →
    zat (buffer_ (queue m)) (y mod c) = Some cl → (loaded cl ≤ k)%nat;
  inv_stamps : Forall (fun cl => (stored cl ≤ of_write (lens (queue m)))%nat ∧ (loaded cl ≤ of_read (lens (queue m)))%nat)
    (buffer_ (queue m));
  inv_prod : prod_ok (buffer_ (queue m)) (ptid m) (prod m) (sent m) (got m);
  inv_cons : cons_ok (ctid m) (cons m) (sent m) (got m);
  inv_raced : raced m = false;
}.

Lemma fits_later t t' s g len : counts_le (clock t) (clock t') → counts_le (seen t) (seen t') → fits t s g len → fits t' s g len.
Proof.
  intros Hc Hs [Hf Hr]. split; [done|]. intros Hl. destruct (Hr Hl) as (j & ? & ? & ?). exists j.
  specialize (Hc ReadPos). specialize (Hs ReadPos). cbn [count] in *. split_and!; lia.
Qed.

Lemma readable_later t t' s g n :
  counts_le (clock t) (clock t') → counts_le (seen t) (seen t') → readable t s g n → readable t' s g n.
Proof.
  intros Hc Hs [Hf (k & ? & ? & ?)]. split; [done|]. exists k.
  specialize (Hc WritePos). specialize (Hs WritePos). cbn [count] in *. split_and!; lia.
Qed.

Lemma prod_later b t t' p s g :
  counts_le (clock t) (clock t') → counts_le (seen t) (seen t') → prod_ok b t p s g → prod_ok b t' p s g.
Proof. destruct p; [done|]. cbn [prod_ok]. intros ? ? (? & ? & ?). split; [done|]. split; [by eapply fits_later|done]. Qed.

Lemma cons_later t t' p s g :
  counts_le (clock t) (clock t') → counts_le (seen t) (seen t') → cons_ok t p s g → cons_ok t' p s g.
Proof.
  destruct p; try done. cbn [cons_ok]. intros ? ? (? & ? & ? & ?). split_and!; try done. by eapply readable_later.
Qed.

Lemma inv_producer m t p :
  inv m → positions (queue m) t (ctid m) (sent m) (got m) → prod_ok (buffer_ (queue m)) t p (sent m) (got m) →
  inv (with_prod m t p).
Proof. intros [] ? ?. by split. Qed.

Lemma inv_consumer m t p :
  inv m → positions (queue m) (ptid m) t (sent m) (got m) → cons_ok t p (sent m) (got m) → inv (with_cons m t p).
Proof. intros [] ? ?. by split. Qed.

(** A byte between two positions of the ring. *)
Lemma zat_insert (b : list cell) i j cl : 0 ≤ j → Z.of_nat i ≠ j → zat (<[i := cl]> b) j = zat b j.
Proof. intros. unfold zat. apply list_lookup_insert_ne. lia. Qed.

Lemma inv_store m pos data k b cl :
  inv m → prod m = PWriting pos data k → data !! k = Some b →
  buffer_ (queue m) !! (Z.to_nat pos + k)%nat = Some cl →
  let '(cl', race) := store_cell (ptid m) b cl in
  inv (with_prod (with_cell m (Z.to_nat pos + k) cl' race) (ptid m) (PWriting pos data (S k))).
Proof.
  intros [Hp Hpre Hd Hl Hs Hpr Hc Hrc] Hprod Hb Hcl. rewrite Hprod in Hpr. cbn [prod_ok] in Hpr.
  destruct Hpr as (-> & [Hend Hfree] & Hk & Hst). pose proof (lookup_lt_Some _ _ _ Hb) as Hkl.
  pose proof c_bounds. pose proof (offset_range (zlen (concat (sent m)))). pose proof (at_order _ _ _ _ _ Hp).
  set (w := zlen (concat (sent m))) in *. destruct Hfree as (j & Hj & Hjs & Hroom); [unfold zlen; lia|].
  assert (Hi : Z.of_nat (Z.to_nat (w mod c) + k) = (w + Z.of_nat k) mod c) by (rewrite offset_add; unfold zlen in *; lia).
  assert (Hdl : Z.of_nat k < zlen data) by (unfold zlen; lia).
  pose proof (upto_le (got m) j) as Hju.
  assert (Hold : zat (buffer_ (queue m)) ((w + Z.of_nat k) mod c) = Some cl) by (unfold zat; rewrite <- Hi, Nat2Z.id; done).
  assert (Hrace : (of_read (clock (ptid m)) <? loaded cl)%nat = false).
  { apply Nat.ltb_ge. pose proof (Hl (w + Z.of_nat k) j cl ltac:(lia) Hold). lia. }
  assert (Hlen : length (<[(Z.to_nat (w mod c) + k)%nat := {| content := b; stored := of_write (clock (ptid m)); loaded := loaded cl |}]>
      (buffer_ (queue m))) = length (buffer_ (queue m))) by apply length_insert.
  unfold store_cell. split; cbn [with_prod with_cell queue ptid ctid sent got set_cell buffer_ prod cons raced]; try done.
  - destruct Hp. by split; cbn [buffer_ set_cell]; rewrite ?Hlen.
  - intros x y Hx Hy. destruct (Hd x y Hx Hy) as (cx & Hcx & ?). exists cx. split; [|done].
    rewrite zat_insert; [done|apply offset_range|]. rewrite Hi. intros E. symmetry in E. revert E. apply offsets_differ. lia.
  - intros y q cy Hy Hcy. destruct (decide ((w + Z.of_nat k) mod c = y mod c)) as [E|E].
    + rewrite <- E, <- Hi in Hcy. unfold zat in Hcy. rewrite Nat2Z.id, list_lookup_insert_eq in Hcy by by eapply lookup_lt_Some.
      injection Hcy as <-. cbn [loaded]. apply (Hl y q cl Hy). by rewrite <- E.
    + rewrite zat_insert in Hcy; [by eapply Hl|apply offset_range|by rewrite Hi].
  - apply Forall_insert; [done|]. cbn [stored loaded]. pose proof (own_clock _ _ _ (producer_ok _ _ _ _ _ Hp)) as Ho.
    cbn [count] in Ho. rewrite Ho. rewrite Forall_lookup in Hs. by destruct (Hs _ _ Hcl).
  - cbn [prod_ok]. split; [done|]. split; [split; [done|intros _; by exists j]|]. split; [lia|]. intros i x Hx Hdx.
    destruct (decide (i = Z.of_nat k)) as [->|].
    + unfold zat in Hdx |- *. rewrite Nat2Z.id in Hdx. replace (Z.to_nat (w mod c + Z.of_nat k)) with (Z.to_nat (w mod c) + k)%nat by lia.
      rewrite list_lookup_insert_eq by by eapply lookup_lt_Some. eexists. split; [done|]. cbn [content]. congruence.
    + rewrite zat_insert by lia. apply Hst; [lia|done].
  - by rewrite Hrc, Hrace.
Qed.

Lemma inv_load m pos n l cl :
  inv m → cons m = CReading pos n l → zlen l < n → buffer_ (queue m) !! (Z.to_nat pos + length l)%nat = Some cl →
  let '(b, cl', race) := load_cell (ctid m) cl in
  inv (with_cons (with_cell m (Z.to_nat pos + length l) cl' race) (ctid m) (CReading pos n (l ++ [b]))).
Proof.
  intros [Hp Hpre Hd Hl Hs Hpr Hc Hrc] Hcons Hln Hcl. rewrite Hcons in Hc. cbn [cons_ok] in Hc.
  destruct Hc as (-> & _ & [Hend (k & Hk & Hks & Hn)] & Htake).
  pose proof c_bounds. pose proof (offset_range (zlen (concat (got m)))). pose proof (at_order _ _ _ _ _ Hp).
  pose proof (zlen_nonneg l). pose proof (upto_le (sent m) k). set (r := zlen (concat (got m))) in *.
  assert (Hi : Z.of_nat (Z.to_nat (r mod c) + length l) = (r + zlen l) mod c) by (rewrite offset_add; unfold zlen in *; lia).
  assert (Hold : zat (buffer_ (queue m)) ((r + zlen l) mod c) = Some cl) by (unfold zat; rewrite <- Hi, Nat2Z.id; done).
  destruct (lookup_lt_is_Some_2 (concat (sent m)) (Z.to_nat (r + zlen l))) as [x Hx]; [unfold zlen in *; lia|].
  destruct (Hd (r + zlen l) x ltac:(lia) Hx) as (cx & Hcx & Hcont & Hstored).
  rewrite Hold in Hcx. injection Hcx as <-.
  assert (Hrace : (of_write (clock (ctid m)) <? stored cl)%nat = false).
  { apply Nat.ltb_ge. specialize (Hstored k ltac:(lia)). lia. }
  unfold load_cell. split; cbn [with_cons with_cell queue ptid ctid sent got set_cell buffer_ prod cons raced]; try done.
  - destruct Hp. by split; cbn [buffer_ set_cell]; rewrite ?length_insert.
  - intros y z Hy Hz. destruct (Hd y z Hy Hz) as (cy & Hcy & Hz' & Hst).
    destruct (decide ((r + zlen l) mod c = y mod c)) as [E|E].
    + rewrite <- E in Hcy |- *. rewrite Hold in Hcy. injection Hcy as <-. unfold zat. rewrite <- Hi, Nat2Z.id.
      rewrite list_lookup_insert_eq by by eapply lookup_lt_Some. by eexists.
    + exists cy. split; [|done]. by rewrite zat_insert; [|apply offset_range|rewrite Hi].
  - intros y q cy Hy Hcy. destruct (decide ((r + zlen l) mod c = y mod c)) as [E|E].
    + exfalso. revert E. apply offsets_differ. pose proof (upto_le (got m) q) as Hq. fold r in Hq. lia.
    + rewrite zat_insert in Hcy; [by eapply Hl|apply offset_range|by rewrite Hi].
  - apply Forall_insert; [done|]. cbn [stored loaded]. pose proof (own_clock _ _ _ (consumer_ok _ _ _ _ _ Hp)) as Ho.
    cbn [count] in Ho. rewrite Ho. rewrite Forall_lookup in Hs. by destruct (Hs _ _ Hcl).
  - destruct (prod m) as [|pos data i]; [done|]. cbn [prod_ok] in *. destruct Hpr as (-> & Hf & Hil & Hst).
    pose proof (offset_range (zlen (concat (sent m)))).
    split; [done|]. split; [done|]. split; [done|]. intros j y Hj Hy. destruct (Hst j y Hj Hy) as (cy & Hcy & Hz).
    destruct (decide ((r + zlen l) mod c = zlen (concat (sent m)) mod c + j)) as [E|E].
    + rewrite <- E in Hcy |- *. rewrite Hold in Hcy. injection Hcy as <-. unfold zat. rewrite <- Hi, Nat2Z.id.
      rewrite list_lookup_insert_eq by by eapply lookup_lt_Some. by eexists.
    + exists cy. split; [|done]. rewrite zat_insert; [done|lia|by rewrite Hi].
  - cbn [cons_ok]. split; [done|]. rewrite zlen_app, length_app. change (zlen [content cl]) with 1. cbn [length].
    split; [lia|]. split; [split; [done|by exists k]|]. rewrite Nat.add_1_r, (take_S_r _ _ x); [f_equal; congruence|].
    rewrite lookup_drop. rewrite <- Hx. f_equal. unfold r, zlen. lia.
  - by rewrite Hrc, Hrace.
Qed.

Lemma inv_commit m pos data q t :
  inv m → prod m = PWriting pos data (length data) → commit_write (queue m) (ptid m) (zlen data) = (q, t) →
  inv {| queue := q; ptid := t; ctid := ctid m; prod := PIdle; cons := cons m; sent := sent m ++ [data];
         got := got m; raced := raced m |}.
Proof.
  intros [Hp (pend & Hpre) Hd Hl Hs Hpr Hc Hrc] Hprod Hcommit. rewrite Hprod in Hpr. cbn [prod_ok] in Hpr.
  destruct Hpr as (-> & Hfit & _ & Hst).
  destruct (commit_ok _ _ _ _ _ _ _ _ Hp Hfit Hcommit) as [Hp' Hb].
  pose proof (zlen_nonneg data). pose proof (at_order _ _ _ _ _ Hp). pose proof (write_length _ _ _ _ _ Hp) as Hwl.
  assert (Hlens : lens q = set_count (lens (queue m)) WritePos (S (length (write_pos_ (queue m))))).
  { pose proof (write_length _ _ _ _ _ Hp') as E1. pose proof (read_length _ _ _ _ _ Hp') as E2.
    rewrite length_app in E1. cbn [length] in E1. unfold lens. cbn [set_count of_write of_read].
    rewrite E1, E2, Hwl, (read_length _ _ _ _ _ Hp). f_equal. lia. }
  assert (Hstamp : ∀ x cl, zat (buffer_ (queue m)) x = Some cl → (stored cl ≤ S (length (sent m)))%nat).
  { intros x cl Hx. rewrite Forall_lookup in Hs. destruct (Hs _ _ Hx) as [Hw _]. cbn [lens of_write] in Hw. lia. }
  set (w := zlen (concat (sent m))) in *. set (r := zlen (concat (got m))) in *.
  split; cbn [queue ptid ctid sent got prod cons raced]; try done; rewrite ?concat_snoc, ?zlen_app, ?Hb.
  - exists (pend ++ data). by rewrite Hpre, app_assoc.
  - fold w r. intros x b Hx. rewrite zat_app by lia. change (Z.of_nat (length (concat (sent m)))) with w.
    destruct (Z.ltb_spec x w) as [Hxw|Hxw]; intros Hxb.
    + destruct (Hd x b ltac:(lia) Hxb) as (cl & Hcl & ? & Hj). exists cl. split_and!; try done. intros j Hxj.
      destruct (decide (j ≤ length (sent m))%nat); [rewrite upto_snoc in Hxj by done; by apply Hj|].
      apply Hstamp in Hcl. lia.
    + destruct (Hst (x - w) b) as (cl & Hcl & ?); [unfold zlen in *; lia|done|]. exists cl.
      destruct Hfit as [Hend _]. fold w in Hend. rewrite <- offset_add, Zplus_minus in Hcl by lia. split_and!; try done. intros j Hxj.
      destruct (decide (j ≤ length (sent m))%nat); [|apply Hstamp in Hcl; lia].
      rewrite upto_snoc in Hxj by done. pose proof (upto_le (sent m) j). lia.
  - fold w. intros y k cl Hy. apply Hl. lia.
  - rewrite Hlens. eapply Forall_impl; [exact Hs|]. cbn [set_count of_write of_read lens]. intros cl [? ?]. lia.
  - destruct (cons m) as [|pos|pos n l]; [done|done|]. cbn [cons_ok] in *. destruct Hc as (-> & ? & [Hend (k & Hk & Hks & Hn)] & Ht).
    pose proof (other_seen _ _ _ (consumer_ok _ _ _ _ _ Hp)) as Hos. cbn [count other lens of_write] in Hos.
    pose proof (upto_le (sent m) k).
    split_and!; try done; [split; [done|]; exists k; rewrite upto_snoc by lia; done|].
    rewrite concat_snoc, drop_app_le, take_app_le; [done|rewrite length_drop|]; unfold w, r, zlen in *; lia.
Qed.

Lemma inv_consume m pos n l q t :
  inv m → cons m = CReading pos n l → consume (queue m) (ctid m) (zlen l) = (q, t) →
  inv {| queue := q; ptid := ptid m; ctid := t; prod := prod m; cons := CIdle; sent := sent m;
         got := got m ++ [l]; raced := raced m |}.
Proof.
  intros [Hp (pend & Hpre) Hd Hl Hs Hpr Hc Hrc] Hcons Hconsume. rewrite Hcons in Hc. cbn [cons_ok] in Hc.
  destruct Hc as (-> & Hln & Hread & Htake).
  destruct (consume_ok _ _ _ _ _ _ _ _ _ Hp Hread Hln Hconsume) as [Hp' Hb].
  pose proof (zlen_nonneg l). pose proof (read_length _ _ _ _ _ Hp) as Hrl.
  assert (Hlens : lens q = set_count (lens (queue m)) ReadPos (S (length (read_pos_ (queue m))))).
  { pose proof (write_length _ _ _ _ _ Hp') as E1. pose proof (read_length _ _ _ _ _ Hp') as E2.
    rewrite length_app in E2. cbn [length] in E2. unfold lens. cbn [set_count of_write of_read].
    rewrite E1, E2, (write_length _ _ _ _ _ Hp), Hrl. f_equal. lia. }
  split; cbn [queue ptid ctid sent got prod cons raced]; try done; rewrite ?concat_snoc, ?zlen_app, ?Hb.
  - exists (drop (length l) pend). rewrite Hpre, drop_app_length in Htake.
    rewrite Hpre, <- app_assoc. f_equal. rewrite <- (take_drop (length l) pend) at 1. by rewrite <- Htake.
  - intros x b Hx. apply Hd. lia.
  - intros y k cl Hy Hcl. destruct (decide (k ≤ length (got m))%nat); [rewrite upto_snoc in Hy by done; by eapply Hl|].
    rewrite Forall_lookup in Hs. destruct (Hs _ _ Hcl) as [_ Hr]. cbn [lens of_read] in Hr. lia.
  - rewrite Hlens. eapply Forall_impl; [exact Hs|]. cbn [set_count of_write of_read lens]. intros cl [? ?]. lia.
  - destruct (prod m) as [|pos data k]; [done|]. cbn [prod_ok] in *. destruct Hpr as (-> & [Hend Hfree] & ? & ?).
    split; [done|]. split; [|done]. split; [done|]. intros Hlen. destruct (Hfree Hlen) as (j & Hj & Hjs & Hroom).
    pose proof (other_seen _ _ _ (producer_ok _ _ _ _ _ Hp)) as Hos. cbn [count other lens of_read] in Hos.
    exists j. rewrite upto_snoc by lia. done.
Qed.

Lemma inv_step mv m m' : step mv m = Some m' → inv m → inv m'.
Proof.
  intros Hs Hm. pose proof (inv_pos _ Hm) as Hp. pose proof (inv_prod _ Hm) as Hpr. pose proof (inv_cons _ Hm) as Hcs.
  unfold step in Hs. destruct mv as [ch data| | |ch|ch|ch|ch| | |ch].
  - destruct (prod m) eqn:Hprod; [|done].
    destruct (prepare_write ch (zlen data) (queue m) (ptid m)) as [[r t]|] eqn:Hcall; [|done]. injection Hs as <-.
    destruct (prepare_ok _ _ _ _ _ _ _ _ _ Hp (zlen_nonneg data) Hcall) as [Hp' Hr]. apply inv_producer; [done|done|].
    destruct r as [pos|]; [|done]. destruct (Hr pos eq_refl) as [-> Hf]. cbn [prod_ok]. split_and!; try done; lia.
  - destruct (prod m) as [|pos data k] eqn:Hprod; [done|]. destruct (data !! k) as [b|] eqn:Hb; [|done].
    cbn [mbind option_bind] in Hs. destruct (buffer_ (queue m) !! _) as [cl|] eqn:Hcl; [|done].
    cbn [mbind option_bind] in Hs. injection Hs as <-. by apply (inv_store m pos data k b cl).
  - destruct (prod m) as [|pos data k] eqn:Hprod; [done|]. case_decide as Hk; [subst k|done].
    destruct (commit_write _ _ _) as [q t] eqn:Hc. injection Hs as <-. by eapply inv_commit.
  - destruct (writable_bytes ch (queue m) (ptid m)) as [[r t]|] eqn:Hcall; [|done]. injection Hs as <-.
    apply (writable_ok _ _ _ _ _ _ _ _ Hp) in Hcall as (? & ? & ?). apply inv_producer; [done|done|]. by eapply prod_later.
  - destruct (empty ch (queue m) (ptid m)) as [[r t]|] eqn:Hcall; [|done]. injection Hs as <-.
    apply (producer_empty_ok _ _ _ _ _ _ _ _ Hp) in Hcall as (? & ? & ?). apply inv_producer; [done|done|]. by eapply prod_later.
  - destruct (cons m) eqn:Hcons; try done.
    destruct (peek ch (queue m) (ctid m)) as [[r t]|] eqn:Hcall; [|done]. injection Hs as <-.
    destruct (peek_ok _ _ _ _ _ _ _ _ Hp Hcall) as [Hp' Hr]. apply inv_consumer; [done|done|].
    destruct r as [pos|]; [|done]. by apply Hr.
  - destruct (cons m) as [|pos|] eqn:Hcons; try done.
    destruct (readable_bytes ch (queue m) (ctid m)) as [[n t]|] eqn:Hcall; [|done]. injection Hs as <-.
    destruct (readable_ok _ _ _ _ _ _ _ _ Hp Hcall) as [Hp' Hr]. apply inv_consumer; [done|done|].
    cbn [cons_ok] in Hcs |- *. split_and!; try done. by destruct Hr as (_ & k & _ & _ & ? & _).
  - destruct (cons m) as [| |pos n l] eqn:Hcons; try done. destruct (Z.ltb_spec (zlen l) n); [|done].
    destruct (buffer_ (queue m) !! _) as [cl|] eqn:Hcl; [|done].
    cbn [mbind option_bind] in Hs. injection Hs as <-. by apply (inv_load m pos n l cl).
  - destruct (cons m) as [| |pos n l] eqn:Hcons; try done.
    destruct (consume _ _ _) as [q t] eqn:Hc. injection Hs as <-. by eapply inv_consume.
  - destruct (empty ch (queue m) (ctid m)) as [[r t]|] eqn:Hcall; [|done]. injection Hs as <-.
    apply (consumer_empty_ok _ _ _ _ _ _ _ _ Hp) in Hcall as (? & ? & ?). apply inv_consumer; [done|done|]. by eapply cons_later.
Qed.

Lemma inv_run mvs m m' : run mvs m = Some m' → inv m → inv m'.
Proof.
  revert m. induction mvs as [|mv mvs IH]; intros m; cbn [run]; [by intros [= ->]|].
  destruct (step mv m) as [m1|] eqn:Hs; [|done]. intros Hr Hm. eapply IH; [exact Hr|]. by eapply inv_step.
Qed.

(** ** Calls that load the newest values *)
Definition newest (q : SpscQueue) (p : position) : nat := pred (length (atomic_of q p)).

Lemma load_newest q p x f o t :
  local_ok (lens q) p t → history x f (atomic_of q x) → length (atomic_of q x) = count (lens q) x →
  ∃ t', load (newest q) x o q t = Some (u64 (f (newest q x)), t').
Proof.
  intros [_ Hown _ Hother] [Hv _] Hlen. unfold load, load_at.
  assert (Hs : (count (seen t) x ≤ newest q x)%nat).
  { unfold newest. rewrite Hlen. destruct x, p; cbn [count other] in *; lia. }
  destruct (lookup_lt_is_Some_2 (atomic_of q x) (newest q x)) as [m Hm].
  { unfold newest in *. destruct x, p; cbn [count other] in *; lia. }
  rewrite Hm, (proj2 (Nat.leb_le _ _) Hs). rewrite (Hv _ _ Hm). by eexists.
Qed.

Lemma newest_values q tp tc s g x :
  positions q tp tc s g →
  history x (match x with WritePos => upto s | ReadPos => upto g end) (atomic_of q x) ∧
  length (atomic_of q x) = count (lens q) x ∧
  (match x with WritePos => upto s | ReadPos => upto g end) (newest q x) =
    match x with WritePos => zlen (concat s) | ReadPos => zlen (concat g) end.
Proof.
  intros Hq. unfold newest. destruct x; cbn [atomic_of count lens of_write of_read];
    (split; [apply Hq|]; split; [done|]; apply upto_all).
  - rewrite (write_length _ _ _ _ _ Hq). done.
  - rewrite (read_length _ _ _ _ _ Hq). done.
Qed.

Lemma producer_newest q tp tc s g x o :
  positions q tp tc s g →
  ∃ t', load (newest q) x o q tp = Some (u64 (match x with WritePos => zlen (concat s) | ReadPos => zlen (concat g) end), t') ∧
    positions q t' tc s g.
Proof.
  intros Hq. destruct (newest_values q tp tc s g x Hq) as (Hh & Hl & <-).
  destruct (load_newest q WritePos x _ o tp (producer_ok _ _ _ _ _ Hq) Hh Hl) as [t' Ht].
  exists t'. split; [done|]. by apply (producer_load q tp tc s g _ x o) in Ht as [? _].
Qed.

Lemma consumer_newest q tp tc s g x o :
  positions q tp tc s g →
  ∃ t', load (newest q) x o q tc = Some (u64 (match x with WritePos => zlen (concat s) | ReadPos => zlen (concat g) end), t') ∧
    positions q tp t' s g.
Proof.
  intros Hq. destruct (newest_values q tp tc s g x Hq) as (Hh & Hl & <-).
  destruct (load_newest q ReadPos x _ o tc (consumer_ok _ _ _ _ _ Hq) Hh Hl) as [t' Ht].
  exists t'. split; [done|]. by apply (consumer_load q tp tc s g _ x o) in Ht as [? _].
Qed.

Lemma prepare_newest q tp tc s g len :
  positions q tp tc s g → 0 < len →
  ∃ t', prepare_write (newest q) len q tp =
    Some (if (zlen (concat s) - zlen (concat g) + len <=? c - 1) && (zlen (concat s) mod c + len <=? c)
          then Some (zlen (concat s) mod c) else None, t').
Proof.
  intros Hq Hlen. pose proof c_bounds. pose proof (offset_range (zlen (concat s))). pose proof (at_order _ _ _ _ _ Hq).
  unfold prepare_write, const, mret, access_ret, mbind, access_bind.
  rewrite (at_capacity _ _ _ _ _ Hq), (at_mask _ _ _ _ _ Hq), (proj2 (Z.eqb_neq len 0)) by lia.
  destruct (producer_newest q tp tc s g WritePos relaxed Hq) as (t1 & -> & Hq1).
  destruct (producer_newest q t1 tc s g ReadPos acquire Hq1) as (t2 & -> & Hq2). exists t2.
  rewrite offset_mod, u64_sub, (u64_small (c - (_ - _))), !u64_small by lia.
  destruct (Z.ltb_spec (c - (zlen (concat s) - zlen (concat g)) - 1) len),
    (Z.leb_spec (zlen (concat s) - zlen (concat g) + len) (c - 1)); try lia; cbn [andb]; [done|].
  destruct (Z.ltb_spec (c - zlen (concat s) mod c) len), (Z.leb_spec (zlen (concat s) mod c + len) c); done || lia.
Qed.

Lemma readable_newest q tp tc s g :
  positions q tp tc s g →
  ∃ t', readable_bytes (newest q) q tc =
    Some (Z.min (zlen (concat s) - zlen (concat g)) (c - zlen (concat g) mod c), t').
Proof.
  intros Hq. pose proof c_bounds. pose proof (offset_range (zlen (concat g))). pose proof (at_order _ _ _ _ _ Hq).
  unfold readable_bytes, const, mret, access_ret, mbind, access_bind.
  rewrite (at_capacity _ _ _ _ _ Hq), (at_mask _ _ _ _ _ Hq).
  destruct (consumer_newest q tp tc s g ReadPos relaxed Hq) as (t1 & -> & Hq1).
  destruct (consumer_newest q tp t1 s g WritePos acquire Hq1) as (t2 & -> & Hq2). exists t2.
  rewrite offset_mod, u64_sub, u64_small by lia.
  destruct (Z.eqb_spec (zlen (concat s) - zlen (concat g)) 0); [|done]. do 2 f_equal. lia.
Qed.

Lemma peek_newest q tp tc s g :
  positions q tp tc s g →
  ∃ t', peek (newest q) q tc =
    Some (if zlen (concat g) =? zlen (concat s) then None else Some (zlen (concat g) mod c), t').
Proof.
  intros Hq. pose proof c_bounds. pose proof (at_order _ _ _ _ _ Hq).
  unfold peek, const, mret, access_ret, mbind, access_bind. rewrite (at_mask _ _ _ _ _ Hq).
  destruct (consumer_newest q tp tc s g ReadPos relaxed Hq) as (t1 & -> & Hq1).
  destruct (consumer_newest q tp t1 s g WritePos acquire Hq1) as (t2 & -> & Hq2). exists t2.
  rewrite offset_mod. replace (u64 (zlen (concat g)) =? u64 (zlen (concat s))) with (zlen (concat g) =? zlen (concat s)); [done|].
  apply eq_true_iff_eq. rewrite !Z.eqb_eq. split; [by intros ->|]. intros E.
  assert (zlen (concat s) - zlen (concat g) = 0); [|lia].
  rewrite <- (u64_sub (zlen (concat s)) (zlen (concat g))) by lia. rewrite E, Z.sub_diag. done.
Qed.
End Invariant.

Lemma start_inv cap :
  0 ≤ cap < 2 ^ 63 → ∃ e, (0 ≤ e ≤ 63) ∧ capacity_ (new_queue cap) = 2 ^ e ∧ cap ≤ 2 ^ e ∧ inv e (start cap).
Proof.
  intros Hcap. assert (Hor : cap ≤ Z.lor cap 1 ≤ 2 ^ 63).
  { assert (Z.lor cap 1 = cap ∨ Z.lor cap 1 = cap + 1) as [->| ->]; [|lia|lia].
    destruct (Z.Even_or_Odd cap) as [[k ->]|[k ->]].
    - right. symmetry. apply Z.add_nocarry_lor. change 1 with (Z.ones 1).
      rewrite Z.land_ones by lia. rewrite Z.mul_comm. apply Z.mod_mul. lia.
    - left. apply Z.bits_inj'. intros i Hi. rewrite Z.lor_spec. destruct (decide (i = 0)) as [->|].
      + by rewrite Z.testbit_odd_0.
      + change 1 with (2 ^ 0). rewrite (Z.pow2_bits_false 0 i) by lia. by rewrite orb_false_r. }
  destruct (bit_ceil_pow2 (Z.lor cap 1)) as (e & He & Hc & Hle & _); [lia|].
  exists e. split; [done|]. cbn [new_queue capacity_]. split; [done|]. split; [lia|].
  pose proof (c_bounds e He). assert (Hfill : ∀ x cl, zat (repeat {| content := x00; stored := 0; loaded := 0 |}
    (Z.to_nat (bit_ceil (Z.lor cap 1)))) x = Some cl → cl = {| content := x00; stored := 0; loaded := 0 |}).
  { intros x cl Hx. apply list_elem_of_lookup_2, list_elem_of_In in Hx. by apply repeat_spec in Hx. }
  assert (Hzero : ∀ p f, f 0%nat = 0 → history p f [{| value := 0; released := no_counts |}]).
  { intros p f Hf. split; intros [|k] m; try done; cbn; intros [= <-]; cbn; [by rewrite Hf|lia]. }
  split; cbn [start queue ptid ctid prod cons sent got raced]; try done.
  - split; cbn [new_queue capacity_ mask_ buffer_ write_pos_ read_pos_]; rewrite ?Hc; try done; try (by apply Hzero).
    + rewrite repeat_length. lia.
    + intros p. replace (atomic_of (new_queue cap) p) with [{| value := 0; released := no_counts |}] by by destruct p.
      apply List.Forall_cons; [|apply List.Forall_nil]. intros []; cbn; lia.
    + split; cbn; lia.
    + split; cbn; lia.
    + unfold upto. cbn. unfold zlen. cbn. lia.
  - by exists [].
  - intros y k cl _ Hy. cbn [new_queue buffer_] in Hy. apply Hfill in Hy as ->. cbn. lia.
  - apply Forall_lookup. intros i cl Hi. cbn [new_queue buffer_] in Hi. rewrite <- (Nat2Z.id i) in Hi.
    apply Hfill in Hi as ->. cbn. lia.
Qed.

Lemma reachable_inv cap mvs m :
  0 ≤ cap < 2 ^ 63 → run mvs (start cap) = Some m →
  ∃ e, (0 ≤ e ≤ 63) ∧ capacity_ (new_queue cap) = 2 ^ e ∧ cap ≤ 2 ^ e ∧ inv e m.
Proof.
  intros Hcap Hr. destruct (start_inv cap Hcap) as (e & He & Hc & Hle & Hi). exists e.
  split; [done|]. split; [done|]. split; [done|]. by eapply inv_run.
Qed.

(** The threads stay inside the buffer, and the bytes of the record being written are none of
    those being read. *)
Definition accesses_safe (m : machine) : Prop :=
  let size := Z.of_nat (length (buffer_ (queue m))) in
  match prod m with
  | PIdle => True
  | PWriting pos data k => 0 ≤ pos ∧ pos + zlen data ≤ size
  end ∧
  match cons m with
  | CReading pos n l => 0 ≤ pos ∧ pos + n ≤ size ∧ zlen l ≤ n
  | _ => True
  end ∧
  match prod m, cons m with
  | PWriting pos data k, CReading pos' n l => pos + zlen data ≤ pos' ∨ pos' + n ≤ pos
  | _, _ => True
  end.

Lemma inv_safe e m : 0 ≤ e ≤ 63 → inv e m → accesses_safe m.
Proof.
  intros He [Hp _ _ _ _ Hpr Hc _]. pose proof (c_bounds e He) as Hb. pose proof (at_order _ He _ _ _ _ _ Hp).
  unfold accesses_safe. rewrite (at_buffer _ _ _ _ _ _ Hp).
  pose proof (offset_range e He (zlen (concat (sent m)))). pose proof (offset_range e He (zlen (concat (got m)))).
  destruct (prod m) as [|pos data k], (cons m) as [|pos'|pos' n l]; cbn [prod_ok cons_ok] in *; split_and!; try done;
    try (destruct Hpr as (-> & [? _] & _); lia); try (destruct Hc as (-> & ? & [? _] & _); lia).
  destruct Hpr as (-> & [Hfit Hfree] & _), Hc as (-> & Hl & [Hfit' (q & _ & _ & Hn)] & _).
  pose proof (upto_le (sent m) q). set (w := zlen (concat (sent m))) in *. set (r := zlen (concat (got m))) in *.
  pose proof (zlen_nonneg data).
  assert (Hroom : w - r + zlen data ≤ 2 ^ e - 1).
  { destruct (decide (zlen data = 0)); [lia|]. destruct Hfree as (j & _ & _ & ?); [lia|]. pose proof (upto_le (got m) j) as Hj. fold r in Hj. lia. }
  set (c := 2 ^ e) in *. pose proof (Z.div_mod w c ltac:(lia)). pose proof (Z.div_mod r c ltac:(lia)).
  set (a := w / c) in *. set (b := r / c) in *. clearbody a b.
  assert (Hab : 0 ≤ a - b ≤ 1) by nia. assert (a = b ∨ a = b + 1) as [->| ->] by lia; [right|left]; lia.
Qed.

(** The answers of calls that load the newest positions. *)
Definition exact_answers (m : machine) : Prop :=
  let c := capacity (queue m) in
  let w := zlen (concat (sent m)) in
  let r := zlen (concat (got m)) in
  (∀ len, 0 < len → ∃ t, prepare_write (newest (queue m)) len (queue m) (ptid m) =
     Some (if (w - r + len <=? c - 1) && (w mod c + len <=? c) then Some (w mod c) else None, t)) ∧
  (∃ t, peek (newest (queue m)) (queue m) (ctid m) = Some (if r =? w then None else Some (r mod c), t)) ∧
  (∃ t, readable_bytes (newest (queue m)) (queue m) (ctid m) = Some (Z.min (w - r) (c - r mod c), t)).

Lemma inv_exact e m : 0 ≤ e ≤ 63 → inv e m → exact_answers m.
Proof.
  intros He Hi. pose proof (inv_pos _ _ Hi) as Hp. unfold exact_answers, capacity. rewrite (at_capacity _ _ _ _ _ _ Hp).
  split; [intros len; by apply (prepare_newest e He _ _ _ _ _ len Hp)|]. split; [by apply (peek_newest e He _ _ _ _ _ Hp)|by apply (readable_newest e He _ _ _ _ _ Hp)].
Qed.

(** The thread inside a call can store, or load, its next byte. *)
Lemma inv_goes_on e m :
  0 ≤ e ≤ 63 → inv e m →
  (∀ pos data k, prod m = PWriting pos data k → (k < length data)%nat → is_Some (step StoreByte m)) ∧
  (∀ pos n l, cons m = CReading pos n l → zlen l < n → is_Some (step LoadByte m)).
Proof.
  intros He Hi. destruct (inv_safe e m He Hi) as (Hp & Hs & _). split.
  - intros pos data k Hw Hk. unfold step. rewrite Hw in Hp |- *. destruct (lookup_lt_is_Some_2 data k Hk) as [b ->].
    destruct (lookup_lt_is_Some_2 (buffer_ (queue m)) (Z.to_nat pos + k)) as [cl ->]; [unfold zlen in *; lia|]. by eexists.
  - intros pos n l Hw Hl. unfold step. rewrite Hw in Hs |- *. destruct (Z.ltb_spec (zlen l) n); [|lia].
    destruct (lookup_lt_is_Some_2 (buffer_ (queue m)) (Z.to_nat pos + length l)) as [cl ->]; [unfold zlen in *; lia|].
    destruct (prod m); by eexists.
Qed.

(** ** Properties *)

(** C20: The queue loses, repeats and reorders nothing, with the memory orders of the
    code: in every interleaving of the two threads, whatever old values their loads
    return, from a queue of any requested capacity below 2^63, there is no data
    race, the consumed bytes are a prefix of the committed ones, at most
    [capacity - 1] bytes are in the queue, and the threads stay inside the buffer
    and apart.  A call that loads the newest positions answers exactly the room and the
    bytes there are, and no thread is stuck inside a record. *)
Theorem spsc_fifo cap mvs m :
  0 ≤ cap < 2 ^ 63 → run mvs (start cap) = Some m →
  raced m = false ∧
  (∃ pending, concat (sent m) = concat (got m) ++ pending ∧ zlen pending ≤ capacity (new_queue cap) - 1) ∧
  cap ≤ capacity (new_queue cap) ∧ accesses_safe m ∧ exact_answers m ∧
  (∀ pos data k, prod m = PWriting pos data k → (k < length data)%nat → is_Some (step StoreByte m)) ∧
  (∀ pos n l, cons m = CReading pos n l → zlen l < n → is_Some (step LoadByte m)).
Proof.
  intros Hcap Hr. destruct (reachable_inv cap mvs m Hcap Hr) as (e & He & Hc & Hle & Hi).
  unfold capacity. rewrite Hc. split; [apply Hi|]. split; [|split; [done|]].
  - destruct (inv_prefix _ _ Hi) as [pend Hpre]. exists pend. split; [done|].
    pose proof (at_order _ He _ _ _ _ _ (inv_pos _ _ Hi)) as Ho. rewrite Hpre, zlen_app in Ho. lia.
  - split; [by eapply inv_safe|]. split; [by eapply inv_exact|]. by apply (inv_goes_on e).
Qed.

(** A run in a ring of four bytes: the consumer looks before the producer has
    committed "abc", loads the old position once more and sees nothing; then it
    reads "ab".  The producer, which has not seen that, is refused a byte. *)
Definition positions_at (w r : nat) : position → nat := fun p => match p with WritePos => w | ReadPos => r end.
Definition demo_moves : list move :=
  [ Peek (positions_at 0 0); Prepare (positions_at 0 0) [x61; x62; x63]; StoreByte; StoreByte; StoreByte; Commit; ConsumerEmpty (positions_at 0 0);
    Peek (positions_at 0 0); Peek (positions_at 1 0); Count (positions_at 1 0); LoadByte; LoadByte; Consume;
    Prepare (positions_at 1 0) [x64] ].

Definition demo_machine : machine :=
  default (start 3) (run demo_moves (start 3)).

Lemma demo_runs : run demo_moves (start 3) = Some demo_machine.
Proof. vm_compute. reflexivity. Qed.

Lemma spsc_fifo_witness :
  raced demo_machine = false ∧ sent demo_machine = [[x61; x62; x63]] ∧ got demo_machine = [[x61; x62]] ∧
  (∃ pending, concat (sent demo_machine) = concat (got demo_machine) ++ pending ∧ zlen pending ≤ capacity (new_queue 3) - 1) ∧
  exact_answers demo_machine.
Proof.
  destruct (spsc_fifo 3 demo_moves demo_machine ltac:(lia) demo_runs) as (Hr & Hp & _ & _ & He & _).
  split; [exact Hr|]. split; [vm_compute; reflexivity|]. split; [vm_compute; reflexivity|]. split; [exact Hp|exact He].
Defined.

(** C37: A record longer than the room before the end of the ring can never be
    written: in every reachable state with such a write position, whatever the
    consumer has read or will still read, and whatever positions the producer loads,
    [prepare_write] answers [nullptr] — although its comment says to wait for the
    consumer — and only shorter records move the write position.  With the queue
    empty and the record short enough for the whole ring it still fails. *)
Theorem tail_starvation cap mvs m last_write len :
  0 ≤ cap < 2 ^ 63 → run mvs (start cap) = Some m →
  last (write_pos_ (queue m)) = Some last_write →
  capacity_ (queue m) - Z.land (value last_write) (mask_ (queue m)) < len →
  ∀ mvs' m' ch r t, run mvs' m = Some m' → concat (sent m') = concat (sent m) →
    prepare_write ch len (queue m') (ptid m') = Some (r, t) → r = None.
Proof.
  intros Hcap Hr Hlast Hlen mvs' m' ch r t Hr' Hsame Hcall.
  destruct (reachable_inv cap mvs m Hcap Hr) as (e & He & Hc & Hle & Hi).
  pose proof (inv_pos _ _ (inv_run e He mvs' m m' Hr' Hi)) as Hp'. pose proof (inv_pos _ _ Hi) as Hp.
  rewrite last_lookup in Hlast. apply (history_value _ _ _ (write_history _ _ _ _ _ _ Hp)) in Hlast.
  rewrite upto_all in Hlast by (rewrite (write_length _ _ _ _ _ _ Hp); done).
  rewrite (at_capacity _ _ _ _ _ _ Hp), (at_mask _ _ _ _ _ _ Hp), Hlast, (offset_mod e He) in Hlen.
  pose proof (offset_range e He (zlen (concat (sent m)))).
  assert (Hpos : 0 ≤ len) by lia. clear Hle Hcap.
  destruct (prepare_ok e He _ _ _ _ _ _ _ _ _ Hp' Hpos Hcall) as [_ Hfits].
  destruct r as [pos|]; [|done]. destruct (Hfits pos eq_refl) as [_ [Hfit _]]. rewrite Hsame in Hfit. lia.
Qed.

(** Three of four bytes written and all read: two more never fit. *)
Lemma tail_starvation_witness :
  ∃ m' t, run [Peek (positions_at 1 1); Count (positions_at 1 1); LoadByte; Consume] demo_machine = Some m' ∧
    concat (got m') = concat (sent m') ∧
    prepare_write (newest (queue m')) 2 (queue m') (ptid m') = Some (None, t).
Proof.
  destruct (run [Peek (positions_at 1 1); Count (positions_at 1 1); LoadByte; Consume] demo_machine) as [m'|] eqn:Hrun;
    [|vm_compute in Hrun; discriminate Hrun].
  assert (Hm : Some m' = Some m') by reflexivity. rewrite <- Hrun in Hm at 1. vm_compute in Hm. injection Hm as Hm.
  destruct (prepare_write (newest (queue m')) 2 (queue m') (ptid m')) as [[r t]|] eqn:Hcall;
    [|rewrite <- Hm in Hcall; vm_compute in Hcall; discriminate Hcall].
  exists m', t. split; [reflexivity|]. split; [rewrite <- Hm; reflexivity|].
  assert (Hl : is_Some (last (write_pos_ (queue demo_machine)))) by (vm_compute; by eexists). destruct Hl as [x Hx].
  pose proof Hx as Hv. vm_compute in Hv. injection Hv as Hv.
  pose proof (tail_starvation 3 demo_moves demo_machine x 2 ltac:(lia) demo_runs Hx ltac:(rewrite <- Hv; vm_compute; reflexivity)
    _ m' _ r t Hrun ltac:(rewrite <- Hm; vm_compute; reflexivity) Hcall) as Hr.
  rewrite Hr in Hcall. exact Hcall.
Defined.

(** Only a commit adds a record. *)
Lemma step_sent mv m m' :
  step mv m = Some m' →
  sent m' = sent m ∨ ∃ pos data, prod m = PWriting pos data (length data) ∧ sent m' = sent m ++ [data].
Proof.
  unfold step. destruct mv, (prod m), (cons m); intros; try done;
    repeat (simplify_option_eq || case_match); (by left) || (right; by eexists _, _).
Qed.

(** A ring of one byte takes nothing. *)
Lemma tiny_run mvs m m' : run mvs m = Some m' → inv 0 m → concat (sent m) = [] → concat (sent m') = [].
Proof.
  revert m. induction mvs as [|mv mvs IH]; intros m; cbn [run]; [by intros [= ->]|].
  destruct (step mv m) as [m1|] eqn:Hs; [|done]. intros Hr Hi Hn.
  apply (IH m1 Hr); [by eapply (inv_step 0 ltac:(lia))|].
  destruct (step_sent _ _ _ Hs) as [->|(pos & data & Hp & ->)]; [done|].
  pose proof (inv_prod _ _ Hi) as Hpr. rewrite Hp in Hpr. destruct Hpr as (_ & [_ Hfree] & _).
  rewrite concat_snoc, Hn. destruct data as [|b data]; [done|].
  destruct Hfree as (j & _ & _ & Hj); [zlia|]. pose proof (upto_le (got m) j).
  pose proof (at_order 0 ltac:(lia) _ _ _ _ _ (inv_pos _ _ Hi)). pose proof (zlen_nonneg data).
  rewrite Hn in *. rewrite zlen_cons in Hj. change (zlen []) with 0 in *. change (2 ^ 0) with 1 in *. lia.
Qed.

(** [bit_ceil] is the least power of two not below its argument, for every
    argument up to 2^63; it wraps to 0 above.  A queue asked to hold 0 or 1
    bytes has capacity 1, where nothing can ever be written, although the
    constructor says the capacity is at least 2. *)
Lemma bit_ceil_exact :
  (∀ n, 0 ≤ n ≤ 2 ^ 63 → ∃ e, 0 ≤ e ≤ 63 ∧ bit_ceil n = 2 ^ e ∧ n ≤ bit_ceil n ∧
     ∀ k, 0 ≤ k → n ≤ 2 ^ k → bit_ceil n ≤ 2 ^ k) ∧
  (∀ n, 2 ^ 63 < n < 2 ^ 64 → bit_ceil n = 0) ∧
  (∀ cap mvs m, 0 ≤ cap ≤ 1 → run mvs (start cap) = Some m → capacity (queue m) = 1 ∧ concat (sent m) = []).
Proof.
  split; [|split].
  - intros n Hn. destruct (bit_ceil_pow2 n Hn) as (e & He & -> & Hle & Hlt & H1). exists e. split_and!; try done; try lia.
    intros k Hk Hnk. apply Z.pow_le_mono_r; [lia|]. destruct (Z.le_gt_cases n 1); [lia|].
    assert (2 ^ (e - 1) < 2 ^ k) as Hp by (specialize (Hlt ltac:(lia)); lia).
    apply Z.pow_lt_mono_r_iff in Hp; lia.
  - intros n Hn. unfold bit_ceil. destruct (Z.leb_spec n 1); [lia|]. rewrite ceil_loop_ones by lia.
    assert (Z.log2 (n - 1) = 63) as -> by (apply Z.log2_unique; lia). reflexivity.
  - intros cap mvs m Hcap Hr. destruct (reachable_inv cap mvs m ltac:(lia) Hr) as (e & He & Hc & _ & Hi).
    assert (He1 : 2 ^ e = 1) by (assert (cap = 0 ∨ cap = 1) as [->| ->] by lia; rewrite <- Hc; reflexivity).
    pose proof (inv_pos _ _ Hi) as Hp. unfold capacity. rewrite (at_capacity _ _ _ _ _ _ Hp). split; [done|].
    assert (e = 0) as -> by (destruct (decide (e = 0)); [done|]; pose proof (proj1 (Z.pow_gt_1 2 e ltac:(lia)) ltac:(lia)); lia).
    destruct (start_inv cap ltac:(lia)) as (e' & He' & Hc' & _ & Hi').
    assert (e' = 0) as -> by (apply (Z.pow_inj_r 2); lia). by apply (tiny_run mvs (start cap)).
Qed.
