(* ===== verification/TextProtocol.v ===== *)
(** * The text protocol and its server (src/rpc/text_protocol.h, text_protocol.cpp,
    [TextRpcServer] of src/rpc/rpc_server.cpp)

    Parsing a command line, the answers, and the loop of the thread that serves
    one text connection.  An [std::istringstream] is its remaining bytes and
    whether [good()] holds: an extraction that reads up to the end of the text
    sets [eofbit], after which every extraction and [getline] fails and leaves
    its argument as it was. *)

From S2P Require Import Prelude Text.

(** ** Streams with their state *)
Record stream := { rest : bytes; good : bool }.

Definition istringstream (s : bytes) : stream := {| rest := s; good := true |}.

(** [st >> arg]: the stream, the argument afterwards, and whether it succeeded. *)
Definition shift_word (st : stream) (arg : bytes) : stream * bytes * bool :=
  if good st then
    match read_word (skip_space (rest st)) with
    | ([], r) => ({| rest := r; good := false |}, arg, false)
    | (w, r) => ({| rest := r; good := bool_decide (r ≠ []) |}, w, true)
    end
  else (st, arg, false).

(** [std::getline(st, arg)]: the argument afterwards. *)
Definition stream_getline (st : stream) (arg : bytes) : bytes :=
  if good st then (getline (rest st)).1 else arg.

(** ** [TextProtocol] *)
Record Command := { name : bytes; args : list bytes }.

Definition arg (c : Command) (i : nat) : bytes := default [] (args c !! i).

(** [if (!s.empty() && s.back() == c) s.pop_back();] *)
Definition chomp (c : Byte.byte) (s : bytes) : bytes :=
  if bool_decide (last s = Some c) then removelast s else s.

Definition nl : Byte.byte := byte_of_Z 10.
Definition cr : Byte.byte := byte_of_Z 13.

(** [for (...; i < 5 && iss >> arg; ...) cmd.args.push_back(arg);] *)
Fixpoint args_loop (n : nat) (st : stream) (arg : bytes) (args : list bytes) : stream * bytes * list bytes :=
  match n with
  | O => (st, arg, args)
  | S n =>
      match shift_word st arg with
      | (st, arg, true) => args_loop n st arg (args ++ [arg])
      | (st, arg, false) => (st, arg, args)
      end
  end.

Definition Parse (line : bytes) : option Command :=
  if bool_decide (line = []) then None else
  let trimmed := chomp cr (chomp nl line) in
  if bool_decide (trimmed = []) then None else
  match shift_word (istringstream trimmed) [] with
  | (_, _, false) => None
  | (iss, name, true) =>
      let '(iss, arg, args) := args_loop 5 iss [] [] in
      let arg := stream_getline iss arg in
      Some {| name := toupper <$> name;
              args := if bool_decide (arg = []) then args else args ++ [strip_spaces arg] |}
  end.

Definition crlf : bytes := [cr; nl].

Definition Ok (data : bytes) : bytes :=
  if bool_decide (data = []) then str "+OK" ++ crlf else str "+OK " ++ data ++ crlf.

Definition Err (code msg : bytes) : bytes := str "-ERR " ++ code ++ str " " ++ msg ++ crlf.

Fixpoint split_args_loop (n : nat) (st : stream) (part : bytes) (parts : list bytes) : stream * bytes * list bytes :=
  match n with
  | O => (st, part, parts)
  | S n => let '(st, part, _) := shift_word st part in split_args_loop n st part (parts ++ [part])
  end.

Definition SplitArgs (line : bytes) : list bytes :=
  let '(iss, part, parts) := split_args_loop 5 (istringstream line) [] [] in
  parts ++ [stream_getline iss part].

Definition EncodeAppendResponse (term : Z) (success : bool) : bytes :=
  str "APPEND_RESP " ++ to_string term ++ str " " ++ (if success then str "true" else str "false") ++ crlf.

(** ** [TextRpcServer::HandleClient] *)

(** What a turn of the loop meets: [running_] cleared, or an answer of [recv]. *)
Inductive text_event : Type :=
  | TextStopped
  | TextData (data : bytes)
  | TextClosed
  | TextError.

(** [line_buf += buf] reads a C string. *)
Fixpoint c_string (s : bytes) : bytes :=
  match s with
  | [] => []
  | b :: s => if bool_decide (b = x00) then [] else b :: c_string s
  end.

(** The line up to and with the first newline, and what [erase] leaves. *)
Fixpoint find_line (s : bytes) : option (bytes * bytes) :=
  match s with
  | [] => None
  | b :: s =>
      if bool_decide (b = nl) then Some ([b], s) else
      match find_line s with Some (l, r) => Some (b :: l, r) | None => None end
  end.

Inductive text_end : Type :=
  | TextEnded
  | TextWaiting (line_buf : bytes).

Section TextServer.
Context {St : Type} (handler_ : St → Command → St * bytes).

Definition answer_line (st : St) (line : bytes) : St * bytes :=
  match Parse line with
  | Some cmd => handler_ st cmd
  | None => (st, Err (str "BAD_CMD") (str "Invalid format"))
  end.

(** The inner loop: the state, the responses sent, and the rest of [line_buf]. *)
Fixpoint serve_lines (fuel : nat) (st : St) (line_buf : bytes) : St * list bytes * bytes :=
  match fuel with
  | O => (st, [], line_buf)
  | S fuel =>
      match find_line line_buf with
      | None => (st, [], line_buf)
      | Some (line, line_buf) =>
          let '(st, resp) := answer_line st line in
          let '(st, resps, line_buf) := serve_lines fuel st line_buf in
          (st, resp :: resps, line_buf)
      end
  end.

(** Each turn of the outer loop takes one event; the errors of [send] are ignored. *)
Fixpoint TextHandleClient (st : St) (line_buf : bytes) (evs : list text_event) : St * list bytes * text_end :=
  match evs with
  | [] => (st, [], TextWaiting line_buf)
  | TextStopped :: _ | TextError :: _ => (st, [], TextEnded)
  | ev :: evs =>
      let line_buf := line_buf ++ match ev with TextData d => c_string d | _ => [] end in
      let '(st, resps, line_buf) := serve_lines (length line_buf) st line_buf in
      let '(st, resps', e) := TextHandleClient st line_buf evs in
      (st, resps ++ resps', e)
  end.
End TextServer.

Example Parse_get : Parse (str "get key") = Some {| name := str "GET"; args := [str "key"; str "key"] |}.
Proof. vm_compute. reflexivity. Qed.
Example Parse_put : Parse (str "put a b c d e  f g" ++ crlf) =
  Some {| name := str "PUT"; args := [str "a"; str "b"; str "c"; str "d"; str "e"; str "f g"] |}.
Proof. vm_compute. reflexivity. Qed.
Example SplitArgs_two : SplitArgs (str "a b") = [str "a"; str "b"; str "b"; str "b"; str "b"; str "b"].
Proof. vm_compute. reflexivity. Qed.

(** ** Lemmas *)

(** The stream on words each after one space, as an extraction leaves it. *)
Definition on_words (ws : list bytes) : stream := {| rest := spaced ws; good := bool_decide (ws ≠ []) |}.

Definition wordy (ws : list bytes) : Prop := Forall (fun w => unspaced w ∧ w ≠ []) ws.

Lemma spaced_cons w ws : spaced (w :: ws) = str " " ++ w ++ spaced ws.
Proof. unfold spaced. by rewrite fmap_cons. Qed.

Lemma spaced_head ws : ∀ b r, spaced ws = b :: r → is_space b = true.
Proof. destruct ws; [done|]. rewrite spaced_cons. by intros ? ? [= <- _]. Qed.

Lemma skip_space_word b w s : is_space b = false → skip_space ((b :: w) ++ s) = (b :: w) ++ s.
Proof. intros Hb. cbn [app skip_space]. by rewrite Hb. Qed.

(** Reading a word that is followed by further words, with or without a space before it. *)
Lemma shift_word_step sp w ws a :
  sp = [] ∨ sp = str " " → unspaced w → w ≠ [] →
  shift_word {| rest := sp ++ w ++ spaced ws; good := true |} a = (on_words ws, w, true).
Proof.
  intros Hsp Hu Hne. destruct w as [|b w]; [done|]. pose proof Hu as Hu'. apply Forall_cons in Hu' as [Hb _].
  assert (Hsk : skip_space (sp ++ (b :: w) ++ spaced ws) = (b :: w) ++ spaced ws).
  { destruct Hsp as [->| ->]; [by apply skip_space_word|].
    change (skip_space (str " " ++ (b :: w) ++ spaced ws)) with (skip_space ((b :: w) ++ spaced ws)).
    by apply skip_space_word. }
  unfold shift_word. cbn [good rest]. rewrite Hsk, read_word_app; [|done|apply spaced_head].
  cbn. unfold on_words. repeat f_equal. apply bool_decide_ext. destruct ws; [done|]. by rewrite spaced_cons.
Qed.

Lemma getline_spaced ws : wordy ws → (getline (spaced ws)).1 = spaced ws.
Proof.
  intros Hw. assert (Hnl : Forall (fun b => Z_of_byte b ≠ 10) (spaced ws)).
  { induction Hw as [|w ws [Hu _] _ IH]; [constructor|]. rewrite spaced_cons, !Forall_app. split_and!; [|  |done].
    - repeat constructor. by vm_compute.
    - eapply Forall_impl; [exact Hu|]. intros b Hb E. unfold is_space in Hb. by rewrite E in Hb. }
  induction Hnl as [|b s Hb _ IH]; cbn [getline]; [done|].
  destruct (Z.eqb_spec (Z_of_byte b) 10); [done|]. destruct (getline s). cbn in *. by rewrite IH.
Qed.

Lemma last_default_cons {A} (a w : A) l : default a (last (w :: l)) = default w (last l).
Proof.
  destruct l as [|y l]; [done|]. rewrite last_cons_cons.
  destruct (last (y :: l)) eqn:El; [done|]. by apply last_None in El.
Qed.

(** The loop takes up to [n] words, and what [getline] then leaves in [arg]. *)
Lemma args_loop_words n ws a acc :
  wordy ws →
  ∃ st, args_loop n (on_words ws) a acc = (st, default a (last (take n ws)), acc ++ take n ws) ∧
    ∀ x, stream_getline st x = match drop n ws with [] => x | l => spaced l end.
Proof.
  intros Hw. revert a acc. induction n as [|n IHn] in ws, Hw |- *; intros a acc; cbn [args_loop].
  - exists (on_words ws). rewrite app_nil_r. split; [done|]. intros x.
    destruct ws as [|w ws]; [done|]. cbn [drop]. unfold stream_getline, on_words. cbn [good rest].
    rewrite bool_decide_eq_true_2 by done. by apply getline_spaced.
  - destruct Hw as [|w ws [Hu Hne] Hw].
    { exists (on_words []). cbn. rewrite app_nil_r. by split. }
    pose proof (shift_word_step (str " ") w ws a (or_intror eq_refl) Hu Hne) as E.
    rewrite <- spaced_cons in E. unfold on_words at 1. rewrite bool_decide_eq_true_2 by done. rewrite E.
    destruct (IHn ws Hw w (acc ++ [w])) as (st & -> & Hst). exists st. cbn [take drop]. split; [|exact Hst].
    by rewrite <- app_assoc, (last_default_cons a w).
Qed.

Lemma chomp_snoc c s : chomp c (s ++ [c]) = s.
Proof. unfold chomp. rewrite last_snoc, bool_decide_eq_true_2 by done. by rewrite removelast_last. Qed.

Lemma chomp_other c s b : last s = Some b → b ≠ c → chomp c s = s.
Proof. unfold chomp. intros -> Hb. rewrite bool_decide_eq_false_2; [done|congruence]. Qed.

Definition line_end (e : bytes) : Prop := e = [] ∨ e = [nl] ∨ e = crlf.

Lemma chomp_line s b e : last s = Some b → is_space b = false → line_end e → chomp cr (chomp nl (s ++ e)) = s.
Proof.
  intros Hl Hb He. assert (Hn : b ≠ nl) by (intros ->; by vm_compute in Hb).
  assert (Hc : b ≠ cr) by (intros ->; by vm_compute in Hb).
  destruct He as [->|[->| ->]].
  - rewrite app_nil_r, (chomp_other nl s b), (chomp_other cr s b); done.
  - rewrite chomp_snoc, (chomp_other cr s b); done.
  - unfold crlf. change [cr; nl] with ([cr] ++ [nl]). by rewrite app_assoc, !chomp_snoc.
Qed.

(** A line of words ends in a byte of a word. *)
Lemma last_line w ws : unspaced w → w ≠ [] → wordy ws → ∃ b, last (w ++ spaced ws) = Some b ∧ is_space b = false.
Proof.
  intros Hu Hne Hw. revert w Hu Hne. induction Hw as [|w' ws [Hu' Hne'] _ IH]; intros w Hu Hne.
  - rewrite app_nil_r. destruct (last w) as [b|] eqn:El; [|by apply last_None in El].
    exists b. split; [done|]. apply last_Some_elem_of in El. by eapply Forall_forall in Hu.
  - rewrite spaced_cons. destruct (IH w' Hu' Hne') as (b & Hb & Hs). exists b. split; [|done].
    by rewrite (app_assoc w), last_app, Hb.
Qed.

Lemma find_line_some s l r x : find_line s = Some (l, r) → find_line (s ++ x) = Some (l, r ++ x).
Proof.
  revert l. induction s as [|b s IH]; intros l; [done|]. cbn [find_line app].
  destruct (bool_decide (b = nl)); [by intros [= <- <-]|].
  destruct (find_line s) as [[l' r']|]; [|done]. intros [= <- <-]. by rewrite (IH l').
Qed.

Lemma find_line_length s l r : find_line s = Some (l, r) → (length r < length s)%nat.
Proof.
  revert l. induction s as [|b s IH]; intros l; [done|]. cbn [find_line length].
  destruct (bool_decide (b = nl)); [intros [= _ <-]; lia|].
  destruct (find_line s) as [[l' r']|]; [|done]. intros [= _ <-]. specialize (IH l' eq_refl). lia.
Qed.

Section ServeLines.
Context {St : Type} (h : St → Command → St * bytes).

Lemma serve_lines_fuel f1 f2 st s :
  (length s ≤ f1)%nat → (length s ≤ f2)%nat → serve_lines h f1 st s = serve_lines h f2 st s.
Proof.
  revert f2 st s. induction f1 as [|f1 IH]; intros [|f2] st s H1 H2; cbn [serve_lines]; try done;
    try (destruct s; [done|simpl in *; lia]).
  destruct (find_line s) as [[l r]|] eqn:E; [|done]. apply find_line_length in E.
  destruct (answer_line h st l) as [st1 resp]. by rewrite (IH f2) by lia.
Qed.

(** Serving the lines of a text in two portions, the rest of the first kept, is
    serving them at once. *)
Lemma serve_lines_app f st s x :
  (length s ≤ f)%nat →
  let '(st1, out1, r1) := serve_lines h f st s in
  let '(st2, out2, r2) := serve_lines h (length (r1 ++ x)) st1 (r1 ++ x) in
  serve_lines h (length (s ++ x)) st (s ++ x) = (st2, out1 ++ out2, r2).
Proof.
  revert st s. induction f as [|f IH]; intros st s Hf; cbn [serve_lines].
  - destruct s; [|simpl in Hf; lia]. by destruct (serve_lines h _ st _) as [[? ?] ?].
  - destruct (find_line s) as [[l r]|] eqn:E; [|by destruct (serve_lines h _ st _) as [[? ?] ?]].
    pose proof (find_line_length _ _ _ E) as Hlr. pose proof (find_line_some _ _ _ x E) as Ex.
    destruct (answer_line h st l) as [st1 resp] eqn:Ea. specialize (IH st1 r ltac:(lia)).
    destruct (serve_lines h f st1 r) as [[st2 out1] r1].
    destruct (serve_lines h (length (r1 ++ x)) st2 (r1 ++ x)) as [[st3 out2] r2].
    pose proof (find_line_length _ _ _ Ex) as Hlx.
    rewrite (serve_lines_fuel _ (S (length (s ++ x)))) by lia. cbn [serve_lines].
    rewrite Ex, Ea, (serve_lines_fuel _ (length (r ++ x))) by lia. by rewrite IH.
Qed.
End ServeLines.

Lemma serve_lines_rest {St} (h : St → Command → St * bytes) f st s st' out r :
  (length s ≤ f)%nat → serve_lines h f st s = (st', out, r) → find_line r = None.
Proof.
  revert st s out. induction f as [|f IH]; intros st s out Hf; cbn [serve_lines].
  - destruct s; [|simpl in Hf; lia]. by intros [= _ _ <-].
  - destruct (find_line s) as [[l r']|] eqn:E; [|by intros [= _ _ <-]]. apply find_line_length in E.
    destruct (answer_line h st l) as [st1 resp]. destruct (serve_lines h f st1 r') as [[st2 out2] r2] eqn:Es.
    intros [= <- _ <-]. eapply IH; [|exact Es]. lia.
Qed.

Lemma c_string_clean s : x00 ∉ s → c_string s = s.
Proof.
  induction s as [|b s IH]; [done|]. intros [Hb Hs]%not_elem_of_cons. cbn [c_string].
  rewrite bool_decide_eq_false_2 by congruence. by rewrite IH.
Qed.

(** A word has no space to strip. *)
Lemma strip_word (l : bytes) : unspaced l → l ≠ [] → strip_spaces l = l.
Proof.
  destruct l as [|x l]; [done|]. intros [Hx _]%Forall_cons _. cbn [strip_spaces].
  destruct (Z.eqb_spec (Z_of_byte x) 32) as [E32|]; [|done]. unfold is_space in Hx. cbv zeta in Hx. by rewrite E32 in Hx.
Qed.

(** A line of words, as the parser reads it. *)
Lemma Parse_line (w : bytes) (ws : list bytes) (e : bytes) :
  unspaced w → w ≠ [] → wordy ws → line_end e →
  Parse (w ++ spaced ws ++ e) =
    Some {| name := toupper <$> w;
            args := take 5 ws ++ match drop 5 ws with
                                 | [] => match last ws with Some l => [l] | None => [] end
                                 | more => [strip_spaces (spaced more)]
                                 end |}.
Proof.
  intros Hu Hne Hw He.
  destruct (last_line w ws Hu Hne Hw) as (b & Hb & Hsp). unfold Parse.
  rewrite app_assoc, (chomp_line _ b) by done.
  rewrite bool_decide_eq_false_2 by (by destruct w). rewrite bool_decide_eq_false_2 by (by destruct w).
  unfold istringstream. pose proof (shift_word_step [] w ws [] (or_introl eq_refl) Hu Hne) as E.
  cbn [app] in E. rewrite E. destruct (args_loop_words 5 ws [] [] Hw) as (st & -> & Hst).
  rewrite Hst. cbn [app]. do 2 f_equal.
  assert (Hall : wordy (drop 5 ws)) by by apply Forall_drop.
  destruct (drop 5 ws) as [|v vs] eqn:Ed.
  - assert (Ht : take 5 ws = ws) by (rewrite <- (take_drop 5 ws) at 2; by rewrite Ed, app_nil_r).
    rewrite Ht. destruct (last ws) as [l|] eqn:El; cbn [default].
    + assert (Hl : unspaced l ∧ l ≠ []) by (eapply Forall_forall in Hw; [done|by apply last_Some_elem_of]).
      destruct Hl as [Hul Hnl]. rewrite bool_decide_eq_false_2 by done. f_equal. f_equal.
      by apply strip_word.
    + by rewrite bool_decide_eq_true_2, app_nil_r.
  - rewrite bool_decide_eq_false_2; [done|]. by rewrite spaced_cons.
Qed.

(** When these are the arguments that were written. *)
Lemma arguments_kept (ws : list bytes) :
  wordy ws →
  take 5 ws ++ match drop 5 ws with
               | [] => match last ws with Some l => [l] | None => [] end
               | more => [strip_spaces (spaced more)]
               end = ws ↔ ws = [] ∨ length ws = 6%nat.
Proof.
  intros Hw. assert (Hd : wordy (drop 5 ws)) by by apply Forall_drop.
  pose proof (length_drop ws 5) as Hlen. pose proof (take_drop 5 ws) as Htd.
  destruct (drop 5 ws) as [|v vs] eqn:Ed; cbn [length] in Hlen.
  - rewrite app_nil_r in Htd. rewrite Htd. destruct (last ws) as [l|] eqn:El.
    + split; [|intros [->|?]; [done|lia]]. intros E. apply (f_equal length) in E. rewrite length_app in E. cbn [length] in E. lia.
    + apply last_None in El as ->. split; auto.
  - apply Forall_cons in Hd as [[Hv Hvn] _]. split.
    + intros E. right. apply (f_equal length) in E. rewrite length_app, length_take in E. cbn [length] in E. lia.
    + intros [->|H6]; [done|]. destruct vs; [|cbn [length] in Hlen; lia]. rewrite <- Htd at 2. f_equal. f_equal.
      rewrite spaced_cons. cbn [spaced fmap list_fmap concat]. rewrite app_nil_r.
      change (strip_spaces (str " " ++ v)) with (strip_spaces v). by apply strip_word.
Qed.

(** ** Properties *)

(** C39: a command line, as the parser reads it: for a name and arguments of
    words, separated by spaces and ended by nothing, LF or CRLF, the name comes
    back in capitals; up to five arguments come back followed by the last one
    once more (the extraction that fails at the end of the text leaves it in
    [arg] and it is pushed again); from the sixth on the words come back as one argument with the spaces
    between them.  So the arguments are those that were written only when there are none, and when there are
    exactly six. *)
Theorem Parse_words (w : bytes) (ws : list bytes) (e : bytes)
    (Hu : unspaced w) (Hne : w ≠ []) (Hw : wordy ws) (He : line_end e) :
  ∃ c, Parse (w ++ spaced ws ++ e) = Some c ∧ name c = toupper <$> w ∧
    args c = take 5 ws ++ match drop 5 ws with
                          | [] => match last ws with Some l => [l] | None => [] end
                          | more => [strip_spaces (spaced more)]
                          end ∧
    (args c = ws ↔ ws = [] ∨ length ws = 6%nat).
Proof.
  eexists. split; [by apply Parse_line|]. split; [done|]. split; [done|]. by apply arguments_kept.
Qed.

Lemma Parse_words_witness :
  ∃ c, Parse (str "put" ++ spaced [str "k"; str "v"] ++ crlf) = Some c ∧ name c = str "PUT" ∧
    args c = [str "k"; str "v"; str "v"] ∧ args c ≠ [str "k"; str "v"].
Proof.
  destruct (Parse_words (str "put") [str "k"; str "v"] crlf) as (c & Hp & Hn & Ha & Hk).
  - repeat constructor.
  - discriminate.
  - repeat constructor; discriminate.
  - right. right. reflexivity.
  - exists c. split; [exact Hp|]. split; [rewrite Hn; vm_compute; reflexivity|]. split; [rewrite Ha; vm_compute; reflexivity|].
    intros E. apply Hk in E as [E|E]; discriminate E.
Defined.

(** C40: the text server answers line by line, however the bytes arrive, and
    never ends by itself when the client leaves: for data without NUL bytes the
    responses and the unfinished line are those of the whole text, whatever its
    chunks; and while the only events are data and the end of the stream
    ([recv] returning 0, which it then does at every turn) the loop goes on: it
    ends only when [recv] fails or the server is stopped. *)
Theorem TextHandleClient_lines {St} (h : St → Command → St * bytes) (st : St) (buf : bytes) :
  (∀ chunks, Forall (fun c => x00 ∉ c) chunks → find_line buf = None →
     TextHandleClient h st buf (TextData <$> chunks) =
       let '(st', out, r) := serve_lines h (length (buf ++ concat chunks)) st (buf ++ concat chunks) in
       (st', out, TextWaiting r)) ∧
  (∀ evs, Forall (fun ev => ev ≠ TextStopped ∧ ev ≠ TextError) evs ↔
     ∃ st' out r, TextHandleClient h st buf evs = (st', out, TextWaiting r)).
Proof.
  split.
  - intros chunks Hc. revert st buf. induction Hc as [|c chunks Hc0 Hc IH]; intros st buf Hbuf; cbn [fmap list_fmap].
    + cbn [concat]. rewrite app_nil_r, (serve_lines_fuel h _ (S (length buf))) by lia.
      cbn [serve_lines TextHandleClient]. by rewrite Hbuf.
    + cbn [TextHandleClient concat]. rewrite c_string_clean by done.
      pose proof (serve_lines_app h (length (buf ++ c)) st (buf ++ c) (concat chunks) ltac:(lia)) as Happ.
      destruct (serve_lines h (length (buf ++ c)) st (buf ++ c)) as [[st1 out1] r1] eqn:E1.
      rewrite IH by (eapply serve_lines_rest; [|exact E1]; lia).
      destruct (serve_lines h (length (r1 ++ concat chunks)) st1 (r1 ++ concat chunks)) as [[st2 out2] r2].
      rewrite app_assoc. by rewrite Happ.
  - intros evs. revert st buf. induction evs as [|ev evs IH]; intros st buf.
    + split; [intros _|by constructor]. by eexists _, _, _.
    + rewrite Forall_cons. destruct ev as [|d| |]; cbn [TextHandleClient];
        try (split; [by intros [[? ?] _]|by intros (? & ? & ? & [=])]);
        (match goal with |- context [serve_lines h (length ?b) st ?b] =>
          destruct (serve_lines h (length b) st b) as [[st1 out1] r1] end);
        rewrite (IH st1 r1); destruct (TextHandleClient h st1 r1 evs) as [[st2 out2] e2];
        (split; [intros (_ & ? & ? & ? & [= -> -> ->])|intros (? & ? & ? & [= <- <- ->]); split; [done|]]);
        by eexists _, _, _.
Qed.

(** Two chunks cut in a word. *)
Lemma TextHandleClient_lines_witness :
  let h := fun (seen : nat) (c : Command) => (S seen, Ok (arg c 0)) in
  TextHandleClient h O [] (TextData <$> [str "get a" ++ [nl] ++ str "ge"; str "t b" ++ [nl] ++ str "g"]) =
    (2%nat, [str "+OK a" ++ crlf; str "+OK b" ++ crlf], TextWaiting (str "g")).
Proof.
  cbv zeta. rewrite (proj1 (TextHandleClient_lines (fun (seen : nat) (c : Command) => (S seen, Ok (arg c 0))) O []));
    [vm_compute; reflexivity| |reflexivity].
  repeat constructor; apply (bool_decide_unpack _); vm_compute; exact I.
Defined.
