(* ===== verification/ServerLifecycle.v ===== *)
(** * Starting and stopping a server (src/rpc/rpc_server.h, rpc_server.cpp)

    [RpcServer::ServerStart], [AcceptLoop], [Stop] and the end of the threads
    that serve the connections, as a step relation on the members of the server
    and the descriptor table of the process.  A step is one system call or one
    critical section of one thread; the kernel gives any free number to a new
    descriptor, and the rest of the process opens and closes descriptors of its
    own (the files of the database, the connections to other nodes).
    [shutdown(fd)] is always followed by [close(fd)] and only makes the
    thread that is blocked on the descriptor return, which the relation allows at any time.
    The two derived classes differ in the end of [HandleClient]: the binary server takes
    the descriptor out of [client_fds_] after it has closed it, the text server does not. *)

From S2P Require Import Prelude.

(** What a descriptor number stands for. *)
Inductive owner : Type :=
  | Listening
  | Connection
  | Foreign.

(** The accept thread: before its test of [running_], in [accept], between
    [accept] and the two critical sections, at its end. *)
Inductive accept_pc : Type :=
  | NoThread
  | AtTest
  | InAccept
  | Accepted (fd : Z)
  | Recorded (fd : Z)
  | AcceptEnded.

(** The owner's thread: before [Start], after it, and inside [Stop]. *)
Inductive main_pc : Type :=
  | Fresh
  | Running
  | StartFailed
  | StopListen
  | StopClients
  | StopJoinAccept
  | StopJoinWorkers
  | Stopped.

(** A worker: in the loop of [HandleClient], after [close(client_fd)], at its end. *)
Inductive worker : Type :=
  | Working
  | Closed
  | Ended.
#[export] Instance worker_dec : EqDecision worker. Proof. solve_decision. Defined.

(** [worker_threads_]: each thread with the descriptor it was given. *)
Record RpcServer := {
  pc : main_pc;
  listen_fd_ : Z;
  running_ : bool;
  accept_thread_ : accept_pc;
  client_fds_ : list Z;
  worker_threads_ : list (Z * worker);
  fds : gmap Z owner;
}.

Definition set_pc (s : RpcServer) p := {| pc := p; listen_fd_ := listen_fd_ s; running_ := running_ s;
  accept_thread_ := accept_thread_ s; client_fds_ := client_fds_ s; worker_threads_ := worker_threads_ s; fds := fds s |}.
Definition set_listen (s : RpcServer) x := {| pc := pc s; listen_fd_ := x; running_ := running_ s;
  accept_thread_ := accept_thread_ s; client_fds_ := client_fds_ s; worker_threads_ := worker_threads_ s; fds := fds s |}.
Definition set_running (s : RpcServer) b := {| pc := pc s; listen_fd_ := listen_fd_ s; running_ := b;
  accept_thread_ := accept_thread_ s; client_fds_ := client_fds_ s; worker_threads_ := worker_threads_ s; fds := fds s |}.
Definition set_accept (s : RpcServer) a := {| pc := pc s; listen_fd_ := listen_fd_ s; running_ := running_ s;
  accept_thread_ := a; client_fds_ := client_fds_ s; worker_threads_ := worker_threads_ s; fds := fds s |}.
Definition set_clients (s : RpcServer) c := {| pc := pc s; listen_fd_ := listen_fd_ s; running_ := running_ s;
  accept_thread_ := accept_thread_ s; client_fds_ := c; worker_threads_ := worker_threads_ s; fds := fds s |}.
Definition set_workers (s : RpcServer) w := {| pc := pc s; listen_fd_ := listen_fd_ s; running_ := running_ s;
  accept_thread_ := accept_thread_ s; client_fds_ := client_fds_ s; worker_threads_ := w; fds := fds s |}.
Definition set_fds (s : RpcServer) m := {| pc := pc s; listen_fd_ := listen_fd_ s; running_ := running_ s;
  accept_thread_ := accept_thread_ s; client_fds_ := client_fds_ s; worker_threads_ := worker_threads_ s; fds := m |}.

(** A new descriptor, and [close], which frees the number whatever it stands for. *)
Definition open_fd (s : RpcServer) (fd : Z) (o : owner) : RpcServer := set_fds s (<[fd := o]> (fds s)).
Definition close_fd (s : RpcServer) (fd : Z) : RpcServer := set_fds s (delete fd (fds s)).
Definition free (s : RpcServer) (fd : Z) : Prop := 0 ≤ fd ∧ fds s !! fd = None.

Definition new_server : RpcServer :=
  {| pc := Fresh; listen_fd_ := -1; running_ := false; accept_thread_ := NoThread; client_fds_ := [];
     worker_threads_ := []; fds := ∅ |}.

(** [ServerStart] when [socket], [bind] and [listen] succeed; when [socket]
    fails; when [bind] or [listen] fails, which leaves the descriptor open. *)
Definition ServerStart (s : RpcServer) (fd : Z) : RpcServer :=
  set_pc (set_accept (set_running (set_listen (open_fd s fd Listening) fd) true) AtTest) Running.
Definition ServerStart_unbound (s : RpcServer) (fd : Z) : RpcServer :=
  set_pc (set_listen (open_fd s fd Listening) fd) StartFailed.

(** One loop of [AcceptLoop]: the test, a failing [accept], and the two critical sections. *)
Definition accept_test (s : RpcServer) : RpcServer := set_accept s (if running_ s then InAccept else AcceptEnded).
Definition accept_failed (s : RpcServer) : RpcServer := set_accept s (if negb (running_ s) then AcceptEnded else AtTest).
Definition record_client (s : RpcServer) (fd : Z) : RpcServer :=
  set_accept (set_clients s (client_fds_ s ++ [fd])) (Recorded fd).
Definition spawn_worker (s : RpcServer) (fd : Z) : RpcServer :=
  set_accept (set_workers s (worker_threads_ s ++ [(fd, Working)])) AtTest.

(** The end of [HandleClient]: [close], and in the binary server the critical
    section that removes the first occurrence from [client_fds_]. *)
Definition worker_close (binary : bool) (s : RpcServer) (i : nat) (fd : Z) : RpcServer :=
  set_workers (close_fd s fd) (<[i := (fd, if binary then Closed else Ended)]> (worker_threads_ s)).
Fixpoint erase_first (fd : Z) (l : list Z) : list Z :=
  match l with
  | [] => []
  | f :: l => if f =? fd then l else f :: erase_first fd l
  end.
Definition worker_erase (s : RpcServer) (i : nat) (fd : Z) : RpcServer :=
  set_clients (set_workers s (<[i := (fd, Ended)]> (worker_threads_ s))) (erase_first fd (client_fds_ s)).

(** The parts of [Stop]. *)
Definition stop_listen (s : RpcServer) : RpcServer :=
  set_pc (if 0 <=? listen_fd_ s then set_listen (close_fd s (listen_fd_ s)) (-1) else s) StopClients.
Definition stop_clients (s : RpcServer) : RpcServer :=
  set_pc (set_clients (fold_left close_fd (client_fds_ s) s) []) StopJoinAccept.

(** [binary]: whether the server is a [BinaryRpcServer]. *)
Inductive step (binary : bool) : RpcServer → RpcServer → Prop :=
  | start_ok s fd : pc s = Fresh → free s fd → step binary s (ServerStart s fd)
  | start_no_socket s : pc s = Fresh → step binary s (set_pc (set_listen s (-1)) StartFailed)
  | start_unbound s fd : pc s = Fresh → free s fd → step binary s (ServerStart_unbound s fd)
  | step_test s : accept_thread_ s = AtTest → step binary s (accept_test s)
  | step_accept s fd : accept_thread_ s = InAccept → free s fd →
      step binary s (set_accept (open_fd s fd Connection) (Accepted fd))
  | step_accept_failed s : accept_thread_ s = InAccept → step binary s (accept_failed s)
  | step_record s fd : accept_thread_ s = Accepted fd → step binary s (record_client s fd)
  | step_spawn s fd : accept_thread_ s = Recorded fd → step binary s (spawn_worker s fd)
  | step_worker_close s i fd : worker_threads_ s !! i = Some (fd, Working) → step binary s (worker_close binary s i fd)
  | step_worker_erase s i fd : worker_threads_ s !! i = Some (fd, Closed) → step binary s (worker_erase s i fd)
  | step_foreign_open s fd : free s fd → step binary s (open_fd s fd Foreign)
  | step_foreign_close s fd : fds s !! fd = Some Foreign → step binary s (close_fd s fd)
  | step_stop_idle s : pc s = StartFailed → running_ s = false → step binary s (set_pc s Stopped)
  | step_stop s : pc s = Running → running_ s = true → step binary s (set_pc (set_running s false) StopListen)
  | step_stop_listen s : pc s = StopListen → step binary s (stop_listen s)
  | step_stop_clients s : pc s = StopClients → step binary s (stop_clients s)
  | step_join_accept s : pc s = StopJoinAccept → accept_thread_ s = AcceptEnded → step binary s (set_pc s StopJoinWorkers)
  | step_join_workers s : pc s = StopJoinWorkers → Forall (fun w => w.2 = Ended) (worker_threads_ s) →
      step binary s (set_pc (set_workers s []) Stopped).

(** ** Lemmas *)

Lemma fds_close_all l s : fds (fold_left close_fd l s) = foldr delete (fds s) l.
Proof.
  revert s. induction l as [|f l IH]; intros s; [done|]. cbn [fold_left foldr]. rewrite IH. cbn [close_fd set_fds fds].
  clear IH. induction l as [|f' l IH]; [done|]. cbn [foldr]. by rewrite IH, delete_delete.
Qed.

Lemma lookup_delete_all {A} l (m : gmap Z A) f :
  foldr delete m l !! f = if decide (f ∈ l) then None else m !! f.
Proof.
  induction l as [|f' l IH]; cbn [foldr]; [by rewrite decide_False by set_solver|].
  destruct (decide (f = f')) as [->|Hne].
  - rewrite lookup_delete_eq, decide_True by set_solver. done.
  - rewrite lookup_delete_ne, IH by done.
    destruct (decide (f ∈ l)); [by rewrite decide_True by set_solver|by rewrite decide_False by set_solver].
Qed.

Lemma close_all_rest l s :
  let s' := fold_left close_fd l s in
  pc s' = pc s ∧ listen_fd_ s' = listen_fd_ s ∧ running_ s' = running_ s ∧ accept_thread_ s' = accept_thread_ s ∧
  client_fds_ s' = client_fds_ s ∧ worker_threads_ s' = worker_threads_ s.
Proof. revert s. induction l as [|f l IH]; intros s; [done|]. exact (IH (close_fd s f)). Qed.

(** What holds at each point of the owner's thread. *)
Definition phase_ok (s : RpcServer) : Prop :=
  match pc s with
  | Fresh => listen_fd_ s = -1 ∧ accept_thread_ s = NoThread ∧ worker_threads_ s = []
  | StartFailed => accept_thread_ s = NoThread ∧ worker_threads_ s = []
  | Running | StopListen => 0 ≤ listen_fd_ s ∧ accept_thread_ s ≠ NoThread
  | StopClients | StopJoinAccept => listen_fd_ s = -1 ∧ accept_thread_ s ≠ NoThread
  | StopJoinWorkers => listen_fd_ s = -1 ∧ accept_thread_ s = AcceptEnded
  | Stopped => worker_threads_ s = [] ∧
      (accept_thread_ s = NoThread ∨ accept_thread_ s = AcceptEnded ∧ listen_fd_ s = -1)
  end.

(** Who will close a connection: the accept thread, about to hand it to a
    worker, or a worker that still runs. *)
Definition attended (s : RpcServer) (fd : Z) : Prop :=
  accept_thread_ s = Accepted fd ∨ accept_thread_ s = Recorded fd ∨ (fd, Working) ∈ worker_threads_ s.

Record inv (s : RpcServer) : Prop := {
  inv_phase : phase_ok s;
  inv_conn fd : fds s !! fd = Some Connection → attended s fd;
  inv_listen fd : fds s !! fd = Some Listening → fd = listen_fd_ s;
  inv_nonneg fd o : fds s !! fd = Some o → 0 ≤ fd;
}.

(** Replacing, adding or removing one descriptor. *)
Lemma inv_open s fd o : inv s → free s fd →
  (o = Connection → accept_thread_ s = Accepted fd) → (o = Listening → fd = listen_fd_ s) →
  inv (open_fd s fd o).
Proof.
  intros [Hp Hc Hl Hn] [Hfd _] Ho1 Ho2. split; [exact Hp| | |]; cbn; intros f; [| |intros o'];
    (destruct (decide (f = fd)) as [->|]; [rewrite lookup_insert_eq|rewrite lookup_insert_ne by done]).
  - intros [= ->]. left. by apply Ho1.
  - apply Hc.
  - intros [= ->]. by apply Ho2.
  - apply Hl.
  - by intros.
  - apply Hn.
Qed.

Lemma inv_close s fd : inv s → inv (close_fd s fd).
Proof.
  intros [Hp Hc Hl Hn]. split; [exact Hp| | |]; cbn; intros f; [| |intros o'];
    rewrite lookup_delete_Some; intros [_ Hf]; eauto.
Qed.

(** Only the descriptor table, the phase and the threads matter. *)
Lemma inv_same s s' :
  inv s → fds s' = fds s → phase_ok s' → listen_fd_ s' = listen_fd_ s →
  (∀ fd, attended s fd → fds s !! fd = Some Connection → attended s' fd) → inv s'.
Proof.
  intros [Hp Hc Hl Hn] Hf Hp' Hl' Ha. split; [done| | |]; rewrite ?Hf, ?Hl'; auto.
Qed.

Lemma server_start_inv s fd : inv s → pc s = Fresh → free s fd → inv (ServerStart s fd) ∧ inv (ServerStart_unbound s fd).
Proof.
  intros [Hp Hc Hl Hn] Hpc [Hfd Hfree]. unfold phase_ok in Hp. rewrite Hpc in Hp. destruct Hp as (Hlis & Hacc & Hw).
  assert (Hno : ∀ f, fds s !! f ≠ Some Connection).
  { intros f Hf. destruct (Hc f Hf) as [E|[E|E]]; [congruence|congruence|]. rewrite Hw in E. by apply not_elem_of_nil in E. }
  split; split; cbn; try done; try (by rewrite Hacc, Hw); intros f; [| |intros o| | |intros o];
    (destruct (decide (f = fd)) as [->|]; [rewrite lookup_insert_eq|rewrite lookup_insert_ne by done]);
    try done; try (by intros ?%Hno); try (by intros ?%Hn);
    intros Hf; pose proof (Hn _ _ Hf); apply Hl in Hf; lia.
Qed.

Lemma worker_close_inv binary s i fd : inv s → worker_threads_ s !! i = Some (fd, Working) → inv (worker_close binary s i fd).
Proof.
  intros [Hp Hc Hl Hn] Hi. split; cbn.
  - unfold phase_ok in *. cbn. assert (Hne : worker_threads_ s ≠ []) by (by intros E; rewrite E in Hi).
    destruct (pc s); try tauto.
  - intros f. rewrite lookup_delete_Some. intros [Hne Hf]. destruct (Hc f Hf) as [E|[E|E]]; [by left|by right; left|].
    right. right. apply list_elem_of_lookup in E as [j Hj]. apply list_elem_of_lookup. exists j. cbn.
    rewrite list_lookup_insert_ne; [done|]. intros ->. congruence.
  - intros f. rewrite lookup_delete_Some. intros [_ Hf]. auto.
  - intros f o. rewrite lookup_delete_Some. intros [_ Hf]. eauto.
Qed.

Lemma worker_erase_inv s i fd : inv s → worker_threads_ s !! i = Some (fd, Closed) → inv (worker_erase s i fd).
Proof.
  intros Hs Hi. apply (inv_same s); [done|done| |done|].
  - pose proof (inv_phase _ Hs) as Hp. unfold phase_ok in *. cbn.
    assert (Hne : worker_threads_ s ≠ []) by (by intros E; rewrite E in Hi). destruct (pc s); try tauto.
  - unfold attended. cbn. intros f [E|[E|E]] _; [by left|by right; left|]. right. right.
    apply list_elem_of_lookup in E as [j Hj]. apply list_elem_of_lookup. exists j.
    rewrite list_lookup_insert_ne; [done|]. intros ->. congruence.
Qed.

Lemma stop_listen_inv s : inv s → pc s = StopListen → inv (stop_listen s).
Proof.
  intros Hi Hpc. pose proof (inv_phase _ Hi) as Hp. unfold phase_ok in Hp. rewrite Hpc in Hp. destruct Hp as [Hl0 Ha].
  unfold stop_listen. destruct (Z.leb_spec 0 (listen_fd_ s)); [|lia].
  destruct (inv_close _ (listen_fd_ s) Hi) as [_ Hc Hl Hn]. split; cbn in *; [done|exact Hc| |exact Hn].
  intros f Hf. pose proof (Hl f Hf) as E. subst f. by rewrite lookup_delete_eq in Hf.
Qed.

Lemma inv_close_all l s : inv s → inv (fold_left close_fd l s).
Proof. revert s. induction l as [|f l IH]; intros s Hi; [done|]. apply IH. by apply inv_close. Qed.

Lemma stop_clients_inv s : inv s → pc s = StopClients → inv (stop_clients s).
Proof.
  intros Hi Hpc. pose proof (inv_phase _ Hi) as Hp. unfold phase_ok in Hp. rewrite Hpc in Hp.
  destruct (close_all_rest (client_fds_ s) s) as (_ & Hl & _ & Ha & _ & Hw).
  apply (inv_same (fold_left close_fd (client_fds_ s) s)); [by apply inv_close_all|done| |done|].
  - unfold phase_ok. cbn. by rewrite Hl, Ha.
  - intros fd H _. exact H.
Qed.

Ltac phases := destruct_and?; destruct_or?; destruct_and?; split_and?; try done; try congruence; auto.

Lemma server_inv_step binary s s' : step binary s s' → inv s → inv s'.
Proof.
  intros Hs Hi. pose proof (inv_phase _ Hi) as Hp.
  destruct Hs as [s fd Hpc Hf|s Hpc|s fd Hpc Hf|s Ha|s fd Ha Hf|s Ha|s fd Ha|s fd Ha|s i fd Hw|s i fd Hw|s fd Hf|s fd Hf|
    s Hpc Hr|s Hpc Hr|s Hpc|s Hpc|s Hpc Ha|s Hpc Hw].
  - by apply server_start_inv.
  - apply (inv_same s); [done|done| | |done]; unfold phase_ok in *; rewrite Hpc in Hp; cbn; phases.
  - by apply server_start_inv.
  - apply (inv_same s); [done|done| |done|].
    + unfold phase_ok, accept_test in *. cbn. rewrite Ha in Hp. destruct (pc s), (running_ s); phases.
    + unfold attended. rewrite Ha. intros f [E|[E|E]] _; [done|done|]. by right; right.
  - assert (Hi' : inv (set_accept s (Accepted fd))).
    { apply (inv_same s); [done|done| |done|].
      - unfold phase_ok in *. cbn. rewrite Ha in Hp. destruct (pc s); phases.
      - unfold attended. rewrite Ha. intros f [E|[E|E]] _; [done|done|]. by right; right. }
    exact (inv_open _ fd Connection Hi' Hf (fun _ => eq_refl) ltac:(done)).
  - apply (inv_same s); [done|done| |done|].
    + unfold phase_ok, accept_failed in *. cbn. rewrite Ha in Hp. destruct (pc s), (running_ s); phases.
    + unfold attended. rewrite Ha. intros f [E|[E|E]] _; [done|done|]. by right; right.
  - apply (inv_same s); [done|done| |done|].
    + unfold phase_ok, record_client in *. cbn. rewrite Ha in Hp. destruct (pc s); phases.
    + unfold attended. rewrite Ha. cbn. intros f [[= ->]|[E|E]] _; [by right; left|done|by right; right].
  - apply (inv_same s); [done|done| |done|].
    + unfold phase_ok, spawn_worker in *. cbn. rewrite Ha in Hp. destruct (pc s); phases.
    + unfold attended. rewrite Ha. cbn. intros f [E|[[= ->]|E]] _; [done| |]; right; right; apply elem_of_app; [right|by left].
      by apply list_elem_of_singleton.
  - by apply worker_close_inv.
  - by apply worker_erase_inv.
  - by apply inv_open.
  - by apply inv_close.
  - apply (inv_same s); [done|done| |done|done]. unfold phase_ok in *. rewrite Hpc in Hp. cbn. phases.
  - apply (inv_same s); [done|done| |done|done]. unfold phase_ok in *. rewrite Hpc in Hp. cbn. phases.
  - by apply stop_listen_inv.
  - by apply stop_clients_inv.
  - apply (inv_same s); [done|done| |done|done]. unfold phase_ok in *. rewrite Hpc in Hp. cbn. phases.
  - unfold phase_ok in Hp. rewrite Hpc in Hp. destruct Hp as [Hl Ha].
    apply (inv_same s); [done|done| |done|]; [by unfold phase_ok; cbn; auto|].
    unfold attended. rewrite Ha. intros f [E|[E|E]] _; [done|done|].
    rewrite Forall_forall in Hw. by specialize (Hw _ E).
Qed.

Lemma server_reachable_inv binary s : rtc (step binary) new_server s → inv s.
Proof.
  assert (H0 : inv new_server) by (split; cbn; [done|by intros ?; rewrite lookup_empty|
    by intros ?; rewrite lookup_empty|by intros ? ?; rewrite lookup_empty]).
  intros Hr. revert H0. induction Hr as [|s1 s2 s3 H12 _ IH]; [done|]. intros Hi. apply IH. by eapply server_inv_step.
Qed.

(** ** Until [Stop] reaches the clients *)

(** [Stop] has not yet reached [client_fds_]. *)
Definition before_clients (s : RpcServer) : Prop :=
  match pc s with Running | StopListen | StopClients => True | _ => False end.

(** The phases never go back. *)
Lemma before_back binary s s' : step binary s s' → before_clients s' → pc s = Fresh ∨ before_clients s.
Proof.
  unfold before_clients. intros Hs Hb. destruct Hs; cbn in *; try (by left); try (by right); try done;
    try (by destruct (pc s); auto).
  all: match goal with H : pc _ = _ |- _ => rewrite H; auto end.
Qed.

(** The connections of the accept thread and of the workers in their loop. *)
Definition handed (s : RpcServer) : list Z :=
  match accept_thread_ s with Accepted fd | Recorded fd => [fd] | _ => [] end.
Definition live (s : RpcServer) : list Z := handed s ++ (filter (fun w => w.2 = Working) (worker_threads_ s)).*1.

(** What [client_fds_] should hold: the connection just recorded and those of the
    workers that have not reached their end. *)
Definition recorded (s : RpcServer) : list Z := match accept_thread_ s with Recorded fd => [fd] | _ => [] end.
Definition clients (s : RpcServer) : list Z := recorded s ++ (filter (fun w => w.2 ≠ Ended) (worker_threads_ s)).*1.

Record early (binary : bool) (s : RpcServer) : Prop := {
  ea_nodup : NoDup (live s);
  ea_conn fd : fd ∈ live s → fds s !! fd = Some Connection;
  ea_listen : pc s ≠ StopClients → 0 ≤ listen_fd_ s ∧ fds s !! listen_fd_ s = Some Listening;
  ea_running : pc s = Running → running_ s = true;
  ea_clients : binary = true → client_fds_ s ≡ₚ clients s;
}.

(** Changing the state of one worker. *)
Lemma filter_set (P : Z * worker → Prop) `{∀ w, Decision (P w)} l i fd x y :
  l !! i = Some (fd, x) →
  ∃ r, (filter P l).*1 ≡ₚ (if decide (P (fd, x)) then [fd] else []) ++ r ∧
       (filter P (<[i := (fd, y)]> l)).*1 ≡ₚ (if decide (P (fd, y)) then [fd] else []) ++ r.
Proof.
  intros Hi. exists ((filter P (take i l)).*1 ++ (filter P (drop (S i) l)).*1). split.
  - rewrite <- (take_drop_middle _ _ _ Hi) at 1. rewrite filter_app, filter_cons, fmap_app.
    case_decide; cbn [fmap list_fmap fst]; [by rewrite <- Permutation_middle|done].
  - rewrite (insert_take_drop _ _ _ (lookup_lt_Some _ _ _ Hi)), filter_app, filter_cons, fmap_app.
    case_decide; cbn [fmap list_fmap fst]; [by rewrite <- Permutation_middle|done].
Qed.

Lemma erase_first_Permutation fd l r : l ≡ₚ fd :: r → erase_first fd l ≡ₚ r.
Proof.
  revert r. induction l as [|f l IH]; intros r Hl; [by apply Permutation_nil_cons in Hl|]. cbn [erase_first].
  destruct (Z.eqb_spec f fd) as [->|Hne]; [by apply Permutation_cons_inv in Hl|].
  assert (Hin : f ∈ fd :: r) by (rewrite <- Hl; left). apply elem_of_cons in Hin as [?|Hin]; [done|].
  apply elem_of_Permutation in Hin as [r' Hr]. rewrite Hr in Hl |- *. rewrite Permutation_swap in Hl.
  apply Permutation_cons_inv in Hl. constructor. by apply IH.
Qed.

(** Nothing but the descriptors of others changes. *)
Lemma early_fds binary s s' :
  early binary s → live s' ≡ₚ live s → listen_fd_ s' = listen_fd_ s → pc s' = pc s → running_ s' = running_ s →
  (∀ fd, fds s !! fd = Some Connection ∨ fds s !! fd = Some Listening → fds s' !! fd = fds s !! fd) →
  (binary = true → client_fds_ s' ≡ₚ clients s') → early binary s'.
Proof.
  intros [Hn Hc Hl Hr Hcl] Hlive Hlis Hpc Hrun Hfds Hcl'. split; rewrite ?Hlive, ?Hlis, ?Hpc, ?Hrun; try done.
  - intros fd Hfd. rewrite Hlive in Hfd. specialize (Hc fd Hfd). rewrite Hfds; auto.
  - intros Hne. destruct (Hl Hne). split; [done|]. rewrite Hfds; auto.
Qed.

Lemma worker_close_early binary s i fd :
  early binary s → worker_threads_ s !! i = Some (fd, Working) → early binary (worker_close binary s i fd).
Proof.
  intros He Hi. set (y := if binary then Closed else Ended).
  destruct (filter_set (fun w => w.2 = Working) _ _ _ _ y Hi) as (r & Hr & Hr').
  rewrite decide_True in Hr by done. rewrite decide_False in Hr' by (by unfold y; destruct binary).
  assert (Hl : live s ≡ₚ fd :: handed s ++ r) by (unfold live; rewrite Hr; symmetry; apply Permutation_middle).
  assert (Hl' : live (worker_close binary s i fd) ≡ₚ handed s ++ r) by (unfold live; cbn; fold y; by rewrite Hr').
  pose proof (ea_nodup _ _ He) as Hn. rewrite Hl in Hn. apply NoDup_cons in Hn as [Hnot Hn].
  assert (Hfd : fds s !! fd = Some Connection) by (apply (ea_conn _ _ He); rewrite Hl; left).
  split.
  - by rewrite Hl'.
  - intros f. rewrite Hl'. intros Hf. cbn. rewrite lookup_delete_ne by (intros ->; done).
    apply (ea_conn _ _ He). rewrite Hl. by right.
  - intros Hne. destruct (ea_listen _ _ He Hne) as [? Hlis]. split; [done|]. cbn.
    rewrite lookup_delete_ne; [done|]. intros E. rewrite <- E in Hlis. congruence.
  - apply He.
  - intros ->. cbn. rewrite (ea_clients _ _ He eq_refl). unfold clients. cbn. apply Permutation_app_head.
    destruct (filter_set (fun w => w.2 ≠ Ended) _ _ _ _ Closed Hi) as (q & Hq & Hq'). by rewrite Hq, Hq'.
Qed.

Lemma worker_erase_early binary s i fd :
  early binary s → worker_threads_ s !! i = Some (fd, Closed) → early binary (worker_erase s i fd).
Proof.
  intros He Hi. apply (early_fds binary s); try done.
  - unfold live. cbn. destruct (filter_set (fun w => w.2 = Working) _ _ _ _ Ended Hi) as (r & Hr & Hr').
    by rewrite Hr, Hr'.
  - intros Hb. cbn. destruct (filter_set (fun w => w.2 ≠ Ended) _ _ _ _ Ended Hi) as (q & Hq & Hq').
    unfold clients at 1. cbn. rewrite Hq'. apply erase_first_Permutation. rewrite (ea_clients _ _ He Hb).
    unfold clients. rewrite Hq. symmetry. apply Permutation_middle.
Qed.

Lemma early_start binary s fd :
  inv s → pc s = Fresh → free s fd → client_fds_ s = [] → early binary (ServerStart s fd).
Proof.
  intros Hi Hpc [Hfd Hf] Hcl. pose proof (inv_phase _ Hi) as Hp. unfold phase_ok in Hp. rewrite Hpc in Hp.
  destruct Hp as (_ & _ & Hw). split; unfold live, clients, handed, recorded; cbn; rewrite ?Hw, ?Hcl; try done.
  - constructor.
  - intros f Hin. by apply elem_of_nil in Hin.
  - intros _. split; [done|]. apply lookup_insert_eq.
Qed.

Lemma early_accept binary s fd :
  early binary s → accept_thread_ s = InAccept → free s fd → early binary (set_accept (open_fd s fd Connection) (Accepted fd)).
Proof.
  intros He Ha [Hfd Hf].
  assert (Hl : live (set_accept (open_fd s fd Connection) (Accepted fd)) = fd :: live s)
    by (unfold live, handed; cbn; by rewrite Ha).
  assert (Hnot : fd ∉ live s) by (intros Hin; apply (ea_conn _ _ He) in Hin; congruence).
  split; rewrite ?Hl.
  - constructor; [done|apply He].
  - intros f. cbn. intros [->|Hin]%elem_of_cons; [apply lookup_insert_eq|].
    rewrite lookup_insert_ne by (intros ->; done). by apply (ea_conn _ _ He).
  - intros Hne. destruct (ea_listen _ _ He Hne) as [? Hlis]. split; [done|]. cbn.
    rewrite lookup_insert_ne; [done|]. intros E. rewrite <- E in Hlis. congruence.
  - apply He.
  - intros Hb. pose proof (ea_clients _ _ He Hb) as Hc. unfold clients, recorded in *. cbn. by rewrite Ha in Hc.
Qed.

Lemma early_step binary s s' :
  step binary s s' → inv s → (pc s = Fresh → client_fds_ s = []) → (before_clients s → early binary s) →
  before_clients s' → early binary s'.
Proof.
  intros Hs Hi Hfresh He Hb. pose proof (before_back _ _ _ Hs Hb) as Hback.
  destruct Hs as [s fd Hpc Hf|s Hpc|s fd Hpc Hf|s Ha|s fd Ha Hf|s Ha|s fd Ha|s fd Ha|s i fd Hw|s i fd Hw|s fd Hf|s fd Hf|
    s Hpc Hr|s Hpc Hr|s Hpc|s Hpc|s Hpc Ha|s Hpc Hw]; try done.
  all: try (assert (He' : early binary s) by (apply He; unfold before_clients in *; cbn in *; rewrite ?Hpc; done)).
  - apply early_start; auto.
  - apply (early_fds binary s); try done; [unfold live, handed; cbn; rewrite Ha; by destruct (running_ s)|].
    intros Hbin. cbn. rewrite (ea_clients _ _ He' Hbin). unfold clients, recorded. cbn. rewrite Ha. by destruct (running_ s).
  - by apply early_accept.
  - apply (early_fds binary s); try done; [unfold live, handed; cbn; rewrite Ha; by destruct (negb _)|].
    intros Hbin. cbn. rewrite (ea_clients _ _ He' Hbin). unfold clients, recorded. cbn. rewrite Ha. by destruct (negb _).
  - apply (early_fds binary s); try done; [unfold live, handed; cbn; by rewrite Ha|].
    intros Hbin. cbn. rewrite (ea_clients _ _ He' Hbin). unfold clients, recorded. cbn. rewrite Ha. cbn [app].
    symmetry. apply Permutation_cons_append.
  - apply (early_fds binary s); try done.
    + unfold live, handed. cbn. rewrite Ha, filter_app, fmap_app. cbn. symmetry. apply Permutation_cons_append.
    + intros Hbin. cbn. rewrite (ea_clients _ _ He' Hbin). unfold clients, recorded. cbn.
      rewrite Ha, filter_app, fmap_app. cbn. apply Permutation_cons_append.
  - by apply worker_close_early.
  - by apply worker_erase_early.
  - destruct Hf as [Hfd Hf]. apply (early_fds binary s); try done; [|intros Hbin; exact (ea_clients _ _ He' Hbin)].
    intros f Hx. cbn. rewrite lookup_insert_ne; [done|]. intros ->. destruct Hx; congruence.
  - apply (early_fds binary s); try done; [|intros Hbin; exact (ea_clients _ _ He' Hbin)].
    intros f Hx. cbn. rewrite lookup_delete_ne; [done|]. intros ->. destruct Hx; congruence.
  - split; try apply He'; [|done]. intros _. cbn. apply (ea_listen _ _ He'). by rewrite Hpc.
  - destruct (ea_listen _ _ He' ltac:(by rewrite Hpc)) as [H0 Hlis]. unfold stop_listen.
    destruct (Z.leb_spec 0 (listen_fd_ s)); [|lia]. split; try apply He'; try done.
    intros f Hin. cbn. rewrite lookup_delete_ne by (intros <-; apply (ea_conn _ _ He') in Hin; congruence).
    by apply (ea_conn _ _ He').
Qed.

Lemma fresh_step binary s s' :
  step binary s s' → inv s → (pc s = Fresh → client_fds_ s = []) → pc s' = Fresh → client_fds_ s' = [].
Proof.
  intros Hs Hi Hf Hpc. pose proof (inv_phase _ Hi) as Hp. unfold phase_ok in Hp.
  destruct Hs; cbn in *; try done; try (by apply Hf); rewrite Hpc in Hp; destruct Hp as (_ & Ha & Hw); try congruence.
  - rewrite Hw in *. done.
Qed.

Lemma server_reachable_early binary s : rtc (step binary) new_server s → before_clients s → early binary s.
Proof.
  assert (Hall : ∀ s0 s, rtc (step binary) s0 s → inv s0 ∧ (pc s0 = Fresh → client_fds_ s0 = []) ∧
    (before_clients s0 → early binary s0) → before_clients s → early binary s).
  { induction 1 as [|s1 s2 s3 H12 _ IH]; [by intros (_ & _ & ?)|]. intros (Hi & Hf & He). apply IH. split_and!.
    - by eapply server_inv_step.
    - by eapply fresh_step.
    - by eapply early_step. }
  intros Hr. apply (Hall new_server s Hr). split; [by apply (server_reachable_inv binary)|done].
Qed.

(** A number that is closed by its worker and not yet taken out of the list. *)
Lemma stale_number binary s fd :
  early binary s → pc s = Running → accept_thread_ s = InAccept → free s fd →
  ∃ s1, rtc (step binary) s s1 ∧ pc s1 = StopClients ∧ fds s1 !! fd = Some Foreign ∧
    step binary s1 (stop_clients s1) ∧ fds (stop_clients s1) !! fd = None.
Proof.
  intros [_ _ Hlis Hrun _] Hpc Ha [Hfd Hfree].
  destruct (Hlis ltac:(by rewrite Hpc)) as [H0 Hopen]. specialize (Hrun Hpc).
  set (s0 := worker_close binary (spawn_worker (record_client (set_accept (open_fd s fd Connection) (Accepted fd)) fd) fd)
    (length (worker_threads_ s)) fd).
  set (s1 := set_pc (set_running (open_fd s0 fd Foreign) false) StopListen).
  assert (Hne : listen_fd_ s ≠ fd) by (intros <-; congruence). exists (stop_listen s1). split_and!.
  + eapply rtc_l; [by apply (step_accept _ s fd)|]. eapply rtc_l; [by apply (step_record _ _ fd)|].
    eapply rtc_l; [by apply (step_spawn _ _ fd)|].
    eapply rtc_l; [apply (step_worker_close _ _ (length (worker_threads_ s)) fd); by apply list_lookup_middle|].
    eapply rtc_l; [apply (step_foreign_open _ s0 fd); split; [done|apply lookup_delete_eq]|].
    eapply rtc_l; [by apply step_stop|]. eapply rtc_l; [by apply step_stop_listen|apply rtc_refl].
  + unfold stop_listen. by destruct (_ <=? _).
  + unfold stop_listen. cbn [s1 s0 set_pc set_running open_fd set_fds listen_fd_ worker_close set_workers close_fd
      spawn_worker set_accept record_client set_clients]. destruct (0 <=? listen_fd_ s); cbn; [rewrite lookup_delete_ne by done|];
      apply lookup_insert_eq.
  + constructor. unfold stop_listen. by destruct (_ <=? _).
  + cbn. rewrite fds_close_all, lookup_delete_all, decide_True; [done|]. unfold stop_listen.
    destruct (_ <=? _); cbn; set_solver.
Qed.

(** A connection that [Stop] closes under its worker. *)
Lemma closed_twice s i fd :
  inv s → early true s → pc s = StopClients → worker_threads_ s !! i = Some (fd, Working) →
  ∃ s1, rtc (step true) s s1 ∧ fds s1 !! fd = Some Foreign ∧
    step true s1 (worker_close true s1 i fd) ∧ fds (worker_close true s1 i fd) !! fd = None.
Proof.
  intros Hi He Hpc Hw.
  assert (Hin : fd ∈ client_fds_ s).
  { rewrite (ea_clients _ _ He eq_refl). unfold clients. apply elem_of_app. right.
    apply list_elem_of_fmap. exists (fd, Working). split; [done|]. apply list_elem_of_filter.
    split; [done|]. by eapply list_elem_of_lookup_2. }
  destruct (close_all_rest (client_fds_ s) s) as (_ & _ & _ & _ & _ & Hws).
  exists (open_fd (stop_clients s) fd Foreign). split_and!.
  + eapply rtc_l; [by apply step_stop_clients|]. eapply rtc_l; [|apply rtc_refl]. apply step_foreign_open.
    split; [|cbn; by rewrite fds_close_all, lookup_delete_all, decide_True].
    eapply (inv_nonneg _ Hi fd Connection), (ea_conn _ _ He). unfold live. apply elem_of_app. right.
    apply list_elem_of_fmap. exists (fd, Working). split; [done|]. apply list_elem_of_filter.
    split; [done|]. by eapply list_elem_of_lookup_2.
  + cbn. apply lookup_insert_eq.
  + apply step_worker_close. cbn. by rewrite Hws.
  + cbn. apply lookup_delete_eq.
Qed.

(** ** Properties *)

(** C38: the descriptors of a server.  It leaks none: in every run of a server that was started, with
    any number of clients and any interleaving of the threads, when [Stop] has returned the accept
    thread and all workers have ended and no descriptor of the server is open.  Until [Stop]
    reaches the clients, the connections in work are open and distinct, and the binary server keeps in
    [client_fds_] exactly the connections whose thread has not reached its end.  But the
    descriptors are closed twice, and the process can reuse a number in between: a worker that has closed its
    connection and not yet taken it out of the list lets [Stop] close a number that is by then a file of
    its own; and [Stop] closes the connections of workers that are still in their loop, each of
    which then closes its number again. *)
Theorem Stop_descriptors (binary : bool) (s : RpcServer) (Hr : rtc (step binary) new_server s) :
  (pc s = Stopped → accept_thread_ s ≠ NoThread →
     worker_threads_ s = [] ∧ accept_thread_ s = AcceptEnded ∧ ∀ fd o, fds s !! fd = Some o → o = Foreign) ∧
  (before_clients s → NoDup (live s) ∧ (∀ fd, fd ∈ live s → fds s !! fd = Some Connection) ∧
     (binary = true → client_fds_ s ≡ₚ clients s)) ∧
  (∀ fd, pc s = Running → accept_thread_ s = InAccept → free s fd →
     ∃ s1, rtc (step binary) s s1 ∧ pc s1 = StopClients ∧ fds s1 !! fd = Some Foreign ∧
       step binary s1 (stop_clients s1) ∧ fds (stop_clients s1) !! fd = None) ∧
  (∀ i fd, binary = true → pc s = StopClients → worker_threads_ s !! i = Some (fd, Working) →
     ∃ s1, rtc (step binary) s s1 ∧ fds s1 !! fd = Some Foreign ∧
       step binary s1 (worker_close binary s1 i fd) ∧ fds (worker_close binary s1 i fd) !! fd = None).
Proof.
  pose proof (server_reachable_inv binary s Hr) as Hi. pose proof (server_reachable_early binary s Hr) as He.
  split; [|split; [|split]].
  - intros Hpc Ha. destruct Hi as [Hp Hc Hl Hn]. unfold phase_ok in Hp. rewrite Hpc in Hp.
    destruct Hp as (Hw & [?|[Hae Hlis]]); [done|]. split; [done|]. split; [done|].
    intros fd o Hfd. pose proof (Hn _ _ Hfd). destruct o; [apply Hl in Hfd; lia| |done].
    destruct (Hc _ Hfd) as [E|[E|E]]; [congruence|congruence|]. rewrite Hw in E. by apply not_elem_of_nil in E.
  - intros Hb. destruct (He Hb). split_and!; auto.
  - intros fd Hpc Ha Hf. apply stale_number; try done. apply He. by unfold before_clients; rewrite Hpc.
  - intros i fd -> Hpc Hw. apply closed_twice; try done. apply He. by unfold before_clients; rewrite Hpc.
Qed.

(** A started server that waits for clients. *)
Definition demo_server : RpcServer :=
  {| pc := Running; listen_fd_ := 3; running_ := true; accept_thread_ := InAccept; client_fds_ := [];
     worker_threads_ := []; fds := {[3 := Listening]} |}.

Lemma Stop_descriptors_witness :
  ∃ s1, rtc (step true) demo_server s1 ∧ fds s1 !! 4 = Some Foreign ∧
    step true s1 (stop_clients s1) ∧ fds (stop_clients s1) !! 4 = None.
Proof.
  assert (Hr : rtc (step true) new_server demo_server).
  { eapply rtc_l; [apply (start_ok _ _ 3); [done|split; [done|apply lookup_empty]]|].
    eapply rtc_l; [by apply step_test|]. apply rtc_refl. }
  destruct (proj1 (proj2 (proj2 (Stop_descriptors true demo_server Hr))) 4) as (s1 & H1 & _ & H2 & H3 & H4);
    [reflexivity|reflexivity|split; [lia|reflexivity]|].
  exists s1. split; [exact H1|]. split; [exact H2|]. split; [exact H3|exact H4].
Defined.
